(* ===== verification/_CoqProject ===== *)
-Q . S2P
Prelude.v
Markup.v
Dom.v
Alloc.v
Tree.v
TreeOps.v
Soup.v
Block.v
Data.v
View.v
Save.v
Settings.v
Roundtrip.v
Errors.v
Lifecycle.v
Config.v
Objects.v
Panel.v
Forest.v
Regex.v
Paste.v
Session.v
