(* ===== verification/Prelude.v ===== *)
(** * A verification development of the editorjs-iframe block tool

    The repository is one Editor.js block tool, the class [Iframe] of
    [src/src/index.js] ([src/dist/bundle.js] is its minified webpack build
    and is not modelled separately).  An instance owns a data object
    ([this._data], read and written through the [data] accessor pair), a
    cache of DOM nodes ([this.nodes]) and the style classes handed over by
    the host ([this.CSS]).  Editor.js calls the constructor, [render],
    [save], [onPaste] and [renderSettings]; a click on a settings button
    calls [_toggleTune], which calls [_acceptTuneView].  Every method
    mutates the browser DOM through [document.createElement],
    [classList], [appendChild], [innerHTML], [querySelector] and
    [document.getElementById].

    ** Files

    - [Prelude] (this file): JavaScript values and plain objects
      ([jsval], with host objects [JObj] known by their class name, [jsobj]
      as a stdpp [gmap], [truthy], [loose_eq_name],
      [Object.assign] as [assign]), the exceptions ([exn]) and the
      state-and-exception monad [M] in which every method is written
      ([x <- c ;; k] in [js_scope]); a method that throws keeps the
      mutations it made before the throw, as JavaScript does.  The
      total-correctness predicate [ok c s P] (c returns, and P holds) and
      its dual [throws]; the hint databases [iframe] and [js_rw].
    - [Markup]: HTML as trees, the interface [HtmlSyntax] of the two
      algorithms behind [innerHTML] (parse, serialize) with its law
      [HtmlSyntaxLaws], and the executable instance [TagSoup].
    - [Dom]: the browser DOM as a heap of element records indexed by node
      ids, so node objects alias as in the source and a node detached by
      [innerHTML] or [remove()] stays in the heap with no parent.
      [classList] is the ordered-set view of the [class] attribute.  The
      lemmas: the ordered-set serializer and parser are inverse
      ([ordered_set_roundtrip]), [classList.add]/[remove] membership, and
      the relation [class_edits] (changes of [class] attributes only) with
      what it preserves ([same_shape]: children, parents, ids, so
      [getElementById] answers the same).
    - [Block]: the state [world] (DOM, document node, the instance's
      fields), its records ([api], [css], [nodes], [tune], [settings]),
      the glue from methods to fields ([this_data], [deref], [liftD]), the
      static declarations ([title], [sanitize], [isReadOnlySupported],
      [paste_tags]) and one [ok] rule per primitive.
    - [Data]: [get_data]/[set_data] (the [data] accessor pair),
      [construct] (the constructor), [onPaste]; the demo document and
      block.  Theorems: the setter merges (C5); a paste, on a rendered
      block or not, stores its value as [frame] and keeps the alignment,
      whether the setter's DOM write returns or throws (C6); the setter throws once the cached iframe is
      detached (C7); the constructor's defaults (C8); the two branches
      of [onPaste] are equivalent, the pattern branch's second
      [Object.assign] being redundant (C18).
    - [View]: [_make], [render], [renderSettings], [_toggleTune] (with
      [toggle_button], the callback of its [forEach]) and
      [_acceptTuneView].  The abstract specification [alignment_class]
      projects [data.alignment] to the one layout class the holder must
      carry; [accept_tune_view_refines] (C20) is the refinement theorem
      that [_acceptTuneView] implements it.  Theorems: [_toggleTune T] sets
      the alignment and the holder's classes (C1); [_acceptTuneView] is
      idempotent (C2); toggling twice does not revert (C3); a detached
      settings panel makes [_toggleTune] throw after it changed the data
      (C4).
    - [Save]: [save].  Theorems: without an iframe it returns the data
      unchanged (C9); otherwise it captures the parent's [innerHTML]
      (C10), so markup around a nested iframe is not saved.
    - [Alloc]: the nodes [innerHTML] allocates.  Allocation leaves
      older nodes alone, advances [d_next] by the number of parsed
      elements, and the fresh nodes read back as the parsed trees
      ([set_inner_html_spec]); nested induction on trees ([tree_ind']).
    - [Tree]: when the heap is a forest ([dom_wf]: the ids in use are
      those allocated, child and parent links agree, no node is its own
      ancestor), decidable through the check [dom_check]; the chains of
      parents ([ups], [anc]) and the pigeonhole bound on their length
      ([chain_bound]).  On a forest the fuel [dom_fuel] is enough
      for [tree_of], [find_desc] and [inclusive_ancestor], which then
      decides [anc].
    - [TreeOps]: every DOM operation the class calls keeps the heap a
      forest ([dkeeps], [dsafe]): attribute changes keep the links,
      [appendChild]'s ancestor check is what keeps the parents acyclic
      ([anc_relink]), and the nodes [innerHTML] allocates point to older
      fresh nodes or to the node written ([fresh_links]).
    - [Soup]: the round trip of [TagSoup]: on well-formed trees
      ([wf_forest]: names the tokenizer reads back, non-empty text nodes
      never two in a row, void elements empty, an [iframe] holding at
      most one raw text without [</iframe]) parsing the serialization
      gives the trees back ([parse_serialize]), through the token list
      [toks_forest] that the tokenizer returns on the serialization and
      from which the tree builder rebuilds the forest.
    - [Settings]: the structure [renderSettings] builds on any DOM
      (C12): one button per tune in order, with its id, classes, icon and
      listener, proved by following the heap through each primitive of
      the callback [settings_button] and then through the [forEach].
    - [Roundtrip]: [render] and [save] on any DOM.  [render_structure]
      (C13): the wrapper holds only the holder, whose children are the
      parsed frame, and the cached placeholder is left detached, so every
      later call of the [data] setter throws (finding 1 on any DOM);
      [render_save_frame] (C14): [save] on the rendered node stores
      [html_serialize (html_parse frame)] when the frame starts with an
      iframe, for any markup syntax; with [TagSoup] and a well-formed
      frame, the saved frame parses to the same trees as the original
      ([render_save_equivalent], C17); after a render with
      an empty [frame] the first write of [data] succeeds and the second
      throws (C21).  The proof runs [render] in the
      total-correctness logic [ok], one rule per primitive ([ok_make],
      [render_skeleton], [render_detach]).
    - [Errors]: the error paths of the view on host style classes that
      [classList] refuses.  C27: with an empty loader class, which
      [_make] skips, [render] throws [SyntaxError] at
      [wrapper.classList.remove(this.CSS.loading)] and caches no node;
      the tactic [render_alloc] (the prefix of [render] before that call)
      serves both [ok] and [throws] goals.  C28: a settings button class
      that [classList.add] refuses makes [renderSettings] throw at the
      first button, before any listener is registered.
    - [Lifecycle]: the host's calls as events ([run_event]: render and
      mount, settings and mount, save, paste, a click dispatched to the
      listeners [renderSettings] registered), the reachable worlds
      ([reachable], an inductive relation closed under every event,
      whether the method returns or throws) and the invariant [Inv]
      ([data.alignment] is [false] or a tune name, every listener names a
      tune).  The calculus [keeps] composes preservation along binds, so
      each method's lemma is a few lines; C11 is the rule induction.
    - [Config]: no method reads or writes [this.api], [this.readOnly]
      or [this.blockIndex] after the constructor: each method commutes
      with replacing the three fields ([indep], a calculus closed under
      [mret] and [mbind], with one lemma per method).  C22: every host
      session gives the same worlds, results and exceptions whatever the
      read-only flag and the block index, and keeps the values the
      constructor stored.
    - [Objects]: [this._data] as a reference into an object store
      ([ostate]): the getter and [save] return the reference, the setter
      and [onPaste]'s [Object.assign({}, ...)] allocate, [_toggleTune]
      and [save] write in place.  The DOM part of a method is a
      [Section] variable.  [objects_refine]: the store refines the
      value model of [Block]; C24 ([save_returns_live_object]): the
      object [save] returns is the block's live data object, rewritten
      by a later tune click and left behind by a later paste.
    - [Panel]: [_toggleTune] on the settings panel.  [buttons_dom] is
      the effect of its [forEach] when each tune name's
      [getElementById] finds a button ([b t]); C25: the clicked tune's
      button then bears the active class and no other does.  C26: when
      an element with the clicked tune's id comes before the button
      (pasted iframe markup with [id='Centered']), that element takes the
      active class and the clicked button's classes are unchanged (a
      finding).
    - [Forest]: the methods and host events keep the DOM a forest with
      its document allocated ([WF]).  A weakest-precondition calculus
      ([wp], [spec], the tactic [wstep]) carries the facts that the nodes
      a method appends or writes into exist: they are nodes it just
      created (below [d_next]), parents of nodes, or the document:
      every host session on a block constructed on a forest leaves a
      forest.
    - [Regex]: the fragment of ECMAScript regular expressions the paste
      pattern uses, as the backtracking matcher [m] of the ECMAScript
      specification (continuation passing, greedy and lazy [*] on one
      atom) and [exec].  [m] is the first success along the reference
      list [cands] ([m_first]), which holds exactly the suffixes left by
      a prefix in the declarative language [matches] ([cands_correct]);
      [exec] is sound and complete for the language.
    - [Paste]: [pasteConfig] and its pattern [iframe_pattern], and the
      host's test [pattern_matches] ([exec] finds the whole text).  C15
      characterises the texts the host hands to [onPaste]: [<iframe],
      attributes without [>], then [/>], or [>], a one-line body without
      [</iframe>] and [</iframe>]; C16: the pattern is case-sensitive,
      no text starting with another spelling of [<iframe] is accepted.  A tag paste hands
      [onPaste] the element object, which the setter writes into the
      holder as the text [[object HTMLIFrameElement]] (C19).
    - [Session]: the components composed along one session: a block
      rendered with no [frame], a text the host's pattern dispatch
      accepts, [onPaste], the setter's [innerHTML] write and [save] on
      the rendered node.  C23: the saved [frame] parses to the same
      trees as the pasted text and the other data properties are kept.

    ** Fuel

    DOM traversals ([find_desc], [tree_of], [inclusive_ancestor]) take
    [dom_fuel d], the number of node ids allocated so far: on a forest a
    chain of parents visits distinct allocated nodes, so it is shorter
    than that, and the traversals give what any larger fuel gives
    ([traversal_fuel]); every session keeps the DOM a forest
    ([session_forest]).  The markup tokenizer and tree builder take the length of their
    input, which each step shortens.  The regular-expression matcher
    needs no fuel: its stars repeat a one-character atom, so they recurse
    structurally on the input, and [exec] on the suffixes.

    ** Not modelled

    CSS loading ([require('./index.css')]), [console.log] (output only),
    the [onerror] handler (a no-op stub), the third argument of [_make]
    (always [{}]), the browser's loading of iframe content, and the
    Editor.js host beyond the calls the class makes; the DOM and the HTML
    syntax are the class's environment, modelled as far as the class
    uses them.

    ** Plan for the next steps

    The law [HtmlSyntaxLaws] of [TagSoup] on every input (it fails on
    inputs the tokenizer does not read back, such as an attribute name
    starting with a quote, so the law would have to be weakened to the
    parses that are well formed). *)

From stdpp Require Export base gmap strings list pretty fin_maps.
From Stdlib Require Export ZArith.

Declare Scope js_scope.
Delimit Scope js_scope with js.

Create HintDb iframe discriminated.
Create Rewrite HintDb js_rw.

(** ** Exceptions *)

(** The exceptions the modelled code can raise: a [TypeError] when a
    property of [null] or [undefined] is read or written, and a
    [DOMException] raised by the DOM (for instance [classList.add('')]). *)
Inductive exn :=
| TypeError (msg : string)
| DOMException (name : string).

#[export] Instance exn_eq_dec : EqDecision exn.
Proof. solve_decision. Defined.

(** ** The state and exception monad *)

(** A computation either returns a value with the final state or throws
    an exception; in both cases the state carries the mutations made
    before the end, as in JavaScript. *)
Inductive outcome (S A : Type) :=
| Done (a : A) (s : S)
| Threw (e : exn) (s : S).
Arguments Done {S A} a s.
Arguments Threw {S A} e s.

Definition M (S A : Type) : Type := S -> outcome S A.

Definition mret {S A} (a : A) : M S A := fun s => Done a s.

Definition mbind {S A B} (c : M S A) (f : A -> M S B) : M S B :=
  fun s => match c s with
           | Done a s' => f a s'
           | Threw e s' => Threw e s'
           end.

Definition mget {S} : M S S := fun s => Done s s.
Definition mput {S} (s : S) : M S unit := fun _ => Done tt s.
Definition mmodify {S} (f : S -> S) : M S unit := fun s => Done tt (f s).
Definition mthrow {S A} (e : exn) : M S A := fun s => Threw e s.

(** A JavaScript loop [xs.forEach(f)]: runs [f] on each element in order
    and stops at the first exception. *)
Fixpoint mforeach {S A} (f : A -> M S unit) (xs : list A) : M S unit :=
  match xs with
  | [] => mret tt
  | x :: xs' => mbind (f x) (fun _ => mforeach f xs')
  end.

Notation "x <- c1 ;; c2" := (mbind c1 (fun x => c2))
  (at level 100, c1 at next level, right associativity) : js_scope.
Notation "c1 ;; c2" := (mbind c1 (fun _ => c2))
  (at level 100, right associativity) : js_scope.

Definition final_state {S A} (o : outcome S A) : S :=
  match o with Done _ s => s | Threw _ s => s end.

(** [ok c s P]: [c] started in [s] returns normally, and [P] holds of its
    result and final state.  It is a total-correctness statement: a
    computation that throws never satisfies it. *)
Definition ok {S A} (c : M S A) (s : S) (P : A -> S -> Prop) : Prop :=
  match c s with Done a s' => P a s' | Threw _ _ => False end.

(** [throws c s P]: [c] started in [s] throws an exception [e], and [P]
    holds of [e] and of the state left behind. *)
Definition throws {S A} (c : M S A) (s : S) (P : exn -> S -> Prop) : Prop :=
  match c s with Done _ _ => False | Threw e s' => P e s' end.

Section MonadLemmas.
Context {S : Type}.

Lemma ok_ret {A} (a : A) (s : S) (P : A -> S -> Prop) :
  P a s -> ok (mret a) s P.
Proof. done. Qed.

Lemma ok_bind {A B} (c : M S A) (f : A -> M S B) s P :
  ok c s (fun a s' => ok (f a) s' P) <-> ok (mbind c f) s P.
Proof. unfold ok, mbind. by destruct (c s). Qed.

Lemma ok_mono {A} (c : M S A) s (P Q : A -> S -> Prop) :
  (forall a s', P a s' -> Q a s') -> ok c s P -> ok c s Q.
Proof. unfold ok. destruct (c s); auto. Qed.

Lemma throws_mono {A} (c : M S A) s (P Q : exn -> S -> Prop) :
  (forall e s', P e s' -> Q e s') -> throws c s P -> throws c s Q.
Proof. unfold throws. destruct (c s); auto. Qed.

Lemma ok_run {A} (c : M S A) s P :
  ok c s P <-> exists a s', c s = Done a s' /\ P a s'.
Proof. unfold ok. destruct (c s); naive_solver. Qed.

Lemma throws_bind_l {A B} (c : M S A) (f : A -> M S B) s P :
  throws c s P -> throws (mbind c f) s P.
Proof. unfold throws, mbind. by destruct (c s). Qed.

Lemma throws_bind_r {A B} (c : M S A) (f : A -> M S B) s P :
  ok c s (fun a s' => throws (f a) s' P) -> throws (mbind c f) s P.
Proof. unfold ok, throws, mbind. by destruct (c s). Qed.

Lemma mbind_assoc {A B C} (c : M S A) (f : A -> M S B) (g : B -> M S C) s :
  mbind (mbind c f) g s = mbind c (fun a => mbind (f a) g) s.
Proof. unfold mbind. by destruct (c s). Qed.

Lemma ok_foreach {A} (f : A -> M S unit) (I : list A -> S -> Prop) xs s :
  I xs s ->
  (forall x xs' s', I (x :: xs') s' -> ok (f x) s' (fun _ s'' => I xs' s'')) ->
  ok (mforeach f xs) s (fun _ s' => I [] s').
Proof.
  revert s. induction xs as [|x xs IH]; intros s HI Hstep; [done|].
  apply ok_bind. eapply ok_mono; [|by apply Hstep]. intros ? s' HI'. by apply IH.
Qed.
End MonadLemmas.

#[export] Hint Resolve ok_ret : iframe.

(** Run a concrete [ok] goal by splitting binds. *)
Ltac ok_step := first [ apply ok_bind | apply ok_ret ].

(** ** JavaScript values and plain objects *)

(** The JavaScript values the tool stores: [undefined], [null], booleans,
    integral numbers (the only numbers the tool meets), strings, and host
    objects.  The only object the tool receives is the DOM element
    Editor.js hands to [onPaste] for a tag paste; an object is known by
    the class name its [toString] reports ([HTMLIFrameElement]), which is
    all the tool's code observes of it. *)
Inductive jsval :=
| JUndefined
| JNull
| JBool (b : bool)
| JNum (z : Z)
| JStr (s : string)
| JObj (cls : string).

#[export] Instance jsval_eq_dec : EqDecision jsval.
Proof. solve_decision. Defined.

(** [!!v]: JavaScript truthiness. *)
Definition truthy (v : jsval) : bool :=
  match v with
  | JUndefined | JNull => false
  | JBool b => b
  | JNum z => negb (Z.eqb z 0)
  | JStr s => negb (String.eqb s "")
  | JObj _ => true
  end.

(** [String(v)], the conversion an assignment to [innerHTML] applies, with
    [null] converted to the empty string ([LegacyNullToEmptyString]); an
    object converts to [[object <class>]]. *)
Definition html_of_value (v : jsval) : string :=
  match v with
  | JUndefined => "undefined"
  | JNull => ""
  | JBool true => "true"
  | JBool false => "false"
  | JNum z => pretty z
  | JStr s => s
  | JObj c => "[object " ++ c ++ "]"
  end.

(** [v == name] where [name] is a string that is not a numeric literal
    (the tune names [LeftAligned], [Centered], [RightAligned]): [==]
    converts a boolean or a number and the string with [ToNumber], which
    gives [NaN] for such a string, so only a string operand can be equal;
    [null] and [undefined] are equal to no string. *)
Definition loose_eq_name (v : jsval) (name : string) : bool :=
  match v with
  | JStr s => String.eqb s name
  | _ => false
  end.

Lemma loose_eq_name_unique v x y :
  loose_eq_name v x = true -> loose_eq_name v y = true -> x = y.
Proof.
  destruct v; simpl; try discriminate. intros Hx Hy.
  apply String.eqb_eq in Hx, Hy. congruence.
Qed.

(** A plain object as a finite map from property names to values; a key
    bound to [JUndefined] is a present property whose value is
    [undefined], as [{frame: undefined}] has. *)
Abbreviation jsobj := (gmap string jsval).

(** [o[k]]: a missing property reads as [undefined]. *)
Definition prop (o : jsobj) (k : string) : jsval :=
  default JUndefined (o !! k).

(** [Object.assign(target, src)]: the own properties of [src] overwrite
    those of [target]; the other properties of [target] stay. *)
Definition assign (target src : jsobj) : jsobj := src ∪ target.

Lemma prop_insert_eq (o : jsobj) k v : prop (<[k:=v]> o) k = v.
Proof. unfold prop. by rewrite lookup_insert_eq. Qed.

Lemma prop_singleton k v : prop {[k := v]} k = v.
Proof. unfold prop. by rewrite lookup_singleton_eq. Qed.

Lemma prop_insert_ne (o : jsobj) k k' v : k <> k' -> prop (<[k:=v]> o) k' = prop o k'.
Proof. intros H. unfold prop. by rewrite lookup_insert_ne. Qed.

Lemma prop_assign_src (t s : jsobj) k v : s !! k = Some v -> prop (assign t s) k = v.
Proof. intros H. unfold prop, assign. by erewrite fin_maps.lookup_union_l'; [rewrite H|rewrite H]. Qed.

Lemma prop_assign_tgt (t s : jsobj) k : s !! k = None -> prop (assign t s) k = prop t k.
Proof. intros H. unfold prop, assign. by rewrite fin_maps.lookup_union_r. Qed.

Lemma assign_singleton_lookup (t : jsobj) k v k' :
  assign t {[k := v]} !! k' = if decide (k = k') then Some v else t !! k'.
Proof.
  unfold assign. case_decide as Hk.
  - subst. apply fin_maps.lookup_union_Some_raw. left. apply lookup_singleton_eq.
  - rewrite fin_maps.lookup_union_r; [done|]. by rewrite lookup_singleton_ne.
Qed.

Lemma assign_singleton_insert (t : jsobj) k v : assign t {[k := v]} = <[k:=v]> t.
Proof.
  apply map_eq. intros k'. rewrite assign_singleton_lookup.
  case_decide; subst; [by rewrite lookup_insert_eq|by rewrite lookup_insert_ne].
Qed.

(** Assigning the same source twice is assigning it once. *)
Lemma assign_twice (t s : jsobj) : assign (assign t s) s = assign t s.
Proof. unfold assign. by rewrite map_union_assoc, map_union_idemp. Qed.

#[export] Hint Rewrite prop_insert_eq assign_singleton_insert : js_rw.

(** ** Strings *)

Lemma str_app_assoc (a b c : string) : String.append a (String.append b c) = String.append (String.append a b) c.
Proof.
  induction a as [|x a IH]; [done|].
  change (String x (String.append a (String.append b c)) = String x (String.append (String.append a b) c)).
  by rewrite IH.
Qed.

Lemma str_app_nil_r (a : string) : String.append a EmptyString = a.
Proof.
  induction a as [|x a IH]; [done|].
  change (String x (String.append a EmptyString) = String x a). by rewrite IH.
Qed.

Lemma str_eqb_refl (s : string) : String.eqb s s = true.
Proof. apply String.eqb_refl. Qed.

Lemma str_eqb_neq (s t : string) : s <> t -> String.eqb s t = false.
Proof. apply String.eqb_neq. Qed.

#[export] Hint Rewrite str_eqb_refl str_app_nil_r : js_rw.
