(* ===== verification/Markup.v ===== *)
(** * Markup: HTML fragments as trees, and the browser's innerHTML syntax

    Writing [el.innerHTML = s] parses [s] with the browser's HTML fragment
    parser and replaces the children of [el]; reading [el.innerHTML]
    serializes them.  The tool relies on both: [render] and the [data]
    setter write the raw iframe markup into the holder, [save] reads it
    back.  This file gives the trees ([tree]), the interface of a markup
    syntax ([HtmlSyntax], with its law [HtmlSyntaxLaws]) and a concrete
    executable syntax [TagSoup] that follows the HTML parsing rules the
    tool meets: lower-cased tag and attribute names, void elements, raw
    text inside [iframe], end tags that close the nearest open element of
    the same name and are ignored otherwise, adjacent text merged, and the
    entities [&amp;], [&lt;], [&gt;] and [&quot;]. *)

From S2P Require Import Prelude.
From Stdlib Require Import Ascii.

Local Open Scope string_scope.

(** An HTML node as the parser produces it. *)
Inductive tree :=
| TElem (tag : string) (attrs : list (string * string)) (kids : list tree)
| TText (s : string).

(** The two algorithms behind [innerHTML]. *)
Class HtmlSyntax := {
  html_parse : string -> list tree;
  html_serialize : list tree -> string
}.

(** What the development assumes of a markup syntax: serializing what the
    parser produced and parsing it again gives the same trees, that is,
    [innerHTML] read back after a write is DOM-equivalent to what was
    written. *)
Class HtmlSyntaxLaws `{HtmlSyntax} := {
  parse_serialize_parse : forall s, html_parse (html_serialize (html_parse s)) = html_parse s
}.

(** ** A concrete syntax *)

Module TagSoup.

Definition is_space (c : ascii) : bool :=
  match nat_of_ascii c with 9 | 10 | 12 | 13 | 32 => true | _ => false end.

Definition is_alpha (c : ascii) : bool :=
  let n := nat_of_ascii c in (Nat.leb 65 n && Nat.leb n 90) || (Nat.leb 97 n && Nat.leb n 122).

Definition lower (c : ascii) : ascii :=
  let n := nat_of_ascii c in
  if Nat.leb 65 n && Nat.leb n 90 then ascii_of_nat (n + 32) else c.

Fixpoint lower_str (s : string) : string :=
  match s with EmptyString => EmptyString | String c r => String (lower c) (lower_str r) end.

Definition dquote : ascii := "034".

(** Characters of a tag name and of an attribute name. *)
Definition tag_char (c : ascii) : bool :=
  negb (is_space c || Ascii.eqb c "/" || Ascii.eqb c ">").
Definition attr_name_char (c : ascii) : bool :=
  negb (is_space c || Ascii.eqb c "/" || Ascii.eqb c ">" || Ascii.eqb c "=").

Fixpoint span (p : ascii -> bool) (s : string) : string * string :=
  match s with
  | EmptyString => (EmptyString, EmptyString)
  | String c r => if p c then let '(a, b) := span p r in (String c a, b) else (EmptyString, s)
  end.

Fixpoint skip_spaces (s : string) : string :=
  match s with
  | String c r => if is_space c then skip_spaces r else s
  | EmptyString => EmptyString
  end.

(** Elements that have no end tag and no content. *)
Definition void_tags : list string :=
  ["area"; "base"; "br"; "col"; "embed"; "hr"; "img"; "input"; "link"; "meta";
   "source"; "track"; "wbr"].
Definition is_void (t : string) : bool := existsb (String.eqb t) void_tags.

Inductive token :=
| TkOpen (tag : string) (attrs : list (string * string))
| TkClose (tag : string)
| TkText (raw : string)   (** text, entities still encoded *)
| TkRaw (s : string).     (** raw text of an [iframe] *)

(** Decoding of the four entities [&amp;], [&lt;], [&gt;], [&quot;]. *)
Fixpoint decode (s : string) : string :=
  match s with
  | String "&" (String "a" (String "m" (String "p" (String ";" r)))) => String "&" (decode r)
  | String "&" (String "l" (String "t" (String ";" r))) => String "<" (decode r)
  | String "&" (String "g" (String "t" (String ";" r))) => String ">" (decode r)
  | String "&" (String "q" (String "u" (String "o" (String "t" (String ";" r))))) =>
      String dquote (decode r)
  | String c r => String c (decode r)
  | EmptyString => EmptyString
  end.

(** An attribute value after [=]: in double quotes, in single quotes, or unquoted. *)
Definition attr_value (s : string) : option (string * string) :=
  match s with
  | String q r =>
      if Ascii.eqb q dquote || Ascii.eqb q "'" then
        let '(v, r') := span (fun c => negb (Ascii.eqb c q)) r in
        match r' with String _ r'' => Some (v, r'') | EmptyString => None end
      else Some (span (fun c => negb (is_space c || Ascii.eqb c ">")) s)
  | EmptyString => None
  end.

(** The attributes of a start tag, up to and past its [>]; [None] when the
    input ends inside the tag (the browser drops such a tag). *)
Fixpoint scan_attrs (fuel : nat) (s : string) : option (list (string * string) * string) :=
  match fuel with
  | O => None
  | S f =>
    match s with
    | EmptyString => None
    | String c r =>
      if is_space c || Ascii.eqb c "/" then scan_attrs f r
      else if Ascii.eqb c ">" then Some ([], r)
      else
        let '(nm, r1) := span attr_name_char r in
        let name := lower_str (String c nm) in
        match skip_spaces r1 with
        | String "=" r2 =>
            match attr_value (skip_spaces r2) with
            | Some (v, r3) =>
                match scan_attrs f r3 with Some (l, r4) => Some ((name, decode v) :: l, r4) | None => None end
            | None => None
            end
        | r2 => match scan_attrs f r2 with Some (l, r4) => Some ((name, "") :: l, r4) | None => None end
        end
    end
  end.

(** Whether [s] starts with [</iframe] in any case. *)
Definition iframe_end_prefix : string := "</iframe".
Fixpoint starts_with_ci (p s : string) : bool :=
  match p, s with
  | EmptyString, _ => true
  | String a p', String b s' => Ascii.eqb a (lower b) && starts_with_ci p' s'
  | _, _ => false
  end.

(** The raw text of an iframe: everything up to [</iframe]. *)
Fixpoint raw_until_iframe_end (s : string) : string * string :=
  match s with
  | EmptyString => (EmptyString, EmptyString)
  | String c r =>
      if starts_with_ci iframe_end_prefix s then (EmptyString, s)
      else let '(a, b) := raw_until_iframe_end r in (String c a, b)
  end.

Fixpoint drop_past_gt (s : string) : option string :=
  match s with
  | EmptyString => None
  | String c r => if Ascii.eqb c ">" then Some r else drop_past_gt r
  end.

Fixpoint tokenize (fuel : nat) (s : string) : list token :=
  match fuel with
  | O => []
  | S f =>
    match s with
    | EmptyString => []
    | String "<" (String "/" (String c r)) =>
        if is_alpha c then
          let '(nm, r1) := span tag_char r in
          match drop_past_gt r1 with
          | Some r2 => TkClose (lower_str (String c nm)) :: tokenize f r2
          | None => []
          end
        else TkText "<" :: tokenize f (String "/" (String c r))
    | String "<" (String c r) =>
        if is_alpha c then
          let '(nm, r1) := span tag_char r in
          let tag := lower_str (String c nm) in
          match scan_attrs (String.length r1) r1 with
          | Some (attrs, r2) =>
              if String.eqb tag "iframe" then
                let '(raw, r3) := raw_until_iframe_end r2 in
                TkOpen tag attrs :: TkRaw raw :: tokenize f r3
              else TkOpen tag attrs :: tokenize f r2
          | None => []
          end
        else TkText "<" :: tokenize f (String c r)
    | String c r =>
        let '(txt, r1) := span (fun c => negb (Ascii.eqb c "<")) r in
        TkText (String c txt) :: tokenize f r1
    end
  end.

(** Encoding of the entities. *)
Fixpoint escape_text (s : string) : string :=
  match s with
  | EmptyString => EmptyString
  | String c r =>
      if Ascii.eqb c "&" then "&amp;" ++ escape_text r
      else if Ascii.eqb c "<" then "&lt;" ++ escape_text r
      else if Ascii.eqb c ">" then "&gt;" ++ escape_text r
      else String c (escape_text r)
  end.

Fixpoint escape_attr (s : string) : string :=
  match s with
  | EmptyString => EmptyString
  | String c r =>
      if Ascii.eqb c "&" then "&amp;" ++ escape_attr r
      else if Ascii.eqb c dquote then "&quot;" ++ escape_attr r
      else String c (escape_attr r)
  end.

(** Text nodes next to each other are one text node. *)
Definition tcons (t : tree) (ts : list tree) : list tree :=
  match t, ts with
  | TText "", _ => ts
  | TText a, TText b :: ts' => TText (a ++ b) :: ts'
  | _, _ => t :: ts
  end.

(** The tree builder.  [open] lists the names of the open elements,
    innermost first.  An end tag closes the innermost element of its name
    (and the elements opened inside it) and is ignored when no such
    element is open. *)
Fixpoint build (fuel : nat) (open : list string) (toks : list token)
  : list tree * list token :=
  match fuel with
  | O => ([], [])
  | S f =>
    match toks with
    | [] => ([], [])
    | TkText s :: r => let '(ts, r') := build f open r in (tcons (TText (decode s)) ts, r')
    | TkRaw s :: r => let '(ts, r') := build f open r in (tcons (TText s) ts, r')
    | TkClose t :: r =>
        if existsb (String.eqb t) open then ([], toks) else build f open r
    | TkOpen t a :: r =>
        if is_void t then
          let '(ts, r') := build f open r in (TElem t a [] :: ts, r')
        else
          let '(kids, r1) := build f (t :: open) r in
          match r1 with
          | TkClose t' :: r2 =>
              if String.eqb t' t then
                let '(ts, r3) := build f open r2 in (TElem t a kids :: ts, r3)
              else ([TElem t a kids], r1)
          | _ => ([TElem t a kids], r1)
          end
    end
  end.

Definition parse (s : string) : list tree :=
  let toks := tokenize (String.length s) s in
  fst (build (length toks) [] toks).

Definition ser_attrs (a : list (string * string)) : string :=
  String.concat "" (map (fun '(k, v) => " " ++ k ++ "=" ++ String dquote (escape_attr v ++ String dquote "")) a).

Fixpoint ser_tree (raw : bool) (t : tree) : string :=
  match t with
  | TText s => if raw then s else escape_text s
  | TElem tg a kids =>
      "<" ++ tg ++ ser_attrs a ++ ">" ++
      String.concat "" (map (ser_tree (String.eqb tg "iframe")) kids) ++
      (if is_void tg then "" else "</" ++ tg ++ ">")
  end.

Definition serialize (ts : list tree) : string := String.concat "" (map (ser_tree false) ts).

End TagSoup.

#[export] Instance TagSoup : HtmlSyntax := {|
  html_parse := TagSoup.parse;
  html_serialize := TagSoup.serialize
|}.
