(* ===== verification/Dom.v ===== *)
(** * Dom: the browser DOM as an explicit heap

    The DOM operations [src/src/index.js] calls, on a heap of element
    records indexed by node ids ([nid]).  A node object of the source is a
    node id here, so two variables that hold the same node alias, and a
    node detached by [innerHTML] or [remove()] stays in the heap with no
    parent, as a detached JavaScript object does.  [classList] is the view
    of the [class] attribute as an ordered set of tokens, as the DOM
    standard defines it.  Operations that can throw are computations in
    [M dom]; queries are functions.  Traversals ([query_selector],
    [get_element_by_id], [inner_html]) take as fuel the number of node ids
    allocated so far, [dom_fuel]. *)

From S2P Require Import Prelude Markup.
From Stdlib Require Import Ascii.

Local Open Scope string_scope.
Local Open Scope js_scope.

Definition nid := positive.

Inductive child :=
| CElem (n : nid)
| CText (s : string).

#[export] Instance child_eq_dec : EqDecision child.
Proof. solve_decision. Defined.

Record elem := mkElem {
  e_tag : string;
  e_attrs : list (string * string);
  e_kids : list child;
  e_parent : option nid
}.

Record dom := mkDom {
  d_nodes : gmap nid elem;
  d_next : positive
}.

Definition dom_fuel (d : dom) : nat := Pos.to_nat (d_next d).

Definition elem_of (n : nid) (d : dom) : option elem := d_nodes d !! n.

Definition upd (n : nid) (f : elem -> elem) (d : dom) : dom :=
  mkDom (alter f n (d_nodes d)) (d_next d).

Definition with_attrs (a : list (string * string)) (e : elem) : elem :=
  mkElem (e_tag e) a (e_kids e) (e_parent e).
Definition with_kids (k : list child) (e : elem) : elem :=
  mkElem (e_tag e) (e_attrs e) k (e_parent e).
Definition with_parent (p : option nid) (e : elem) : elem :=
  mkElem (e_tag e) (e_attrs e) (e_kids e) p.

(** ** Attributes and [classList] *)

Fixpoint attr_lookup (k : string) (a : list (string * string)) : option string :=
  match a with
  | [] => None
  | (k', v) :: a' => if String.eqb k k' then Some v else attr_lookup k a'
  end.

(** [setAttribute(k, v)]: changes the value in place, or appends. *)
Fixpoint attr_set (k v : string) (a : list (string * string)) : list (string * string) :=
  match a with
  | [] => [(k, v)]
  | (k', v') :: a' => if String.eqb k k' then (k, v) :: a' else (k', v') :: attr_set k v a'
  end.

Definition get_attribute (n : nid) (k : string) (d : dom) : option string :=
  match elem_of n d with Some e => attr_lookup k (e_attrs e) | None => None end.

Definition set_attribute (n : nid) (k v : string) : M dom unit :=
  mmodify (upd n (fun e => with_attrs (attr_set k v (e_attrs e)) e)).

(** The ordered-set parser: split on ASCII whitespace, keep the first
    occurrence of each token. *)
Fixpoint words_from (cur : string) (s : string) : list string :=
  match s with
  | EmptyString => if String.eqb cur "" then [] else [cur]
  | String c r =>
      if TagSoup.is_space c then
        (if String.eqb cur "" then words_from "" r else cur :: words_from "" r)
      else words_from (cur ++ String c "") r
  end.

Fixpoint dedup (seen : list string) (l : list string) : list string :=
  match l with
  | [] => []
  | x :: l' => if existsb (String.eqb x) seen then dedup seen l' else x :: dedup (x :: seen) l'
  end.

Definition ordered_set_parse (s : string) : list string := dedup [] (words_from "" s).
Definition ordered_set_serialize (l : list string) : string := String.concat " " l.

(** [el.classList], as a list of tokens. *)
Definition class_list (n : nid) (d : dom) : list string :=
  match get_attribute n "class" d with
  | Some s => ordered_set_parse s
  | None => []
  end.

Definition has_class (n : nid) (c : string) (d : dom) : bool :=
  existsb (String.eqb c) (class_list n d).

Fixpoint has_space (s : string) : bool :=
  match s with
  | EmptyString => false
  | String c r => TagSoup.is_space c || has_space r
  end.

(** The token validation of [DOMTokenList.add] and [remove]. *)
Fixpoint check_tokens (cs : list string) : option exn :=
  match cs with
  | [] => None
  | c :: cs' =>
      if String.eqb c "" then Some (DOMException "SyntaxError")
      else if has_space c then Some (DOMException "InvalidCharacterError")
      else check_tokens cs'
  end.

Definition list_add (cs l : list string) : list string :=
  fold_left (fun acc c => if existsb (String.eqb c) acc then acc else (acc ++ [c])%list) cs l.
Definition list_remove (cs l : list string) : list string :=
  List.filter (fun x => negb (existsb (String.eqb x) cs)) l.

(** The update steps of a [DOMTokenList]: nothing when there is no
    [class] attribute and the set is empty, otherwise the attribute is set
    to the serialized set. *)
Definition class_update (n : nid) (l : list string) (d : dom) : dom :=
  match get_attribute n "class" d, l with
  | None, [] => d
  | _, _ => upd n (fun e => with_attrs (attr_set "class" (ordered_set_serialize l) (e_attrs e)) e) d
  end.

(** [el.classList.add(...cs)] and [el.classList.remove(...cs)]. *)
Definition class_add (n : nid) (cs : list string) : M dom unit :=
  fun d => match check_tokens cs with
           | Some e => Threw e d
           | None => Done tt (class_update n (list_add cs (class_list n d)) d)
           end.

Definition class_remove (n : nid) (cs : list string) : M dom unit :=
  fun d => match check_tokens cs with
           | Some e => Threw e d
           | None => Done tt (class_update n (list_remove cs (class_list n d)) d)
           end.

(** ** Creating and moving nodes *)

(** [document.createElement(tag)]: a fresh element with no parent. *)
Definition create_element (tag : string) : M dom nid :=
  fun d => Done (d_next d)
             (mkDom (<[d_next d := mkElem tag [] [] None]> (d_nodes d)) (Pos.succ (d_next d))).

Definition parent_element (n : nid) (d : dom) : option nid :=
  match elem_of n d with Some e => e_parent e | None => None end.

(** Removes [n] from the children of its parent, if it has one. *)
Definition detach (n : nid) (d : dom) : dom :=
  match parent_element n d with
  | Some p =>
      upd n (with_parent None)
        (upd p (fun e => with_kids (List.filter (fun k => bool_decide (k <> CElem n)) (e_kids e)) e) d)
  | None => d
  end.

(** [node.remove()]. *)
Definition node_remove (n : nid) : M dom unit := mmodify (detach n).

Fixpoint inclusive_ancestor (fuel : nat) (a n : nid) (d : dom) : bool :=
  match fuel with
  | O => false
  | S f =>
      bool_decide (a = n) ||
      match parent_element n d with Some p => inclusive_ancestor f a p d | None => false end
  end.

(** [p.appendChild(c)]: [c] leaves its former parent and becomes the last
    child of [p]; appending an inclusive ancestor of [p] is a
    [HierarchyRequestError]. *)
Definition append_child (p c : nid) : M dom unit :=
  fun d =>
    if inclusive_ancestor (dom_fuel d) c p d then Threw (DOMException "HierarchyRequestError") d
    else let d1 := detach c d in
         Done tt (upd c (with_parent (Some p))
                    (upd p (fun e => with_kids (e_kids e ++ [CElem c])%list e) d1)).

(** ** innerHTML *)

Section WithSyntax.
Context `{HtmlSyntax}.

(** The nodes of parsed markup, allocated in document order under [p]. *)
Fixpoint alloc_tree (p : nid) (t : tree) (d : dom) : child * dom :=
  match t with
  | TText s => (CText s, d)
  | TElem tg a kids =>
      let n := d_next d in
      let d1 := mkDom (<[n := mkElem tg a [] (Some p)]> (d_nodes d)) (Pos.succ n) in
      let '(cs, d2) :=
        (fix go (ts : list tree) (d : dom) : list child * dom :=
           match ts with
           | [] => ([], d)
           | t :: ts' => let '(c, d') := alloc_tree n t d in
                         let '(cs, d'') := go ts' d' in (c :: cs, d'')
           end) kids d1 in
      (CElem n, upd n (with_kids cs) d2)
  end.

Fixpoint alloc_forest (p : nid) (ts : list tree) (d : dom) : list child * dom :=
  match ts with
  | [] => ([], d)
  | t :: ts' => let '(c, d') := alloc_tree p t d in
                let '(cs, d'') := alloc_forest p ts' d' in (c :: cs, d'')
  end.

Definition kids_of (n : nid) (d : dom) : list child :=
  match elem_of n d with Some e => e_kids e | None => [] end.

(** [el.innerHTML = s]: the children of [el] are detached and replaced by
    the nodes parsed from [s]. *)
Definition set_inner_html (n : nid) (s : string) : M dom unit :=
  fun d =>
    let old := kids_of n d in
    let d1 := fold_left (fun d k => match k with CElem c => upd c (with_parent None) d | CText _ => d end) old d in
    let '(cs, d2) := alloc_forest n (html_parse s) d1 in
    Done tt (upd n (with_kids cs) d2).

(** The tree of a node, read from the heap. *)
Fixpoint tree_of (fuel : nat) (k : child) (d : dom) : tree :=
  match k with
  | CText s => TText s
  | CElem n =>
      match fuel, elem_of n d with
      | S f, Some e => TElem (e_tag e) (e_attrs e) (map (fun k => tree_of f k d) (e_kids e))
      | _, _ => TText ""
      end
  end.

(** Reading [el.innerHTML]. *)
Definition inner_html (n : nid) (d : dom) : string :=
  html_serialize (map (fun k => tree_of (dom_fuel d) k d) (kids_of n d)).

End WithSyntax.

(** ** Queries *)

(** The first element of [ks], or of the subtrees under them, in document
    order, whose record satisfies [p]; [rec] searches under one node. *)
Fixpoint find_kids (rec : nid -> option nid) (p : elem -> bool) (ks : list child) (d : dom)
  : option nid :=
  match ks with
  | [] => None
  | CText _ :: ks' => find_kids rec p ks' d
  | CElem c :: ks' =>
      match elem_of c d with
      | Some e =>
          if p e then Some c
          else match rec c with Some r => Some r | None => find_kids rec p ks' d end
      | None => find_kids rec p ks' d
      end
  end.

(** The first descendant of [n] in document order whose element satisfies
    [p]: the algorithm of [querySelector] and [getElementById]. *)
Fixpoint find_desc (fuel : nat) (p : elem -> bool) (n : nid) (d : dom) : option nid :=
  match fuel with
  | O => None
  | S f => find_kids (fun c => find_desc f p c d) p (kids_of n d) d
  end.

(** [root.querySelector(tag)] for a type selector. *)
Definition query_selector (root : nid) (tag : string) (d : dom) : option nid :=
  find_desc (dom_fuel d) (fun e => String.eqb (e_tag e) tag) root d.

(** [document.getElementById(id)], the document being the tree under
    [docroot]. *)
Definition get_element_by_id (docroot : nid) (id : string) (d : dom) : option nid :=
  find_desc (dom_fuel d) (fun e => match attr_lookup "id" (e_attrs e) with
                                   | Some v => String.eqb v id
                                   | None => false end) docroot d.

(** ** Lemmas: tokens and the [class] attribute *)

Definition valid_token (c : string) : bool := negb (String.eqb c "") && negb (has_space c).

Lemma check_tokens_None cs : check_tokens cs = None <-> Forall (fun c => valid_token c = true) cs.
Proof.
  induction cs as [|c cs IH]; simpl; [split; auto|].
  unfold valid_token. rewrite Forall_cons, <- IH.
  destruct (String.eqb c "") eqn:E1, (has_space c) eqn:E2; simpl; naive_solver.
Qed.

Lemma has_space_app a b : has_space (a ++ b) = has_space a || has_space b.
Proof. induction a as [|c a IH]; simpl; [done|by rewrite IH, orb_assoc]. Qed.

Lemma words_from_app cur x s :
  has_space x = false -> words_from cur (x ++ s) = words_from (cur ++ x) s.
Proof.
  revert cur. induction x as [|c x IH]; intros cur Hx; simpl.
  - by rewrite str_app_nil_r.
  - simpl in Hx. apply orb_false_iff in Hx as [Hc Hx]. rewrite Hc, IH by done.
    by rewrite <- str_app_assoc.
Qed.

Lemma words_from_space cur s :
  words_from cur (String " " s) = if String.eqb cur "" then words_from "" s else cur :: words_from "" s.
Proof. done. Qed.

Lemma words_from_end cur : words_from cur "" = if String.eqb cur "" then [] else [cur].
Proof. done. Qed.

(** The ordered-set serializer and parser are inverse on lists of valid,
    distinct tokens. *)
Lemma words_concat (l : list string) :
  Forall (fun c => valid_token c = true) l -> words_from "" (ordered_set_serialize l) = l.
Proof.
  unfold ordered_set_serialize.
  induction l as [|x l IH]; intros Hl; [done|].
  apply Forall_cons in Hl as [Hx Hl]. unfold valid_token in Hx.
  apply andb_true_iff in Hx as [Hx1 Hx2]. apply negb_true_iff in Hx1, Hx2.
  destruct l as [|y l].
  - change (String.concat " " [x]) with x.
    rewrite <- (str_app_nil_r x) at 1. rewrite words_from_app by done.
    change (String.append "" x) with x. by rewrite words_from_end, Hx1.
  - change (String.concat " " (x :: y :: l)) with (x ++ String " " (String.concat " " (y :: l))).
    rewrite words_from_app by done. change (String.append "" x) with x.
    rewrite words_from_space, Hx1, IH by done. done.
Qed.

Lemma dedup_id seen (l : list string) :
  NoDup l -> (forall x, In x l -> ~ In x seen) -> dedup seen l = l.
Proof.
  revert seen. induction l as [|x l IH]; intros seen Hnd Hs; [done|]. simpl.
  apply NoDup_cons in Hnd as [Hx Hnd].
  destruct (existsb (String.eqb x) seen) eqn:E.
  - apply existsb_exists in E as (y & Hy & Hxy). apply String.eqb_eq in Hxy. subst.
    exfalso. by apply (Hs y); [left|].
  - f_equal. apply IH; [done|]. intros z Hz [->|Hz']; [|by apply (Hs z); [right|]].
    apply Hx. by apply list_elem_of_In.
Qed.

Lemma dedup_spec seen (l : list string) :
  NoDup (dedup seen l) /\ (forall x, In x (dedup seen l) <-> In x l /\ ~ In x seen).
Proof.
  revert seen. induction l as [|x l IH]; intros seen; simpl; [split; [constructor|naive_solver]|].
  destruct (existsb (String.eqb x) seen) eqn:E.
  - destruct (IH seen) as [Hnd Hin]. split; [done|]. intros z. rewrite Hin.
    apply existsb_exists in E as (y & Hy & Hxy). apply String.eqb_eq in Hxy. subst. naive_solver.
  - destruct (IH (x :: seen)) as [Hnd Hin]. split.
    + constructor; [|done]. rewrite list_elem_of_In, Hin. simpl. naive_solver.
    + intros z. simpl. rewrite Hin. simpl.
      assert (~ In x seen).
      { intros Hx. assert (existsb (String.eqb x) seen = true) as E'; [|congruence].
        apply existsb_exists. exists x. by rewrite String.eqb_refl. }
      split; [naive_solver|]. intros [[->|Hz] Hns]; [by left|]. destruct (decide (z = x)); naive_solver.
Qed.

Lemma words_from_valid cur s :
  has_space cur = false ->
  Forall (fun c => valid_token c = true) (words_from cur s).
Proof.
  revert cur. induction s as [|c s IH]; intros cur Hcur; simpl.
  - destruct (String.eqb cur "") eqn:E; constructor; [|done].
    unfold valid_token. by rewrite E, Hcur.
  - destruct (TagSoup.is_space c) eqn:Hc.
    + destruct (String.eqb cur "") eqn:E; [by apply IH|].
      constructor; [unfold valid_token; by rewrite E, Hcur|by apply IH].
    + apply IH. rewrite has_space_app. simpl. by rewrite Hcur, Hc.
Qed.

Lemma ordered_set_parse_spec s :
  NoDup (ordered_set_parse s) /\ Forall (fun c => valid_token c = true) (ordered_set_parse s).
Proof.
  unfold ordered_set_parse. destruct (dedup_spec [] (words_from "" s)) as [Hnd Hin].
  split; [done|]. apply List.Forall_forall. intros x Hx. apply Hin in Hx as [Hx _].
  by apply (proj1 (List.Forall_forall _ _) (words_from_valid "" s eq_refl)).
Qed.

Lemma ordered_set_roundtrip l :
  NoDup l -> Forall (fun c => valid_token c = true) l ->
  ordered_set_parse (ordered_set_serialize l) = l.
Proof. intros Hnd Hv. unfold ordered_set_parse. rewrite words_concat by done. apply dedup_id; [done|]. by intros ? ? []. Qed.

(** ** Lemmas: the heap *)

Lemma elem_of_upd m n f d :
  elem_of m (upd n f d) = if decide (m = n) then f <$> elem_of m d else elem_of m d.
Proof.
  unfold elem_of, upd; simpl. case_decide; subst; [apply lookup_alter_eq|].
  apply lookup_alter_ne. congruence.
Qed.

Lemma attr_lookup_set_eq k v a : attr_lookup k (attr_set k v a) = Some v.
Proof.
  induction a as [|[k' v'] a IH]; simpl; [by rewrite String.eqb_refl|].
  destruct (String.eqb k k') eqn:E; simpl; [by rewrite String.eqb_refl|by rewrite E].
Qed.

Lemma attr_lookup_set_ne k k' v a : k <> k' -> attr_lookup k' (attr_set k v a) = attr_lookup k' a.
Proof.
  intros Hne. induction a as [|[k'' v'] a IH]; simpl.
  - rewrite (proj2 (String.eqb_neq k' k)); congruence.
  - destruct (String.eqb k k'') eqn:E; simpl.
    + apply String.eqb_eq in E. subst.
      rewrite (proj2 (String.eqb_neq k' k'')); congruence.
    + by rewrite IH.
Qed.

Lemma class_list_spec n d :
  NoDup (class_list n d) /\ Forall (fun c => valid_token c = true) (class_list n d).
Proof.
  unfold class_list. destruct (get_attribute n "class" d); [apply ordered_set_parse_spec|].
  split; constructor.
Qed.

Lemma class_list_update_same n l d e :
  elem_of n d = Some e -> NoDup l -> Forall (fun c => valid_token c = true) l ->
  class_list n (class_update n l d) = l.
Proof.
  intros He Hnd Hv. unfold class_update.
  destruct (get_attribute n "class" d) eqn:Ea, l as [|x l];
    try (unfold class_list, get_attribute; rewrite elem_of_upd, decide_True, He by done;
         simpl; rewrite attr_lookup_set_eq; by apply ordered_set_roundtrip).
  unfold class_list. by rewrite Ea.
Qed.

Lemma class_update_other m n l d : m <> n -> elem_of m (class_update n l d) = elem_of m d.
Proof.
  intros Hne. unfold class_update.
  destruct (get_attribute n "class" d), l; try done; by rewrite elem_of_upd, decide_False.
Qed.

Lemma class_list_update_other m n l d : m <> n -> class_list m (class_update n l d) = class_list m d.
Proof. intros Hne. unfold class_list, get_attribute. by rewrite class_update_other. Qed.

Lemma list_add_spec cs l :
  NoDup l -> NoDup (list_add cs l) /\ (forall x, In x (list_add cs l) <-> In x cs \/ In x l).
Proof.
  unfold list_add. revert l. induction cs as [|c cs IH]; intros l Hnd; simpl; [naive_solver|].
  destruct (existsb (String.eqb c) l) eqn:E.
  - destruct (IH l Hnd) as [Hnd' Hin]. split; [done|]. intros x. rewrite Hin.
    apply existsb_exists in E as (y & Hy & Hcy). apply String.eqb_eq in Hcy. subst. naive_solver.
  - assert (~ In c l) as Hc.
    { intros Hc. assert (existsb (String.eqb c) l = true); [|congruence].
      apply existsb_exists. exists c. by rewrite String.eqb_refl. }
    destruct (IH (l ++ [c])%list) as [Hnd' Hin].
    { apply NoDup_app. split; [done|]. split; [|apply NoDup_singleton].
      intros x Hx Hx'. apply list_elem_of_singleton in Hx'. subst. by apply Hc, list_elem_of_In. }
    split; [done|]. intros x. rewrite Hin, in_app_iff. simpl. naive_solver.
Qed.

Lemma list_add_valid cs l :
  Forall (fun c => valid_token c = true) cs -> Forall (fun c => valid_token c = true) l ->
  Forall (fun c => valid_token c = true) (list_add cs l).
Proof.
  unfold list_add. revert l. induction cs as [|c cs IH]; intros l Hcs Hl; simpl; [done|].
  apply Forall_cons in Hcs as [Hc Hcs]. apply IH; [done|].
  destruct (existsb (String.eqb c) l); [done|]. apply Forall_app. split; [done|by constructor].
Qed.

Lemma list_remove_spec cs l :
  NoDup l -> NoDup (list_remove cs l) /\ (forall x, In x (list_remove cs l) <-> In x l /\ ~ In x cs).
Proof.
  intros Hnd. unfold list_remove. split; [apply NoDup_ListNoDup, List.NoDup_filter, NoDup_ListNoDup; done|].
  intros x. rewrite filter_In, negb_true_iff.
  assert (existsb (String.eqb x) cs = false <-> ~ In x cs); [|naive_solver].
  rewrite <- not_true_iff_false, existsb_exists.
  split; intros H1 H2; apply H1; [by exists x; rewrite String.eqb_refl|].
  destruct H2 as (y & Hy & Hxy). apply String.eqb_eq in Hxy. by subst.
Qed.

Lemma list_remove_valid cs l :
  Forall (fun c => valid_token c = true) l -> Forall (fun c => valid_token c = true) (list_remove cs l).
Proof.
  intros Hl. unfold list_remove. apply List.Forall_forall. intros x Hx.
  apply filter_In in Hx as [Hx _]. by apply (proj1 (List.Forall_forall _ _) Hl).
Qed.

#[export] Hint Resolve class_list_spec list_add_valid list_remove_valid : iframe.

(** [classList.add] makes the tokens members and keeps the others. *)
Lemma class_add_members n cs d e c :
  elem_of n d = Some e -> check_tokens cs = None ->
  In c (class_list n (class_update n (list_add cs (class_list n d)) d)) <-> In c cs \/ In c (class_list n d).
Proof.
  intros He Hcs. apply check_tokens_None in Hcs. destruct (class_list_spec n d) as [Hnd Hv].
  destruct (list_add_spec cs _ Hnd) as [Hnd' Hin].
  rewrite (class_list_update_same n _ d e) by eauto with iframe. apply Hin.
Qed.

(** [classList.remove] removes the tokens and keeps the others. *)
Lemma class_remove_members n cs d e c :
  elem_of n d = Some e ->
  In c (class_list n (class_update n (list_remove cs (class_list n d)) d)) <-> In c (class_list n d) /\ ~ In c cs.
Proof.
  intros He. destruct (class_list_spec n d) as [Hnd Hv].
  destruct (list_remove_spec cs _ Hnd) as [Hnd' Hin].
  rewrite (class_list_update_same n _ d e) by eauto with iframe. apply Hin.
Qed.

(** ** Lemmas: queries are invariant under attribute changes they do not read *)

Lemma find_kids_ext (rec rec' : nid -> option nid) p p' ks d d' :
  (forall c, rec c = rec' c) ->
  (forall c, option_map p (elem_of c d) = option_map p' (elem_of c d')) ->
  find_kids rec p ks d = find_kids rec' p' ks d'.
Proof.
  intros Hrec Hp. induction ks as [|[c|s] ks IH]; simpl; [done| |exact IH].
  specialize (Hp c). rewrite Hrec, IH.
  destruct (elem_of c d), (elem_of c d'); simpl in Hp; simplify_eq; [|done].
  by rewrite Hp.
Qed.

Lemma find_desc_ext f p p' n d d' :
  (forall c, kids_of c d = kids_of c d') ->
  (forall c, option_map p (elem_of c d) = option_map p' (elem_of c d')) ->
  find_desc f p n d = find_desc f p' n d'.
Proof.
  intros Hk Hp. revert n. induction f as [|f IH]; intros n; [done|]. simpl.
  rewrite Hk. apply find_kids_ext; [intros c; apply IH|done].
Qed.

(** Changing the [class] attribute of a node. *)
Lemma class_update_cases n l d :
  class_update n l d = d \/
  class_update n l d = upd n (fun e => with_attrs (attr_set "class" (ordered_set_serialize l) (e_attrs e)) e) d.
Proof. unfold class_update. destruct (get_attribute n "class" d), l; auto. Qed.

Lemma class_update_next n l d : d_next (class_update n l d) = d_next d.
Proof. by destruct (class_update_cases n l d) as [->| ->]. Qed.

Lemma class_update_kids c n l d : kids_of c (class_update n l d) = kids_of c d.
Proof.
  destruct (class_update_cases n l d) as [->| ->]; [done|].
  unfold kids_of. rewrite elem_of_upd. case_decide; [subst|done].
  by destruct (elem_of n d).
Qed.

Lemma class_update_exists c n l d : is_Some (elem_of c (class_update n l d)) <-> is_Some (elem_of c d).
Proof.
  destruct (class_update_cases n l d) as [->| ->]; [done|].
  rewrite elem_of_upd. case_decide; [subst|done]. by rewrite fmap_is_Some.
Qed.

Lemma class_update_parent c n l d : parent_element c (class_update n l d) = parent_element c d.
Proof.
  destruct (class_update_cases n l d) as [->| ->]; [done|].
  unfold parent_element. rewrite elem_of_upd. case_decide; [subst|done].
  by destruct (elem_of n d).
Qed.

Lemma class_update_id c n l d :
  option_map (fun e => attr_lookup "id" (e_attrs e)) (elem_of c (class_update n l d)) =
  option_map (fun e => attr_lookup "id" (e_attrs e)) (elem_of c d).
Proof.
  destruct (class_update_cases n l d) as [->| ->]; [done|].
  rewrite elem_of_upd. case_decide; [subst|done].
  destruct (elem_of n d); simpl; [|done]. by rewrite attr_lookup_set_ne.
Qed.

(** [getElementById] does not read [class] attributes. *)
Lemma get_element_by_id_class_update doc id n l d :
  get_element_by_id doc id (class_update n l d) = get_element_by_id doc id d.
Proof.
  unfold get_element_by_id, dom_fuel. rewrite class_update_next.
  apply find_desc_ext; [intros c; apply class_update_kids|].
  intros c. pose proof (class_update_id c n l d) as Hid.
  destruct (elem_of c (class_update n l d)), (elem_of c d); simpl in *; simplify_eq; [|done].
  by rewrite Hid.
Qed.

(** ** Lemmas: sequences of [class] changes *)

(** [class_edits S d d']: [d'] is [d] after changes of the [class]
    attribute of nodes in [S]. *)
Definition class_edits (S : nid -> Prop) : relation dom :=
  rtc (fun d d' => exists n l, S n /\ d' = class_update n l d).

Lemma class_edits_step (S : nid -> Prop) n l d d' :
  S n -> class_edits S d d' -> class_edits S d (class_update n l d').
Proof. intros Hn Hd. eapply rtc_r; [exact Hd|]. eauto. Qed.

Lemma class_edits_once (S : nid -> Prop) n l d :
  S n -> class_edits S d (class_update n l d).
Proof. intros Hn. apply class_edits_step; [done|apply rtc_refl]. Qed.

Lemma class_edits_weaken (S S' : nid -> Prop) d d' :
  (forall n, S n -> S' n) -> class_edits S d d' -> class_edits S' d d'.
Proof.
  intros HS Hd. induction Hd as [|d1 d2 d3 (n & l & Hn & ->) _ IH]; [apply rtc_refl|].
  eapply rtc_l; [|exact IH]. eauto.
Qed.

Lemma class_edits_trans S d1 d2 d3 : class_edits S d1 d2 -> class_edits S d2 d3 -> class_edits S d1 d3.
Proof. intros H1 H2. by etrans. Qed.

(** What [class] changes leave alone: the allocation counter, the
    children and parents, which nodes exist, and every [id]. *)
Record same_shape (d d' : dom) : Prop := {
  shape_next : d_next d' = d_next d;
  shape_kids : forall c, kids_of c d' = kids_of c d;
  shape_parent : forall c, parent_element c d' = parent_element c d;
  shape_exists : forall c, is_Some (elem_of c d') <-> is_Some (elem_of c d);
  shape_id : forall c, option_map (fun e => attr_lookup "id" (e_attrs e)) (elem_of c d') =
                       option_map (fun e => attr_lookup "id" (e_attrs e)) (elem_of c d)
}.

Lemma class_edits_shape S d d' : class_edits S d d' -> same_shape d d'.
Proof.
  intros Hd. induction Hd as [d|d1 d2 d3 (n & l & Hn & ->) _ IH].
  - by split.
  - destruct IH as [H1 H2 H3 H4 H5]. split.
    + by rewrite H1, class_update_next.
    + intros c. by rewrite H2, class_update_kids.
    + intros c. by rewrite H3, class_update_parent.
    + intros c. by rewrite H4, class_update_exists.
    + intros c. by rewrite H5, class_update_id.
Qed.

Lemma class_edits_other S d d' m : class_edits S d d' -> ~ S m -> elem_of m d' = elem_of m d.
Proof.
  intros Hd Hm. induction Hd as [d|d1 d2 d3 (n & l & Hn & ->) _ IH]; [done|].
  rewrite IH. apply class_update_other. congruence.
Qed.

Lemma same_shape_get_element_by_id doc id d d' :
  same_shape d d' -> get_element_by_id doc id d' = get_element_by_id doc id d.
Proof.
  intros [Hn Hk _ _ Hid]. unfold get_element_by_id, dom_fuel. rewrite Hn.
  apply find_desc_ext; [done|]. intros c. specialize (Hid c).
  destruct (elem_of c d'), (elem_of c d); simpl in *; simplify_eq; [|done]. by rewrite Hid.
Qed.

(** A [class] attribute is in normal form when it is absent or is the
    serialization of its token set; every [classList] update leaves it so. *)
Definition class_normal (n : nid) (d : dom) : Prop :=
  get_attribute n "class" d = None \/
  get_attribute n "class" d = Some (ordered_set_serialize (class_list n d)).

Lemma attr_set_same k v a : attr_lookup k a = Some v -> attr_set k v a = a.
Proof.
  induction a as [|[k' v'] a IH]; simpl; [done|].
  destruct (String.eqb k k') eqn:E; intros Hl; [|by rewrite IH].
  apply String.eqb_eq in E. by simplify_eq.
Qed.

Lemma upd_id n f d : (forall e, elem_of n d = Some e -> f e = e) -> upd n f d = d.
Proof.
  intros Hf. destruct d as [m nx]. unfold upd; simpl. f_equal.
  apply map_eq. intros i. destruct (decide (i = n)) as [->|Hne].
  - rewrite lookup_alter_eq. unfold elem_of in Hf; simpl in Hf.
    destruct (m !! n) eqn:E; simpl; [by rewrite Hf|done].
  - by rewrite lookup_alter_ne.
Qed.

Lemma class_update_noop n d : class_normal n d -> class_update n (class_list n d) d = d.
Proof.
  intros Hn. unfold class_update.
  destruct Hn as [Hn|Hn]; rewrite Hn.
  - unfold class_list. by rewrite Hn.
  - destruct (class_list n d) as [|x l] eqn:E;
      apply upd_id; intros [t a k p] He; unfold with_attrs; simpl; f_equal; apply attr_set_same;
      unfold get_attribute in Hn; rewrite He in Hn; rewrite ?E in Hn; exact Hn.
Qed.

Lemma class_update_normal n l d e :
  elem_of n d = Some e -> NoDup l -> Forall (fun c => valid_token c = true) l ->
  class_normal n (class_update n l d).
Proof.
  intros He Hnd Hv. unfold class_normal. rewrite (class_list_update_same n l d e) by done.
  unfold class_update. destruct (get_attribute n "class" d) eqn:Ea, l as [|x l];
    try (right; unfold get_attribute; rewrite elem_of_upd, decide_True, He by done;
         simpl; by rewrite attr_lookup_set_eq).
  by left.
Qed.

Lemma list_add_present c l : In c l -> list_add [c] l = l.
Proof.
  intros Hc. unfold list_add; simpl.
  replace (existsb (String.eqb c) l) with true; [done|]. symmetry.
  apply existsb_exists. exists c. by rewrite String.eqb_refl.
Qed.

Lemma list_remove_absent c l : ~ In c l -> list_remove [c] l = l.
Proof.
  intros Hc. unfold list_remove. induction l as [|x l IH]; [done|]. simpl.
  destruct (String.eqb x c) eqn:E.
  - apply String.eqb_eq in E. subst. exfalso. apply Hc. by left.
  - simpl. f_equal. apply IH. intros H'. apply Hc. by right.
Qed.
