(* ===== verification/Alloc.v ===== *)
(** * Alloc: the nodes [innerHTML] allocates, and reading them back

    Writing [el.innerHTML = s] allocates the nodes of [html_parse s] at
    fresh ids, in document order, from [d_next].  This file shows that
    the allocation leaves every older node as it was, advances [d_next]
    by the number of elements parsed ([tsize]), and that the fresh nodes
    read back ([tree_of]) as the parsed trees in any later heap that left
    the fresh range alone ([same_from]).  Hence reading [innerHTML] after
    writing it gives [html_serialize (html_parse s)]
    ([set_inner_html_spec], [inner_html_trees]). *)

From S2P Require Import Prelude Markup Dom.

(** The number of elements of a tree, and of a forest. *)
Fixpoint tsize (t : tree) : nat :=
  match t with
  | TText _ => 0
  | TElem _ _ ks => S (sum_list_with tsize ks)
  end.

Definition fsize (ts : list tree) : nat := sum_list_with tsize ts.

(** Induction on trees with a hypothesis for every child. *)
Section TreeInd.
Variable P : tree -> Prop.
Hypothesis HText : forall s, P (TText s).
Hypothesis HElem : forall tg a ks, Forall P ks -> P (TElem tg a ks).

Fixpoint tree_ind' (t : tree) : P t :=
  match t with
  | TText s => HText s
  | TElem tg a ks =>
      HElem tg a ks
        ((fix go (ks : list tree) : Forall P ks :=
            match ks with
            | [] => @List.Forall_nil _ P
            | k :: ks' => @List.Forall_cons _ P k ks' (tree_ind' k) (go ks')
            end) ks)
  end.
End TreeInd.

(** [d'] has the nodes of [d] at the ids from [lo] to [hi]. *)
Definition same_from (lo hi : positive) (d d' : dom) : Prop :=
  forall n, (lo <= n < hi)%positive -> elem_of n d' = elem_of n d.

Lemma same_from_refl lo hi d : same_from lo hi d d.
Proof. done. Qed.

(** What one allocation guarantees. *)
Definition tree_alloc_ok (t : tree) : Prop :=
  forall p d c d', alloc_tree p t d = (c, d') ->
    Pos.to_nat (d_next d') = Pos.to_nat (d_next d) + tsize t /\
    (forall m, (m < d_next d)%positive -> elem_of m d' = elem_of m d) /\
    (forall f d'', tsize t <= f -> same_from (d_next d) (d_next d') d' d'' -> tree_of f c d'' = t) /\
    (forall m, c = CElem m -> m = d_next d /\ (m < d_next d')%positive /\ parent_element m d' = Some p).

Definition forest_alloc_ok (ts : list tree) : Prop :=
  forall p d cs d', alloc_forest p ts d = (cs, d') ->
    Pos.to_nat (d_next d') = Pos.to_nat (d_next d) + fsize ts /\
    (forall m, (m < d_next d)%positive -> elem_of m d' = elem_of m d) /\
    (forall f d'', fsize ts <= f -> same_from (d_next d) (d_next d') d' d'' ->
       map (fun k => tree_of f k d'') cs = ts) /\
    (forall m, In (CElem m) cs ->
       (d_next d <= m < d_next d')%positive /\ parent_element m d' = Some p).

(** ** Lemmas *)

Lemma same_from_weaken lo hi lo' hi' d d' :
  (lo <= lo')%positive -> (hi' <= hi)%positive -> same_from lo hi d d' -> same_from lo' hi' d d'.
Proof. intros ?? H n ?. apply H. lia. Qed.

Lemma same_from_trans lo hi d1 d2 d3 :
  same_from lo hi d1 d2 -> same_from lo hi d2 d3 -> same_from lo hi d1 d3.
Proof. intros H12 H23 n Hn. by rewrite H23, H12. Qed.

(** Nodes below [lo] unchanged from [d] to [d'], and [d'] agreeing with
    [d''] above: [d''] agrees with [d] on the range below [lo]. *)
Lemma same_from_below lo hi d d' :
  (forall m, (m < hi)%positive -> elem_of m d' = elem_of m d) ->
  same_from lo hi d d'.
Proof. intros H n Hn. apply H. lia. Qed.

Lemma tree_of_text f s d : tree_of f (CText s) d = TText s.
Proof. by destruct f. Qed.

Lemma elem_of_insert m n e (d : gmap nid elem) nx :
  elem_of m (mkDom (<[n := e]> d) nx) = if bool_decide (m = n) then Some e else d !! m.
Proof.
  unfold elem_of. simpl. case_bool_decide; subst; [by rewrite lookup_insert_eq|].
  by rewrite lookup_insert_ne.
Qed.

Lemma alloc_tree_elem p tg a ks d :
  alloc_tree p (TElem tg a ks) d =
  let n := d_next d in
  let '(cs, d2) := alloc_forest n ks (mkDom (<[n := mkElem tg a [] (Some p)]> (d_nodes d)) (Pos.succ n)) in
  (CElem n, upd n (with_kids cs) d2).
Proof.
  cbn [alloc_tree].
  match goal with |- context [?go ks ?d1] =>
    assert (E : forall ts d0, go ts d0 = alloc_forest (d_next d) ts d0) end.
  { induction ts as [|t ts IH]; intros d0; [done|]. simpl.
    destruct (alloc_tree (d_next d) t d0). by rewrite IH. }
  by rewrite E.
Qed.

Lemma elem_of_upd_ne m n f d : m <> n -> elem_of m (upd n f d) = elem_of m d.
Proof. intros H. rewrite elem_of_upd. by case_decide. Qed.

Lemma elem_of_upd_eq n f d : elem_of n (upd n f d) = f <$> elem_of n d.
Proof. rewrite elem_of_upd. by case_decide. Qed.

Lemma parent_element_same m d d' : elem_of m d' = elem_of m d -> parent_element m d' = parent_element m d.
Proof. unfold parent_element. by intros ->. Qed.

Lemma forest_of_trees ts : Forall tree_alloc_ok ts -> forest_alloc_ok ts.
Proof.
  induction ts as [|t ts IH]; intros HF p d cs d' E; simpl in E.
  - simplify_eq. split; [simpl; lia|]. split; [done|]. split; [done|]. by intros ? [].
  - apply Forall_cons in HF as [Ht Hts].
    destruct (alloc_tree p t d) as [c d1] eqn:E1. destruct (alloc_forest p ts d1) as [cs1 d2] eqn:E2.
    injection E as <- <-.
    destruct (Ht p d c d1 E1) as (N1 & B1 & R1 & P1).
    destruct (IH Hts p d1 cs1 d2 E2) as (N2 & B2 & R2 & P2).
    assert (Hs : forall k, k = tsize t + fsize ts -> fsize (t :: ts) = k) by (intros; subst; done).
    split; [rewrite (Hs _ eq_refl); lia|].
    split; [intros m Hm; rewrite B2 by lia; by apply B1|].
    split.
    + intros f d'' Hf Hsame. rewrite (Hs _ eq_refl) in Hf. simpl. f_equal.
      * apply R1; [lia|]. intros n Hn. rewrite Hsame by lia. apply B2. lia.
      * apply R2; [lia|]. eapply same_from_weaken; [| |exact Hsame]; lia.
    + intros m [Hm|Hm].
      * destruct (P1 m Hm) as (-> & Hlt & Hp). split; [lia|].
        rewrite <- Hp. apply parent_element_same, B2. lia.
      * destruct (P2 m Hm) as (Hr & Hp). split; [lia|done].
Qed.

Lemma tree_of_forest tg a ks : forest_alloc_ok ks -> tree_alloc_ok (TElem tg a ks).
Proof.
  intros HF p d c d' E. rewrite alloc_tree_elem in E. cbv zeta in E.
  set (n := d_next d) in E.
  set (d1 := mkDom (<[n := mkElem tg a [] (Some p)]> (d_nodes d)) (Pos.succ n)) in E.
  destruct (alloc_forest n ks d1) as [cs d2] eqn:E2. injection E as <- <-.
  destruct (HF n d1 cs d2 E2) as (N & B & R & P).
  assert (N1 : Pos.to_nat (d_next d1) = S (Pos.to_nat n)) by apply Pos2Nat.inj_succ.
  assert (Hn : elem_of n d2 = Some (mkElem tg a [] (Some p))).
  { rewrite B by (simpl; lia). unfold d1. rewrite elem_of_insert. by case_bool_decide. }
  assert (Hn' : elem_of n (upd n (with_kids cs) d2) = Some (mkElem tg a cs (Some p))).
  { by rewrite elem_of_upd_eq, Hn. }
  simpl (d_next (upd _ _ _)). simpl tsize. fold (fsize ks).
  split; [lia|]. split; [|split].
  - intros m Hm. rewrite elem_of_upd_ne, B by (simpl; lia).
    unfold d1. rewrite elem_of_insert. case_bool_decide; [lia|done].
  - intros [|f] d'' Hf Hs; [lia|]. simpl. rewrite Hs by lia. rewrite Hn'. simpl. f_equal.
    apply R; [lia|]. intros k Hk. rewrite Hs by (simpl in Hk; lia).
    apply elem_of_upd_ne. simpl in Hk. lia.
  - intros m [= <-]. split; [done|]. split; [lia|]. unfold parent_element. by rewrite Hn'.
Qed.

Lemma alloc_tree_ok t : tree_alloc_ok t.
Proof.
  induction t as [s|tg a ks IH] using tree_ind'.
  - intros p d c d' [= <- <-]. split; [simpl; lia|]. split; [done|]. split; [|done].
    intros f d'' _ _. apply tree_of_text.
  - by apply tree_of_forest, forest_of_trees.
Qed.

Lemma alloc_forest_ok ts : forest_alloc_ok ts.
Proof. apply forest_of_trees, List.Forall_forall. intros t _. apply alloc_tree_ok. Qed.

(** ** [innerHTML] *)

Section InnerHTML.
Context `{HtmlSyntax}.

(** The first step of [set_inner_html]: the old children lose their parent. *)
Definition clear_parents (ks : list child) (d : dom) : dom :=
  fold_left (fun d k => match k with CElem c => upd c (with_parent None) d | CText _ => d end) ks d.

Lemma clear_parents_spec ks d :
  d_next (clear_parents ks d) = d_next d /\
  forall m, (CElem m ∉ ks -> elem_of m (clear_parents ks d) = elem_of m d) /\
            (elem_of m (clear_parents ks d) = elem_of m d \/
             elem_of m (clear_parents ks d) = with_parent None <$> elem_of m d).
Proof.
  unfold clear_parents. revert d. induction ks as [|[c|t] ks IH]; intros d; simpl; [naive_solver|..].
  - destruct (IH (upd c (with_parent None) d)) as [Hn Hm]. split; [done|]. intros m.
    destruct (Hm m) as [Hm1 Hm2]. rewrite elem_of_upd in Hm1, Hm2. case_decide; subst; split.
    + intros Hin. by destruct Hin; left.
    + destruct (elem_of c d); [|naive_solver]. destruct Hm2 as [-> | ->]; [by right|].
      right. simpl. by destruct e.
    + intros Hin. apply Hm1. intros ?. apply Hin. by right.
    + done.
  - destruct (IH d) as [Hn Hm]. split; [done|]. intros m. destruct (Hm m) as [Hm1 Hm2].
    split; [|done]. intros Hin. apply Hm1. intros ?. apply Hin. by right.
Qed.

Lemma set_inner_html_unfold n s d :
  exists cs d2,
    alloc_forest n (html_parse s) (clear_parents (kids_of n d) d) = (cs, d2) /\
    set_inner_html n s d = Done tt (upd n (with_kids cs) d2).
Proof.
  unfold set_inner_html. fold (clear_parents (kids_of n d) d).
  destruct (alloc_forest _ _ _) as [cs d2]. by exists cs, d2.
Qed.

Lemma kids_of_some n d e : elem_of n d = Some e -> kids_of n d = e_kids e.
Proof. unfold kids_of. by intros ->. Qed.

(** Writing [innerHTML] on a node [n] of the heap: the fresh nodes come
    after [d_next d], the other nodes are untouched, [n] keeps its tag
    and attributes and gets the fresh nodes as children, each of which has
    [n] as parent, and in any later heap that left the fresh nodes and
    the children of [n] alone the children of [n] read back as the
    parsed trees. *)
Lemma set_inner_html_spec n s d e :
  elem_of n d = Some e -> (n < d_next d)%positive ->
  exists d', set_inner_html n s d = Done tt d' /\
    Pos.to_nat (d_next d') = Pos.to_nat (d_next d) + fsize (html_parse s) /\
    (forall m, (m < d_next d)%positive -> m <> n -> CElem m ∉ e_kids e -> elem_of m d' = elem_of m d) /\
    (exists e1, (e1 = e \/ e1 = with_parent None e) /\ elem_of n d' = Some (with_kids (kids_of n d') e1)) /\
    (forall m, In (CElem m) (kids_of n d') ->
       (d_next d <= m < d_next d')%positive /\ parent_element m d' = Some n) /\
    (forall d'', same_from (d_next d) (d_next d') d' d'' -> kids_of n d'' = kids_of n d' ->
       (d_next d' <= d_next d'')%positive ->
       map (fun k => tree_of (dom_fuel d'') k d'') (kids_of n d'') = html_parse s).
Proof.
  intros He Hn. destruct (set_inner_html_unfold n s d) as (cs & d2 & E2 & ->).
  eexists; split; [done|]. rewrite (kids_of_some _ _ _ He) in E2.
  destruct (clear_parents_spec (e_kids e) d) as [N1 C1].
  destruct (alloc_forest_ok _ n _ cs d2 E2) as (N & B & R & P). rewrite N1 in N, B, P.
  assert (He1 : exists e1, (e1 = e \/ e1 = with_parent None e) /\ elem_of n d2 = Some e1).
  { rewrite B by done. destruct (C1 n) as [_ [-> | ->]]; rewrite He; eauto. }
  destruct He1 as (e1 & He1 & Hn2).
  assert (Hn' : elem_of n (upd n (with_kids cs) d2) = Some (with_kids cs e1)).
  { by rewrite elem_of_upd_eq, Hn2. }
  assert (Hk : kids_of n (upd n (with_kids cs) d2) = cs) by (by rewrite (kids_of_some _ _ _ Hn')).
  simpl (d_next (upd _ _ _)). rewrite Hk. split; [lia|]. split; [|split; [|split]].
  - intros m Hm Hmn Hin. rewrite elem_of_upd_ne, B by done. by apply C1.
  - exists e1. by rewrite Hn'.
  - intros m Hm. destruct (P m Hm) as [Hr Hp]. split; [done|].
    rewrite <- Hp. apply parent_element_same, elem_of_upd_ne. lia.
  - intros d'' Hs Hk'' Hnx. rewrite Hk''. apply R.
    + unfold dom_fuel. assert (Pos.to_nat (d_next d2) <= Pos.to_nat (d_next d'')) by lia. lia.
    + intros k Hk2. rewrite Hs by lia. apply elem_of_upd_ne. lia.
Qed.

(** The old children lose their parent. *)
Lemma clear_parents_orphan ks d m :
  In (CElem m) ks -> parent_element m (clear_parents ks d) = None.
Proof.
  unfold clear_parents. revert d. induction ks as [|k ks IH]; intros d Hin; [done|].
  destruct (List.in_dec child_eq_dec (CElem m) ks) as [Hks|Hks]; [destruct k; by apply IH|].
  destruct Hin as [->|]; [|done]. simpl.
  destruct (clear_parents_spec ks (upd m (with_parent None) d)) as [_ Hc].
  unfold clear_parents in Hc. unfold parent_element.
  rewrite (proj1 (Hc m)) by (by intros ?%list_elem_of_In). rewrite elem_of_upd_eq.
  by destruct (elem_of m d).
Qed.

(** After [el.innerHTML = s], the former children of [el] have no parent. *)
Lemma set_inner_html_orphans n s d d' m :
  set_inner_html n s d = Done tt d' -> In (CElem m) (kids_of n d) -> m <> n ->
  (m < d_next d)%positive -> parent_element m d' = None.
Proof.
  intros E Hin Hmn Hm. destruct (set_inner_html_unfold n s d) as (cs & d2 & E2 & E').
  rewrite E in E'. injection E' as ->.
  destruct (alloc_forest_ok _ n _ cs d2 E2) as (_ & B & _ & _).
  destruct (clear_parents_spec (kids_of n d) d) as [N1 _].
  rewrite <- (clear_parents_orphan (kids_of n d) d m Hin).
  apply parent_element_same. rewrite elem_of_upd_ne by done. apply B. by rewrite N1.
Qed.

(** Reading [innerHTML] where the children read back as [ts]. *)
Lemma inner_html_trees n d ts :
  map (fun k => tree_of (dom_fuel d) k d) (kids_of n d) = ts -> inner_html n d = html_serialize ts.
Proof. unfold inner_html. by intros ->. Qed.

End InnerHTML.
