(* ===== verification/Tree.v ===== *)
(** * Tree: the heap is a forest, and the traversal fuel suffices

    The DOM heap of [Dom] is a forest when its links agree and its parent
    pointers have no cycle: [dom_wf].  On such a heap every chain of
    parents is shorter than the number of node ids allocated, so the fuel
    [dom_fuel] that [inclusive_ancestor] (the check of [appendChild]),
    [tree_of] (the read of [innerHTML]) and [find_desc] ([querySelector]
    and [getElementById]) take is enough: each computes the same result as
    with any larger fuel, and [inclusive_ancestor] decides the ancestor
    relation [anc].  The bound is a pigeonhole argument on the ids of a
    chain, which are distinct ([ups_inj]) and allocated. *)

From S2P Require Import Prelude Markup Dom Alloc.

Local Open Scope js_scope.

(** The [k]-th inclusive ancestor of [n], following [parentElement]. *)
Fixpoint ups (k : nat) (n : nid) (d : dom) : option nid :=
  match k with
  | O => Some n
  | S k' => match parent_element n d with Some p => ups k' p d | None => None end
  end.

(** [anc d a n]: [a] is an inclusive ancestor of [n]. *)
Inductive anc (d : dom) (a : nid) : nid -> Prop :=
| anc_refl : anc d a a
| anc_up n p : parent_element n d = Some p -> anc d a p -> anc d a n.

(** A well-formed heap: the ids in use are the ids allocated, a child's
    parent lists it among its children and conversely, and no node is an
    ancestor of its parent. *)
Record dom_wf (d : dom) : Prop := {
  wf_bound : forall n, is_Some (elem_of n d) -> (n < d_next d)%positive;
  wf_kids : forall n c, In (CElem c) (kids_of n d) -> parent_element c d = Some n;
  wf_parent : forall c p, parent_element c d = Some p -> In (CElem c) (kids_of p d);
  wf_acyclic : forall n p, parent_element n d = Some p -> ~ anc d n p;
  wf_dense : forall n, (n < d_next d)%positive -> is_Some (elem_of n d)
}.

(** The chains of ancestors that end at [n] are shorter than [f0]. *)
Definition below_fuel (d : dom) (f0 : nat) (n : nid) : Prop :=
  forall x k, is_Some (elem_of x d) -> ups k x d = Some n -> k < f0.

(** What [dom_wf] asks of one child of node [n]. *)
Definition kid_ok (d : dom) (n : nid) (k : child) : Prop :=
  match k with CElem c => parent_element c d = Some n | CText _ => True end.

(** What [dom_wf] asks of node [n] with record [e]. *)
Definition node_ok (d : dom) (n : nid) (e : elem) : Prop :=
  (n < d_next d)%positive /\ Forall (kid_ok d n) (e_kids e) /\
  match e_parent e with
  | Some p => CElem n ∈ kids_of p d /\ inclusive_ancestor (dom_fuel d) n p d = false
  | None => True
  end.

(** [dom_wf] as a check over the nodes of the heap and the ids below
    [d_next]. *)
Definition dom_check (d : dom) : Prop :=
  map_Forall (node_ok d) (d_nodes d) /\
  Forall (fun i => is_Some (elem_of (Pos.of_nat i) d)) (seq 1 (Pos.to_nat (d_next d) - 1)).

(** A body holding a [div] that holds a text, and a detached [span]. *)
Definition sample_heap : dom :=
  mkDom {[1%positive := mkElem "body" [] [CElem 2%positive] None;
          2%positive := mkElem "div" [] [CText "x"] (Some 1%positive);
          3%positive := mkElem "span" [] [] None]} 4%positive.

(** ** Chains of ancestors *)

Lemma ups_add k j n d : ups (k + j) n d = ups k n d ≫= fun x => ups j x d.
Proof.
  revert n. induction k as [|k IH]; intros n; [done|]. simpl.
  destruct (parent_element n d); [apply IH|done].
Qed.

Lemma ups_S_r k n d : ups (S k) n d = ups k n d ≫= fun x => parent_element x d.
Proof.
  rewrite <- Nat.add_1_r, ups_add. destruct (ups k n d); [simpl|done].
  by destruct (parent_element _ d).
Qed.

Lemma anc_ups d a n : anc d a n <-> exists k, ups k n d = Some a.
Proof.
  split.
  - induction 1 as [|n p Hp _ (k & Hk)]; [by exists 0|]. exists (S k). simpl. by rewrite Hp.
  - intros [k Hk]. revert n Hk. induction k as [|k IH]; intros n Hk; simpl in Hk.
    + injection Hk as ->. constructor.
    + destruct (parent_element n d) eqn:Hp; [|done]. econstructor; [exact Hp|by apply IH].
Qed.

Lemma anc_trans d a b n : anc d a b -> anc d b n -> anc d a n.
Proof. intros Hab. induction 1; [done|]. econstructor; eauto. Qed.

Lemma ups_prefix k i n x d : ups k n d = Some x -> i <= k -> exists y, ups i n d = Some y.
Proof.
  intros Hk Hi. replace k with (i + (k - i)) in Hk by lia. rewrite ups_add in Hk.
  destruct (ups i n d) as [y|]; [by exists y|done].
Qed.

(** The fuel of [inclusive_ancestor] bounds the length of the chain it
    walks. *)
Lemma inclusive_ancestor_ups f a n d :
  inclusive_ancestor f a n d = true <-> exists k, k < f /\ ups k n d = Some a.
Proof.
  revert n. induction f as [|f IH]; intros n; simpl.
  - split; [done|]. intros (k & Hk & _). lia.
  - rewrite orb_true_iff, bool_decide_eq_true. split.
    + intros [->|Hp]; [exists 0; split; [lia|done]|].
      destruct (parent_element n d) as [p|] eqn:E; [|done].
      apply IH in Hp as (k & Hk & Hu). exists (S k). simpl. rewrite E. split; [lia|done].
    + intros ([|k] & Hk & Hu); simpl in Hu; [left; congruence|right].
      destruct (parent_element n d) as [p|]; [|done]. apply IH. exists k. split; [lia|done].
Qed.

(** ** Chains in a heap whose parents exist *)

(** The first [i < k] with [P i], or there is none. *)
Lemma dec_below (P : nat -> Prop) `{forall k, Decision (P k)} k :
  (exists i, i < k /\ P i) \/ (forall i, i < k -> ~ P i).
Proof.
  induction k as [|k [IH|IH]]; [right; lia|left; destruct IH as (i & ? & ?); exists i; split; [lia|done]|].
  destruct (decide (P k)); [left; exists k; split; [lia|done]|right].
  intros i Hi. destruct (decide (i = k)) as [->|]; [done|]. apply IH. lia.
Qed.

Lemma least_index (P : nat -> Prop) `{forall k, Decision (P k)} k :
  P k -> exists m, P m /\ forall i, i < m -> ~ P i.
Proof.
  induction k as [k IH] using lt_wf_ind. intros Hk.
  destruct (dec_below P k) as [(i & Hi & HP)|Hn]; [by apply (IH i)|by exists k].
Qed.

Section Links.
Context (d : dom) (Hb : forall n, is_Some (elem_of n d) -> (n < d_next d)%positive)
  (Hpe : forall c p, parent_element c d = Some p -> is_Some (elem_of p d)).

Lemma ups_S_lt k n x : ups (S k) n d = Some x -> (x < d_next d)%positive.
Proof. rewrite ups_S_r. destruct (ups k n d) as [y|]; [simpl|done]. intros Hx. apply Hb, (Hpe y), Hx. Qed.

(** A chain whose ancestors are distinct is shorter than the number of
    ids allocated: they are allocated ids, and [n] is one more. *)
Lemma chain_bound k n x : ups k n d = Some x ->
  (forall i j y, 0 < i -> i < j <= k -> ups i n d = Some y -> ups j n d = Some y -> False) ->
  k < dom_fuel d.
Proof.
  unfold dom_fuel. destruct k as [|k]; intros Hk Hd; [lia|].
  set (y := fun i => default 1%positive (ups (S i) n d)).
  assert (Hy : forall i, i <= k -> ups (S i) n d = Some (y i)).
  { intros i Hi. destruct (ups_prefix (S k) (S i) n x d Hk) as [z Hz]; [lia|]. unfold y. by rewrite Hz. }
  set (L := map (fun i => Pos.to_nat (y i)) (seq 0 (S k))).
  assert (HL : List.NoDup L).
  { unfold L. apply NoDup_map_NoDup_ForallPairs; [|apply seq_NoDup].
    intros i j Hi%in_seq Hj%in_seq Hij. apply Pos2Nat.inj in Hij.
    destruct (lt_eq_lt_dec i j) as [[Hlt|]|Hlt]; [exfalso|done|exfalso].
    - apply (Hd (S i) (S j) (y i)); [lia|lia|by apply Hy; lia|rewrite Hij; by apply Hy; lia].
    - apply (Hd (S j) (S i) (y j)); [lia|lia|by apply Hy; lia|rewrite <- Hij; by apply Hy; lia]. }
  assert (Hinc : incl L (seq 1 (Pos.to_nat (d_next d) - 1))).
  { intros z (i & <- & Hi%in_seq)%in_map_iff. apply in_seq.
    assert (Hlt := ups_S_lt i n _ (Hy i ltac:(lia))). lia. }
  pose proof (NoDup_incl_length HL Hinc) as Hlen.
  unfold L in Hlen. rewrite length_map, !length_seq in Hlen. lia.
Qed.

(** The shortest chain from [n] to [a] visits no node twice. *)
Lemma least_chain_bound k n a : ups k n d = Some a -> exists m, m < dom_fuel d /\ ups m n d = Some a.
Proof.
  intros Hk. destruct (least_index (fun k => ups k n d = Some a) k Hk) as (m & Hm & Hmin).
  exists m. split; [|done]. apply (chain_bound m n a Hm). intros i j y _ Hij Hi Hj.
  apply (Hmin (i + (m - j))); [lia|].
  replace m with (j + (m - j)) in Hm by lia. rewrite ups_add, Hj in Hm. by rewrite ups_add, Hi.
Qed.

(** [inclusive_ancestor] with the fuel [dom_fuel] decides [anc]. *)
Lemma inclusive_ancestor_anc_links a n :
  inclusive_ancestor (dom_fuel d) a n d = true <-> anc d a n.
Proof.
  rewrite inclusive_ancestor_ups, anc_ups. split; [naive_solver|].
  intros [k Hk]. by apply (least_chain_bound k n a).
Qed.

End Links.

Section WellFormed.
Context (d : dom) (Hwf : dom_wf d).

Lemma wf_parent_exists c p : parent_element c d = Some p -> is_Some (elem_of p d).
Proof.
  intros Hp. apply (wf_parent d Hwf) in Hp. unfold kids_of in Hp.
  destruct (elem_of p d); [by eexists|done].
Qed.

Lemma wf_child_exists c p : parent_element c d = Some p -> is_Some (elem_of c d).
Proof. unfold parent_element. destruct (elem_of c d); [by eexists|done]. Qed.

(** The ids of a chain are distinct. *)
Lemma ups_inj i j n x : ups i n d = Some x -> ups j n d = Some x -> i = j.
Proof.
  assert (H : forall i m, ups i n d = Some x -> ups (i + S m) n d = Some x -> False).
  { intros i' m Hi Hj. rewrite ups_add, Hi in Hj. simpl in Hj.
    destruct (parent_element x d) as [p|] eqn:Hp; [|done].
    apply (wf_acyclic d Hwf x p Hp), anc_ups. by exists m. }
  intros Hi Hj. destruct (lt_eq_lt_dec i j) as [[Hlt|]|Hlt]; [|done|].
  - exfalso. apply (H i (j - S i)); [done|]. by replace (i + S (j - S i)) with j by lia.
  - exfalso. apply (H j (i - S j)); [done|]. by replace (j + S (i - S j)) with i by lia.
Qed.

(** Every chain of ancestors is shorter than the number of ids
    allocated. *)
Lemma ups_bound k n x : ups k n d = Some x -> k < dom_fuel d.
Proof.
  intros Hk. apply (chain_bound d (wf_bound d Hwf) wf_parent_exists k n x Hk).
  intros i j y _ Hij Hi Hj. pose proof (ups_inj i j n y Hi Hj). lia.
Qed.

Lemma inclusive_ancestor_anc a n :
  inclusive_ancestor (dom_fuel d) a n d = true <-> anc d a n.
Proof. apply inclusive_ancestor_anc_links; [apply (wf_bound d Hwf)|apply wf_parent_exists]. Qed.

Lemma below_fuel_kid g n c :
  below_fuel d (S g) n -> In (CElem c) (kids_of n d) -> below_fuel d g c.
Proof.
  intros Hb Hc x k Hx Hk. apply (wf_kids d Hwf) in Hc.
  assert (k + 1 < S g); [|lia]. apply (Hb x); [done|]. by rewrite ups_add, Hk; simpl; rewrite Hc.
Qed.

Lemma below_fuel_absent n : below_fuel d 0 n -> elem_of n d = None.
Proof.
  intros Hb. destruct (elem_of n d) eqn:E; [|done]. exfalso.
  assert (0 < 0); [|lia]. apply (Hb n 0); [by rewrite E|done].
Qed.

Lemma below_fuel_dom n : below_fuel d (dom_fuel d) n.
Proof. intros x k _ Hk. by apply (ups_bound k x n). Qed.

Lemma tree_of_below f0 n :
  below_fuel d f0 n -> forall f, f0 <= f -> tree_of f (CElem n) d = tree_of f0 (CElem n) d.
Proof.
  revert n. induction f0 as [|g IH]; intros n Hb f Hf.
  - destruct f; [done|]. cbn [tree_of]. by rewrite (below_fuel_absent n Hb).
  - destruct f as [|f]; [lia|]. cbn [tree_of]. destruct (elem_of n d) as [e|] eqn:E; [|done].
    f_equal. apply map_ext_in. intros [c|t] Hc; [|by rewrite !tree_of_text].
    apply IH; [|lia]. apply (below_fuel_kid g n c Hb). by rewrite (kids_of_some _ _ _ E).
Qed.

Lemma find_kids_ext_in (rec rec' : nid -> option nid) p ks :
  (forall c, In (CElem c) ks -> rec c = rec' c) -> find_kids rec p ks d = find_kids rec' p ks d.
Proof.
  induction ks as [|[c|t] ks IH]; intros Hr; simpl; [done| |apply IH; intros; apply Hr; by right].
  rewrite Hr by (by left). rewrite IH by (intros; apply Hr; by right). done.
Qed.

Lemma find_desc_below f0 p n :
  below_fuel d f0 n -> forall f, f0 <= f -> find_desc f p n d = find_desc f0 p n d.
Proof.
  revert n. induction f0 as [|g IH]; intros n Hb f Hf.
  - destruct f; [done|]. cbn [find_desc]. unfold kids_of. by rewrite (below_fuel_absent n Hb).
  - destruct f as [|f]; [lia|]. cbn [find_desc]. apply find_kids_ext_in. intros c Hc.
    apply IH; [|lia]. by apply (below_fuel_kid g n c Hb).
Qed.

End WellFormed.

(** ** Deciding well-formedness *)

#[export] Instance kid_ok_dec d n k : Decision (kid_ok d n k).
Proof. destruct k; simpl; apply _. Defined.

#[export] Instance node_ok_dec d n e : Decision (node_ok d n e).
Proof. unfold node_ok. destruct (e_parent e); apply _. Defined.

#[export] Instance dom_check_dec d : Decision (dom_check d).
Proof. unfold dom_check. apply _. Defined.

Lemma elem_of_parent d c e : elem_of c d = Some e -> parent_element c d = e_parent e.
Proof. unfold parent_element. by intros ->. Qed.

Lemma dom_check_sound d : dom_check d -> dom_wf d.
Proof.
  intros [Hn Hs].
  assert (Hok : forall n e, elem_of n d = Some e -> node_ok d n e) by (intros; by apply Hn).
  assert (Hb : forall n, is_Some (elem_of n d) -> (n < d_next d)%positive).
  { intros n [e He]. apply (Hok n e He). }
  assert (Hp : forall c p, parent_element c d = Some p -> CElem c ∈ kids_of p d /\
                 inclusive_ancestor (dom_fuel d) c p d = false).
  { intros c p. unfold parent_element. destruct (elem_of c d) as [e|] eqn:E; [|done].
    intros He. destruct (Hok c e E) as (_ & _ & Hpar). by rewrite He in Hpar. }
  assert (Hpe : forall c p, parent_element c d = Some p -> is_Some (elem_of p d)).
  { intros c p (Hin & _)%Hp. unfold kids_of in Hin. destruct (elem_of p d); [by eexists|].
    inversion Hin. }
  split; [done| | | |].
  - intros n c Hc. unfold kids_of in Hc. destruct (elem_of n d) as [e|] eqn:E; [|done].
    destruct (Hok n e E) as (_ & Hk & _). by apply (proj1 (List.Forall_forall _ _) Hk) in Hc.
  - intros c p (Hin & _)%Hp. by apply list_elem_of_In.
  - intros n p Hnp Ha. destruct (Hp n p Hnp) as [_ Hf].
    by apply (inclusive_ancestor_anc_links d Hb Hpe) in Ha; rewrite Ha in Hf.
  - intros m Hm. rewrite <- (Pos2Nat.id m). apply (proj1 (List.Forall_forall _ _) Hs), in_seq. lia.
Qed.

Lemma dom_check_complete d : dom_wf d -> dom_check d.
Proof.
  intros Hwf. split.
  - intros n e He. split; [apply (wf_bound d Hwf); by eexists|]. split.
    + apply List.Forall_forall. intros [c|t] Hc; [|done]. apply (wf_kids d Hwf).
      by rewrite (kids_of_some _ _ _ He).
    + pose proof (elem_of_parent d n e He) as Hp. destruct (e_parent e) as [p|]; [|done]. split.
      * apply list_elem_of_In, (wf_parent d Hwf), Hp.
      * destruct (inclusive_ancestor _ _ _ _) eqn:Ha; [|done]. exfalso.
        apply (inclusive_ancestor_anc d Hwf) in Ha. by apply (wf_acyclic d Hwf n p).
  - apply List.Forall_forall. intros i Hi%in_seq. apply (wf_dense d Hwf).
    apply Pos2Nat.inj_lt. rewrite Nat2Pos.id by lia. lia.
Qed.

#[export] Instance dom_wf_dec d : Decision (dom_wf d).
Proof.
  destruct (decide (dom_check d)) as [H|H]; [left; by apply dom_check_sound|].
  right. intros Hw. by apply H, dom_check_complete.
Defined.

(** ** Fuel *)

(** On a well-formed heap the fuel [dom_fuel] the DOM traversals take
    is enough: reading the tree of a node (the [innerHTML] getter), the
    descendant search of [querySelector] and [getElementById], and the
    ancestor walk of [appendChild]'s [HierarchyRequestError] check give
    what they give with any larger fuel, and the ancestor walk decides
    the inclusive-ancestor relation [anc]. *)
Theorem traversal_fuel d :
  dom_wf d ->
  (forall f k, dom_fuel d <= f -> tree_of f k d = tree_of (dom_fuel d) k d) /\
  (forall f p n, dom_fuel d <= f -> find_desc f p n d = find_desc (dom_fuel d) p n d) /\
  (forall f a n, dom_fuel d <= f -> inclusive_ancestor f a n d = inclusive_ancestor (dom_fuel d) a n d) /\
  (forall a n, inclusive_ancestor (dom_fuel d) a n d = true <-> anc d a n).
Proof.
  intros Hwf. split_and!.
  - intros f [n|t] Hf; [exact (tree_of_below d Hwf _ n (below_fuel_dom d Hwf n) f Hf)|by rewrite !tree_of_text].
  - intros f p n Hf. exact (find_desc_below d Hwf _ p n (below_fuel_dom d Hwf n) f Hf).
  - intros f a n Hf. apply Bool.eq_true_iff_eq. rewrite inclusive_ancestor_anc, inclusive_ancestor_ups by done.
    rewrite anc_ups. split; [naive_solver|]. intros [k Hk]. exists k. split; [|done].
    pose proof (ups_bound d Hwf k n a Hk). lia.
  - by apply inclusive_ancestor_anc.
Qed.

Lemma traversal_fuel_witness :
  dom_wf sample_heap /\
  tree_of 10 (CElem 1%positive) sample_heap = tree_of (dom_fuel sample_heap) (CElem 1%positive) sample_heap /\
  (inclusive_ancestor (dom_fuel sample_heap) 1%positive 2%positive sample_heap = true <->
   anc sample_heap 1%positive 2%positive).
Proof.
  assert (H : dom_wf sample_heap) by (apply (bool_decide_eq_true_1 _); vm_compute; reflexivity).
  destruct (traversal_fuel sample_heap H) as (Ht & _ & _ & Ha).
  split; [exact H|]. split; [apply Ht; vm_compute; lia|apply Ha].
Defined.
