(* ===== verification/TreeOps.v ===== *)
(** * TreeOps: every DOM operation of the tool keeps the heap a forest

    [dom_wf] of [Tree] is kept by each DOM operation [src/src/index.js]
    calls, on the nodes it calls them on: [classList.add] and [remove]
    and [setAttribute] (which change attributes only),
    [document.createElement], [node.remove()], [appendChild] (whose
    [HierarchyRequestError] check is what keeps the parent pointers
    acyclic) and the [innerHTML] setter (whose fresh nodes point to
    their parent, which is older, or to the node written).  The
    preconditions are those of the call sites: [appendChild] and the
    [innerHTML] setter are called on nodes that exist. *)

From S2P Require Import Prelude Markup Dom Alloc Tree.

Local Open Scope js_scope.

(** [c] keeps the heap a forest, whether it returns or throws. *)
Definition dkeeps {A} (c : M dom A) : Prop :=
  forall d, dom_wf d -> dom_wf (final_state (c d)).

(** ** The links of a heap *)

Record same_links (d d' : dom) : Prop := {
  links_next : d_next d' = d_next d;
  links_kids : forall c, kids_of c d' = kids_of c d;
  links_parent : forall c, parent_element c d' = parent_element c d;
  links_exists : forall c, is_Some (elem_of c d') <-> is_Some (elem_of c d)
}.

(** [anc] in a heap whose parent pointers are among those of [d]. *)
Lemma anc_sub d d' a n :
  (forall x q, parent_element x d' = Some q -> parent_element x d = Some q) ->
  anc d' a n -> anc d a n.
Proof. intros Hs. induction 1; [constructor|]. econstructor; eauto. Qed.

Lemma wf_links d d' : same_links d d' -> dom_wf d -> dom_wf d'.
Proof.
  intros [Hn Hk Hp He] Hwf. split.
  - intros n Hx. rewrite Hn. apply (wf_bound d Hwf). by apply He.
  - intros n c. rewrite Hk, Hp. apply (wf_kids d Hwf).
  - intros c p. rewrite Hk, Hp. apply (wf_parent d Hwf).
  - intros n p Hnp Ha. rewrite Hp in Hnp. apply (wf_acyclic d Hwf n p Hnp).
    eapply anc_sub; [|exact Ha]. intros x q. by rewrite Hp.
  - intros n Hx. apply He, (wf_dense d Hwf). by rewrite <- Hn.
Qed.

Lemma exists_upd m n f d : is_Some (elem_of m (upd n f d)) <-> is_Some (elem_of m d).
Proof. rewrite elem_of_upd. case_decide; [subst|done]. by rewrite fmap_is_Some. Qed.

(** An update that keeps the children and the parent keeps the links. *)
Lemma upd_links n f d :
  (forall e, e_kids (f e) = e_kids e /\ e_parent (f e) = e_parent e) -> same_links d (upd n f d).
Proof.
  intros Hf. split; [done| | |intros; apply exists_upd];
    intros c; unfold kids_of, parent_element; rewrite elem_of_upd;
    (case_decide; [subst; destruct (elem_of n d) as [e|]; simpl; [apply Hf|done]|done]).
Qed.

Lemma class_update_links n l d : same_links d (class_update n l d).
Proof.
  destruct (class_update_cases n l d) as [->| ->]; [by split|]. by apply upd_links.
Qed.

Lemma kids_of_with_parent m n q d : kids_of m (upd n (with_parent q) d) = kids_of m d.
Proof.
  unfold kids_of. rewrite elem_of_upd. case_decide; [subst|done]. by destruct (elem_of n d).
Qed.

Lemma parent_with_kids m n g d :
  parent_element m (upd n (fun e => with_kids (g e) e) d) = parent_element m d.
Proof.
  unfold parent_element. rewrite elem_of_upd. case_decide; [subst|done]. by destruct (elem_of n d).
Qed.

Lemma parent_with_kids' m n l d : parent_element m (upd n (with_kids l) d) = parent_element m d.
Proof. apply (parent_with_kids m n (fun _ => l)). Qed.

Lemma kids_of_with_kids m n g d :
  kids_of m (upd n (fun e => with_kids (g e) e) d) =
  if decide (m = n) then (match elem_of n d with Some e => g e | None => [] end) else kids_of m d.
Proof.
  unfold kids_of. rewrite elem_of_upd. case_decide; [subst|done]. by destruct (elem_of n d).
Qed.

Lemma parent_with_parent m n q d :
  parent_element m (upd n (with_parent q) d) =
  if decide (m = n) then (match elem_of n d with Some _ => q | None => None end)
  else parent_element m d.
Proof.
  unfold parent_element. rewrite elem_of_upd. case_decide; [subst|done]. by destruct (elem_of n d).
Qed.

(** ** Attributes *)

Lemma dkeeps_class_add n cs : dkeeps (class_add n cs).
Proof.
  intros d Hwf. unfold class_add. destruct (check_tokens cs); [done|].
  eapply wf_links; [apply class_update_links|done].
Qed.

Lemma dkeeps_class_remove n cs : dkeeps (class_remove n cs).
Proof.
  intros d Hwf. unfold class_remove. destruct (check_tokens cs); [done|].
  eapply wf_links; [apply class_update_links|done].
Qed.

Lemma dkeeps_set_attribute n k v : dkeeps (set_attribute n k v).
Proof. intros d Hwf. eapply wf_links; [by apply upd_links|done]. Qed.

(** ** [document.createElement] *)

Lemma dkeeps_create_element tag : dkeeps (create_element tag).
Proof.
  intros d Hwf. simpl. set (n := d_next d).
  assert (Hn : elem_of n d = None).
  { destruct (elem_of n d) eqn:E; [|done]. pose proof (wf_bound d Hwf n ltac:(by rewrite E)). lia. }
  assert (Hel : forall m, elem_of m (mkDom (<[n := mkElem tag [] [] None]> (d_nodes d)) (Pos.succ n)) =
                          if decide (m = n) then Some (mkElem tag [] [] None) else elem_of m d).
  { intros m. rewrite elem_of_insert. by case_bool_decide; case_decide. }
  assert (Hp : forall m, parent_element m (mkDom (<[n := mkElem tag [] [] None]> (d_nodes d)) (Pos.succ n)) =
                         parent_element m d).
  { intros m. unfold parent_element. rewrite Hel. case_decide; [subst; by rewrite Hn|done]. }
  assert (Hk : forall m, kids_of m (mkDom (<[n := mkElem tag [] [] None]> (d_nodes d)) (Pos.succ n)) =
                         kids_of m d).
  { intros m. unfold kids_of. rewrite Hel. case_decide; [subst; by rewrite Hn|done]. }
  split.
  - intros m. rewrite Hel. simpl. case_decide; [lia|]. intros Hm. apply (wf_bound d Hwf) in Hm. lia.
  - intros m c. rewrite Hk, Hp. apply (wf_kids d Hwf).
  - intros c p. rewrite Hk, Hp. apply (wf_parent d Hwf).
  - intros m p Hmp Ha. rewrite Hp in Hmp. apply (wf_acyclic d Hwf m p Hmp).
    eapply anc_sub; [|exact Ha]. intros x q. by rewrite Hp.
  - intros m Hm. rewrite Hel. simpl in Hm. case_decide; [done|]. apply (wf_dense d Hwf). lia.
Qed.

(** ** [node.remove()] *)

(** The parent pointers after [detach n] are those before, but [n]'s. *)
Lemma parent_detach m n d :
  parent_element m (detach n d) = if decide (m = n) then None else parent_element m d.
Proof.
  unfold detach. destruct (parent_element n d) as [p|] eqn:Ep.
  - rewrite parent_with_parent, parent_with_kids. case_decide; [|done].
    subst. destruct (elem_of n _); [done|done].
  - case_decide; [by subst|done].
Qed.

Lemma detach_sub n d x q : parent_element x (detach n d) = Some q -> parent_element x d = Some q.
Proof. rewrite parent_detach. by case_decide. Qed.

Lemma exists_detach m n d : is_Some (elem_of m (detach n d)) <-> is_Some (elem_of m d).
Proof. unfold detach. destruct (parent_element n d); [by rewrite !exists_upd|done]. Qed.

Lemma tag_detach m n d : option_map e_tag (elem_of m (detach n d)) = option_map e_tag (elem_of m d).
Proof.
  unfold detach. destruct (parent_element n d); [|done].
  rewrite !elem_of_upd. repeat case_decide; subst; by destruct (elem_of _ d).
Qed.

Lemma next_upd n f d : d_next (upd n f d) = d_next d.
Proof. done. Qed.

Lemma next_detach n d : d_next (detach n d) = d_next d.
Proof. unfold detach. by destruct (parent_element n d). Qed.

Lemma kids_of_detach m n d :
  kids_of m (detach n d) =
  if decide (parent_element n d = Some m)
  then List.filter (fun k => bool_decide (k <> CElem n)) (kids_of m d) else kids_of m d.
Proof.
  unfold detach. destruct (parent_element n d) as [p|] eqn:Ep; [|by case_decide].
  rewrite kids_of_with_parent, kids_of_with_kids. unfold kids_of.
  case_decide as H1; case_decide as H2; subst; try congruence. by destruct (elem_of _ d).
Qed.

Lemma dkeeps_node_remove n : dkeeps (node_remove n).
Proof.
  intros d Hwf. change (dom_wf (detach n d)). split.
  - intros m Hm. rewrite exists_detach in Hm. rewrite next_detach. by apply (wf_bound d Hwf).
  - intros m c. rewrite kids_of_detach, parent_detach. intros Hc.
    assert (Hc' : In (CElem c) (kids_of m d)).
    { case_decide; [|done]. by apply filter_In in Hc as [? _]. }
    apply (wf_kids d Hwf) in Hc'. destruct (decide (c = n)) as [->|Hcn]; [|done].
    rewrite decide_True in Hc by done. apply filter_In in Hc as [_ Hc].
    apply bool_decide_eq_true in Hc. by exfalso.
  - intros c p. rewrite parent_detach, kids_of_detach. case_decide as Hcn; [done|].
    intros Hp. apply (wf_parent d Hwf) in Hp. case_decide; [|done].
    apply filter_In. split; [done|]. apply bool_decide_eq_true. congruence.
  - intros m p Hmp Ha. apply (wf_acyclic d Hwf m p (detach_sub n d m p Hmp)).
    eapply anc_sub; [|exact Ha]. apply detach_sub.
  - intros m Hm. rewrite exists_detach. rewrite next_detach in Hm. by apply (wf_dense d Hwf).
Qed.

(** ** [appendChild] *)

(** The ancestors in a heap where [c] was given the parent [p]: those of
    the heap before, or those of [p] above [c]. *)
Lemma anc_relink d1 d' c p a x :
  (forall y, parent_element y d' = if decide (y = c) then Some p else parent_element y d1) ->
  anc d' a x -> anc d1 a x \/ (anc d1 c x /\ anc d' a p).
Proof.
  intros Hp. induction 1 as [|x q Hxq Ha IH]; [left; constructor|].
  rewrite Hp in Hxq. destruct (decide (x = c)) as [->|Hxc].
  - injection Hxq as ->. right. split; [constructor|done].
  - destruct IH as [IH|[IH1 IH2]]; [left|right]; [econstructor; eauto|].
    split; [econstructor; eauto|done].
Qed.

Section AppendChild.
Context (p c : nid) (d : dom) (Hwf : dom_wf d)
  (Hpe : is_Some (elem_of p d)) (Hce : is_Some (elem_of c d)) (Hna : ~ anc d c p).

Let d1 := detach c d.
Let d' := upd c (with_parent (Some p)) (upd p (fun e => with_kids (e_kids e ++ [CElem c])%list e) d1).

Lemma append_parents y : parent_element y d' = if decide (y = c) then Some p else parent_element y d1.
Proof.
  unfold d'. rewrite parent_with_parent, parent_with_kids. case_decide; [subst|done].
  destruct (elem_of c (upd p _ d1)) eqn:E; [done|].
  exfalso. apply (is_Some_None (A := elem)). rewrite <- E. unfold d1. by rewrite exists_upd, exists_detach.
Qed.

Lemma append_kids x : kids_of x d' = if decide (x = p) then (kids_of p d1 ++ [CElem c])%list else kids_of x d1.
Proof.
  unfold d'. rewrite kids_of_with_parent, kids_of_with_kids. case_decide; [subst|done].
  unfold kids_of. destruct (elem_of p d1) eqn:E; [done|].
  exfalso. apply (is_Some_None (A := elem)). rewrite <- E. unfold d1. by rewrite exists_detach.
Qed.

Lemma append_wf : dom_wf d'.
Proof.
  assert (Hw1 : dom_wf d1) by apply (dkeeps_node_remove c d Hwf).
  assert (Hc1 : parent_element c d1 = None) by (unfold d1; rewrite parent_detach; by case_decide).
  assert (Hs : forall a x, anc d1 a x -> anc d a x) by (intros; eapply anc_sub; [apply detach_sub|done]).
  split.
  - intros m Hm. unfold d' in Hm. rewrite !exists_upd in Hm. unfold d1 in Hm. rewrite exists_detach in Hm.
    replace (d_next d') with (d_next d) by (unfold d', d1; by rewrite !next_upd, next_detach).
    by apply (wf_bound d Hwf).
  - intros x y. rewrite append_kids, append_parents. intros Hy.
    destruct (decide (y = c)) as [->|Hyc]; case_decide; subst; try done.
    + apply (wf_kids d1 Hw1) in Hy. congruence.
    + apply (wf_kids d1 Hw1). apply in_app_or in Hy as [Hy|[Hy|[]]]; [done|congruence].
    + by apply (wf_kids d1 Hw1).
  - intros y q. rewrite append_parents, append_kids. destruct (decide (y = c)) as [->|Hyc].
    + intros [= <-]. rewrite decide_True by done. apply in_or_app. by right; left.
    + intros Hq%(wf_parent d1 Hw1). case_decide; [subst; apply in_or_app; by left|done].
  - intros y q Hyq Ha. rewrite append_parents in Hyq.
    destruct (anc_relink d1 d' c p _ _ append_parents Ha) as [H1|[H1 H2]].
    + destruct (decide (y = c)) as [->|Hyc]; [injection Hyq as ->; by apply Hna, Hs|].
      by apply (wf_acyclic d1 Hw1 y q Hyq).
    + destruct (decide (y = c)) as [->|Hyc]; [injection Hyq as ->; by apply Hna, Hs|].
      destruct (anc_relink d1 d' c p _ _ append_parents H2) as [H3|[H3 _]]; apply Hna, Hs; [|done].
      eapply anc_trans; [|exact H3]. econstructor; [exact Hyq|exact H1].
  - intros m Hm. unfold d'. rewrite !exists_upd. unfold d1. rewrite exists_detach.
    apply (wf_dense d Hwf). revert Hm. unfold d', d1. by rewrite !next_upd, next_detach.
Qed.

End AppendChild.

(** [appendChild] of an existing node to an existing node: it throws, or
    the heap stays a forest. *)
Lemma wf_append_child p c d :
  dom_wf d -> is_Some (elem_of p d) -> is_Some (elem_of c d) -> dom_wf (final_state (append_child p c d)).
Proof.
  intros Hwf Hp Hc. unfold append_child.
  destruct (inclusive_ancestor (dom_fuel d) c p d) eqn:Ea; [done|]. simpl.
  apply append_wf; [done..|]. intros Ha. apply (inclusive_ancestor_anc d Hwf) in Ha. congruence.
Qed.

(** ** The nodes [innerHTML] allocates *)

Lemma kids_of_same m d d' : elem_of m d' = elem_of m d -> kids_of m d' = kids_of m d.
Proof. unfold kids_of. by intros ->. Qed.

(** The links of the nodes allocated from [lo] on, under [p] with the
    top-level nodes [top]: a fresh node's children are younger fresh
    nodes that point back to it, and a fresh node's parent is [p], of
    which it is a top-level node, or an older fresh node that lists
    it. *)
Definition fresh_links (p : nid) (top : list child) (lo : positive) (d' : dom) : Prop :=
  (forall m y, (lo <= m < d_next d')%positive -> In (CElem y) (kids_of m d') ->
     (m < y < d_next d')%positive /\ parent_element y d' = Some m) /\
  (forall m q, (lo <= m < d_next d')%positive -> parent_element m d' = Some q ->
     (q = p /\ In (CElem m) top) \/ ((lo <= q < m)%positive /\ In (CElem m) (kids_of q d'))) /\
  (forall m, (lo <= m < d_next d')%positive -> is_Some (elem_of m d')).

Definition tree_links_ok (t : tree) : Prop :=
  forall p d c d', alloc_tree p t d = (c, d') ->
    (forall m, is_Some (elem_of m d') -> is_Some (elem_of m d) \/ (d_next d <= m < d_next d')%positive) /\
    fresh_links p [c] (d_next d) d'.

Definition forest_links_ok (ts : list tree) : Prop :=
  forall p d cs d', alloc_forest p ts d = (cs, d') ->
    (forall m, is_Some (elem_of m d') -> is_Some (elem_of m d) \/ (d_next d <= m < d_next d')%positive) /\
    fresh_links p cs (d_next d) d'.

Lemma forest_links_of ts : Forall tree_links_ok ts -> forest_links_ok ts.
Proof.
  induction ts as [|t ts IH]; intros HF p d cs d' E; simpl in E.
  - simplify_eq. split; [by left|]. split_and!; intros m; lia.
  - apply Forall_cons in HF as [Ht Hts].
    destruct (alloc_tree p t d) as [c d1] eqn:E1. destruct (alloc_forest p ts d1) as [cs1 d2] eqn:E2.
    injection E as <- <-.
    destruct (alloc_tree_ok t p d c d1 E1) as (N1 & B1 & _ & _).
    destruct (alloc_forest_ok ts p d1 cs1 d2 E2) as (N2 & B2 & _ & _).
    destruct (Ht p d c d1 E1) as (X1 & K1 & P1 & D1). destruct (IH Hts p d1 cs1 d2 E2) as (X2 & K2 & P2 & D2).
    split; [|split; [|split]].
    + intros m Hm. destruct (X2 m Hm) as [Hm1|Hm1]; [destruct (X1 m Hm1)|]; [by left|right; lia..].
    + intros m y Hm Hy. destruct (decide (m < d_next d1)%positive) as [Hlt|Hge]; [|apply K2; [lia|done]].
      rewrite (kids_of_same _ _ _ (B2 m Hlt)) in Hy. destruct (K1 m y ltac:(lia) Hy) as [Hr Hp].
      split; [lia|]. rewrite <- Hp. apply parent_element_same, B2. lia.
    + intros m q Hm Hq. destruct (decide (m < d_next d1)%positive) as [Hlt|Hge].
      * rewrite (parent_element_same _ _ _ (B2 m Hlt)) in Hq.
        destruct (P1 m q ltac:(lia) Hq) as [[-> [<-|[]]]|[Hr Hk]]; [left; split; [done|by left]|right].
        split; [lia|]. rewrite (kids_of_same _ _ _ (B2 q ltac:(lia))). done.
      * destruct (P2 m q ltac:(lia) Hq) as [[-> Hin]|[Hr Hk]]; [left; split; [done|by right]|right].
        split; [lia|done].
    + intros m Hm. destruct (decide (m < d_next d1)%positive) as [Hlt|Hge]; [|apply D2; lia].
      rewrite B2 by done. apply D1. lia.
Qed.

Lemma tree_links_of_forest tg a ks : forest_links_ok ks -> tree_links_ok (TElem tg a ks).
Proof.
  intros HF p d c d' E. pose proof (alloc_tree_ok (TElem tg a ks) p d c d' E) as (N & _ & _ & _).
  rewrite alloc_tree_elem in E. cbv zeta in E.
  set (n := d_next d) in E.
  set (d1 := mkDom (<[n := mkElem tg a [] (Some p)]> (d_nodes d)) (Pos.succ n)) in E.
  destruct (alloc_forest n ks d1) as [cs d2] eqn:E2. injection E as <- <-.
  destruct (alloc_forest_ok ks n d1 cs d2 E2) as (N2 & B2 & _ & P2).
  destruct (HF n d1 cs d2 E2) as (X & K & P & Dn).
  assert (N1 : d_next d1 = Pos.succ n) by done.
  assert (Hn : elem_of n d2 = Some (mkElem tg a [] (Some p))).
  { rewrite B2 by lia. unfold d1. rewrite elem_of_insert. by case_bool_decide. }
  assert (Hd1 : forall m, is_Some (elem_of m d1) -> m = n \/ is_Some (elem_of m d)).
  { intros m. unfold d1. rewrite elem_of_insert. case_bool_decide; [by left|by right]. }
  assert (Ho : forall m, m <> n -> elem_of m (upd n (with_kids cs) d2) = elem_of m d2)
    by (intros; by apply elem_of_upd_ne).
  assert (Hkn : kids_of n (upd n (with_kids cs) d2) = cs) by (unfold kids_of; by rewrite elem_of_upd_eq, Hn).
  unfold fresh_links. simpl (d_next (upd _ _ _)). split; [|split; [|split]].
  - intros m Hm. rewrite exists_upd in Hm. destruct (X m Hm) as [Hm1|Hm1]; [|right; lia].
    destruct (Hd1 m Hm1) as [->|]; [right; lia|by left].
  - intros m y Hm Hy. destruct (decide (m = n)) as [->|Hmn].
    + rewrite Hkn in Hy. destruct (P2 y Hy) as [Hr Hp]. split; [lia|].
      etransitivity; [apply parent_element_same, Ho; lia|exact Hp].
    + rewrite (kids_of_same _ _ _ (Ho m Hmn)) in Hy. destruct (K m y ltac:(lia) Hy) as [Hr Hp].
      split; [lia|]. etransitivity; [apply parent_element_same, Ho; lia|exact Hp].
  - intros m q Hm Hq. destruct (decide (m = n)) as [->|Hmn].
    + unfold parent_element in Hq. rewrite elem_of_upd_eq, Hn in Hq. injection Hq as <-.
      left. split; [done|by left].
    + rewrite (parent_element_same _ _ _ (Ho m Hmn)) in Hq. right.
      destruct (P m q ltac:(lia) Hq) as [[-> Hin]|[Hr Hk]]; [split; [lia|by rewrite Hkn]|].
      split; [lia|]. by rewrite (kids_of_same _ _ _ (Ho q ltac:(lia))).
  - intros m Hm. rewrite exists_upd. destruct (decide (m = n)) as [->|Hmn]; [by rewrite Hn|]. apply Dn. lia.
Qed.

Lemma alloc_forest_links ts : forest_links_ok ts.
Proof.
  apply forest_links_of, List.Forall_forall. intros t _.
  induction t as [s|tg a ks IH] using tree_ind'.
  - intros p d c d' [= <- <-]. split; [by left|]. split_and!; intros m; lia.
  - by apply tree_links_of_forest, forest_links_of.
Qed.

(** ** The [innerHTML] setter *)

Lemma anc_old d a x : dom_wf d -> anc d a x -> (x < d_next d)%positive -> (a < d_next d)%positive.
Proof.
  intros Hwf. induction 1 as [|x q Hxq _ IH]; [done|]. intros _. apply IH.
  apply (wf_bound d Hwf). by apply (wf_parent_exists d Hwf x).
Qed.

Lemma clear_parents_links ks d m :
  kids_of m (clear_parents ks d) = kids_of m d /\
  (is_Some (elem_of m (clear_parents ks d)) <-> is_Some (elem_of m d)) /\
  (forall q, parent_element m (clear_parents ks d) = Some q <->
     parent_element m d = Some q /\ ~ In (CElem m) ks).
Proof.
  destruct (clear_parents_spec ks d) as [_ C]. destruct (C m) as [C1 C2].
  unfold kids_of, parent_element. split; [|split].
  - by destruct C2 as [-> | ->]; destruct (elem_of m d).
  - by destruct C2 as [-> | ->]; [|rewrite fmap_is_Some].
  - intros q. destruct (List.in_dec child_eq_dec (CElem m) ks) as [Hin|Hin].
    + pose proof (clear_parents_orphan ks d m Hin) as Ho. unfold parent_element in Ho.
      rewrite Ho. naive_solver.
    + rewrite C1 by (by intros ?%list_elem_of_In). naive_solver.
Qed.

Section InnerHTML.
Context `{HtmlSyntax} (n : nid) (s : string) (d : dom) (Hwf : dom_wf d) (Hne : is_Some (elem_of n d)).
Context (cs : list child) (d2 : dom)
  (E2 : alloc_forest n (html_parse s) (clear_parents (kids_of n d) d) = (cs, d2)).

Let ks := kids_of n d.
Let D := upd n (with_kids cs) d2.

Lemma inner_alloc :
  Pos.to_nat (d_next d2) = Pos.to_nat (d_next d) + fsize (html_parse s) /\
  (forall m, (m < d_next d)%positive -> elem_of m d2 = elem_of m (clear_parents ks d)) /\
  (forall m, In (CElem m) cs -> (d_next d <= m < d_next d2)%positive /\ parent_element m d2 = Some n) /\
  (forall m, is_Some (elem_of m d2) -> is_Some (elem_of m (clear_parents ks d)) \/
     (d_next d <= m < d_next d2)%positive) /\
  fresh_links n cs (d_next d) d2.
Proof.
  unfold ks. assert (N1 : d_next (clear_parents (kids_of n d) d) = d_next d) by apply clear_parents_spec.
  destruct (alloc_forest_ok _ n _ cs d2 E2) as (N & B & _ & Pc).
  destruct (alloc_forest_links _ n _ cs d2 E2) as (X & L). rewrite N1 in N, B, Pc, X, L. done.
Qed.

(** The nodes older than the write: their children as before, their
    parent as before unless they were children of [n]. *)
Lemma inner_old m : (m < d_next d)%positive ->
  kids_of m d2 = kids_of m d /\
  forall q, parent_element m d2 = Some q <-> parent_element m d = Some q /\ ~ In (CElem m) ks.
Proof.
  intros Hm. destruct inner_alloc as (_ & B & _). rewrite (kids_of_same _ _ _ (B m Hm)).
  rewrite (parent_element_same _ _ _ (B m Hm)). split; apply clear_parents_links.
Qed.

Lemma inner_exists m : is_Some (elem_of m d2) -> (m < d_next d)%positive \/ (d_next d <= m < d_next d2)%positive.
Proof.
  intros Hm. destruct inner_alloc as (_ & _ & _ & X & _). destruct (X m Hm) as [Hm1|]; [left|by right].
  apply (wf_bound d Hwf). by apply (clear_parents_links ks d m).
Qed.

Lemma inner_parent m : parent_element m D = parent_element m d2.
Proof. apply parent_with_kids'. Qed.

Lemma inner_kids m : kids_of m D = if decide (m = n) then cs else kids_of m d2.
Proof.
  case_decide as Hm; [subst|by apply kids_of_same, elem_of_upd_ne].
  destruct (proj2 (proj1 (proj2 (clear_parents_links ks d n))) Hne) as [e He].
  destruct inner_alloc as (_ & B & _). unfold D, kids_of.
  rewrite elem_of_upd_eq, B by (by apply (wf_bound d Hwf)). by rewrite He.
Qed.

Lemma inner_fresh_parent m q : (d_next d <= m)%positive -> parent_element m D = Some q ->
  (q = n /\ In (CElem m) cs) \/ ((d_next d <= q < m)%positive /\ In (CElem m) (kids_of q d2)).
Proof.
  intros Hm Hq. rewrite inner_parent in Hq. destruct inner_alloc as (_ & _ & _ & _ & _ & P).
  apply P; [|done]. assert (Hs : is_Some (elem_of m d2)).
  { unfold parent_element in Hq. destruct (elem_of m d2); [by eexists|done]. }
  destruct (inner_exists m Hs); lia.
Qed.

Lemma inner_old_parent_of m q : (m < d_next d)%positive -> parent_element m D = Some q ->
  parent_element m d = Some q /\ ~ In (CElem m) ks.
Proof. intros Hm Hq. rewrite inner_parent in Hq. by apply (proj2 (inner_old m Hm)). Qed.

Lemma wf_old_parent x q : parent_element x d = Some q -> (q < d_next d)%positive.
Proof. intros Hq. apply (wf_bound d Hwf). by apply (wf_parent_exists d Hwf x). Qed.

(** The ancestors of an old node are those it had. *)
Lemma inner_anc_old a x : anc D a x -> (x < d_next d)%positive -> anc d a x.
Proof.
  induction 1 as [|x q Hxq _ IH]; intros Hx; [constructor|].
  destruct (inner_old_parent_of x q Hx Hxq) as [Hxq' _].
  econstructor; [exact Hxq'|]. apply IH. by apply (wf_old_parent x).
Qed.

(** The ancestors of a fresh node are older fresh nodes or old nodes. *)
Lemma inner_anc_fresh a x : anc D a x -> (d_next d <= x)%positive ->
  (a <= x)%positive \/ (a < d_next d)%positive.
Proof.
  induction 1 as [|x q Hxq Ha IH]; intros Hx; [left; lia|].
  destruct (inner_fresh_parent x q Hx Hxq) as [[-> _]|[Hr _]].
  - right. eapply anc_old; [done|apply inner_anc_old; [done|by apply (wf_bound d Hwf)]|].
    by apply (wf_bound d Hwf).
  - destruct (IH ltac:(lia)); [left; lia|by right].
Qed.

Lemma inner_wf : dom_wf D.
Proof.
  destruct inner_alloc as (N & B & Pc & _ & K & _ & Dn). split.
  - intros m Hm. unfold D in Hm. rewrite exists_upd in Hm. simpl.
    destruct (inner_exists m Hm); [|lia].
    assert (Pos.to_nat (d_next d) <= Pos.to_nat (d_next d2)) by lia. lia.
  - intros x y Hy. rewrite inner_parent. rewrite inner_kids in Hy. case_decide as Hxn; [subst; by apply Pc|].
    destruct (decide (x < d_next d)%positive) as [Hx|Hx].
    + rewrite (proj1 (inner_old x Hx)) in Hy. pose proof (wf_kids d Hwf x y Hy) as Hyx.
      assert (Hy' : (y < d_next d)%positive) by (apply (wf_bound d Hwf); by apply (wf_child_exists d y x)).
      apply (inner_old y Hy'). split; [done|]. intros Hin%(wf_kids d Hwf). congruence.
    + assert (Hxe : is_Some (elem_of x d2)) by (unfold kids_of in Hy; destruct (elem_of x d2); [by eexists|done]).
      destruct (inner_exists x Hxe) as [|Hr]; [lia|]. by apply (K x y Hr Hy).
  - intros y q Hq. rewrite inner_kids. destruct (decide (y < d_next d)%positive) as [Hy|Hy].
    + destruct (inner_old_parent_of y q Hy Hq) as [Hq' Hin].
      case_decide; [subst; exfalso; apply Hin; by apply (wf_parent d Hwf)|].
      rewrite (proj1 (inner_old q (wf_old_parent y q Hq'))). by apply (wf_parent d Hwf).
    + destruct (inner_fresh_parent y q ltac:(lia) Hq) as [[-> Hin]|[Hr Hk]]; case_decide; try done.
      pose proof (wf_bound d Hwf n Hne). lia.
  - intros y q Hq Ha. destruct (decide (y < d_next d)%positive) as [Hy|Hy].
    + destruct (inner_old_parent_of y q Hy Hq) as [Hq' _]. apply (wf_acyclic d Hwf y q Hq').
      apply inner_anc_old; [done|]. by apply (wf_old_parent y).
    + destruct (inner_fresh_parent y q ltac:(lia) Hq) as [[-> _]|[Hr _]].
      * apply Hy. eapply anc_old; [done|apply inner_anc_old; [done|by apply (wf_bound d Hwf)]|].
        by apply (wf_bound d Hwf).
      * destruct (inner_anc_fresh y q Ha ltac:(lia)); lia.
  - intros m Hm. unfold D. rewrite exists_upd. simpl in Hm.
    destruct (decide (m < d_next d)%positive) as [Hlt|Hge]; [|apply Dn; lia].
    rewrite B by done. apply clear_parents_links. by apply (wf_dense d Hwf).
Qed.

End InnerHTML.

(** The [innerHTML] setter on an existing node keeps the heap a forest. *)
Lemma wf_set_inner_html `{HtmlSyntax} n s d :
  dom_wf d -> is_Some (elem_of n d) -> dom_wf (final_state (set_inner_html n s d)).
Proof.
  intros Hwf Hn. destruct (set_inner_html_unfold n s d) as (cs & d2 & E2 & ->).
  by apply (inner_wf n s d Hwf Hn cs d2 E2).
Qed.

(** ** The operations, with the growth of the allocation counter *)

(** [c] run on [d] leaves a forest and does not lower [d_next]. *)
Definition dsafe {A} (c : M dom A) (d : dom) : Prop :=
  dom_wf (final_state (c d)) /\ (d_next d <= d_next (final_state (c d)))%positive.

Lemma dsafe_class_add n cs d : dom_wf d -> dsafe (class_add n cs) d.
Proof.
  intros Hwf. split; [by apply dkeeps_class_add|]. unfold class_add.
  destruct (check_tokens cs); simpl; [lia|]. rewrite class_update_next. lia.
Qed.

Lemma dsafe_class_remove n cs d : dom_wf d -> dsafe (class_remove n cs) d.
Proof.
  intros Hwf. split; [by apply dkeeps_class_remove|]. unfold class_remove.
  destruct (check_tokens cs); simpl; [lia|]. rewrite class_update_next. lia.
Qed.

Lemma dsafe_set_attribute n k v d : dom_wf d -> dsafe (set_attribute n k v) d.
Proof. intros Hwf. split; [by apply dkeeps_set_attribute|]. simpl. lia. Qed.

Lemma dsafe_create_element tag d : dom_wf d -> dsafe (create_element tag) d.
Proof. intros Hwf. split; [by apply dkeeps_create_element|]. simpl. lia. Qed.

Lemma dsafe_node_remove n d : dom_wf d -> dsafe (node_remove n) d.
Proof. intros Hwf. split; [by apply dkeeps_node_remove|]. simpl. rewrite next_detach. lia. Qed.

Lemma dsafe_append_child p c d :
  dom_wf d -> (p < d_next d)%positive -> (c < d_next d)%positive -> dsafe (append_child p c) d.
Proof.
  intros Hwf Hp Hc. split; [by apply wf_append_child; [|apply (wf_dense d Hwf)..]|].
  unfold append_child. destruct (inclusive_ancestor _ _ _ _); cbn [final_state]; [lia|].
  rewrite !next_upd, next_detach. lia.
Qed.

Lemma dsafe_set_inner_html `{HtmlSyntax} n s d :
  dom_wf d -> (n < d_next d)%positive -> dsafe (set_inner_html n s) d.
Proof.
  intros Hwf Hn. split; [by apply wf_set_inner_html, (wf_dense d Hwf)|].
  destruct (set_inner_html_unfold n s d) as (cs & d2 & E2 & ->). simpl.
  destruct (alloc_forest_ok _ n _ cs d2 E2) as (N & _).
  destruct (clear_parents_spec (kids_of n d) d) as [N1 _]. rewrite N1 in N. lia.
Qed.
