(* ===== verification/Soup.v ===== *)
(** * Soup: the round trip of the [TagSoup] markup syntax

    [save] stores what [innerHTML] serializes of the nodes [render]
    parsed from the saved [frame]; the spec says the markup that comes
    back is DOM-equivalent to the original.  For the executable syntax
    [TagSoup] of [Markup] this file proves the round trip that makes this
    true: on well-formed trees ([wf_forest]: tag and attribute names the
    tokenizer reads back, lower case; non-empty text nodes, never two in
    a row; void elements empty; an [iframe] holding at most one raw text
    without [</iframe]), parsing the serialization gives the trees back
    ([parse_serialize]).  The proof goes through the token level:
    [toks_forest] is the token list of a forest; the tokenizer returns it
    on the serialization ([tok_tree], [tok_forest_of]) and the tree
    builder rebuilds the forest from it ([build_tree], [build_forest_of]).
    Both recursions carry fuel: the statements carry the fuel left, which
    each token decreases by one while it consumes at least one character
    (one token), so the fuel the parser gives them (the length of the
    input, the number of tokens) is enough. *)

From S2P Require Import Prelude Markup Dom Alloc.
From Stdlib Require Import Ascii String.
Import TagSoup.

Local Open Scope string_scope.

Section Soup.

(** ** Well-formed trees *)

Fixpoint all_chars (p : ascii -> bool) (s : string) : bool :=
  match s with EmptyString => true | String c r => p c && all_chars p r end.

(** [s] contains [p] at some position, in any case. *)
Fixpoint has_ci (p s : string) : bool :=
  starts_with_ci p s || match s with EmptyString => false | String _ r => has_ci p r end.

Definition tag_name_ok (tg : string) : bool :=
  match tg with
  | EmptyString => false
  | String c _ => is_alpha c && all_chars tag_char tg && String.eqb (lower_str tg) tg
  end.

Definition attr_ok (kv : string * string) : bool :=
  negb (String.eqb kv.1 "") && all_chars attr_name_char kv.1 && String.eqb (lower_str kv.1) kv.1.

(** The content of an [iframe]: nothing, or one raw text without
    [</iframe]. *)
Definition raw_kids_ok (kids : list tree) : bool :=
  match kids with
  | [] => true
  | [TText s] => negb (String.eqb s "") && negb (has_ci iframe_end_prefix s)
  | _ => false
  end.

(** Two text nodes in a row would be merged by the parser. *)
Definition no_text_pair (t : tree) (ts : list tree) : bool :=
  match t, ts with TText _, TText _ :: _ => false | _, _ => true end.

Fixpoint wf_tree (t : tree) : bool :=
  match t with
  | TText s => negb (String.eqb s "")
  | TElem tg a kids =>
      tag_name_ok tg && forallb attr_ok a &&
      (if String.eqb tg "iframe" then raw_kids_ok kids
       else if is_void tg then match kids with [] => true | _ => false end
       else (fix go (ks : list tree) : bool :=
               match ks with [] => true | k :: ks' => wf_tree k && no_text_pair k ks' && go ks' end)
            kids)
  end.

Fixpoint wf_forest (ts : list tree) : bool :=
  match ts with [] => true | t :: ts' => wf_tree t && no_text_pair t ts' && wf_forest ts' end.

(** ** Tokens of a tree *)

Definition raw_text (kids : list tree) : string :=
  match kids with [TText s] => s | _ => "" end.

Fixpoint toks_tree (t : tree) : list token :=
  match t with
  | TText s => [TkText (escape_text s)]
  | TElem tg a kids =>
      if String.eqb tg "iframe" then [TkOpen tg a; TkRaw (raw_text kids); TkClose tg]
      else if is_void tg then [TkOpen tg a]
      else TkOpen tg a :: ((fix go (ks : list tree) : list token :=
                              match ks with [] => [] | k :: ks' => toks_tree k ++ go ks' end) kids
                            ++ [TkClose tg])%list
  end.

Fixpoint toks_forest (ts : list tree) : list token :=
  match ts with [] => [] | t :: ts' => (toks_tree t ++ toks_forest ts')%list end.

(** ** Characters: the cases of [decode] and [tokenize] *)

Lemma decode_other c r : c <> "&"%char -> decode (String c r) = String c (decode r).
Proof. intros Hc. destruct c as [[] [] [] [] [] [] [] []]; try reflexivity; congruence. Qed.

Lemma tokenize_text f c r :
  c <> "<"%char ->
  tokenize (S f) (String c r) =
  let '(txt, r1) := span (fun c => negb (Ascii.eqb c "<")) r in TkText (String c txt) :: tokenize f r1.
Proof. intros Hc. destruct c as [[] [] [] [] [] [] [] []]; try reflexivity; congruence. Qed.

(** ** Escaping *)

Lemma append_String c s r : (String c s ++ r) = String c (s ++ r).
Proof. done. Qed.

Lemma append_Empty r : ("" ++ r) = r.
Proof. done. Qed.

Create Rewrite HintDb soup.
#[local] Hint Rewrite append_String append_Empty : soup.

Lemma decode_escape_text s : decode (escape_text s) = s.
Proof.
  induction s as [|c r IH]; [done|]. cbn [escape_text].
  destruct (Ascii.eqb_spec c "&") as [->|H1]; [by autorewrite with soup; cbn; rewrite IH|].
  destruct (Ascii.eqb_spec c "<") as [->|H2]; [by autorewrite with soup; cbn; rewrite IH|].
  destruct (Ascii.eqb_spec c ">") as [->|H3]; [by autorewrite with soup; cbn; rewrite IH|].
  by rewrite decode_other, IH.
Qed.

Lemma decode_escape_attr s : decode (escape_attr s) = s.
Proof.
  induction s as [|c r IH]; [done|]. cbn [escape_attr].
  destruct (Ascii.eqb_spec c "&") as [->|H1]; [by autorewrite with soup; cbn; rewrite IH|].
  destruct (Ascii.eqb_spec c dquote) as [->|H2]; [by autorewrite with soup; cbn; rewrite IH|].
  by rewrite decode_other, IH.
Qed.

Lemma all_chars_app p a b : all_chars p (a ++ b) = all_chars p a && all_chars p b.
Proof. induction a as [|c a IH]; [done|]. rewrite append_String. cbn. by rewrite IH, andb_assoc. Qed.

Lemma escape_text_no_lt s : all_chars (fun c => negb (Ascii.eqb c "<")) (escape_text s) = true.
Proof.
  induction s as [|c r IH]; [done|]. cbn [escape_text].
  repeat match goal with |- context [if Ascii.eqb ?c ?d then _ else _] =>
    destruct (Ascii.eqb_spec c d) as [->|] end; autorewrite with soup; cbn; rewrite ?IH; try done.
  apply andb_true_intro. split; [|done]. by apply negb_true_iff, Ascii.eqb_neq.
Qed.

Lemma escape_attr_no_quote s : all_chars (fun c => negb (Ascii.eqb c dquote)) (escape_attr s) = true.
Proof.
  induction s as [|c r IH]; [done|]. cbn [escape_attr].
  repeat match goal with |- context [if Ascii.eqb ?c ?d then _ else _] =>
    destruct (Ascii.eqb_spec c d) as [->|] end; autorewrite with soup; cbn; rewrite ?IH; try done.
  apply andb_true_intro. split; [|done]. by apply negb_true_iff, Ascii.eqb_neq.
Qed.

(** [span] stops where its predicate first fails. *)
Definition stops (p : ascii -> bool) (b : string) : Prop :=
  match b with EmptyString => True | String c _ => p c = false end.

Lemma span_app p a b : all_chars p a = true -> stops p b -> span p (a ++ b) = (a, b).
Proof.
  intros Ha Hb. induction a as [|c a IH]; autorewrite with soup; cbn.
  - destruct b as [|c b]; [done|]. cbn in Hb |- *. by rewrite Hb.
  - cbn in Ha. apply andb_prop in Ha as [-> Ha]. by rewrite IH.
Qed.

(** ** The end of the raw text of an [iframe] *)

Lemma starts_with_ci_app P p r :
  starts_with_ci P (p ++ r) = true ->
  starts_with_ci P p = true \/
  exists P1 P2, P = P1 ++ P2 /\ String.length P1 = String.length p /\ P2 <> "" /\
                starts_with_ci P2 r = true.
Proof.
  revert P. induction p as [|c p IH]; intros P H.
  - destruct P as [|a P]; [by left|]. right. by exists "", (String a P).
  - destruct P as [|a P]; [by left|]. rewrite append_String in H. cbn in H |- *.
    apply andb_prop in H as [Ha H].
    rewrite Ha. destruct (IH P H) as [->|(P1&P2&->&Hl&Hn&H2)]; [by left|].
    right. exists (String a P1), P2. cbn. by rewrite Hl.
Qed.

(** [</iframe] has its only [<] in front, so it does not start inside a
    text free of it and run into a following [</iframe]. *)
Lemma iframe_end_no_overlap p r :
  p <> "" -> starts_with_ci iframe_end_prefix p = false ->
  starts_with_ci iframe_end_prefix r = true ->
  starts_with_ci iframe_end_prefix (p ++ r) = false.
Proof.
  intros Hp Hs Hr. destruct (starts_with_ci iframe_end_prefix (p ++ r)) eqn:H; [|done].
  destruct (starts_with_ci_app _ _ _ H) as [?|(P1&P2&HP&Hl&Hn2&H2)]; [congruence|].
  destruct p as [|c p]; [by destruct Hp|]. destruct P1 as [|a P1]; [cbn in Hl; lia|].
  unfold iframe_end_prefix in HP. injection HP as <- HT.
  assert (Hno : all_chars (fun c => negb (Ascii.eqb c "<")) (P1 ++ P2) = true) by (rewrite <-HT; done).
  rewrite all_chars_app in Hno. apply andb_prop in Hno as [_ Hno].
  destruct P2 as [|b P2]; [done|]. destruct r as [|c' r]; [discriminate Hr|].
  unfold iframe_end_prefix in Hr. cbn [starts_with_ci all_chars] in Hr, H2, Hno.
  apply andb_prop in Hr as [Hr _]. apply andb_prop in H2 as [H2 _].
  apply andb_prop in Hno as [Hno _]. apply Ascii.eqb_eq in Hr, H2. rewrite <-Hr in H2. subst b.
  by vm_compute in Hno.
Qed.

Lemma raw_until_app s r :
  has_ci iframe_end_prefix s = false -> starts_with_ci iframe_end_prefix r = true ->
  raw_until_iframe_end (s ++ r) = (s, r).
Proof.
  intros Hs Hr. induction s as [|c s IH]; autorewrite with soup.
  - destruct r as [|c r]; [done|]. cbn [raw_until_iframe_end]. by rewrite Hr.
  - cbn in Hs. apply orb_false_elim in Hs as [H1 H2].
    pose proof (iframe_end_no_overlap (String c s) r ltac:(discriminate) H1 Hr) as Hno.
    rewrite append_String in Hno. cbn [raw_until_iframe_end]. rewrite Hno. by rewrite IH.
Qed.

(** ** Strings *)

Lemma append_empty_r s : (s ++ "") = s.
Proof. induction s as [|c s IH]; [done|]. by rewrite append_String, IH. Qed.

Lemma append_assoc_s a b c : ((a ++ b) ++ c) = (a ++ b ++ c).
Proof. induction a as [|x a IH]; [done|]. by rewrite !append_String, IH. Qed.

#[local] Hint Rewrite append_assoc_s append_empty_r : soup.

Lemma concat_cons x l : String.concat "" (x :: l) = (x ++ String.concat "" l).
Proof. destruct l; cbn; by rewrite ?append_empty_r. Qed.

Lemma length_append_s a b : String.length (a ++ b) = String.length a + String.length b.
Proof. induction a as [|c a IH]; [done|]. rewrite append_String. cbn. by rewrite IH. Qed.

(** Normal form of the length of a concatenation. *)
Ltac slen H := repeat (first [rewrite length_append_s in H | progress (cbn [String.length] in H)]).
Ltac slen_goal := repeat (first [rewrite length_append_s | progress (cbn [String.length])]).

(** ** The cases of the tokenizer *)

(** A [<] followed by a character other than [/]. *)
Lemma tokenize_lt f c r :
  c <> "/"%char ->
  tokenize (S f) (String "<" (String c r)) =
  if is_alpha c then
    let '(nm, r1) := span tag_char r in
    let tag := lower_str (String c nm) in
    match scan_attrs (String.length r1) r1 with
    | Some (attrs, r2) =>
        if String.eqb tag "iframe" then
          let '(raw, r3) := raw_until_iframe_end r2 in
          TkOpen tag attrs :: TkRaw raw :: tokenize f r3
        else TkOpen tag attrs :: tokenize f r2
    | None => []
    end
  else TkText "<" :: tokenize f (String c r).
Proof. intros Hc. destruct c as [[] [] [] [] [] [] [] []]; try reflexivity; congruence. Qed.

(** ** Attributes *)

Lemma attr_name_char_facts c :
  attr_name_char c = true ->
  is_space c = false /\ Ascii.eqb c "/" = false /\ Ascii.eqb c ">" = false /\ Ascii.eqb c "=" = false.
Proof.
  unfold attr_name_char. rewrite negb_true_iff, !orb_false_iff. tauto.
Qed.

Lemma ser_attrs_cons k v a :
  ser_attrs ((k, v) :: a) =
  (" " ++ k ++ "=" ++ String dquote (escape_attr v ++ String dquote "") ++ ser_attrs a).
Proof. unfold ser_attrs. by rewrite map_cons, concat_cons, !append_assoc_s. Qed.

Lemma skip_spaces_nonspace c r : is_space c = false -> skip_spaces (String c r) = String c r.
Proof. intros Hc. cbn [skip_spaces]. by rewrite Hc. Qed.

Lemma attr_value_quoted x r :
  all_chars (fun c => negb (Ascii.eqb c dquote)) x = true ->
  attr_value (String dquote (x ++ String dquote r)) = Some (x, r).
Proof.
  intros Hx. unfold attr_value. rewrite Ascii.eqb_refl. cbn [orb].
  rewrite span_app; [done|done|]. cbn. by rewrite ?Ascii.eqb_refl.
Qed.

Lemma scan_attrs_space n r : scan_attrs (S n) (String " " r) = scan_attrs n r.
Proof. done. Qed.

(** One attribute [name="value"]. *)
Lemma scan_attrs_one n c0 kr x r :
  attr_name_char c0 = true -> all_chars attr_name_char kr = true ->
  all_chars (fun c => negb (Ascii.eqb c dquote)) x = true ->
  scan_attrs (S n) (String c0 (kr ++ String "=" (String dquote (x ++ String dquote r)))) =
  match scan_attrs n r with
  | Some (l, r4) => Some ((lower_str (String c0 kr), decode x) :: l, r4)
  | None => None
  end.
Proof.
  intros Hc0 Hkr Hx. destruct (attr_name_char_facts c0 Hc0) as (Hs & Hsl & Hgt & _).
  cbn [scan_attrs]. rewrite Hs, Hsl, Hgt. cbn [orb].
  rewrite span_app by done. rewrite skip_spaces_nonspace by done.
  cbn beta iota. rewrite skip_spaces_nonspace by done. by rewrite attr_value_quoted.
Qed.

(** The scanner reads back the serialized attributes, up to the [>]. *)
Lemma scan_attrs_ser n a r :
  forallb attr_ok a = true -> String.length (ser_attrs a) < n ->
  scan_attrs n (ser_attrs a ++ String ">" r) = Some (a, r).
Proof.
  revert n. induction a as [|[k v] a IH]; intros n Ha Hn.
  - destruct n as [|n]; [cbn in Hn; lia|]. done.
  - cbn [forallb] in Ha. apply andb_prop in Ha as [Hk Ha].
    unfold attr_ok in Hk; cbn [fst] in Hk. apply andb_prop in Hk as [Hk Hlow].
    apply andb_prop in Hk as [Hne Hall]. apply negb_true_iff, String.eqb_neq in Hne.
    apply String.eqb_eq in Hlow.
    destruct k as [|c0 kr]; [done|]. cbn [all_chars] in Hall. apply andb_prop in Hall as [Hc0 Hkr].
    rewrite ser_attrs_cons in Hn |- *. rewrite !length_append_s in Hn. cbn in Hn.
    destruct n as [|[|n]]; [lia|lia|].
    autorewrite with soup. rewrite scan_attrs_space.
    rewrite scan_attrs_one by auto using escape_attr_no_quote.
    rewrite IH by (done || lia). by rewrite Hlow, decode_escape_attr.
Qed.

(** ** Tags *)

Lemma tokenize_lt_slash f c r :
  tokenize (S f) (String "<" (String "/" (String c r))) =
  if is_alpha c then
    let '(nm, r1) := span tag_char r in
    match drop_past_gt r1 with
    | Some r2 => TkClose (lower_str (String c nm)) :: tokenize f r2
    | None => []
    end
  else TkText "<" :: tokenize f (String "/" (String c r)).
Proof. done. Qed.

Lemma tag_name_facts tg :
  tag_name_ok tg = true ->
  exists c tgr, tg = String c tgr /\ is_alpha c = true /\ c <> "/"%char /\
    all_chars tag_char tgr = true /\ lower_str (String c tgr) = tg.
Proof.
  destruct tg as [|c tgr]; [done|]. cbn [tag_name_ok all_chars].
  intros H. apply andb_prop in H as [H Hl]. apply andb_prop in H as [Ha H].
  apply andb_prop in H as [_ Ht]. apply String.eqb_eq in Hl.
  exists c, tgr. split_and!; try done. intros ->. discriminate.
Qed.

Lemma stops_tag_attrs a r : stops tag_char (ser_attrs a ++ String ">" r).
Proof. destruct a as [|[k v] a]; [done|]. rewrite ser_attrs_cons. done. Qed.

(** A start tag as [ser_tree] writes it. *)
Lemma tokenize_open f tg a r :
  tag_name_ok tg = true -> forallb attr_ok a = true ->
  tokenize (S f) (String "<" (tg ++ ser_attrs a ++ String ">" r)) =
  if String.eqb tg "iframe" then
    let '(raw, r3) := raw_until_iframe_end r in TkOpen tg a :: TkRaw raw :: tokenize f r3
  else TkOpen tg a :: tokenize f r.
Proof.
  intros Ht Ha. destruct (tag_name_facts tg Ht) as (c & tgr & -> & Hal & Hsl & Hch & Hl).
  rewrite append_String, tokenize_lt, Hal by done.
  rewrite span_app by (done || apply stops_tag_attrs). rewrite Hl.
  rewrite scan_attrs_ser by (rewrite ?length_append_s; cbn; lia || done). done.
Qed.

(** An end tag as [ser_tree] writes it. *)
Lemma tokenize_close f tg r :
  tag_name_ok tg = true ->
  tokenize (S f) (String "<" (String "/" (tg ++ String ">" r))) = TkClose tg :: tokenize f r.
Proof.
  intros Ht. destruct (tag_name_facts tg Ht) as (c & tgr & -> & Hal & Hsl & Hch & Hl).
  rewrite append_String, tokenize_lt_slash, Hal. rewrite span_app by done.
  cbn [drop_past_gt]. by rewrite Hl.
Qed.

(** ** The tokenizer on a serialization *)

Lemma wf_kids kids :
  (fix go (ks : list tree) : bool :=
     match ks with [] => true | k :: ks' => wf_tree k && no_text_pair k ks' && go ks' end) kids
  = wf_forest kids.
Proof. induction kids as [|k ks IH]; [done|]. cbn. by rewrite IH. Qed.

(** The parts of a well-formed element. *)
Lemma wf_elem tg a kids :
  wf_tree (TElem tg a kids) = true ->
  tag_name_ok tg = true /\ forallb attr_ok a = true /\
  (if String.eqb tg "iframe" then raw_kids_ok kids = true
   else if is_void tg then kids = [] else wf_forest kids = true).
Proof.
  cbn [wf_tree]. rewrite wf_kids. intros H. apply andb_prop in H as [H Hk].
  apply andb_prop in H as [Ht Ha]. split_and!; [done|done|].
  destruct (String.eqb tg "iframe"); [done|]. destruct (is_void tg); [|done].
  by destruct kids.
Qed.

(** The input left after a text node: nothing, or a tag. *)
Definition lt_start (r : string) : Prop :=
  match r with EmptyString => True | String c _ => c = "<"%char end.

Definition text_follow (t : tree) (r : string) : Prop :=
  match t with TText _ => lt_start r | TElem _ _ _ => True end.

(** What the tokenizer does on the serialization of a tree followed by
    [r], with fuel [f]: the tree's tokens, then the tokens of [r] with
    the fuel left, which is at least the length of [r]. *)
Definition tok_spec (t : tree) : Prop :=
  wf_tree t = true -> forall r f,
  String.length (ser_tree false t ++ r) <= f -> text_follow t r ->
  exists f', String.length r <= f' /\
    tokenize f (ser_tree false t ++ r) = (toks_tree t ++ tokenize f' r)%list.

Definition tok_forest_spec (ts : list tree) : Prop :=
  wf_forest ts = true -> forall r f,
  String.length (String.concat "" (map (ser_tree false) ts) ++ r) <= f -> lt_start r ->
  exists f', String.length r <= f' /\
    tokenize f (String.concat "" (map (ser_tree false) ts) ++ r) = (toks_forest ts ++ tokenize f' r)%list.

Lemma ser_elem_start b tg a kids r : lt_start (ser_tree b (TElem tg a kids) ++ r).
Proof. done. Qed.

Lemma tok_forest_of ts : Forall tok_spec ts -> tok_forest_spec ts.
Proof.
  induction 1 as [|t ts Ht Hts IH]; intros Hwf r f Hf Hr.
  - exists f. split; [done|]. done.
  - cbn [wf_forest] in Hwf. apply andb_prop in Hwf as [Hwf Hwf'].
    apply andb_prop in Hwf as [Hwt Hpair].
    rewrite map_cons, concat_cons, append_assoc_s in Hf |- *.
    destruct (Ht Hwt (String.concat "" (map (ser_tree false) ts) ++ r) f) as (f1 & Hf1 & E1); [done| |].
    { destruct t as [tg a kids|s]; [done|]. destruct ts as [|t2 ts]; [done|].
      destruct t2 as [tg a kids|]; [|done]. rewrite map_cons, concat_cons, append_assoc_s.
      apply ser_elem_start. }
    destruct (IH Hwf' r f1 Hf1 Hr) as (f2 & Hf2 & E2).
    exists f2. split; [done|]. by rewrite E1, E2, app_assoc.
Qed.

Lemma tok_text s : tok_spec (TText s).
Proof.
  intros Hwf r f Hf Hr. cbn [wf_tree] in Hwf. apply negb_true_iff, String.eqb_neq in Hwf.
  cbn [ser_tree] in Hf |- *. pose proof (escape_text_no_lt s) as Hno.
  destruct (escape_text s) as [|c x] eqn:E; [by destruct s as [|c s]; [|cbn in E; repeat case_match]|].
  cbn [all_chars] in Hno. apply andb_prop in Hno as [Hc Hx]. apply negb_true_iff, Ascii.eqb_neq in Hc.
  rewrite append_String in Hf |- *. cbn [length] in Hf. rewrite length_append_s in Hf.
  destruct f as [|f]; [lia|]. rewrite tokenize_text by done.
  rewrite span_app; [|done|by destruct r as [|c' r]; [|cbn in Hr |- *; subst c']].
  exists f. split; [lia|]. cbn. by rewrite E.
Qed.

Lemma raw_kids_ser kids : raw_kids_ok kids = true ->
  String.concat "" (map (ser_tree true) kids) = raw_text kids.
Proof. destruct kids as [|[|s] [|]]; done. Qed.

Lemma raw_kids_no_end kids : raw_kids_ok kids = true -> has_ci iframe_end_prefix (raw_text kids) = false.
Proof.
  destruct kids as [|[tg a ks|s] [|]]; cbn; try done.
  intros H. apply andb_prop in H as [_ H]. by apply negb_true_iff in H.
Qed.

Lemma tok_elem tg a kids : Forall tok_spec kids -> tok_spec (TElem tg a kids).
Proof.
  intros Hk Hwf r f Hf _. destruct (wf_elem tg a kids Hwf) as (Ht & Ha & Hb).
  cbn [ser_tree] in Hf |- *. autorewrite with soup in Hf |- *.
  destruct f as [|f]; [cbn in Hf; lia|]. rewrite tokenize_open by done.
  destruct (String.eqb_spec tg "iframe") as [Hif|Hne].
  - assert (Hv : is_void tg = false) by (rewrite Hif; reflexivity).
    assert (Hi : String.eqb tg "iframe" = true) by (by apply String.eqb_eq).
    rewrite ?Hi, ?Hv in Hb, Hf |- *. rewrite raw_kids_ser in Hf |- * by done.
    autorewrite with soup in Hf |- *.
    rewrite raw_until_app by (by apply raw_kids_no_end || by rewrite Hif).
    rewrite ?Hv in Hf |- *. autorewrite with soup in Hf |- *. slen Hf.
    destruct f as [|f]; [lia|]. rewrite tokenize_close by done.
    exists f. split; [lia|]. cbn [toks_tree]. by rewrite Hi.
  - assert (Hi : String.eqb tg "iframe" = false) by (by apply String.eqb_neq).
    rewrite ?Hi in Hb, Hf |- *. destruct (is_void tg) eqn:Hv.
    + subst kids. cbn [map String.concat] in Hf |- *. autorewrite with soup in Hf |- *. slen Hf.
      exists f. split; [lia|]. cbn [toks_tree]. by rewrite Hi, Hv.
    + autorewrite with soup in Hf |- *. slen Hf.
      destruct (tok_forest_of kids Hk Hb (String "<" (String "/" (tg ++ String ">" r))) f)
        as (f1 & Hf1 & E1); [slen_goal; lia|done|].
      rewrite E1. slen Hf1. destruct f1 as [|f1]; [lia|]. rewrite tokenize_close by done.
      exists f1. split; [lia|].
      cbn [toks_tree]. rewrite Hi, Hv. simpl app. rewrite <-app_assoc. reflexivity.
Qed.

Lemma tok_tree t : tok_spec t.
Proof. induction t as [s|tg a ks IH] using tree_ind'; [apply tok_text|by apply tok_elem]. Qed.

(** ** The tree builder on the tokens of a forest *)

(** The tokens after a forest: nothing, or the end tag of an open
    element. *)
Definition closes (open : list string) (rest : list token) : Prop :=
  match rest with
  | [] => True
  | TkClose t :: _ => existsb (String.eqb t) open = true
  | _ => False
  end.

Definition build_spec (t : tree) : Prop :=
  wf_tree t = true -> forall open rest f,
  List.length (toks_tree t ++ rest)%list <= f ->
  build f open (toks_tree t ++ rest)%list =
  let '(ts, r) := build (f - 1) open rest in (tcons t ts, r).

Definition build_forest_spec (ts : list tree) : Prop :=
  wf_forest ts = true -> forall open rest f,
  List.length (toks_forest ts ++ rest)%list <= f -> closes open rest ->
  build f open (toks_forest ts ++ rest)%list = (ts, rest).

Lemma build_closes f open rest :
  List.length rest <= f -> closes open rest -> build f open rest = ([], rest).
Proof.
  intros Hf Hc. destruct rest as [|[] rest]; try done; [by destruct f|].
  destruct f as [|f]; [cbn in Hf; lia|]. cbn in Hc |- *. by rewrite Hc.
Qed.

Lemma tcons_wf t ts : wf_tree t = true -> no_text_pair t ts = true -> tcons t ts = t :: ts.
Proof.
  destruct t as [tg a kids|s]; [done|]. cbn. intros Hs Hp.
  apply negb_true_iff, String.eqb_neq in Hs. destruct s as [|c s]; [done|].
  by destruct ts as [|[] ts].
Qed.

Lemma build_forest_of ts : Forall build_spec ts -> build_forest_spec ts.
Proof.
  induction 1 as [|t ts Ht Hts IH]; intros Hwf open rest f Hf Hc; [by apply build_closes|].
  cbn [wf_forest] in Hwf. apply andb_prop in Hwf as [Hwf Hwf'].
  apply andb_prop in Hwf as [Hwt Hpair].
  cbn [toks_forest] in Hf |- *. rewrite <-app_assoc in Hf |- *.
  rewrite (Ht Hwt) by done. assert (Hl : 0 < List.length (toks_tree t)).
  { destruct t as [tg a kids|s]; cbn; [|lia]. repeat case_match; cbn; lia. }
  rewrite !length_app in Hf. rewrite (IH Hwf' open rest (f - 1)) by (rewrite ?length_app; lia || done).
  by rewrite tcons_wf.
Qed.

Lemma existsb_eqb_head t open : existsb (String.eqb t) (t :: open) = true.
Proof. cbn. by rewrite String.eqb_refl. Qed.

(** One step of the builder, per token. *)
Lemma build_text_step f open s r :
  build (S f) open (TkText s :: r) = let '(ts, r') := build f open r in (tcons (TText (decode s)) ts, r').
Proof. done. Qed.

Lemma build_raw_step f open s r :
  build (S f) open (TkRaw s :: r) = let '(ts, r') := build f open r in (tcons (TText s) ts, r').
Proof. done. Qed.

Lemma build_close_step f open t r :
  existsb (String.eqb t) open = true -> build (S f) open (TkClose t :: r) = ([], TkClose t :: r).
Proof. intros H. cbn [build]. by rewrite H. Qed.

Lemma build_void_step f open t a r :
  is_void t = true ->
  build (S f) open (TkOpen t a :: r) = let '(ts, r') := build f open r in (TElem t a [] :: ts, r').
Proof. intros H. cbn [build]. by rewrite H. Qed.

Lemma build_open_closed f open t a r kids r2 :
  is_void t = false -> build f (t :: open) r = (kids, TkClose t :: r2) ->
  build (S f) open (TkOpen t a :: r) = let '(ts, r3) := build f open r2 in (TElem t a kids :: ts, r3).
Proof. intros Hv Hk. cbn [build]. rewrite Hv, Hk. by rewrite String.eqb_refl. Qed.

Lemma build_text s : build_spec (TText s).
Proof.
  intros _ open rest f Hf. cbn [toks_tree app] in Hf |- *. destruct f as [|f]; [cbn in Hf; lia|].
  rewrite build_text_step, decode_escape_text. by replace (S f - 1) with f by lia.
Qed.

Lemma build_elem tg a kids : Forall build_spec kids -> build_spec (TElem tg a kids).
Proof.
  intros Hk Hwf open rest f Hf. destruct (wf_elem tg a kids Hwf) as (Ht & Ha & Hb).
  cbn [toks_tree] in Hf |- *.
  destruct f as [|f]; [destruct (String.eqb tg "iframe"), (is_void tg); cbn in Hf; lia|].
  replace (S f - 1) with f by lia.
  destruct (String.eqb_spec tg "iframe") as [Hif|Hne].
  - assert (Hv : is_void tg = false) by (rewrite Hif; reflexivity).
    destruct f as [|[|f]]; cbn in Hf; [lia|lia|]. cbn [app].
    erewrite build_open_closed; [|done|].
    2:{ rewrite build_raw_step, build_close_step by apply existsb_eqb_head. done. }
    destruct kids as [|[|s] [|]]; cbn in Hb; try done.
    apply andb_prop in Hb as [Hs _]. apply negb_true_iff, String.eqb_neq in Hs.
    cbn [raw_text tcons]. by destruct s.
  - destruct (is_void tg) eqn:Hv.
    + subst kids. cbn [app]. by rewrite build_void_step.
    + cbn [app]. rewrite <-app_assoc.
      change ((fix go (ks : list tree) : list token :=
                 match ks with [] => [] | k :: ks' => (toks_tree k ++ go ks')%list end) kids)
        with (toks_forest kids) in Hf |- *.
      erewrite build_open_closed; [done|done|].
      apply (build_forest_of kids Hk Hb); [|apply existsb_eqb_head].
      rewrite !length_app in Hf |- *. cbn [Datatypes.length] in Hf |- *.
      rewrite !length_app in Hf. cbn [Datatypes.length] in Hf. lia.
Qed.

Lemma build_tree t : build_spec t.
Proof. induction t as [s|tg a ks IH] using tree_ind'; [apply build_text|by apply build_elem]. Qed.

(** ** The round trip *)

Lemma tokenize_empty f : tokenize f "" = [].
Proof. by destruct f. Qed.

(** On well-formed trees, [TagSoup]'s parser reads back what its
    serializer writes. *)
Theorem parse_serialize ts : wf_forest ts = true -> TagSoup.parse (TagSoup.serialize ts) = ts.
Proof.
  intros Hwf. unfold TagSoup.parse, TagSoup.serialize.
  destruct (tok_forest_of ts (Forall_true _ _ tok_tree) Hwf "" (String.length
    (String.concat "" (map (ser_tree false) ts)))) as (f' & _ & E);
    [by rewrite append_empty_r|done|].
  rewrite append_empty_r, tokenize_empty, app_nil_r in E. rewrite E.
  rewrite <-(app_nil_r (toks_forest ts)) at 2.
  rewrite (build_forest_of ts (Forall_true _ _ build_tree) Hwf []) by (rewrite ?app_nil_r; done).
  done.
Qed.

End Soup.
