(* ===== verification/Block.v ===== *)
(** * Block: the class [Iframe] of [src/src/index.js]

    One definition per method of the class, in the state-and-exception
    monad [M world] of [Prelude].  The record [world] holds the browser
    DOM ([w_dom]), the node of the document ([w_document]), and the fields
    of the instance: [this.api], [this.readOnly], [this.blockIndex],
    [this.CSS], [this.nodes], [this._data] (behind the [data] accessor
    pair) and the click listeners the instance registered, with the glue
    that reads and writes them from a method, the static declarations of
    the class, and one rule per primitive for the total-correctness
    predicate [ok].  The methods themselves are in [Data] (the [data]
    accessors, the constructor, [onPaste]), [View] ([_make], [render],
    [renderSettings], [_toggleTune], [_acceptTuneView]) and [Save]
    ([save]). *)

From S2P Require Import Prelude Markup Dom.
From Stdlib Require Import Ascii.

Local Open Scope string_scope.
Local Open Scope js_scope.

(** ** Data of the instance *)

(** [api.styles]: the style class names supplied by Editor.js. *)
Record styles := mkStyles {
  styles_block : string;
  styles_loader : string;
  styles_input : string;
  styles_settingsButton : string;
  styles_settingsButtonActive : string
}.

(** The part of the Editor.js API the class uses. *)
Record api := mkApi {
  api_currentBlockIndex : Z;
  api_styles : styles
}.

(** [this.CSS] (index.js lines 45-57). *)
Record css := mkCSS {
  baseClass : string;
  loading : string;
  input : string;
  settingsButton : string;
  settingsButtonActive : string;
  wrapper : string;
  holder : list string
}.

Definition css_of (a : api) : css :=
  mkCSS (styles_block (api_styles a)) (styles_loader (api_styles a))
        (styles_input (api_styles a)) (styles_settingsButton (api_styles a))
        (styles_settingsButtonActive (api_styles a))
        "editorjs-iframe" ["editorjs-iframe__frame"; "flex"].

(** [this.nodes]: the node cache, [null] as [None]. *)
Record nodes := mkNodes {
  nodes_wrapper : option nid;
  nodes_holder : option nid;
  nodes_image : option nid;
  nodes_iframe : option nid
}.

Definition no_nodes : nodes := mkNodes None None None None.

(** An entry of [this.settings]. *)
Record tune := mkTune { tune_name : string; tune_icon : string }.

(** The icons of the source contain double quotes; they are written here
    with single quotes, which [dq] turns back into double quotes, so that
    [dq] of each literal below is the source's template string. *)
Fixpoint dq (s : string) : string :=
  match s with
  | EmptyString => EmptyString
  | String c r => String (if Ascii.eqb c "'" then TagSoup.dquote else c) (dq r)
  end.

Definition icon_LeftAligned : string := dq
  "<svg  width='15' height='15' xmlns='http://www.w3.org/2000/svg' viewBox='0 0 448 512'><path d='M12.83 344h262.34A12.82 12.82 0 0 0 288 331.17v-22.34A12.82 12.82 0 0 0 275.17 296H12.83A12.82 12.82 0 0 0 0 308.83v22.34A12.82 12.82 0 0 0 12.83 344zm0-256h262.34A12.82 12.82 0 0 0 288 75.17V52.83A12.82 12.82 0 0 0 275.17 40H12.83A12.82 12.82 0 0 0 0 52.83v22.34A12.82 12.82 0 0 0 12.83 88zM432 168H16a16 16 0 0 0-16 16v16a16 16 0 0 0 16 16h416a16 16 0 0 0 16-16v-16a16 16 0 0 0-16-16zm0 256H16a16 16 0 0 0-16 16v16a16 16 0 0 0 16 16h416a16 16 0 0 0 16-16v-16a16 16 0 0 0-16-16z'/></svg>".
Definition icon_Centered : string := dq
  "<svg  width='15' height='15' xmlns='http://www.w3.org/2000/svg' viewBox='0 0 448 512'><path d='M108.1 88h231.81A12.09 12.09 0 0 0 352 75.9V52.09A12.09 12.09 0 0 0 339.91 40H108.1A12.09 12.09 0 0 0 96 52.09V75.9A12.1 12.1 0 0 0 108.1 88zM432 424H16a16 16 0 0 0-16 16v16a16 16 0 0 0 16 16h416a16 16 0 0 0 16-16v-16a16 16 0 0 0-16-16zm0-256H16a16 16 0 0 0-16 16v16a16 16 0 0 0 16 16h416a16 16 0 0 0 16-16v-16a16 16 0 0 0-16-16zm-92.09 176A12.09 12.09 0 0 0 352 331.9v-23.81A12.09 12.09 0 0 0 339.91 296H108.1A12.09 12.09 0 0 0 96 308.09v23.81a12.1 12.1 0 0 0 12.1 12.1z'/></svg>".
Definition icon_RightAligned : string := dq
  "<svg  width='15' height='15' xmlns='http://www.w3.org/2000/svg' viewBox='0 0 448 512'><path d='M16 216h416a16 16 0 0 0 16-16v-16a16 16 0 0 0-16-16H16a16 16 0 0 0-16 16v16a16 16 0 0 0 16 16zm416 208H16a16 16 0 0 0-16 16v16a16 16 0 0 0 16 16h416a16 16 0 0 0 16-16v-16a16 16 0 0 0-16-16zm3.17-384H172.83A12.82 12.82 0 0 0 160 52.83v22.34A12.82 12.82 0 0 0 172.83 88h262.34A12.82 12.82 0 0 0 448 75.17V52.83A12.82 12.82 0 0 0 435.17 40zm0 256H172.83A12.82 12.82 0 0 0 160 308.83v22.34A12.82 12.82 0 0 0 172.83 344h262.34A12.82 12.82 0 0 0 448 331.17v-22.34A12.82 12.82 0 0 0 435.17 296z'/></svg>".

(** [this.settings] (index.js lines 80-93). *)
Definition settings : list tune :=
  [mkTune "LeftAligned" icon_LeftAligned;
   mkTune "Centered" icon_Centered;
   mkTune "RightAligned" icon_RightAligned].

Definition tune_names : list string := map tune_name settings.

(** The state: the DOM and the fields of the instance. *)
Record world := mkWorld {
  w_dom : dom;
  w_document : nid;
  w_api : api;
  w_readOnly : jsval;
  w_blockIndex : Z;
  w_CSS : css;
  w_nodes : nodes;
  w_data : option jsobj;               (** [this._data]; [None] is [undefined] *)
  w_listeners : list (nid * string)    (** click listeners: node, tune name *)
}.

Definition set_dom (d : dom) (w : world) : world :=
  mkWorld d (w_document w) (w_api w) (w_readOnly w) (w_blockIndex w) (w_CSS w)
          (w_nodes w) (w_data w) (w_listeners w).
Definition set_nodes (n : nodes) (w : world) : world :=
  mkWorld (w_dom w) (w_document w) (w_api w) (w_readOnly w) (w_blockIndex w) (w_CSS w)
          n (w_data w) (w_listeners w).
Definition set_data_field (o : jsobj) (w : world) : world :=
  mkWorld (w_dom w) (w_document w) (w_api w) (w_readOnly w) (w_blockIndex w) (w_CSS w)
          (w_nodes w) (Some o) (w_listeners w).
Definition add_listener (n : nid) (name : string) (w : world) : world :=
  mkWorld (w_dom w) (w_document w) (w_api w) (w_readOnly w) (w_blockIndex w) (w_CSS w)
          (w_nodes w) (w_data w) (w_listeners w ++ [(n, name)])%list.

(** ** Glue between the DOM and the instance *)

(** Runs a DOM operation on the DOM of the world. *)
Definition liftD {A} (c : M dom A) : M world A :=
  fun w => match c (w_dom w) with
           | Done a d => Done a (set_dom d w)
           | Threw e d => Threw e (set_dom d w)
           end.

Definition readD {A} (f : dom -> A) : M world A := fun w => Done (f (w_dom w)) w.

(** Dereferencing a value that may be [null]: a property access on
    [null] is a [TypeError]. *)
Definition deref {A} (o : option A) (msg : string) : M world A :=
  match o with Some a => mret a | None => mthrow (TypeError msg) end.

(** [this.data] where the code then reads or writes a property of it. *)
Definition this_data : M world jsobj :=
  w <- mget ;; deref (w_data w) "Cannot read properties of undefined".

(** [x.parentElement], read to access a property of it. *)
Definition parent_of (n : nid) : M world nid :=
  p <- readD (parent_element n) ;; deref p "Cannot set properties of null (setting 'innerHTML')".


(** ** Static declarations (index.js lines 96, 161-175, 231-238) *)

(** [static title]. *)
Definition title : string := "Bold".

(** [static get isReadOnlySupported()]. *)
Definition isReadOnlySupported : bool := true.

(** A rule of the sanitizer configuration: [true], or an object of
    allowed tags (here empty, [{}]). *)
Inductive sanitize_rule :=
| SanAllow (b : bool)
| SanTags (allowed : list (string * bool)).

(** [static get sanitize()]. *)
Definition sanitize : list (string * sanitize_rule) :=
  [("frame", SanAllow true); ("html", SanTags [])].

(** The tag part of [static get pasteConfig()]. *)
Definition paste_tags : list string := ["iframe"].


(** ** Lemmas: one rule per primitive, for the [ok] predicate *)

Lemma set_dom_set_dom d1 d2 w : set_dom d2 (set_dom d1 w) = set_dom d2 w.
Proof. done. Qed.

Lemma set_dom_id w : set_dom (w_dom w) w = w.
Proof. by destruct w. Qed.

#[export] Hint Rewrite set_dom_set_dom set_dom_id : js_rw.

Lemma ok_mget w (P : world -> world -> Prop) : P w w -> ok mget w P.
Proof. done. Qed.

Lemma ok_mmodify (f : world -> world) w P : P tt (f w) -> ok (mmodify f) w P.
Proof. done. Qed.

Lemma ok_deref {A} (o : option A) msg w P a : o = Some a -> P a w -> ok (deref o msg) w P.
Proof. by intros ->. Qed.

Lemma ok_this_data w P d : w_data w = Some d -> P d w -> ok this_data w P.
Proof. intros Hd HP. unfold this_data. apply ok_bind. by eapply ok_deref. Qed.

Lemma ok_readD {A} (f : dom -> A) w P : P (f (w_dom w)) w -> ok (readD f) w P.
Proof. done. Qed.

Lemma ok_class_add n cs w P :
  check_tokens cs = None ->
  P tt (set_dom (class_update n (list_add cs (class_list n (w_dom w))) (w_dom w)) w) ->
  ok (liftD (class_add n cs)) w P.
Proof. intros Hc HP. unfold ok, liftD, class_add. by rewrite Hc. Qed.

Lemma ok_class_remove n cs w P :
  check_tokens cs = None ->
  P tt (set_dom (class_update n (list_remove cs (class_list n (w_dom w))) (w_dom w)) w) ->
  ok (liftD (class_remove n cs)) w P.
Proof. intros Hc HP. unfold ok, liftD, class_remove. by rewrite Hc. Qed.

Lemma throws_deref_None {A} msg w (P : exn -> world -> Prop) :
  P (TypeError msg) w -> throws (@deref A None msg) w P.
Proof. done. Qed.

(** The verification-condition generator: splits binds and applies the
    rule of each primitive; side conditions are left to the caller. *)
Ltac vcg_step :=
  match goal with
  | |- ok (mbind _ _) _ _ => apply ok_bind
  | |- ok (mret _) _ _ => apply ok_ret
  | |- ok mget _ _ => apply ok_mget
  | |- ok (mmodify _) _ _ => apply ok_mmodify
  | |- ok (readD _) _ _ => apply ok_readD
  | |- ok this_data _ _ => eapply ok_this_data; [solve [simpl; eauto]|]
  end; cbn beta.
Ltac vcg := repeat vcg_step.
