(* ===== verification/Data.v ===== *)
(** * Data: the [data] accessor pair, [onPaste] and the constructor

    The setter [set data(data)] merges the partial object into the
    current one ([Object.assign({}, this.data, data)]) and, when an iframe
    node is cached, writes [this.data.frame] into that node's parent's
    [innerHTML].  This file proves the merge semantics, that a paste
    replaces [frame] and keeps the alignment, that the setter throws a
    [TypeError] once the cached node has been detached from the holder
    (which the setter itself and [render] do), the defaults of the
    constructor, and that the two branches of [onPaste] have the same
    effect on every world ([onPaste_pattern_tag], C18).  Concrete worlds for the witnesses close the
    definitions: a document with a [body] and the block constructed in it. *)

From S2P Require Import Prelude Markup Dom Block.

Local Open Scope string_scope.
Local Open Scope js_scope.

Section Data.
Context `{HtmlSyntax}.

(** ** The [data] accessor pair (index.js lines 208-223) *)

(** [get data()]: [this._data]. *)
Definition get_data : M world (option jsobj) := fun w => Done (w_data w) w.

(** [set data(data)]: [this._data = Object.assign({}, this.data, data)],
    then, when an iframe node is cached, its parent's [innerHTML] is set to
    [this.data.frame]. *)
Definition set_data (data : jsobj) : M world unit :=
  cur <- get_data ;;
  mmodify (set_data_field (assign (match cur with Some c => assign ∅ c | None => ∅ end) data)) ;;
  w <- mget ;;
  match nodes_iframe (w_nodes w) with
  | Some ifr =>
      p <- parent_of ifr ;;
      d <- this_data ;;
      liftD (set_inner_html p (html_of_value (prop d "frame")))
  | None => mret tt
  end.

(** ** The constructor (index.js lines 25-94) *)

(** [data.frame !== undefined ? data.frame : ''] and
    [!!data.alignment ? data.alignment : false]. *)
Definition initial_data (data : jsobj) : jsobj :=
  <["frame" := match prop data "frame" with JUndefined => JStr "" | v => v end]>
  {["alignment" := if truthy (prop data "alignment") then prop data "alignment" else JBool false]}.

(** The fields before [this.data = ...] runs: [this._data] is still
    [undefined]. *)
Definition pre_world (d : dom) (doc : nid) (a : api) (readOnly : jsval) : world :=
  mkWorld d doc a readOnly (api_currentBlockIndex a + 1) (css_of a) no_nodes None [].

Definition construct (data : jsobj) (a : api) (readOnly : jsval) (d : dom) (doc : nid)
  : outcome world unit :=
  set_data (initial_data data) (pre_world d doc a readOnly).

(** ** [onPaste] (index.js lines 182-201) *)

(** A paste event of Editor.js: its [type] and [detail.data]. *)
Record paste_event := mkPaste { pe_type : string; pe_data : jsval }.

Definition onPaste (event : paste_event) : M world unit :=
  if String.eqb (pe_type event) "tag" then
    set_data {["frame" := pe_data event]}
  else if String.eqb (pe_type event) "pattern" then
    set_data {["frame" := pe_data event]} ;;
    cur <- get_data ;;
    mmodify (set_data_field
      (assign (match cur with Some c => assign ∅ c | None => ∅ end) {["frame" := pe_data event]}))
  else mret tt.

End Data.

(** ** A concrete document and block *)

Definition demo_body : nid := 1%positive.

Definition demo_dom : dom := mkDom {[demo_body := mkElem "body" [] [] None]} 2%positive.

Definition demo_api : api :=
  mkApi 0 (mkStyles "cdx-block" "cdx-loader" "cdx-input" "cdx-settings-button"
                    "cdx-settings-button--active").

Definition demo_frame : string :=
  "<iframe src='https://www.youtube.com/embed/x' width='560' allowfullscreen></iframe>".

Definition demo_data : jsobj :=
  <["frame" := JStr demo_frame]> {["alignment" := JStr "Centered"]}.

Definition demo_constructed : world :=
  final_state (construct demo_data demo_api (JBool false) demo_dom demo_body).

(** A block constructed with no saved data. *)
Definition demo_blank : world :=
  final_state (construct ∅ demo_api (JBool false) demo_dom demo_body).

(** The data object of a world, [∅] when it is [undefined]. *)
Definition data_of (w : world) : jsobj := default ∅ (w_data w).

(** The demo block with a cached iframe node that has no parent. *)
Definition demo_detached : world :=
  set_nodes (mkNodes None None None (Some demo_body)) demo_constructed.

Section DataFacts.
Context `{HtmlSyntax}.

Lemma ok_get_data w P : P (w_data w) w -> ok get_data w P.
Proof. done. Qed.

Lemma assign_empty_l (d : jsobj) : assign ∅ d = d.
Proof. unfold assign. apply map_union_empty. Qed.

Lemma prop_assign (t s : jsobj) k : prop (assign t s) k = match s !! k with Some v => v | None => prop t k end.
Proof.
  destruct (s !! k) eqn:E; [by apply prop_assign_src|by apply prop_assign_tgt].
Qed.

(** The merge [Object.assign({}, this.data, data)] of the setter. *)
Lemma set_data_merged w d x :
  w_data w = Some d ->
  ok (mmodify (set_data_field (assign (match w_data w with Some c => assign ∅ c | None => ∅ end) x))) w
     (fun _ w' => w' = set_data_field (assign d x) w).
Proof. intros Hd. apply ok_mmodify. by rewrite Hd, assign_empty_l. Qed.

(** The setter when no iframe node is cached (before [render]). *)
Lemma set_data_run_unrendered w d x :
  w_data w = Some d -> nodes_iframe (w_nodes w) = None ->
  set_data x w = Done tt (set_data_field (assign d x) w).
Proof.
  intros Hd Hn. unfold set_data, get_data, mbind, mmodify, mget, mret.
  rewrite Hd, assign_empty_l. simpl. by rewrite Hn.
Qed.

(** The setter when the cached iframe node has a parent: the parent's
    [innerHTML] is set to the new [frame]. *)
Lemma set_data_run_attached w d x i p :
  w_data w = Some d -> nodes_iframe (w_nodes w) = Some i -> parent_element i (w_dom w) = Some p ->
  set_data x w =
  Done tt (set_dom (final_state (set_inner_html p (html_of_value (prop (assign d x) "frame")) (w_dom w)))
                   (set_data_field (assign d x) w)).
Proof.
  intros Hd Hn Hp. unfold set_data, get_data, mbind, mmodify, mget, mret.
  rewrite Hd, assign_empty_l. simpl. rewrite Hn.
  unfold parent_of, readD, mbind, deref, this_data, mget. simpl. rewrite Hp. simpl.
  unfold liftD, set_inner_html. by destruct (alloc_forest _ _ _).
Qed.

(** The setter when the cached iframe node has no parent. *)
Lemma set_data_run_detached w d x i :
  w_data w = Some d -> nodes_iframe (w_nodes w) = Some i -> parent_element i (w_dom w) = None ->
  throws (set_data x) w (fun e w' =>
    e = TypeError "Cannot set properties of null (setting 'innerHTML')" /\
    w_data w' = Some (assign d x) /\ w_dom w' = w_dom w).
Proof.
  intros Hd Hn Hp. unfold set_data. apply throws_bind_r, ok_get_data.
  apply throws_bind_r. eapply ok_mono; [|by apply set_data_merged]. intros _ w' ->.
  apply throws_bind_r, ok_mget. simpl. rewrite Hn.
  apply throws_bind_l. unfold parent_of. apply throws_bind_r, ok_readD. simpl. rewrite Hp.
  by apply throws_deref_None.
Qed.

(** C5: the setter merges: the properties of the partial object override
    those of the data object, the others are kept; before [render] the
    DOM is not touched. *)
Theorem set_data_merge w d x :
  w_data w = Some d -> nodes_iframe (w_nodes w) = None ->
  ok (set_data x) w (fun _ w' => exists d', w_data w' = Some d' /\ w_dom w' = w_dom w /\
       forall k, prop d' k = match x !! k with Some v => v | None => prop d k end).
Proof.
  intros Hd Hn. unfold ok. rewrite (set_data_run_unrendered w d x) by done.
  eexists. split; [done|]. split; [done|]. intros k. apply prop_assign.
Qed.

(** C7: once the cached iframe node has no parent (after [render] or a
    previous setter call replaced the holder's [innerHTML]), the setter
    throws a [TypeError]: the data object is already merged, but the DOM
    is not updated. *)
Theorem set_data_detached_throws w d x i :
  w_data w = Some d -> nodes_iframe (w_nodes w) = Some i -> parent_element i (w_dom w) = None ->
  throws (set_data x) w (fun e w' =>
    e = TypeError "Cannot set properties of null (setting 'innerHTML')" /\
    w_data w' = Some (assign d x) /\ w_dom w' = w_dom w).
Proof. apply set_data_run_detached. Qed.

(** C8: the constructor's defaults: [frame] defaults to [''] when
    [undefined], [alignment] to [false] when falsy; the block index is the
    host's current index plus one; nothing is rendered. *)
Theorem construct_defaults data a ro d doc :
  ok (set_data (initial_data data)) (pre_world d doc a ro) (fun _ w => exists d',
     w_data w = Some d' /\
     prop d' "frame" = match prop data "frame" with JUndefined => JStr "" | v => v end /\
     prop d' "alignment" = (if truthy (prop data "alignment") then prop data "alignment" else JBool false) /\
     w_blockIndex w = (api_currentBlockIndex a + 1)%Z /\ w_nodes w = no_nodes /\ w_dom w = d).
Proof.
  unfold set_data. apply ok_bind, ok_get_data. apply ok_bind, ok_mmodify.
  apply ok_bind, ok_mget. simpl. apply ok_ret.
  eexists. split; [done|]. unfold initial_data. rewrite assign_empty_l.
  rewrite prop_insert_eq, prop_insert_ne, prop_singleton by done. naive_solver.
Qed.

(** What the data object is after the setter returns: the merge, whatever
    the DOM update did. *)
Lemma set_data_done w x u w' :
  set_data x w = Done u w' ->
  w_data w' = Some (assign (match w_data w with Some c => c | None => ∅ end) x).
Proof.
  unfold set_data, get_data, mbind, mmodify, mget, mret. cbn.
  destruct (nodes_iframe (w_nodes w)) as [i|]; [|intros [= _ <-]; cbn; by destruct (w_data w); rewrite ?assign_empty_l].
  unfold parent_of, readD, deref, this_data, mbind, mget, mret, mthrow, liftD. cbn.
  destruct (parent_element i (w_dom w)); [|done]. cbn.
  destruct (set_inner_html _ _ _); intros [=]; subst; cbn; by destruct (w_data w); rewrite ?assign_empty_l.
Qed.

Lemma set_data_field_same w o : w_data w = Some o -> set_data_field o w = w.
Proof. destruct w; cbn. by intros ->. Qed.

(** The [Object.assign] of the [pattern] branch rewrites the object the
    setter has just stored. *)
Lemma onPaste_pattern_run x w w1 :
  set_data {["frame" := x]} w = Done tt w1 -> onPaste (mkPaste "pattern" x) w = Done tt w1.
Proof.
  intros E. unfold onPaste. cbn [pe_type pe_data String.eqb Ascii.eqb Bool.eqb andb].
  unfold mbind at 1. rewrite E. apply set_data_done in E.
  unfold get_data, mbind, mmodify. rewrite E, assign_empty_l, assign_twice.
  by rewrite set_data_field_same.
Qed.

(** C18: the two branches of [onPaste] have the same effect on every
    world: the [Object.assign] that the [pattern] branch runs after the
    setter writes the data object the setter just wrote, and when the
    setter throws it is not reached. *)
Theorem onPaste_pattern_tag x w :
  onPaste (mkPaste "pattern" x) w = onPaste (mkPaste "tag" x) w.
Proof.
  destruct (set_data {["frame" := x]} w) as [[] w1|e w1] eqn:E.
  - rewrite (onPaste_pattern_run _ _ _ E). by rewrite <-E.
  - unfold onPaste. cbn [pe_type pe_data String.eqb Ascii.eqb Bool.eqb andb].
    unfold mbind at 1. by rewrite E.
Qed.

(** The setter stores the merge, whether its DOM update returns or
    throws. *)
Lemma set_data_final x w :
  w_data (final_state (set_data x w)) = Some (assign (default ∅ (w_data w)) x).
Proof.
  unfold set_data, get_data, mbind, mmodify, mget, mret. cbn.
  destruct (nodes_iframe (w_nodes w)) as [i|]; [|cbn; by destruct (w_data w); rewrite ?assign_empty_l].
  unfold parent_of, readD, deref, this_data, mbind, mget, mret, mthrow, liftD. cbn.
  destruct (parent_element i (w_dom w)); cbn; [destruct (set_inner_html _ _ _)|]; cbn;
    by destruct (w_data w); rewrite ?assign_empty_l.
Qed.

(** A paste of either kind leaves the state the setter leaves. *)
Lemma onPaste_final ev w :
  pe_type ev = "tag" \/ pe_type ev = "pattern" ->
  final_state (onPaste ev w) = final_state (set_data {["frame" := pe_data ev]} w).
Proof.
  destruct ev as [ty x]; cbn [pe_type pe_data]. intros [->| ->]; [done|].
  destruct (set_data {["frame" := x]} w) as [[] w1|e w1] eqn:E.
  - by rewrite (onPaste_pattern_run _ _ _ E).
  - unfold onPaste. cbn [pe_type pe_data String.eqb Ascii.eqb Bool.eqb andb].
    unfold mbind at 1. by rewrite E.
Qed.

(** C6: on any block, rendered or not, a paste of either kind stores the
    pasted value as [frame] and keeps [alignment], whether the setter's
    write into the DOM returns or throws (after [render] with a
    non-empty [frame] it throws, C13, but the data is already merged):
    the setter merges into the data rather than replacing it. *)
Theorem onPaste_keeps_alignment w d ev :
  (pe_type ev = "tag" \/ pe_type ev = "pattern") -> w_data w = Some d ->
  exists d', w_data (final_state (onPaste ev w)) = Some d' /\
    prop d' "frame" = pe_data ev /\ prop d' "alignment" = prop d "alignment".
Proof.
  intros Ht Hd. rewrite onPaste_final, set_data_final, Hd by done.
  eexists. split; [done|]. cbn [default].
  by rewrite !prop_assign, lookup_singleton_eq, lookup_singleton_ne.
Qed.

End DataFacts.

(** ** Witnesses *)

Lemma set_data_merge_witness :
  ok (set_data {["alignment" := JStr "RightAligned"]}) demo_constructed
     (fun _ w' => exists d', w_data w' = Some d' /\ w_dom w' = w_dom demo_constructed /\
       forall k, prop d' k = match ({["alignment" := JStr "RightAligned"]} : jsobj) !! k with
                             | Some v => v | None => prop (data_of demo_constructed) k end).
Proof. apply set_data_merge; vm_compute; reflexivity. Defined.

(** A tag paste on the demo block whose cached iframe has no parent: the
    setter throws, the data is merged. *)
Lemma onPaste_keeps_alignment_witness :
  pe_type (mkPaste "tag" (JObj "HTMLIFrameElement")) = "tag" /\
  exists d', w_data (final_state (onPaste (mkPaste "tag" (JObj "HTMLIFrameElement")) demo_detached)) = Some d' /\
    prop d' "frame" = JObj "HTMLIFrameElement" /\
    prop d' "alignment" = prop (data_of demo_detached) "alignment".
Proof.
  split; [reflexivity|].
  apply (onPaste_keeps_alignment demo_detached (data_of demo_detached) (mkPaste "tag" _));
    [left; reflexivity|vm_compute; reflexivity].
Defined.

Lemma set_data_detached_throws_witness :
  throws (set_data {["frame" := JStr "<iframe></iframe>"]}) demo_detached (fun e w' =>
    e = TypeError "Cannot set properties of null (setting 'innerHTML')" /\
    w_data w' = Some (assign (data_of demo_detached) {["frame" := JStr "<iframe></iframe>"]}) /\
    w_dom w' = w_dom demo_detached).
Proof. apply (set_data_detached_throws _ _ _ demo_body); vm_compute; reflexivity. Defined.
