(* ===== verification/View.v ===== *)
(** * View: [_make], [render], [renderSettings] and the alignment tunes

    The methods of the class that build and update the block's DOM:
    [_make] (index.js lines 275-289), [render] (105-136),
    [renderSettings] (245-265), [_toggleTune] (297-308) with the callback
    of its [forEach], and [_acceptTuneView] (315-333).

    The abstract view of the alignment tune is the projection
    [alignment_class] from the value of [data.alignment] to the one
    layout class the holder must carry ([iframe-justify-start], [-end] or
    [-center]) or to none.  This file proves that [_acceptTuneView]
    implements that projection on the holder's [classList] (and leaves
    its other classes alone; [accept_tune_view_refines], C20), that it
    is idempotent, that [_toggleTune T]
    sets [data.alignment] to [T] and the holder's layout classes to the
    projection of [T] whatever the previous state, that toggling the same
    tune twice does not revert to no alignment, and that [_toggleTune]
    throws when the settings panel is not in the document.  The witnesses
    run on the demo block of [Data], rendered and mounted in the document
    by [host_mount], which does what Editor.js does with the nodes
    [render] and [renderSettings] return. *)

From S2P Require Import Prelude Markup Dom Block Data.

Local Open Scope string_scope.
Local Open Scope js_scope.

Section View.
Context `{HtmlSyntax}.

(** ** [_make] (index.js lines 275-289) *)

(** The [classNames] argument: [null], a string, or an array. *)
Inductive classNames :=
| ClsNull
| ClsOne (c : string)
| ClsArray (cs : list string).

(** The third argument [frame] is [{}] at every call site, so the loop
    over its properties does nothing and is left out. *)
Definition _make (tagName : string) (cls : classNames) : M world nid :=
  el <- liftD (create_element tagName) ;;
  match cls with
  | ClsArray cs => liftD (class_add el cs)
  | ClsOne c => if String.eqb c "" then mret tt else liftD (class_add el [c])
  | ClsNull => mret tt
  end ;;
  mret el.

(** ** [_acceptTuneView] (index.js lines 315-333) *)

(** One of its three [if] statements. *)
Definition accept_one (name cls : string) : M world unit :=
  d <- this_data ;;
  w <- mget ;;
  h <- deref (nodes_holder (w_nodes w)) "Cannot read properties of null (reading 'classList')" ;;
  if loose_eq_name (prop d "alignment") name then liftD (class_add h [cls])
  else liftD (class_remove h [cls]).

Definition _acceptTuneView : M world unit :=
  accept_one "LeftAligned" "iframe-justify-start" ;;
  accept_one "RightAligned" "iframe-justify-end" ;;
  accept_one "Centered" "iframe-justify-center".

(** ** [_toggleTune] (index.js lines 297-308) *)

(** The callback of [this.settings.forEach] in [_toggleTune]. *)
Definition toggle_button (tune : string) (t : Block.tune) : M world unit :=
  w <- mget ;;
  el <- deref (get_element_by_id (w_document w) (tune_name t) (w_dom w))
              "Cannot read properties of null (reading 'classList')" ;;
  if String.eqb (tune_name t) tune
  then liftD (class_add el [settingsButtonActive (w_CSS w)])
  else liftD (class_remove el [settingsButtonActive (w_CSS w)]).

Definition _toggleTune (tune : string) : M world unit :=
  d <- this_data ;;
  mmodify (set_data_field (<[tune := JBool (negb (truthy (prop d tune)))]> d)) ;;
  d <- this_data ;;
  mmodify (set_data_field (<["alignment" := JStr tune]> d)) ;;
  mforeach (toggle_button tune) settings ;;
  _acceptTuneView.

(** ** [render] (index.js lines 105-136) *)

(** The [onerror] handler assigned to the placeholder is a no-op and
    [console.log] is output only; neither is modelled. *)
Definition render : M world nid :=
  w <- mget ;;
  let C := w_CSS w in
  wrapper <- _make "div" (ClsArray [baseClass C; Block.wrapper C]) ;;
  loader <- _make "div" (ClsOne (loading C)) ;;
  holder <- _make "div" (ClsArray (Block.holder C)) ;;
  iframe <- _make "iframe" ClsNull ;;
  liftD (append_child wrapper loader) ;;
  liftD (append_child holder iframe) ;;
  liftD (class_remove wrapper [loading C]) ;;
  liftD (append_child wrapper holder) ;;
  d <- this_data ;;
  (if truthy (prop d "frame") then
     p <- parent_of iframe ;;
     d <- this_data ;;
     liftD (set_inner_html p (html_of_value (prop d "frame")))
   else mret tt) ;;
  liftD (node_remove loader) ;;
  w <- mget ;;
  let n := w_nodes w in
  mmodify (set_nodes (mkNodes (Some wrapper) (Some holder) (nodes_image n) (Some iframe))) ;;
  d <- this_data ;;
  (if truthy (prop d "alignment") then _acceptTuneView else mret tt) ;;
  mret wrapper.

(** ** [renderSettings] (index.js lines 245-265) *)

(** The callback of [this.settings.forEach] in [renderSettings]: one
    button, appended to [wrapper]. *)
Definition settings_button (wrapper : nid) (t : Block.tune) : M world unit :=
  el <- liftD (create_element "div") ;;
  liftD (set_attribute el "id" (tune_name t)) ;;
  w <- mget ;;
  liftD (class_add el [settingsButton (w_CSS w)]) ;;
  liftD (set_inner_html el (tune_icon t)) ;;
  mmodify (add_listener el (tune_name t)) ;;
  d <- this_data ;;
  (if loose_eq_name (prop d "alignment") (tune_name t)
   then liftD (class_add el [settingsButtonActive (w_CSS w)])
   else mret tt) ;;
  liftD (append_child wrapper el).

Definition renderSettings : M world nid :=
  wrapper <- liftD (create_element "div") ;;
  mforeach (settings_button wrapper) settings ;;
  mret wrapper.

End View.

(** ** The abstract view *)

Definition justify_classes : list string :=
  ["iframe-justify-start"; "iframe-justify-end"; "iframe-justify-center"].

(** The layout class an alignment value calls for. *)
Definition alignment_class (a : jsval) : option string :=
  if loose_eq_name a "LeftAligned" then Some "iframe-justify-start"
  else if loose_eq_name a "RightAligned" then Some "iframe-justify-end"
  else if loose_eq_name a "Centered" then Some "iframe-justify-center"
  else None.

(** The class list of one [if] statement of [_acceptTuneView]. *)
Definition accept_list (a : jsval) (name cls : string) (l : list string) : list string :=
  if loose_eq_name a name then list_add [cls] l else list_remove [cls] l.

Definition accept_step (a : jsval) (name cls : string) (h : nid) (d : dom) : dom :=
  class_update h (accept_list a name cls (class_list h d)) d.

(** The DOM after the three statements of [_acceptTuneView]. *)
Definition accept_dom (a : jsval) (h : nid) (d : dom) : dom :=
  accept_step a "Centered" "iframe-justify-center" h
    (accept_step a "RightAligned" "iframe-justify-end" h
       (accept_step a "LeftAligned" "iframe-justify-start" h d)).

(** ** The demo block, rendered *)

(** What the host does with a node a method returns: append it to the
    document. *)
Definition host_mount (c : M world nid) : M world nid :=
  n <- c ;; w <- mget ;; liftD (append_child (w_document w) n) ;; mret n.

Definition demo_rendered : world := final_state (host_mount render demo_constructed).

Definition demo_settings : world := final_state (host_mount renderSettings demo_rendered).

(** The cached holder of a world. *)
Definition holder_of (w : world) : nid := default 1%positive (nodes_holder (w_nodes w)).

Section ViewFacts.
Context `{HtmlSyntax}.

Lemma check_tokens_one c : valid_token c = true -> check_tokens [c] = None.
Proof. intros Hc. apply check_tokens_None. by constructor. Qed.

Lemma accept_one_run name cls w d h :
  w_data w = Some d -> nodes_holder (w_nodes w) = Some h -> valid_token cls = true ->
  accept_one name cls w = Done tt (set_dom (accept_step (prop d "alignment") name cls h (w_dom w)) w).
Proof.
  intros Hd Hh Hc. pose proof (check_tokens_one cls Hc) as Ht.
  unfold accept_one, this_data, accept_step, accept_list, mbind, mget, deref, mret.
  rewrite Hd; cbn beta iota; rewrite Hh; cbn beta iota. unfold mret, liftD, class_add, class_remove.
  destruct (loose_eq_name (prop d "alignment") name); by rewrite Ht.
Qed.

(** [_acceptTuneView] computes [accept_dom] on the holder. *)
Lemma accept_tune_view_run w d h :
  w_data w = Some d -> nodes_holder (w_nodes w) = Some h ->
  _acceptTuneView w = Done tt (set_dom (accept_dom (prop d "alignment") h (w_dom w)) w).
Proof.
  intros Hd Hh. unfold _acceptTuneView, accept_dom. unfold mbind at 1.
  rewrite (accept_one_run _ _ w d h) by done. unfold mbind.
  rewrite (accept_one_run _ _ _ d h) by done.
  by rewrite (accept_one_run _ _ _ d h) by done.
Qed.

Lemma accept_step_exists a name cls h d c :
  is_Some (elem_of c (accept_step a name cls h d)) <-> is_Some (elem_of c d).
Proof. apply class_update_exists. Qed.

Lemma accept_step_members a name cls h d c :
  valid_token cls = true -> is_Some (elem_of h d) ->
  In c (class_list h (accept_step a name cls h d)) <->
  (if String.eqb c cls then loose_eq_name a name = true else In c (class_list h d)).
Proof.
  intros Hc [e He]. unfold accept_step, accept_list.
  destruct (loose_eq_name a name) eqn:E.
  - rewrite (class_add_members h [cls] d e c He (check_tokens_one cls Hc)).
    destruct (String.eqb_spec c cls) as [->|Hne]; simpl; naive_solver.
  - rewrite (class_remove_members h [cls] d e c He).
    destruct (String.eqb_spec c cls) as [->|Hne]; simpl; naive_solver.
Qed.

Lemma accept_dom_exists a h d c : is_Some (elem_of c (accept_dom a h d)) <-> is_Some (elem_of c d).
Proof. unfold accept_dom. by rewrite !accept_step_exists. Qed.

Lemma accept_dom_edits a h d : class_edits (eq h) d (accept_dom a h d).
Proof.
  unfold accept_dom, accept_step.
  apply class_edits_step; [done|]. apply class_edits_step; [done|]. by apply class_edits_once.
Qed.

(** The refinement: after [_acceptTuneView] the holder carries exactly the
    layout class [alignment_class] calls for, and its other classes are
    those it had. *)
Lemma accept_dom_members a h d :
  is_Some (elem_of h d) ->
  (forall cls, In cls justify_classes ->
     (In cls (class_list h (accept_dom a h d)) <-> alignment_class a = Some cls)) /\
  (forall c, ~ In c justify_classes ->
     (In c (class_list h (accept_dom a h d)) <-> In c (class_list h d))).
Proof.
  intros Hh.
  assert (forall c, In c (class_list h (accept_dom a h d)) <->
    if String.eqb c "iframe-justify-center" then loose_eq_name a "Centered" = true
    else if String.eqb c "iframe-justify-end" then loose_eq_name a "RightAligned" = true
    else if String.eqb c "iframe-justify-start" then loose_eq_name a "LeftAligned" = true
    else In c (class_list h d)) as Hm.
  { intros c. unfold accept_dom.
    rewrite accept_step_members by (done || by rewrite !accept_step_exists).
    destruct (String.eqb c "iframe-justify-center"); [done|].
    rewrite accept_step_members by (done || by rewrite accept_step_exists).
    destruct (String.eqb c "iframe-justify-end"); [done|].
    by rewrite accept_step_members by done. }
  split.
  - intros cls Hcls. rewrite Hm. unfold alignment_class.
    destruct (loose_eq_name a "LeftAligned") eqn:EL, (loose_eq_name a "RightAligned") eqn:ER,
             (loose_eq_name a "Centered") eqn:EC;
      try (pose proof (loose_eq_name_unique _ _ _ EL ER); discriminate);
      try (pose proof (loose_eq_name_unique _ _ _ EL EC); discriminate);
      try (pose proof (loose_eq_name_unique _ _ _ ER EC); discriminate);
      destruct Hcls as [<-|[<-|[<-|[]]]]; simpl; split; congruence.
  - intros c Hc. rewrite Hm.
    destruct (String.eqb_spec c "iframe-justify-center") as [->|_]; [exfalso; apply Hc; simpl; tauto|].
    destruct (String.eqb_spec c "iframe-justify-end") as [->|_]; [exfalso; apply Hc; simpl; tauto|].
    destruct (String.eqb_spec c "iframe-justify-start") as [->|_]; [exfalso; apply Hc; simpl; tauto|].
    done.
Qed.

(** Every [classList] update leaves the holder's [class] attribute in
    normal form. *)
Lemma accept_dom_normal a h d : is_Some (elem_of h d) -> class_normal h (accept_dom a h d).
Proof.
  intros Hh. unfold accept_dom at 1, accept_step at 1.
  assert (is_Some (elem_of h (accept_step a "RightAligned" "iframe-justify-end" h
                               (accept_step a "LeftAligned" "iframe-justify-start" h d)))) as [e He]
    by (by rewrite !accept_step_exists).
  destruct (class_list_spec h (accept_step a "RightAligned" "iframe-justify-end" h
                               (accept_step a "LeftAligned" "iframe-justify-start" h d))) as [Hnd Hv].
  eapply class_update_normal; [exact He| |].
  - unfold accept_list. destruct (loose_eq_name _ _); [by apply list_add_spec|by apply list_remove_spec].
  - unfold accept_list. destruct (loose_eq_name _ _); [|by apply list_remove_valid].
    apply list_add_valid; [by apply check_tokens_None, check_tokens_one|done].
Qed.

(** When the holder already shows the projection, a step changes nothing. *)
Lemma accept_step_stable a name cls h d :
  class_normal h d ->
  (In cls (class_list h d) <-> loose_eq_name a name = true) ->
  accept_step a name cls h d = d.
Proof.
  intros Hn Hm. unfold accept_step, accept_list.
  destruct (loose_eq_name a name).
  - rewrite list_add_present by (by apply Hm). by apply class_update_noop.
  - rewrite list_remove_absent by (intros Hc; by apply Hm in Hc). by apply class_update_noop.
Qed.

Lemma accept_dom_idem a h d : is_Some (elem_of h d) -> accept_dom a h (accept_dom a h d) = accept_dom a h d.
Proof.
  intros Hh. pose proof (accept_dom_normal a h d Hh) as Hn.
  destruct (accept_dom_members a h d Hh) as [Hj _].
  assert (forall name cls, In cls justify_classes -> alignment_class a = Some cls <-> loose_eq_name a name = true ->
            accept_step a name cls h (accept_dom a h d) = accept_dom a h d) as Hs.
  { intros name cls Hc Hiff. apply accept_step_stable; [done|]. by rewrite Hj, Hiff. }
  unfold accept_dom at 1.
  assert (forall n1 n2, loose_eq_name a n1 = true -> loose_eq_name a n2 = true -> n1 = n2) as U
    by (intros; eapply loose_eq_name_unique; eauto).
  unfold alignment_class in Hs.
  rewrite Hs; [rewrite Hs; [rewrite Hs; [done| |]| |]| |]; simpl; auto;
    destruct (loose_eq_name a "LeftAligned") eqn:EL, (loose_eq_name a "RightAligned") eqn:ER,
             (loose_eq_name a "Centered") eqn:EC; split; intros; simplify_eq;
      try done; try (by pose proof (U _ _ EL ER)); try (by pose proof (U _ _ EL EC));
      try (by pose proof (U _ _ ER EC)).
Qed.

(** ** Properties *)

(** C2: [_acceptTuneView] is idempotent: run twice in a row on an
    unchanged state, the second run changes nothing at all. *)
Theorem accept_tune_view_idempotent w d h :
  w_data w = Some d -> nodes_holder (w_nodes w) = Some h -> is_Some (elem_of h (w_dom w)) ->
  ok _acceptTuneView w (fun _ w1 => _acceptTuneView w1 = Done tt w1).
Proof.
  intros Hd Hh He. unfold ok. rewrite (accept_tune_view_run w d h) by done.
  rewrite (accept_tune_view_run _ d h) by done. simpl.
  rewrite accept_dom_idem by done. by rewrite set_dom_set_dom.
Qed.

(** C20: [_acceptTuneView] refines its abstract specification
    [alignment_class]: it succeeds whenever the holder is cached and in
    the heap, leaves [this.data] alone, and afterwards each of the three
    layout classes is on the holder exactly when [alignment_class] of
    [data.alignment] names it, every other class of the holder is as it
    was, and no attribute but the holder's [class] has changed. *)
Theorem accept_tune_view_refines w d h :
  w_data w = Some d -> nodes_holder (w_nodes w) = Some h -> is_Some (elem_of h (w_dom w)) ->
  ok _acceptTuneView w (fun _ w' => w_data w' = w_data w /\
    (forall cls, In cls justify_classes ->
       (In cls (class_list h (w_dom w')) <-> alignment_class (prop d "alignment") = Some cls)) /\
    (forall c, ~ In c justify_classes ->
       (In c (class_list h (w_dom w')) <-> In c (class_list h (w_dom w)))) /\
    class_edits (eq h) (w_dom w) (w_dom w')).
Proof.
  intros Hd Hh He. unfold ok. rewrite (accept_tune_view_run w d h) by done. simpl.
  destruct (accept_dom_members (prop d "alignment") h (w_dom w) He) as [Hj Ho].
  split_and!; [done|exact Hj|exact Ho|apply accept_dom_edits].
Qed.

(** The buttons loop of [_toggleTune] only changes [class] attributes,
    when every button is in the document. *)
Lemma toggle_buttons_run T ts w :
  check_tokens [settingsButtonActive (w_CSS w)] = None ->
  Forall (fun t => is_Some (get_element_by_id (w_document w) (tune_name t) (w_dom w))) ts ->
  ok (mforeach (toggle_button T) ts) w
     (fun _ w' => exists dm, w' = set_dom dm w /\ class_edits (fun _ => True) (w_dom w) dm).
Proof.
  intros Hc Hall.
  eapply ok_mono; [|apply (ok_foreach (toggle_button T) (fun (xs : list tune) (w' : world) =>
    Forall (fun t => is_Some (get_element_by_id (w_document w) (tune_name t) (w_dom w))) xs /\
    exists dm, w' = set_dom dm w /\ class_edits (fun _ => True) (w_dom w) dm))].
  - by intros _ w' [_ ?].
  - split; [done|]. exists (w_dom w). split; [by rewrite set_dom_id|apply rtc_refl].
  - intros t xs' w' [Hf (dm & -> & Hdm)]. apply Forall_cons in Hf as [[el Hel] Hf].
    unfold toggle_button. apply ok_bind, ok_mget. apply ok_bind. eapply ok_deref.
    { simpl. rewrite (same_shape_get_element_by_id _ _ _ _ (class_edits_shape _ _ _ Hdm)). exact Hel. }
    destruct (String.eqb _ T); [apply ok_class_add|apply ok_class_remove]; try exact Hc;
      (split; [done|]; eexists; split; [by rewrite set_dom_set_dom|by apply class_edits_step]).
Qed.

(** [_toggleTune T] writes the flag [T] and [alignment] into the data
    object, changes classes of the buttons, and runs [_acceptTuneView]. *)
Lemma toggle_tune_run w d h T :
  w_data w = Some d -> nodes_holder (w_nodes w) = Some h ->
  check_tokens [settingsButtonActive (w_CSS w)] = None ->
  Forall (fun t => is_Some (get_element_by_id (w_document w) (tune_name t) (w_dom w))) settings ->
  ok (_toggleTune T) w (fun _ w' => exists dm,
     w' = set_dom (accept_dom (JStr T) h dm)
            (set_data_field (<["alignment" := JStr T]> (<[T := JBool (negb (truthy (prop d T)))]> d)) w) /\
     class_edits (fun _ => True) (w_dom w) dm).
Proof.
  intros Hd Hh Hc Hall. unfold _toggleTune.
  apply ok_bind. eapply ok_this_data; [done|]. apply ok_bind, ok_mmodify.
  apply ok_bind. eapply ok_this_data; [done|]. apply ok_bind, ok_mmodify.
  apply ok_bind. eapply ok_mono; [|by apply toggle_buttons_run].
  intros _ w2 (dm & -> & Hdm). unfold ok.
  rewrite (accept_tune_view_run _ (<["alignment" := JStr T]> (<[T := JBool (negb (truthy (prop d T)))]> d)) h)
    by done.
  rewrite prop_insert_eq. eauto.
Qed.

(** C1: whatever the previous alignment, [_toggleTune T] sets
    [data.alignment] to [T] (it never reverts to no alignment), and the
    holder then carries exactly the layout class [alignment_class] gives
    for [T]: for each of the three tune names, exactly the matching one of
    [iframe-justify-start], [-end], [-center]. *)
Theorem toggle_tune_alignment w d h T :
  w_data w = Some d -> nodes_holder (w_nodes w) = Some h -> is_Some (elem_of h (w_dom w)) ->
  check_tokens [settingsButtonActive (w_CSS w)] = None ->
  Forall (fun t => is_Some (get_element_by_id (w_document w) (tune_name t) (w_dom w))) settings ->
  ok (_toggleTune T) w (fun _ w' => exists d',
     w_data w' = Some d' /\ prop d' "alignment" = JStr T /\
     forall cls, In cls justify_classes ->
       (In cls (class_list h (w_dom w')) <-> alignment_class (JStr T) = Some cls)).
Proof.
  intros Hd Hh He Hc Hall. eapply ok_mono; [|by apply toggle_tune_run].
  intros _ w' (dm & -> & Hdm). eexists. split; [done|]. split; [by rewrite prop_insert_eq|].
  apply accept_dom_members. by apply (shape_exists _ _ (class_edits_shape _ _ _ Hdm)).
Qed.

(** The DOM after [_toggleTune] has the shape of the DOM before it. *)
Lemma toggle_dom_shape T h d dm :
  class_edits (fun _ => True) d dm -> same_shape d (accept_dom (JStr T) h dm).
Proof.
  intros Hdm. apply (class_edits_shape (fun _ => True)). eapply class_edits_trans; [exact Hdm|].
  apply (class_edits_weaken (eq h)); [done|apply accept_dom_edits].
Qed.

(** C3: toggling the same tune twice in a row does not revert to no
    alignment: [data.alignment] stays [T] and the holder's layout classes
    are those of the first toggle; only the incidental flag [data[T]]
    flips again. *)
Theorem toggle_tune_twice w d h T :
  In T tune_names ->
  w_data w = Some d -> nodes_holder (w_nodes w) = Some h -> is_Some (elem_of h (w_dom w)) ->
  check_tokens [settingsButtonActive (w_CSS w)] = None ->
  Forall (fun t => is_Some (get_element_by_id (w_document w) (tune_name t) (w_dom w))) settings ->
  ok (_toggleTune T) w (fun _ w1 => ok (_toggleTune T) w1 (fun _ w2 => exists d1 d2,
     w_data w1 = Some d1 /\ w_data w2 = Some d2 /\
     prop d1 "alignment" = JStr T /\ prop d2 "alignment" = JStr T /\
     prop d2 T = JBool (negb (truthy (prop d1 T))) /\
     forall cls, In cls justify_classes ->
       (In cls (class_list h (w_dom w2)) <-> In cls (class_list h (w_dom w1))))).
Proof.
  intros HT Hd Hh He Hc Hall.
  assert (T <> "alignment") as HTa by (intros ->; simpl in HT; naive_solver).
  eapply ok_mono; [|by apply toggle_tune_run]. intros _ w1 (dm & -> & Hdm).
  pose proof (toggle_dom_shape T h _ _ Hdm) as Hsh.
  eapply ok_mono; [|apply toggle_tune_run; simpl; try done].
  - intros _ w2 (dm2 & -> & Hdm2). do 2 eexists. split; [done|]. split; [done|].
    rewrite !prop_insert_eq. split; [done|]. split; [done|].
    rewrite prop_insert_ne, prop_insert_eq by congruence. split; [done|].
    intros cls Hcls. simpl.
    assert (is_Some (elem_of h dm)) as Hh1 by (by apply (shape_exists _ _ (class_edits_shape _ _ _ Hdm))).
    assert (is_Some (elem_of h dm2)) as Hh2.
    { apply (shape_exists _ _ (class_edits_shape _ _ _ Hdm2)). by apply accept_dom_exists. }
    rewrite (proj1 (accept_dom_members _ _ _ Hh2) cls Hcls).
    by rewrite (proj1 (accept_dom_members _ _ _ Hh1) cls Hcls).
  - eapply Forall_impl; [exact Hall|]. intros t Ht. by rewrite (same_shape_get_element_by_id _ _ _ _ Hsh).
Qed.

(** C4: when the settings panel is not in the document,
    [document.getElementById] returns [null] and [_toggleTune] throws a
    [TypeError]; the data object has already been changed to the new
    alignment, but the DOM is left as it was, so the holder's layout
    classes no longer match [data.alignment]. *)
Theorem toggle_tune_panel_detached w d T :
  w_data w = Some d ->
  get_element_by_id (w_document w) "LeftAligned" (w_dom w) = None ->
  throws (_toggleTune T) w (fun e w' =>
     e = TypeError "Cannot read properties of null (reading 'classList')" /\
     w_dom w' = w_dom w /\
     w_data w' = Some (<["alignment" := JStr T]> (<[T := JBool (negb (truthy (prop d T)))]> d))).
Proof.
  intros Hd Hn. unfold _toggleTune.
  apply throws_bind_r. eapply ok_this_data; [done|]. apply throws_bind_r, ok_mmodify.
  apply throws_bind_r. eapply ok_this_data; [done|]. apply throws_bind_r, ok_mmodify.
  apply throws_bind_l. simpl mforeach. apply throws_bind_l. unfold toggle_button.
  apply throws_bind_r, ok_mget. simpl. rewrite Hn. apply throws_bind_l.
  by apply throws_deref_None.
Qed.

End ViewFacts.

(** ** Witnesses *)

(** C1 on the demo block, rendered with the [Centered] alignment and its
    settings panel mounted: clicking [RightAligned]. *)
Lemma toggle_tune_alignment_witness :
  ok (_toggleTune "RightAligned") demo_settings (fun _ w' => exists d',
     w_data w' = Some d' /\ prop d' "alignment" = JStr "RightAligned" /\
     forall cls, In cls justify_classes ->
       (In cls (class_list (holder_of demo_settings) (w_dom w')) <->
        alignment_class (JStr "RightAligned") = Some cls)).
Proof.
  apply (toggle_tune_alignment demo_settings (data_of demo_settings) (holder_of demo_settings));
    try (vm_compute; reflexivity).
  - vm_compute. eauto.
  - repeat constructor; vm_compute; eauto.
Defined.

Lemma accept_tune_view_idempotent_witness :
  ok _acceptTuneView demo_rendered (fun _ w1 => _acceptTuneView w1 = Done tt w1).
Proof.
  apply (accept_tune_view_idempotent demo_rendered (data_of demo_rendered) (holder_of demo_rendered));
    try (vm_compute; reflexivity).
  vm_compute. eauto.
Defined.

Lemma toggle_tune_twice_witness :
  ok (_toggleTune "Centered") demo_settings (fun _ w1 => ok (_toggleTune "Centered") w1 (fun _ w2 => exists d1 d2,
     w_data w1 = Some d1 /\ w_data w2 = Some d2 /\
     prop d1 "alignment" = JStr "Centered" /\ prop d2 "alignment" = JStr "Centered" /\
     prop d2 "Centered" = JBool (negb (truthy (prop d1 "Centered"))) /\
     forall cls, In cls justify_classes ->
       (In cls (class_list (holder_of demo_settings) (w_dom w2)) <->
        In cls (class_list (holder_of demo_settings) (w_dom w1))))).
Proof.
  apply (toggle_tune_twice demo_settings (data_of demo_settings) (holder_of demo_settings));
    try (vm_compute; reflexivity).
  - simpl. tauto.
  - vm_compute. eauto.
  - repeat constructor; vm_compute; eauto.
Defined.

(** C4 on the demo block rendered but with no settings panel. *)
Lemma toggle_tune_panel_detached_witness :
  throws (_toggleTune "Centered") demo_rendered (fun e w' =>
     e = TypeError "Cannot read properties of null (reading 'classList')" /\
     w_dom w' = w_dom demo_rendered /\
     w_data w' = Some (<["alignment" := JStr "Centered"]>
                        (<["Centered" := JBool (negb (truthy (prop (data_of demo_rendered) "Centered")))]>
                          (data_of demo_rendered)))).
Proof.
  apply toggle_tune_panel_detached; vm_compute; reflexivity.
Defined.

(** C20 on the demo block, rendered with the [Centered] alignment. *)
Lemma accept_tune_view_refines_witness :
  ok _acceptTuneView demo_rendered (fun _ w' => w_data w' = w_data demo_rendered /\
    (forall cls, In cls justify_classes ->
       (In cls (class_list (holder_of demo_rendered) (w_dom w')) <->
        alignment_class (prop (data_of demo_rendered) "alignment") = Some cls)) /\
    (forall c, ~ In c justify_classes ->
       (In c (class_list (holder_of demo_rendered) (w_dom w')) <->
        In c (class_list (holder_of demo_rendered) (w_dom demo_rendered)))) /\
    class_edits (eq (holder_of demo_rendered)) (w_dom demo_rendered) (w_dom w')).
Proof.
  apply (accept_tune_view_refines demo_rendered (data_of demo_rendered) (holder_of demo_rendered));
    try (vm_compute; reflexivity).
  vm_compute. eauto.
Defined.
