(* ===== verification/Save.v ===== *)
(** * Save: [save(blockContent)] and its round trip with [render]

    [save] looks for the first [iframe] under the node the host passes;
    without one it returns [this.data] unchanged, otherwise it reads the
    [innerHTML] of that iframe's parent into [frame] (so markup around a
    nested iframe is not saved).  The theorems are stated for any world;
    the round trip with [render] is in [Roundtrip]. *)

From S2P Require Import Prelude Markup Dom Block Data View.

Local Open Scope string_scope.
Local Open Scope js_scope.

Section Save.
Context `{HtmlSyntax}.

(** ** [save] (index.js lines 143-156) *)

Definition save (blockContent : nid) : M world (option jsobj) :=
  q <- readD (query_selector blockContent "iframe") ;;
  match q with
  | None => get_data
  | Some ifr =>
      p <- parent_of ifr ;;
      html <- readD (inner_html p) ;;
      d <- this_data ;;
      mmodify (set_data_field (assign d {["frame" := JStr html]})) ;;
      p <- parent_of ifr ;;
      html <- readD (inner_html p) ;;
      d <- this_data ;;
      mmodify (set_data_field (<["frame" := JStr html]> d)) ;;
      get_data
  end.

End Save.

Section SaveFacts.
Context `{HtmlSyntax}.

(** C9: when the node holds no [iframe], [save] returns [this.data] and
    changes nothing. *)
Theorem save_no_iframe w n :
  query_selector n "iframe" (w_dom w) = None -> save n w = Done (w_data w) w.
Proof. intros Hq. unfold save, readD, mbind. by rewrite Hq. Qed.

(** C10: otherwise [save] sets [frame] to the [innerHTML] of the first
    iframe's parent, keeps every other property (the alignment
    included), and returns the data object. *)
Theorem save_captures w d n i p :
  w_data w = Some d -> query_selector n "iframe" (w_dom w) = Some i ->
  parent_element i (w_dom w) = Some p ->
  save n w = Done (Some (<["frame" := JStr (inner_html p (w_dom w))]> d))
                  (set_data_field (<["frame" := JStr (inner_html p (w_dom w))]> d) w).
Proof.
  intros Hd Hq Hp.
  unfold save, parent_of, this_data, readD, deref, mget, mret, mmodify, get_data, mbind.
  cbn beta iota. rewrite Hq. cbn beta iota. rewrite Hp. cbn beta iota. rewrite Hd. cbn beta iota.
  simpl. rewrite Hp. simpl. by rewrite assign_singleton_insert, insert_insert_eq.
Qed.

End SaveFacts.

(** ** Witnesses and concrete runs *)

Lemma save_no_iframe_witness : save demo_body demo_constructed = Done (w_data demo_constructed) demo_constructed.
Proof. apply save_no_iframe. vm_compute. reflexivity. Defined.

Lemma save_captures_witness :
  save 2%positive demo_rendered =
  Done (Some (<["frame" := JStr (inner_html 4%positive (w_dom demo_rendered))]> (data_of demo_rendered)))
       (set_data_field (<["frame" := JStr (inner_html 4%positive (w_dom demo_rendered))]> (data_of demo_rendered))
                       demo_rendered).
Proof. apply (save_captures _ _ _ 6%positive); vm_compute; reflexivity. Defined.
