(* ===== verification/Settings.v ===== *)
(** * Settings: what [renderSettings] builds

    [renderSettings] (index.js lines 245-265) creates a wrapper [div] and,
    for each of the three tunes in order, a button [div] with the tune's
    name as [id], the class [settingsButton], the tune's SVG icon as
    content, a click listener, and the class [settingsButtonActive] when
    the tune is the current alignment; it appends the button to the
    wrapper.  This file proves that on any DOM, for any data and any
    valid pair of style classes: [button_ok] describes one button, and
    [renderSettings_spec] shows that the wrapper gets exactly three
    buttons in the order of [settings], each as [button_ok] says, with
    one listener per button, while every node that existed before is left
    as it was.  The proof follows the heap through each DOM primitive;
    [innerHTML] is read back with [Alloc.set_inner_html_spec]. *)

From S2P Require Import Prelude Markup Dom Alloc Block Data View.

Local Open Scope string_scope.
Local Open Scope js_scope.

(** The style classes the settings panel uses are tokens that
    [classList.add] accepts, and they differ. *)
Definition css_ok (C : css) : Prop :=
  valid_token (settingsButton C) = true /\ valid_token (settingsButtonActive C) = true /\
  settingsButton C <> settingsButtonActive C.

(** The classes of the button of tune [t] when the alignment is [al]. *)
Definition button_classes (C : css) (al : jsval) (t : Block.tune) : list string :=
  settingsButton C :: (if loose_eq_name al (tune_name t) then [settingsButtonActive C] else []).

Section Spec.
Context `{HtmlSyntax}.

(** The button of tune [t] at node [b], a child of [wrapper]. *)
Definition button_ok (D : dom) (wrapper : nid) (C : css) (al : jsval) (t : Block.tune) (b : nid) : Prop :=
  exists e, elem_of b D = Some e /\ e_tag e = "div" /\ e_parent e = Some wrapper /\
    attr_lookup "id" (e_attrs e) = Some (tune_name t) /\
    class_list b D = button_classes C al t /\
    inner_html b D = html_serialize (html_parse (tune_icon t)).

(** The button stays as [button_ok] says in every later heap that left
    the nodes from [b] up to [hi] alone. *)
Definition button_stable (D : dom) (wrapper : nid) (C : css) (al : jsval) (t : Block.tune) (b hi : nid) :=
  forall D', same_from b hi D D' -> (d_next D <= d_next D')%positive -> button_ok D' wrapper C al t b.

End Spec.

(** The world [w] with the heap [D] and the listeners [ls] added. *)
Definition panel_world (w : world) (D : dom) (ls : list (nid * string)) : world :=
  mkWorld D (w_document w) (w_api w) (w_readOnly w) (w_blockIndex w) (w_CSS w) (w_nodes w)
          (w_data w) (w_listeners w ++ ls).

(** ** Heap facts *)

Lemma class_list_same n d d' : elem_of n d' = elem_of n d -> class_list n d' = class_list n d.
Proof. unfold class_list, get_attribute. by intros ->. Qed.

(** [class_update] changes the attributes of one element, and among them
    only [class]. *)
Lemma class_update_elem n l d e :
  elem_of n d = Some e ->
  exists e', elem_of n (class_update n l d) = Some e' /\ e_tag e' = e_tag e /\
    e_parent e' = e_parent e /\ e_kids e' = e_kids e /\
    attr_lookup "id" (e_attrs e') = attr_lookup "id" (e_attrs e).
Proof.
  intros He. destruct (class_update_cases n l d) as [-> | ->]; [by exists e|].
  rewrite elem_of_upd_eq, He. eexists; split; [done|]. simpl.
  split; [done|]. split; [done|]. split; [done|]. by apply attr_lookup_set_ne.
Qed.

(** [appendChild] of a node without parent to a root. *)
Lemma append_child_orphan p c d ep ec :
  elem_of p d = Some ep -> elem_of c d = Some ec -> e_parent ep = None -> e_parent ec = None ->
  p <> c ->
  append_child p c d =
  Done tt (upd c (with_parent (Some p)) (upd p (fun e => with_kids (e_kids e ++ [CElem c])%list e) d)).
Proof.
  intros Hp Hc Hpp Hcp Hne. unfold append_child.
  assert (Ha : inclusive_ancestor (dom_fuel d) c p d = false).
  { destruct (dom_fuel d); [done|]. simpl. rewrite bool_decide_false by congruence.
    unfold parent_element. by rewrite Hp, Hpp. }
  rewrite Ha. unfold detach, parent_element. by rewrite Hc, Hcp.
Qed.

Lemma ok_liftD {A} (c : M dom A) w P a d :
  c (w_dom w) = Done a d -> P a (set_dom d w) -> ok (liftD c) w P.
Proof. intros E HP. unfold ok, liftD. by rewrite E. Qed.

(** [createElement('div')], [setAttribute('id', name)] and
    [classList.add(sb)] on a fresh node. *)
Lemma button_created D name sb :
  let b := d_next D in
  let D2 := upd b (fun e => with_attrs (attr_set "id" name (e_attrs e)) e)
              (mkDom (<[b := mkElem "div" [] [] None]> (d_nodes D)) (Pos.succ b)) in
  let D3 := class_update b (list_add [sb] (class_list b D2)) D2 in
  d_next D3 = Pos.succ b /\
  elem_of b D3 = Some (mkElem "div" [("id", name); ("class", sb)] [] None) /\
  (forall m, m <> b -> elem_of m D3 = elem_of m D).
Proof.
  intros b D2 D3.
  assert (E2 : elem_of b D2 = Some (mkElem "div" [("id", name)] [] None)).
  { unfold D2. rewrite elem_of_upd_eq, elem_of_insert, bool_decide_true; done. }
  assert (C2 : class_list b D2 = []) by (unfold class_list, get_attribute; by rewrite E2).
  assert (G2 : get_attribute b "class" D2 = None) by (unfold get_attribute; by rewrite E2).
  assert (Hu : D3 = upd b (fun e => with_attrs (attr_set "class" sb (e_attrs e)) e) D2).
  { unfold D3. rewrite C2. change (list_add [sb] []) with [sb]. unfold class_update.
    by rewrite G2. }
  rewrite Hu. split; [done|]. split.
  - rewrite elem_of_upd_eq, E2. done.
  - intros m Hm. unfold D2. rewrite !elem_of_upd_ne, elem_of_insert by done.
    by rewrite bool_decide_false.
Qed.

Lemma class_list_of n d e :
  elem_of n d = Some e ->
  class_list n d = match attr_lookup "class" (e_attrs e) with Some s => ordered_set_parse s | None => [] end.
Proof. unfold class_list, get_attribute. by intros ->. Qed.

(** A button before it is appended: a [div] without parent, with its
    [id] and the classes [cl]. *)
Definition button_pre (D : dom) (b : nid) (name : string) (cl : list string) : Prop :=
  exists e, elem_of b D = Some e /\ e_tag e = "div" /\ e_parent e = None /\
    attr_lookup "id" (e_attrs e) = Some name /\ class_list b D = cl.

(** [classList.add(c)] on such a button. *)
Lemma button_pre_add D b name cl c :
  button_pre D b name cl -> NoDup cl -> Forall (fun x => valid_token x = true) cl ->
  valid_token c = true ->
  button_pre (class_update b (list_add [c] cl) D) b name (list_add [c] cl) /\
  kids_of b (class_update b (list_add [c] cl) D) = kids_of b D /\
  forall m, m <> b -> elem_of m (class_update b (list_add [c] cl) D) = elem_of m D.
Proof.
  intros (e & He & Ht & Hp & Hi & Hc) Hnd Hv Hcv.
  destruct (class_update_elem b (list_add [c] cl) D e He) as (e' & He' & Ht' & Hp' & Hk' & Hi').
  split; [|split; [apply class_update_kids|intros; by apply class_update_other]].
  exists e'. split; [done|]. split; [congruence|]. split; [congruence|]. split; [congruence|].
  apply (class_list_update_same _ _ _ e He).
  - by apply list_add_spec.
  - apply list_add_valid; [by constructor|done].
Qed.

Lemma list_add_other c c' : c' <> c -> list_add [c'] [c] = [c; c'].
Proof. intros Hne. unfold list_add. simpl. by rewrite (proj2 (String.eqb_neq c' c) Hne). Qed.

Lemma button_classes_pre D b name C al t :
  css_ok C -> button_pre D b name [settingsButton C] ->
  loose_eq_name al (tune_name t) = true ->
  button_pre (class_update b (list_add [settingsButtonActive C] (class_list b D)) D) b name
    (button_classes C al t) /\
  kids_of b (class_update b (list_add [settingsButtonActive C] (class_list b D)) D) = kids_of b D /\
  forall m, m <> b -> elem_of m (class_update b (list_add [settingsButtonActive C] (class_list b D)) D) = elem_of m D.
Proof.
  intros (Hsb & Hact & Hne) HB Ha.
  assert (Hcl : class_list b D = [settingsButton C]) by (destruct HB as (? & ? & ? & ? & ? & ?); done).
  unfold button_classes. rewrite Ha, Hcl, <- list_add_other by congruence.
  apply button_pre_add; [done|apply NoDup_singleton|by repeat constructor|done].
Qed.

Section Step.
Context `{HtmlSyntax}.

(** [appendChild] of the finished button [b] to the root [W], and what
    the heap then guarantees. *)
Lemma button_appended D3 D4 D5 W eW b t C al :
  elem_of W D5 = Some eW -> e_parent eW = None -> (W < b)%positive ->
  d_next D3 = Pos.succ b ->
  Pos.to_nat (d_next D4) = Pos.to_nat (d_next D3) + fsize (html_parse (tune_icon t)) ->
  (forall d'', same_from (d_next D3) (d_next D4) D4 d'' -> kids_of b d'' = kids_of b D4 ->
     (d_next D4 <= d_next d'')%positive -> inner_html b d'' = html_serialize (html_parse (tune_icon t))) ->
  button_pre D5 b (tune_name t) (button_classes C al t) -> kids_of b D5 = kids_of b D4 ->
  (forall m, m <> b -> elem_of m D5 = elem_of m D4) -> d_next D5 = d_next D4 ->
  exists D', append_child W b D5 = Done tt D' /\
    elem_of W D' = Some (with_kids (e_kids eW ++ [CElem b]) eW) /\
    (forall m, m <> b -> m <> W -> elem_of m D' = elem_of m D5) /\
    (b < d_next D')%positive /\
    button_stable D' W C al t b (d_next D').
Proof.
  intros HW HWp HWb N3 N4 R4 (e5 & He5 & Ht5 & Hp5 & Hi5 & Hc5) Hk5 O5 N5.
  rewrite (append_child_orphan W b D5 eW e5) by (done || lia).
  eexists; split; [reflexivity|]. cbn [d_next upd]. rewrite N5.
  split; [by rewrite elem_of_upd_ne, elem_of_upd_eq, HW by lia|].
  split; [intros m Hm HmW; by rewrite !elem_of_upd_ne|].
  split; [lia|].
  intros D' Hs Hn. cbn [d_next upd] in Hs, Hn.
  assert (Hb' : elem_of b D' = Some (with_parent (Some W) e5)).
  { rewrite Hs by lia. by rewrite elem_of_upd_eq, elem_of_upd_ne, He5 by lia. }
  exists (with_parent (Some W) e5). split; [done|]. split; [done|]. split; [done|]. split; [done|].
  split; [by rewrite (class_list_of _ _ _ Hb'), <- Hc5, (class_list_of _ _ _ He5)|].
  apply R4; [|by rewrite (kids_of_some _ _ _ Hb'), <- Hk5, (kids_of_some _ _ _ He5)|lia].
  intros k Hk. rewrite Hs by lia. rewrite !elem_of_upd_ne by lia. apply O5. lia.
Qed.

(** One iteration of the [forEach] of [renderSettings]. *)
Lemma settings_button_run W eW t w d :
  css_ok (w_CSS w) -> w_data w = Some d ->
  elem_of W (w_dom w) = Some eW -> e_parent eW = None -> (W < d_next (w_dom w))%positive ->
  let b := d_next (w_dom w) in
  exists D', settings_button W t w = Done tt (add_listener b (tune_name t) (set_dom D' w)) /\
    elem_of W D' = Some (with_kids (e_kids eW ++ [CElem b]) eW) /\
    (forall m, (m < b)%positive -> m <> W -> elem_of m D' = elem_of m (w_dom w)) /\
    (b < d_next D')%positive /\
    button_stable D' W (w_CSS w) (prop d "alignment") t b (d_next D').
Proof.
  intros Hcss Hd HW HWp HWlt b. pose proof Hcss as (Hsb & Hact & Hne).
  destruct w as [D doc a ro bi C nds dat ls]. simpl in *. subst dat b.
  unfold settings_button, this_data, deref, mbind, liftD, mget, mret, set_dom, add_listener,
    create_element, set_attribute, mmodify.
  cbn [w_dom w_CSS w_data w_listeners w_nodes w_document w_api w_readOnly w_blockIndex].
  destruct (button_created D (tune_name t) (settingsButton C)) as (N3 & E3 & O3).
  unfold class_add at 1. rewrite (proj2 (check_tokens_None _)) by (by repeat constructor).
  set (D3 := class_update _ _ _) in *.
  destruct (set_inner_html_spec (d_next D) (tune_icon t) D3 _ E3) as (D4 & E4 & N4 & O4 & S4 & P4 & R4);
    [rewrite N3; lia|].
  cbn [w_dom w_CSS w_data w_listeners w_nodes w_document w_api w_readOnly w_blockIndex].
  rewrite E4. cbn [w_dom w_CSS w_data w_listeners w_nodes w_document w_api w_readOnly w_blockIndex].
  assert (B4 : button_pre D4 (d_next D) (tune_name t) [settingsButton C]).
  { destruct S4 as (e1 & He1 & Hb4). eexists. split; [exact Hb4|].
    rewrite (class_list_of _ _ _ Hb4).
    destruct He1 as [-> | ->]; split_and!; try done; apply (ordered_set_roundtrip [_]);
      [apply NoDup_singleton| |apply NoDup_singleton|];
      apply List.Forall_cons; [done|apply List.Forall_nil| done|apply List.Forall_nil]. }
  assert (R4' := fun d'' H1 H2 H3 => inner_html_trees _ _ _ (R4 d'' H1 H2 H3)).
  assert (O43 : forall m, (m < d_next D)%positive -> elem_of m D4 = elem_of m D).
  { intros m Hm. rewrite O4, O3 by (simpl; (lia || apply not_elem_of_nil)). done. }
  destruct (loose_eq_name (prop d "alignment") (tune_name t)) eqn:Ea.
  - unfold class_add. rewrite (proj2 (check_tokens_None _)) by (by repeat constructor).
    destruct (button_classes_pre D4 (d_next D) (tune_name t) C (prop d "alignment") t Hcss B4)
      as (B5 & K5 & O5); [done|].
    set (D5 := class_update (d_next D) (list_add [settingsButtonActive C] (class_list (d_next D) D4)) D4) in *.
    assert (HW5 : elem_of W D5 = Some eW) by (rewrite O5, O43 by lia; done).
    destruct (button_appended D3 D4 D5 W eW (d_next D) t C (prop d "alignment") HW5 HWp HWlt
      N3 N4 R4' B5 K5 O5 (class_update_next _ _ _)) as (D' & EA & F1 & F2 & F3 & F4).
    cbn [w_dom w_CSS w_data w_listeners w_nodes w_document w_api w_readOnly w_blockIndex].
    try fold D5. rewrite EA. exists D'. split; [done|]. split; [done|]. split; [|done].
    intros m Hm HmW. rewrite F2, O5, O43 by lia. done.
  - assert (B5 : button_pre D4 (d_next D) (tune_name t) (button_classes C (prop d "alignment") t)).
    { unfold button_classes. by rewrite Ea. }
    assert (HW4 : elem_of W D4 = Some eW) by (rewrite O43 by lia; done).
    destruct (button_appended D3 D4 D4 W eW (d_next D) t C (prop d "alignment") HW4 HWp HWlt
      N3 N4 R4' B5 eq_refl (fun _ _ => eq_refl) eq_refl) as (D' & EA & F1 & F2 & F3 & F4).
    cbn [w_dom w_CSS w_data w_listeners w_nodes w_document w_api w_readOnly w_blockIndex].
    try fold D5. rewrite EA. exists D'. split; [done|]. split; [done|]. split; [|done].
    intros m Hm HmW. rewrite F2, O43 by lia. done.
Qed.

Lemma button_stable_mono D D2 W C al t b hi hi2 :
  button_stable D W C al t b hi -> same_from b hi D D2 -> (d_next D <= d_next D2)%positive ->
  (hi <= hi2)%positive -> button_stable D2 W C al t b hi2.
Proof.
  intros Hs Hsame Hn Hhi D' Hs' Hn'. apply Hs; [|lia].
  eapply same_from_trans; [exact Hsame|]. eapply same_from_weaken; [| |exact Hs']; lia.
Qed.

(** The [forEach] over a list of tunes. *)
Lemma settings_loop W eW ts w d :
  css_ok (w_CSS w) -> w_data w = Some d ->
  elem_of W (w_dom w) = Some eW -> e_parent eW = None -> (W < d_next (w_dom w))%positive ->
  exists bs D', mforeach (settings_button W) ts w = Done tt (panel_world w D' (zip bs (map tune_name ts))) /\
    elem_of W D' = Some (with_kids (e_kids eW ++ map CElem bs) eW) /\
    (forall m, (m < d_next (w_dom w))%positive -> m <> W -> elem_of m D' = elem_of m (w_dom w)) /\
    (d_next (w_dom w) <= d_next D')%positive /\
    Forall (fun b => d_next (w_dom w) <= b < d_next D')%positive bs /\
    Forall2 (fun t b => button_stable D' W (w_CSS w) (prop d "alignment") t b (d_next D')) ts bs.
Proof.
  revert w eW. induction ts as [|t ts IH]; intros w eW Hcss Hd HW HWp HWlt.
  - exists [], (w_dom w). split; [unfold panel_world; cbn; rewrite app_nil_r; by destruct w|].
    split; [by rewrite app_nil_r, HW; destruct eW|]. split; [done|]. split; [lia|]. by split.
  - destruct (settings_button_run W eW t w d Hcss Hd HW HWp HWlt) as (D1 & E1 & F1 & F2 & F3 & F4).
    set (b := d_next (w_dom w)) in *.
    destruct (IH (add_listener b (tune_name t) (set_dom D1 w)) (with_kids (e_kids eW ++ [CElem b]) eW))
      as (bs & D' & E' & G1 & G2 & G3 & G4 & G5); try done; [simpl; lia|].
    simpl in E', G1, G2, G3, G4, G5.
    exists (b :: bs), D'. split; [|split; [|split; [|split; [|split]]]].
    + simpl. unfold mbind. rewrite E1, E'. unfold panel_world. destruct w. simpl.
      by rewrite <- app_assoc.
    + rewrite G1. simpl. by rewrite <- app_assoc.
    + intros m Hm HmW. rewrite G2, F2 by lia. done.
    + lia.
    + constructor; [lia|]. eapply Forall_impl; [exact G4|]. simpl. lia.
    + constructor; [|done]. eapply button_stable_mono; [exact F4| |lia|lia].
      intros k Hk. apply G2; lia.
Qed.

End Step.

Section Theorems.
Context `{HtmlSyntax}.

(** C12: on any DOM, with valid style classes and a data object,
    [renderSettings] returns a fresh wrapper without parent whose children
    are exactly one button per tune, in the order of [this.settings]; the
    button of tune [t] is a [div] with [id] [t.name], the class
    [settingsButton], also [settingsButtonActive] exactly when
    [data.alignment == t.name], and [t.icon] as [innerHTML]; one click
    listener is registered per button, in order; no node that existed
    before is changed. *)
Theorem renderSettings_spec w d :
  css_ok (w_CSS w) -> w_data w = Some d ->
  exists bs D',
    renderSettings w = Done (d_next (w_dom w)) (panel_world w D' (zip bs tune_names)) /\
    kids_of (d_next (w_dom w)) D' = map CElem bs /\
    parent_element (d_next (w_dom w)) D' = None /\
    Forall2 (button_ok D' (d_next (w_dom w)) (w_CSS w) (prop d "alignment")) settings bs /\
    (forall m, (m < d_next (w_dom w))%positive -> elem_of m D' = elem_of m (w_dom w)).
Proof.
  intros Hcss Hd. set (W := d_next (w_dom w)).
  set (D1 := mkDom (<[W := mkElem "div" [] [] None]> (d_nodes (w_dom w))) (Pos.succ W)).
  assert (HW : elem_of W D1 = Some (mkElem "div" [] [] None)).
  { unfold D1. by rewrite elem_of_insert, bool_decide_true. }
  destruct (settings_loop W _ settings (set_dom D1 w) d Hcss Hd HW eq_refl)
    as (bs & D' & E & G1 & G2 & G3 & G4 & G5); [simpl; lia|].
  exists bs, D'. split; [|split; [|split; [|split]]].
  - change (renderSettings w) with (mbind (mforeach (settings_button W) settings) (fun _ => mret W)
      (set_dom D1 w)). unfold mbind. by rewrite E.
  - by rewrite (kids_of_some _ _ _ G1).
  - unfold parent_element. by rewrite G1.
  - eapply Forall2_impl; [exact G5|]. intros t b Hs. apply Hs; [apply same_from_refl|lia].
  - intros m Hm. simpl in G2. rewrite G2 by lia. unfold D1. rewrite elem_of_insert.
    by rewrite bool_decide_false by lia.
Qed.

End Theorems.

Lemma renderSettings_spec_witness :
  css_ok (w_CSS demo_rendered) /\ w_data demo_rendered = Some (data_of demo_rendered) /\
  exists bs D',
    renderSettings demo_rendered =
      Done (d_next (w_dom demo_rendered)) (panel_world demo_rendered D' (zip bs tune_names)) /\
    Forall2 (button_ok D' (d_next (w_dom demo_rendered)) (w_CSS demo_rendered)
               (prop (data_of demo_rendered) "alignment")) settings bs.
Proof.
  assert (Hc : css_ok (w_CSS demo_rendered)).
  { split; [vm_compute; reflexivity|]. split; [vm_compute; reflexivity|]. vm_compute. discriminate. }
  assert (Hd : w_data demo_rendered = Some (data_of demo_rendered)) by (vm_compute; reflexivity).
  split; [exact Hc|]. split; [exact Hd|].
  destruct (renderSettings_spec demo_rendered (data_of demo_rendered) Hc Hd)
    as (bs & D' & E & _ & _ & F & _).
  exists bs, D'. split; [exact E|exact F].
Defined.
