(* ===== verification/Roundtrip.v ===== *)
(** * Roundtrip: [save] after [render], on any DOM

    [render] (index.js lines 105-136) builds a wrapper with a holder
    inside, and writes the saved [frame] as the holder's [innerHTML];
    [save] (lines 143-156) finds the first [iframe] under the wrapper and
    reads back the [innerHTML] of its parent.  This file proves, for any
    DOM, any style classes that [classList] accepts, any markup syntax
    and any data whose [frame] parses to markup that starts with an
    [iframe] element: [render] returns a wrapper whose only child is the
    holder, whose children are the parsed frame, and [save] on that
    wrapper stores as [frame] exactly [html_serialize (html_parse frame)]
    and keeps the other properties ([render_save_frame], C14), while the
    cached placeholder is left detached, so that every later call of the
    [data] setter throws ([render_structure], C13).  With [TagSoup] and a
    well-formed frame, the stored frame parses to the same trees as the
    original ([render_save_equivalent], C17, from [Soup.parse_serialize]).
    With an empty [frame] the
    placeholder stays in the holder ([render_run_empty]), so the first
    write of [data] succeeds and detaches it, and the second throws
    ([empty_render_one_write], C21).
    The proof
    follows the heap through each primitive of [render] ([make_run] for
    [_make]), reads the frame back with [Alloc.set_inner_html_spec], and
    shows that [_acceptTuneView] only edits the holder's [class]. *)

From S2P Require Import Prelude Markup Dom Alloc TreeOps Soup Block Data View Save Settings.

Local Open Scope string_scope.
Local Open Scope js_scope.

(** The class lists [_make] is given are accepted by [classList.add]. *)
Definition cls_ok (cls : classNames) : Prop :=
  match cls with
  | ClsArray cs => check_tokens cs = None
  | ClsOne c => c = "" \/ valid_token c = true
  | ClsNull => True
  end.

(** The classes [render] uses are accepted by [classList]. *)
Definition render_css_ok (C : css) : Prop :=
  check_tokens [baseClass C; Block.wrapper C] = None /\ check_tokens (Block.holder C) = None /\
  valid_token (loading C) = true.

Section Make.
Context `{HtmlSyntax}.

(** [_make(tag, cls)]: a fresh element without parent or children. *)
Lemma make_run tag cls w :
  cls_ok cls ->
  exists D', _make tag cls w = Done (d_next (w_dom w)) (set_dom D' w) /\
    d_next D' = Pos.succ (d_next (w_dom w)) /\
    (exists a, elem_of (d_next (w_dom w)) D' = Some (mkElem tag a [] None)) /\
    (forall m, m <> d_next (w_dom w) -> elem_of m D' = elem_of m (w_dom w)).
Proof.
  intros Hc. set (n := d_next (w_dom w)).
  set (D1 := mkDom (<[n := mkElem tag [] [] None]> (d_nodes (w_dom w))) (Pos.succ n)).
  assert (E1 : elem_of n D1 = Some (mkElem tag [] [] None)).
  { unfold D1. by rewrite elem_of_insert, bool_decide_true. }
  assert (O1 : forall m, m <> n -> elem_of m D1 = elem_of m (w_dom w)).
  { intros m Hm. unfold D1. rewrite elem_of_insert. by rewrite bool_decide_false. }
  assert (Hcls : forall cs, check_tokens cs = None -> exists D', class_add n cs D1 = Done tt D' /\
            d_next D' = Pos.succ n /\ (exists a, elem_of n D' = Some (mkElem tag a [] None)) /\
            forall m, m <> n -> elem_of m D' = elem_of m (w_dom w)).
  { intros cs Hcs. unfold class_add. rewrite Hcs. eexists; split; [done|].
    split; [by rewrite class_update_next|]. split.
    - destruct (class_update_elem n (list_add cs (class_list n D1)) D1 _ E1)
        as ([tg a k p] & He & Ht & Hp & Hk & _). simpl in *. subst. by exists a.
    - intros m Hm. by rewrite class_update_other, O1. }
  unfold _make, mbind, liftD, create_element, mret. fold n. fold D1.
  destruct cls as [|c|cs]; simpl in Hc.
  - exists D1. split; [done|]. split; [done|]. split; [by eexists|done].
  - destruct (String.eqb c "") eqn:Ec.
    + exists D1. split; [done|]. split; [done|]. split; [by eexists|done].
    + destruct Hc as [->|Hc]; [done|].
      destruct (Hcls [c] (check_tokens_one c Hc)) as (D' & E & R). simpl. rewrite E. by exists D'.
  - destruct (Hcls cs Hc) as (D' & E & R). simpl. rewrite E. by exists D'.
Qed.

Lemma ok_make tag cls w (P : nid -> world -> Prop) :
  cls_ok cls ->
  (forall D', d_next D' = Pos.succ (d_next (w_dom w)) ->
     (exists a, elem_of (d_next (w_dom w)) D' = Some (mkElem tag a [] None)) ->
     (forall m, m <> d_next (w_dom w) -> elem_of m D' = elem_of m (w_dom w)) ->
     P (d_next (w_dom w)) (set_dom D' w)) ->
  ok (_make tag cls) w P.
Proof.
  intros Hc HP. destruct (make_run tag cls w Hc) as (D' & E & N & Ea & O).
  unfold ok. rewrite E. by apply HP.
Qed.

End Make.

Lemma ok_seq {S A B} (c : M S A) (f : A -> M S B) s P :
  ok c s (fun a s' => ok (f a) s' P) -> ok (mbind c f) s P.
Proof. apply ok_bind. Qed.

Lemma w_dom_set_dom d w : w_dom (set_dom d w) = d.
Proof. done. Qed.
Lemma w_CSS_set_dom d w : w_CSS (set_dom d w) = w_CSS w.
Proof. done. Qed.
Lemma w_data_set_dom d w : w_data (set_dom d w) = w_data w.
Proof. done. Qed.
Lemma w_nodes_set_dom d w : w_nodes (set_dom d w) = w_nodes w.
Proof. done. Qed.

Create Rewrite HintDb world_rw.
#[export] Hint Rewrite w_dom_set_dom w_CSS_set_dom w_data_set_dom w_nodes_set_dom
  set_dom_set_dom : world_rw.

(** The four fresh nodes of [render] after the three [appendChild] calls
    and the [classList.remove] of the loader class: wrapper [W] with the
    loader [L] and the holder [Hh], the holder with the placeholder
    [I]. *)
Lemma render_skeleton D4 W L Hh I eW eL eH eI c :
  elem_of W D4 = Some eW -> elem_of L D4 = Some eL -> elem_of Hh D4 = Some eH ->
  elem_of I D4 = Some eI ->
  e_parent eW = None -> e_parent eL = None -> e_parent eH = None -> e_parent eI = None ->
  e_kids eW = [] -> e_kids eH = [] ->
  (W < L < Hh)%positive -> (Hh < I)%positive ->
  let D5 := upd L (with_parent (Some W)) (upd W (fun e => with_kids (e_kids e ++ [CElem L]) e) D4) in
  let D6 := upd I (with_parent (Some Hh)) (upd Hh (fun e => with_kids (e_kids e ++ [CElem I]) e) D5) in
  let D7 := class_update W (list_remove [c] (class_list W D6)) D6 in
  let D8 := upd Hh (with_parent (Some W)) (upd W (fun e => with_kids (e_kids e ++ [CElem Hh]) e) D7) in
  append_child W L D4 = Done tt D5 /\ append_child Hh I D5 = Done tt D6 /\
  append_child W Hh D7 = Done tt D8 /\ d_next D8 = d_next D4 /\
  kids_of W D8 = [CElem L; CElem Hh] /\ parent_element W D8 = None /\
  elem_of L D8 = Some (with_parent (Some W) eL) /\
  elem_of Hh D8 = Some (with_parent (Some W) (with_kids [CElem I] eH)) /\
  parent_element I D8 = Some Hh /\
  (forall m, m <> W -> m <> L -> m <> Hh -> m <> I -> elem_of m D8 = elem_of m D4).
Proof.
  intros HW HL HH HI pW pL pH pI kW kH Hlt Hlt' D5 D6 D7 D8.
  assert (E5 : append_child W L D4 = Done tt D5) by (apply (append_child_orphan _ _ _ eW eL); done || lia).
  assert (H5 : elem_of Hh D5 = Some eH) by (unfold D5; rewrite !elem_of_upd_ne by lia; done).
  assert (I5 : elem_of I D5 = Some eI) by (unfold D5; rewrite !elem_of_upd_ne by lia; done).
  assert (E6 : append_child Hh I D5 = Done tt D6) by (apply (append_child_orphan _ _ _ eH eI); done || lia).
  assert (W6 : elem_of W D6 = Some (with_kids [CElem L] eW)).
  { unfold D6, D5. rewrite !elem_of_upd_ne, elem_of_upd_eq, HW by lia. simpl. by rewrite kW. }
  destruct (class_update_elem W (list_remove [c] (class_list W D6)) D6 _ W6)
    as (eW7 & W7 & tW7 & pW7 & kW7 & _). fold D7 in W7.
  assert (H7 : elem_of Hh D7 = Some (with_kids [CElem I] eH)).
  { unfold D7. rewrite class_update_other by lia. unfold D6.
    rewrite elem_of_upd_ne, elem_of_upd_eq, H5 by lia. simpl. by rewrite kH. }
  assert (E8 : append_child W Hh D7 = Done tt D8).
  { apply (append_child_orphan _ _ _ eW7 (with_kids [CElem I] eH)); (done || lia || (simpl in *; congruence)). }
  split; [done|]. split; [done|]. split; [done|].
  split; [unfold D8, D7; simpl; by rewrite class_update_next|].
  assert (W8 : elem_of W D8 = Some (with_kids (e_kids eW7 ++ [CElem Hh]) eW7)).
  { unfold D8. by rewrite elem_of_upd_ne, elem_of_upd_eq, W7 by lia. }
  split; [rewrite (kids_of_some _ _ _ W8); simpl; by rewrite kW7|].
  split; [unfold parent_element; rewrite W8; simpl in *; congruence|].
  split; [unfold D8, D7; rewrite !elem_of_upd_ne, class_update_other by lia; unfold D6, D5;
          rewrite !elem_of_upd_ne, elem_of_upd_eq, elem_of_upd_ne, HL by lia; done|].
  split; [unfold D8; rewrite elem_of_upd_eq, elem_of_upd_ne, H7 by lia; done|].
  split; [unfold parent_element, D8, D7; rewrite !elem_of_upd_ne, class_update_other by lia;
          unfold D6; rewrite elem_of_upd_eq, elem_of_upd_ne, I5 by lia; done|].
  intros m ????. unfold D8, D7. rewrite !elem_of_upd_ne, class_update_other by done.
  unfold D6, D5. by rewrite !elem_of_upd_ne.
Qed.

Lemma class_update_tag c n l d :
  option_map e_tag (elem_of c (class_update n l d)) = option_map e_tag (elem_of c d).
Proof.
  destruct (class_update_cases n l d) as [-> | ->]; [done|].
  rewrite elem_of_upd. case_decide; [subst; by destruct (elem_of n d)|done].
Qed.

Lemma class_edits_tag S d d' c :
  class_edits S d d' -> option_map e_tag (elem_of c d') = option_map e_tag (elem_of c d).
Proof. induction 1 as [|d1 d2 d3 (n & l & _ & ->) _ IH]; [done|]. by rewrite IH, class_update_tag. Qed.

Section Detach.
Context `{HtmlSyntax}.

(** [innerHTML] on the holder, then [loader.remove()]. *)
Lemma render_detach D8 D9 W L Hh I s eL eH :
  kids_of W D8 = [CElem L; CElem Hh] -> parent_element W D8 = None ->
  elem_of L D8 = Some (with_parent (Some W) eL) ->
  elem_of Hh D8 = Some (with_parent (Some W) (with_kids [CElem I] eH)) ->
  (W < L < Hh)%positive -> (Hh < I < d_next D8)%positive ->
  set_inner_html Hh s D8 = Done tt D9 ->
  let D10 := detach L D9 in
  kids_of W D10 = [CElem Hh] /\ parent_element W D10 = None /\
  option_map e_tag (elem_of Hh D10) = Some (e_tag eH) /\
  kids_of Hh D10 = kids_of Hh D9 /\
  same_from (d_next D8) (d_next D9) D9 D10 /\ d_next D10 = d_next D9 /\
  parent_element I D10 = None /\
  (forall m, (m < d_next D8)%positive -> m <> W -> m <> L -> m <> Hh -> m <> I ->
     elem_of m D10 = elem_of m D8).
Proof.
  intros KW PW EL EH Hlt Hlt' E9 D10.
  destruct (set_inner_html_spec Hh s D8 _ EH) as (D9' & E9' & N9 & O9 & S9 & _); [lia|].
  rewrite E9 in E9'. injection E9' as <-.
  assert (O9' : forall m, (m < d_next D8)%positive -> m <> Hh -> m <> I -> elem_of m D9 = elem_of m D8).
  { intros m Hm Hh' HI. apply O9; [done|done|]. simpl. intros [?|[]]%list_elem_of_In; congruence. }
  assert (EW9 : elem_of W D9 = elem_of W D8) by (apply O9'; lia).
  assert (Hd : D10 = upd L (with_parent None)
                 (upd W (fun e => with_kids (List.filter (fun k => bool_decide (k <> CElem L)) (e_kids e)) e) D9)).
  { unfold D10, detach, parent_element. by rewrite O9', EL by lia. }
  destruct (elem_of W D8) as [eW|] eqn:EW; [|unfold kids_of in KW; by rewrite EW in KW].
  rewrite (kids_of_some _ _ _ EW) in KW.
  assert (EW10 : elem_of W D10 = Some (with_kids [CElem Hh] eW)).
  { rewrite Hd, elem_of_upd_ne, elem_of_upd_eq, EW9 by lia. simpl. rewrite KW. simpl.
    rewrite bool_decide_false by tauto. by rewrite bool_decide_true by (intros [=]; lia). }
  destruct S9 as (e1 & He1 & EH9).
  split; [by rewrite (kids_of_some _ _ _ EW10)|].
  split; [unfold parent_element in *; rewrite EW10, EW in *; done|].
  split; [rewrite Hd, !elem_of_upd_ne, EH9 by lia; by destruct He1 as [-> | ->]|].
  split; [unfold kids_of; by rewrite Hd, !elem_of_upd_ne by lia|].
  split; [intros k Hk; by rewrite Hd, !elem_of_upd_ne by lia|].
  split; [by rewrite Hd|].
  split; [unfold parent_element; rewrite Hd, !elem_of_upd_ne by lia;
          apply (set_inner_html_orphans Hh s D8 D9 I E9); [rewrite (kids_of_some _ _ _ EH); by left|lia|lia]|].
  intros m Hm ????. rewrite Hd, !elem_of_upd_ne by done. by apply O9'.
Qed.

End Detach.

Section Render.
Context `{HtmlSyntax}.

(** What [render] builds in the heap [D] from [D0]: the wrapper [W]
    without parent whose only child is the holder [Hh], a [div] whose
    children read back as the parse of the frame [s] and have [Hh] as
    parent; the placeholder [I] left without parent; the nodes older than
    [W] untouched. *)
Definition render_shape (D0 D : dom) (W Hh I : nid) (s : string) : Prop :=
  kids_of W D = [CElem Hh] /\ parent_element W D = None /\
  option_map e_tag (elem_of Hh D) = Some "div" /\
  map (fun k => tree_of (dom_fuel D) k D) (kids_of Hh D) = html_parse s /\
  (forall m, In (CElem m) (kids_of Hh D) -> parent_element m D = Some Hh) /\
  parent_element I D = None /\
  (forall m, (m < W)%positive -> elem_of m D = elem_of m D0) /\ (W < d_next D)%positive.

(** What [render] builds when [frame] is empty: the wrapper [W] without
    parent holds only the holder [Hh], which holds only the placeholder
    [I]. *)
Definition render_empty_shape (D : dom) (W Hh I : nid) : Prop :=
  kids_of W D = [CElem Hh] /\ parent_element W D = None /\ parent_element Hh D = Some W /\
  kids_of Hh D = [CElem I] /\ parent_element I D = Some Hh /\ is_Some (elem_of Hh D) /\
  (Hh < I < d_next D)%positive /\ (W < Hh)%positive /\ option_map e_tag (elem_of Hh D) = Some "div".

(** The shape survives [_acceptTuneView], which only edits the holder's
    [class]. *)
Lemma render_shape_edits D0 D8 D9 D10 D' W L Hh I s :
  (forall d'', same_from (d_next D8) (d_next D9) D9 d'' -> kids_of Hh d'' = kids_of Hh D9 ->
     (d_next D9 <= d_next d'')%positive ->
     map (fun k => tree_of (dom_fuel d'') k d'') (kids_of Hh d'') = html_parse s) ->
  (forall m, In (CElem m) (kids_of Hh D9) ->
     (d_next D8 <= m < d_next D9)%positive /\ parent_element m D9 = Some Hh) ->
  (W < L < Hh)%positive -> (Hh < I < d_next D8)%positive ->
  kids_of W D10 = [CElem Hh] -> parent_element W D10 = None ->
  option_map e_tag (elem_of Hh D10) = Some "div" -> kids_of Hh D10 = kids_of Hh D9 ->
  same_from (d_next D8) (d_next D9) D9 D10 -> d_next D10 = d_next D9 ->
  (d_next D8 <= d_next D9)%positive ->
  parent_element I D10 = None ->
  (forall m, (m < W)%positive -> elem_of m D10 = elem_of m D0) ->
  class_edits (eq Hh) D10 D' -> render_shape D0 D' W Hh I s.
Proof.
  intros R9 P9 Hlt Hlt' KW PW TH KH S10 N10 N89 PI B10 Hce.
  destruct (class_edits_shape _ _ _ Hce) as [Sn Sk Sp _ _].
  assert (Ho : forall m, m <> Hh -> elem_of m D' = elem_of m D10).
  { intros m Hm. apply (class_edits_other _ _ _ _ Hce). congruence. }
  assert (Hr : same_from (d_next D8) (d_next D9) D9 D').
  { intros k Hk. rewrite Ho by lia. by apply S10. }
  split; [by rewrite Sk|]. split; [by rewrite Sp|].
  split; [by rewrite (class_edits_tag _ _ _ _ Hce)|].
  split; [apply R9; [done|by rewrite Sk|lia]|].
  split; [|split; [by rewrite Sp|split; [intros m Hm; rewrite Ho by lia; by apply B10|lia]]].
  intros m Hm. rewrite Sk, KH in Hm. destruct (P9 m Hm) as [Hr' Hp].
  rewrite <- Hp. apply parent_element_same. rewrite Ho by lia. apply S10. lia.
Qed.

(** The allocation count of [render]: four [_make] calls, the parsed
    frame, and no allocation by the [class] edits. *)
Lemma render_count D0 D1 D2 D3 D4 D8 D9 D10 D' S s :
  d_next D1 = Pos.succ (d_next D0) -> d_next D2 = Pos.succ (d_next D1) ->
  d_next D3 = Pos.succ (d_next D2) -> d_next D4 = Pos.succ (d_next D3) -> d_next D8 = d_next D4 ->
  Pos.to_nat (d_next D9) = Pos.to_nat (d_next D8) + fsize (html_parse s) -> d_next D10 = d_next D9 ->
  class_edits S D10 D' -> Pos.to_nat (d_next D') = Pos.to_nat (d_next D0) + 4 + fsize (html_parse s).
Proof.
  intros N1 N2 N3 N4 N8 N9 N10 Hce. destruct (class_edits_shape _ _ _ Hce) as [Sn _ _ _ _].
  rewrite Sn, N10, N9, N8, N4, N3, N2, N1, !Pos2Nat.inj_succ. lia.
Qed.

End Render.

(** A step of a run that returns ([ok]) or of a run that throws later
    ([throws]). *)
Ltac rseq := first [apply ok_seq | apply throws_bind_r].

(** The prefix of [render] up to the [classList.remove] of the loader
    class: the four [_make] calls (heaps [D1] to [D4], nodes [W], [L],
    [Hh], [I]) and the first two [appendChild] calls (facts of
    [render_skeleton]). *)
Ltac render_alloc w :=
  unfold render; rseq; apply ok_mget; cbv zeta;
  rseq; apply ok_make; [done|]; intros D1 N1 [aW E1] O1; autorewrite with world_rw in *;
  rseq; apply ok_make; [first [by left|by right]|]; intros D2 N2 [aL E2] O2; autorewrite with world_rw in *;
  rseq; apply ok_make; [done|]; intros D3 N3 [aH E3] O3; autorewrite with world_rw in *;
  rseq; apply ok_make; [done|]; intros D4 N4 [aI E4] O4; autorewrite with world_rw in *;
  set (W := d_next (w_dom w)) in *; set (L := d_next D1) in *;
  set (Hh := d_next D2) in *; set (I := d_next D3) in *;
  destruct (render_skeleton D4 W L Hh I (mkElem "div" aW [] None) (mkElem "div" aL [] None)
    (mkElem "div" aH [] None) (mkElem "iframe" aI [] None) (loading (w_CSS w)))
    as (A5 & A6 & A8 & N8 & KW8 & PW8 & L8 & H8 & PI8 & O8);
    [rewrite O4, O3, O2 by lia; exact E1|rewrite O4, O3 by lia; exact E2|rewrite O4 by lia; exact E3
    |exact E4|done..|lia|lia|];
  rseq; eapply ok_liftD; [exact A5|]; autorewrite with world_rw;
  rseq; eapply ok_liftD; [exact A6|]; autorewrite with world_rw.

(** The prefix of [render] up to [if (this.data.frame)]: [render_alloc],
    the [classList.remove] of the loader class and the last
    [appendChild] (heap [D8]). *)
Ltac render_start w :=
  render_alloc w;
  apply ok_seq; apply ok_class_remove; [by apply check_tokens_one|]; autorewrite with world_rw;
  apply ok_seq; eapply ok_liftD; [eassumption|]; autorewrite with world_rw;
  match goal with |- ok _ (set_dom ?D _) _ => set (D8 := D) in * end.

Section RenderTheorem.
Context `{HtmlSyntax}.

(** [render] on any DOM, with style classes [classList] accepts and a
    data object whose [frame] is a non-empty string [s]: it returns a
    fresh wrapper and caches it, the holder and the placeholder in
    [this.nodes]; the heap has the [render_shape]. *)
Lemma render_run w d s :
  render_css_ok (w_CSS w) -> w_data w = Some d -> prop d "frame" = JStr s -> s <> "" ->
  exists Hh I w', render w = Done (d_next (w_dom w)) w' /\ w_data w' = Some d /\
    w_nodes w' = mkNodes (Some (d_next (w_dom w))) (Some Hh) (nodes_image (w_nodes w)) (Some I) /\
    render_shape (w_dom w) (w_dom w') (d_next (w_dom w)) Hh I s /\
    Pos.to_nat (d_next (w_dom w')) = Pos.to_nat (d_next (w_dom w)) + 4 + fsize (html_parse s).
Proof.
  intros (Hc1 & Hc2 & Hc3) Hd Hf Hs.
  cut (ok render w (fun W' w' => W' = d_next (w_dom w) /\ exists Hh I, w_data w' = Some d /\
         w_nodes w' = mkNodes (Some (d_next (w_dom w))) (Some Hh) (nodes_image (w_nodes w)) (Some I) /\
         render_shape (w_dom w) (w_dom w') (d_next (w_dom w)) Hh I s /\
         Pos.to_nat (d_next (w_dom w')) = Pos.to_nat (d_next (w_dom w)) + 4 + fsize (html_parse s))).
  { intros (W' & w' & E & -> & Hh & I & R)%ok_run. by exists Hh, I, w'. }
  render_start w.
  assert (Ht : truthy (JStr s) = true) by (simpl; by rewrite (proj2 (String.eqb_neq s "") Hs)).
  apply ok_seq. eapply ok_this_data; [exact Hd|]. rewrite Hf, Ht. cbn beta iota.
  apply ok_seq. apply ok_seq. unfold parent_of. apply ok_seq. apply ok_readD. autorewrite with world_rw.
  eapply ok_deref; [exact PI8|]. apply ok_seq. eapply ok_this_data; [exact Hd|]. rewrite Hf.
  destruct (set_inner_html_spec Hh s D8 _ H8) as (D9 & E9 & N9 & O9 & S9 & P9 & R9); [rewrite N8; lia|].
  eapply ok_liftD; [exact E9|]. autorewrite with world_rw.
  destruct (render_detach D8 D9 W L Hh I s _ _ KW8 PW8 L8 H8) as (K10 & P10 & T10 & KH10 & S10 & N10 & PI10 & B10);
    [lia|rewrite N8; lia|exact E9|].
  assert (B : forall m, (m < W)%positive -> elem_of m (detach L D9) = elem_of m (w_dom w)).
  { intros m Hm. rewrite B10, O8, O4, O3, O2, O1 by (rewrite ?N8; lia). done. }
  apply ok_seq. eapply ok_liftD; [reflexivity|]. autorewrite with world_rw.
  apply ok_seq, ok_mget. apply ok_seq, ok_mmodify. apply ok_seq. eapply ok_this_data; [exact Hd|].
  assert (Post : forall D', class_edits (eq Hh) (detach L D9) D' ->
            render_shape (w_dom w) D' W Hh I s /\
            Pos.to_nat (d_next D') = Pos.to_nat W + 4 + fsize (html_parse s)).
  { intros D' Hce. split; [|by apply (render_count (w_dom w) D1 D2 D3 D4 D8 D9 (detach L D9) D' (eq Hh) s)].
    eapply (render_shape_edits _ D8 D9 (detach L D9) D' W L Hh I s); [exact R9|exact P9|lia|rewrite N8; lia|done|done|done|done|done|done|lia|done|done|done]. }
  destruct (truthy (prop d "alignment")).
  - apply ok_seq. unfold ok at 1. rewrite (accept_tune_view_run _ d Hh) by done.
    apply ok_ret. split; [done|]. exists Hh, I. split; [done|]. split; [done|]. apply Post, accept_dom_edits.
  - apply ok_seq, ok_ret, ok_ret. split; [done|]. exists Hh, I. split; [done|]. split; [done|].
    apply Post, rtc_refl.
Qed.

(** [render] when [frame] is empty: the placeholder stays in the holder. *)
Lemma render_run_empty w d :
  render_css_ok (w_CSS w) -> w_data w = Some d -> truthy (prop d "frame") = false ->
  exists Hh I w', render w = Done (d_next (w_dom w)) w' /\ w_data w' = Some d /\
    w_nodes w' = mkNodes (Some (d_next (w_dom w))) (Some Hh) (nodes_image (w_nodes w)) (Some I) /\
    render_empty_shape (w_dom w') (d_next (w_dom w)) Hh I.
Proof.
  intros (Hc1 & Hc2 & Hc3) Hd Hf.
  cut (ok render w (fun W' w' => W' = d_next (w_dom w) /\ exists Hh I, w_data w' = Some d /\
         w_nodes w' = mkNodes (Some (d_next (w_dom w))) (Some Hh) (nodes_image (w_nodes w)) (Some I) /\
         render_empty_shape (w_dom w') (d_next (w_dom w)) Hh I)).
  { intros (W' & w' & E & -> & Hh & I & R)%ok_run. by exists Hh, I, w'. }
  render_start w.
  apply ok_seq. eapply ok_this_data; [exact Hd|]. rewrite Hf. cbn beta iota. apply ok_seq, ok_ret.
  apply ok_seq. eapply ok_liftD; [reflexivity|]. autorewrite with world_rw.
  assert (PL : parent_element L D8 = Some W) by (unfold parent_element; by rewrite L8).
  assert (Post : forall D', class_edits (eq Hh) (detach L D8) D' -> render_empty_shape D' W Hh I).
  { intros D' Hce. destruct (class_edits_shape _ _ _ Hce) as [Sn Sk Sp Se _].
    assert (TH : option_map e_tag (elem_of Hh D') = Some "div")
      by (by rewrite (class_edits_tag _ _ _ _ Hce), tag_detach, H8).
    unfold render_empty_shape. rewrite Sn, !Sk, !Sp, Se, next_detach, !parent_detach, !kids_of_detach, exists_detach, PL.
    assert (HI : (Hh < I < d_next D8)%positive) by (rewrite N8; lia).
    assert (PH : parent_element Hh D8 = Some W) by (unfold parent_element; by rewrite H8).
    rewrite decide_True, KW8, (kids_of_some _ _ _ H8), PH by done. cbn [List.filter].
    rewrite bool_decide_false, bool_decide_true by congruence.
    repeat case_decide; simplify_eq; try lia. split_and!; [done..|by rewrite H8|lia|lia|lia|done]. }
  apply ok_seq, ok_mget. apply ok_seq, ok_mmodify. apply ok_seq. eapply ok_this_data; [exact Hd|].
  destruct (truthy (prop d "alignment")).
  - apply ok_seq. unfold ok at 1. rewrite (accept_tune_view_run _ d Hh) by done.
    apply ok_ret. split; [done|]. exists Hh, I. split; [done|]. split; [done|]. apply Post, accept_dom_edits.
  - apply ok_seq, ok_ret, ok_ret. split; [done|]. exists Hh, I. split; [done|]. split; [done|].
    apply Post, rtc_refl.
Qed.

(** [render] with an empty [frame], then one write of the data: the
    holder, still the wrapper's only child, holds the parse of the new
    [frame], and the cached placeholder has no parent. *)
Lemma empty_render_write w d x :
  render_css_ok (w_CSS w) -> w_data w = Some d -> truthy (prop d "frame") = false ->
  exists w1 w2 Hh I eH, render w = Done (d_next (w_dom w)) w1 /\ set_data x w1 = Done tt w2 /\
    w_data w2 = Some (assign d x) /\ nodes_holder (w_nodes w2) = Some Hh /\
    nodes_iframe (w_nodes w2) = Some I /\ parent_element I (w_dom w2) = None /\
    kids_of (d_next (w_dom w)) (w_dom w2) = [CElem Hh] /\
    elem_of Hh (w_dom w2) = Some eH /\ e_tag eH = "div" /\
    map (fun k => tree_of (dom_fuel (w_dom w2)) k (w_dom w2)) (kids_of Hh (w_dom w2)) =
      html_parse (html_of_value (prop (assign d x) "frame")) /\
    (forall m, In (CElem m) (kids_of Hh (w_dom w2)) -> parent_element m (w_dom w2) = Some Hh) /\
    (d_next (w_dom w) < d_next (w_dom w2))%positive.
Proof.
  intros Hc Hd Hf.
  destruct (render_run_empty w d Hc Hd Hf)
    as (Hh & I & w1 & E & Hd1 & Hn1 & (KW & PW & PH & KH & PI & [eH EH] & HI & HW & TH)).
  set (s := html_of_value (prop (assign d x) "frame")).
  destruct (set_inner_html_spec Hh s (w_dom w1) eH EH) as (D2 & E2 & N2 & O2 & (e1 & He1 & EH2) & P2 & R2); [lia|].
  rewrite EH in TH. injection TH as TH.
  exists w1, (set_dom D2 (set_data_field (assign d x) w1)), Hh, I, (with_kids (kids_of Hh D2) e1).
  rewrite (set_data_run_attached w1 d x I Hh) by (rewrite ?Hn1; done). fold s. rewrite E2. cbn [final_state].
  rewrite !w_dom_set_dom. simpl (w_nodes _). rewrite Hn1.
  split_and!; [done..| | |done| | | |].
  - apply (set_inner_html_orphans Hh s (w_dom w1) D2 I E2); [rewrite KH; by left|lia|lia].
  - assert (HWn : d_next (w_dom w) <> Hh) by congruence.
    unfold kids_of in KW |- *. rewrite (O2 (d_next (w_dom w))); [done|lia|done|].
    rewrite <-(kids_of_some _ _ _ EH), KH. intros [= ?]%list_elem_of_singleton. lia.
  - by destruct He1 as [-> | ->].
  - apply R2; [apply same_from_refl|done|apply Pos.le_refl].
  - intros m Hm. by apply P2.
  - lia.
Qed.

(** C13: on any DOM, with style classes [classList] accepts and a data
    object whose [frame] is a non-empty string [s], [render] returns a
    fresh wrapper and caches it, the holder and the placeholder in
    [this.nodes]; the wrapper's only child is the holder, whose children
    are the nodes of [html_parse s], and the cached placeholder
    [this.nodes.iframe] is left without parent, no older node changed.
    So every later call of the [data] setter merges the data and then
    throws a [TypeError] at [this.nodes.iframe.parentElement.innerHTML],
    leaving the DOM as it was. *)
Theorem render_structure w d s :
  render_css_ok (w_CSS w) -> w_data w = Some d -> prop d "frame" = JStr s -> s <> "" ->
  exists Hh I w', render w = Done (d_next (w_dom w)) w' /\ w_data w' = Some d /\
    w_nodes w' = mkNodes (Some (d_next (w_dom w))) (Some Hh) (nodes_image (w_nodes w)) (Some I) /\
    render_shape (w_dom w) (w_dom w') (d_next (w_dom w)) Hh I s /\
    forall x, throws (set_data x) w' (fun e w'' =>
      e = TypeError "Cannot set properties of null (setting 'innerHTML')" /\
      w_data w'' = Some (assign d x) /\ w_dom w'' = w_dom w').
Proof.
  intros Hc Hd Hf Hs.
  destruct (render_run w d s Hc Hd Hf Hs) as (Hh & I & w' & E & Hd' & Hn & R & _).
  exists Hh, I, w'. split_and!; [done..|]. intros x.
  destruct R as (_ & _ & _ & _ & _ & PI & _).
  apply (set_data_run_detached _ d _ I); [done|by rewrite Hn|done].
Qed.

(** C21: a block rendered with an empty [frame] takes one write of its
    data and no more: the first call of the [data] setter (the call
    [onPaste] makes) stores the merge and replaces the holder's children
    by the parse of the new [frame], which detaches the placeholder the
    block caches; a second call then throws a [TypeError] after merging
    its data, and leaves the DOM as it was. *)
Theorem empty_render_one_write w d x y :
  render_css_ok (w_CSS w) -> w_data w = Some d -> truthy (prop d "frame") = false ->
  exists w1, render w = Done (d_next (w_dom w)) w1 /\
  ok (set_data x) w1 (fun _ w2 =>
    w_data w2 = Some (assign d x) /\
    (exists h, nodes_holder (w_nodes w2) = Some h /\
       map (fun k => tree_of (dom_fuel (w_dom w2)) k (w_dom w2)) (kids_of h (w_dom w2)) =
       html_parse (html_of_value (prop (assign d x) "frame"))) /\
    throws (set_data y) w2 (fun e w3 =>
      e = TypeError "Cannot set properties of null (setting 'innerHTML')" /\
      w_data w3 = Some (assign (assign d x) y) /\ w_dom w3 = w_dom w2)).
Proof.
  intros Hc Hd Hf.
  destruct (empty_render_write w d x Hc Hd Hf)
    as (w1 & w2 & Hh & I & eH & E & E2 & Hd2 & Hh2 & Hi2 & PI & _ & _ & _ & TR & _).
  exists w1. split; [done|]. unfold ok. rewrite E2. split; [done|]. split; [by exists Hh|].
  by apply (set_data_run_detached _ (assign d x) _ I).
Qed.

End RenderTheorem.

(** ** [save] after [render] *)

Lemma tree_of_elem f k d tg a ks :
  tree_of f k d = TElem tg a ks -> exists m e, k = CElem m /\ elem_of m d = Some e /\ e_tag e = tg.
Proof.
  destruct k as [m|t]; [|by destruct f]. destruct f as [|f]; [done|]. simpl.
  destruct (elem_of m d) as [e|] eqn:E; [|done]. intros [= <- _ _]. by exists m, e.
Qed.

(** [querySelector('iframe')] on a wrapper whose only child is a
    non-iframe holder whose first child is an iframe. *)
Lemma query_first W Hh m D eH em rest :
  kids_of W D = [CElem Hh] -> elem_of Hh D = Some eH -> e_tag eH <> "iframe" ->
  kids_of Hh D = CElem m :: rest -> elem_of m D = Some em -> e_tag em = "iframe" ->
  (W < d_next D)%positive -> query_selector W "iframe" D = Some m.
Proof.
  intros KW EH TH KH EM TM Hn. unfold query_selector.
  assert (Hf : exists f, dom_fuel D = S (S f)) by (exists (Pos.to_nat (d_next D) - 2); unfold dom_fuel; lia).
  destruct Hf as [f ->]. simpl. rewrite KW. simpl. rewrite EH.
  rewrite (proj2 (String.eqb_neq _ _) TH). rewrite KH. simpl. rewrite EM, TM. done.
Qed.

Section SaveRun.
Context `{HtmlSyntax}.

(** [save] when the query finds an iframe [i] with parent [p]. *)
Lemma save_found w d n i p :
  w_data w = Some d -> query_selector n "iframe" (w_dom w) = Some i ->
  parent_element i (w_dom w) = Some p ->
  save n w = Done (Some (<["frame" := JStr (inner_html p (w_dom w))]> d))
                  (set_data_field (<["frame" := JStr (inner_html p (w_dom w))]> d) w).
Proof.
  intros Hd Hq Hp.
  unfold save, parent_of, this_data, readD, deref, mget, mret, mmodify, get_data, mbind.
  cbn beta iota. rewrite Hq. cbn beta iota. rewrite Hp. cbn beta iota. rewrite Hd. cbn beta iota.
  simpl. rewrite Hp. simpl. by rewrite assign_singleton_insert, insert_insert_eq.
Qed.

(** [save] on a wrapper whose only child is a holder (not an iframe)
    whose first child is an iframe: it stores the holder's [innerHTML]. *)
Lemma save_holder w d W Hh eH m em rest :
  w_data w = Some d -> kids_of W (w_dom w) = [CElem Hh] -> elem_of Hh (w_dom w) = Some eH ->
  e_tag eH <> "iframe" -> kids_of Hh (w_dom w) = CElem m :: rest -> elem_of m (w_dom w) = Some em ->
  e_tag em = "iframe" -> parent_element m (w_dom w) = Some Hh -> (W < d_next (w_dom w))%positive ->
  save W w = Done (Some (<["frame" := JStr (inner_html Hh (w_dom w))]> d))
                  (set_data_field (<["frame" := JStr (inner_html Hh (w_dom w))]> d) w).
Proof. intros Hd KW EH TH KH EM TM PM Hn. apply (save_found _ _ _ m); [done| |done]. by eapply query_first. Qed.

(** [save] after [render]: it stores the [innerHTML] of the holder,
    whose children read back as the parsed frame. *)
Lemma render_save_holder w d s a ks rest :
  render_css_ok (w_CSS w) -> w_data w = Some d -> prop d "frame" = JStr s -> s <> "" ->
  html_parse s = TElem "iframe" a ks :: rest ->
  exists w' Hh, render w = Done (d_next (w_dom w)) w' /\
    map (fun k => tree_of (dom_fuel (w_dom w')) k (w_dom w')) (kids_of Hh (w_dom w')) = html_parse s /\
    save (d_next (w_dom w)) w' =
      Done (Some (<["frame" := JStr (inner_html Hh (w_dom w'))]> d))
           (set_data_field (<["frame" := JStr (inner_html Hh (w_dom w'))]> d) w').
Proof.
  intros Hc Hd Hf Hs Hp.
  destruct (render_run w d s Hc Hd Hf Hs)
    as (Hh & I & w' & E & Hd' & Hn & (KW & PW & TH & TR & PK & PI & B & HW) & _).
  exists w', Hh. split; [done|]. split; [done|].
  assert (HR := TR). rewrite Hp in HR.
  destruct (kids_of Hh (w_dom w')) as [|k0 ks0] eqn:KH; [done|]. injection HR as H0 _.
  destruct (tree_of_elem _ _ _ _ _ _ H0) as (m & em & -> & EM & TM).
  destruct (elem_of Hh (w_dom w')) as [eH|] eqn:EH; [|done]. injection TH as TH.
  eapply save_holder; [done|exact KW|exact EH|rewrite TH; done|exact KH|exact EM|exact TM| |exact HW].
  apply PK. rewrite ?KH. by left.
Qed.

(** C14: on any DOM, with style classes [classList] accepts, any markup
    syntax, and data whose [frame] is a string [s] that parses to markup
    starting with an [iframe] element: [save] on the node [render]
    returned stores as [frame] exactly [html_serialize (html_parse s)],
    the holder's [innerHTML], and keeps every other property of the data
    object. *)
Theorem render_save_frame w d s a ks rest :
  render_css_ok (w_CSS w) -> w_data w = Some d -> prop d "frame" = JStr s -> s <> "" ->
  html_parse s = TElem "iframe" a ks :: rest ->
  exists w', render w = Done (d_next (w_dom w)) w' /\
    save (d_next (w_dom w)) w' =
      Done (Some (<["frame" := JStr (html_serialize (html_parse s))]> d))
           (set_data_field (<["frame" := JStr (html_serialize (html_parse s))]> d) w').
Proof.
  intros Hc Hd Hf Hs Hp.
  destruct (render_save_holder w d s a ks rest Hc Hd Hf Hs Hp) as (w' & Hh & E & TR & Sv).
  exists w'. split; [done|]. by rewrite <-(inner_html_trees _ _ _ TR).
Qed.

End SaveRun.

(** C17: with the markup syntax [TagSoup], on any DOM and for a frame
    [s] whose parse starts with an [iframe] element and is well formed
    ([Soup.wf_forest]), [save] after [render] stores a [frame] that
    parses to the same trees as [s] (it is DOM-equivalent to the
    original markup) and keeps every other property of the data. *)
Theorem render_save_equivalent w d s a ks rest :
  render_css_ok (w_CSS w) -> w_data w = Some d -> prop d "frame" = JStr s -> s <> "" ->
  html_parse s = TElem "iframe" a ks :: rest -> wf_forest (html_parse s) = true ->
  exists w' d', render w = Done (d_next (w_dom w)) w' /\
    save (d_next (w_dom w)) w' = Done (Some d') (set_data_field d' w') /\
    (exists f, prop d' "frame" = JStr f /\ html_parse f = html_parse s) /\
    forall k, k <> "frame" -> prop d' k = prop d k.
Proof.
  intros Hc Hd Hf Hs Hp Hw.
  destruct (render_save_holder w d s a ks rest Hc Hd Hf Hs Hp) as (w' & Hh & E & TR & Sv).
  eexists w', _. split; [done|]. split; [exact Sv|]. split.
  - eexists. split; [apply prop_insert_eq|]. rewrite (inner_html_trees _ _ _ TR).
    by apply parse_serialize.
  - intros k Hk. by apply prop_insert_ne.
Qed.

(** ** Witnesses on the demo block *)

Definition demo_frame_attrs : list (string * string) :=
  [("src", "https://www.youtube.com/embed/x"); ("width", "560"); ("allowfullscreen", "")].

Lemma demo_hyps :
  render_css_ok (w_CSS demo_constructed) /\ w_data demo_constructed = Some (data_of demo_constructed) /\
  prop (data_of demo_constructed) "frame" = JStr demo_frame /\ demo_frame <> "".
Proof.
  split; [split; [|split]; vm_compute; reflexivity|].
  split; [vm_compute; reflexivity|]. split; [vm_compute; reflexivity|]. vm_compute. discriminate.
Qed.

Lemma render_structure_witness :
  render_css_ok (w_CSS demo_constructed) /\ w_data demo_constructed = Some (data_of demo_constructed) /\
  prop (data_of demo_constructed) "frame" = JStr demo_frame /\ demo_frame <> "" /\
  exists Hh I w', render demo_constructed = Done (d_next (w_dom demo_constructed)) w' /\
    render_shape (w_dom demo_constructed) (w_dom w') (d_next (w_dom demo_constructed)) Hh I demo_frame.
Proof.
  destruct demo_hyps as (H1 & H2 & H3 & H4).
  split; [exact H1|]. split; [exact H2|]. split; [exact H3|]. split; [exact H4|].
  destruct (render_structure demo_constructed _ demo_frame H1 H2 H3 H4) as (Hh & I & w' & E & _ & _ & R & _).
  by exists Hh, I, w'.
Defined.

Lemma render_save_frame_witness :
  html_parse demo_frame = [TElem "iframe" demo_frame_attrs []] /\
  exists w', render demo_constructed = Done (d_next (w_dom demo_constructed)) w' /\
    save (d_next (w_dom demo_constructed)) w' =
      Done (Some (<["frame" := JStr (html_serialize (html_parse demo_frame))]> (data_of demo_constructed)))
           (set_data_field (<["frame" := JStr (html_serialize (html_parse demo_frame))]>
              (data_of demo_constructed)) w').
Proof.
  destruct demo_hyps as (H1 & H2 & H3 & H4).
  assert (Hp : html_parse demo_frame = [TElem "iframe" demo_frame_attrs []]) by (vm_compute; reflexivity).
  split; [exact Hp|].
  exact (render_save_frame demo_constructed _ demo_frame _ _ _ H1 H2 H3 H4 Hp).
Defined.

Lemma render_save_equivalent_witness :
  wf_forest (html_parse demo_frame) = true /\
  exists w' d', render demo_constructed = Done (d_next (w_dom demo_constructed)) w' /\
    save (d_next (w_dom demo_constructed)) w' = Done (Some d') (set_data_field d' w') /\
    (exists f, prop d' "frame" = JStr f /\ html_parse f = html_parse demo_frame) /\
    forall k, k <> "frame" -> prop d' k = prop (data_of demo_constructed) k.
Proof.
  destruct demo_hyps as (H1 & H2 & H3 & H4).
  assert (Hp : html_parse demo_frame = [TElem "iframe" demo_frame_attrs []]) by (vm_compute; reflexivity).
  assert (Hw : wf_forest (html_parse demo_frame) = true) by (vm_compute; reflexivity).
  split; [exact Hw|].
  exact (render_save_equivalent demo_constructed _ demo_frame _ _ _ H1 H2 H3 H4 Hp Hw).
Defined.

Lemma empty_render_one_write_witness :
  render_css_ok (w_CSS demo_blank) /\ w_data demo_blank = Some (data_of demo_blank) /\
  truthy (prop (data_of demo_blank) "frame") = false /\
  exists w1, render demo_blank = Done (d_next (w_dom demo_blank)) w1 /\
    ok (set_data {["frame" := JStr demo_frame]}) w1 (fun _ w2 =>
      throws (set_data {["frame" := JNull]}) w2 (fun e _ =>
        e = TypeError "Cannot set properties of null (setting 'innerHTML')")).
Proof.
  assert (H1 : render_css_ok (w_CSS demo_blank)) by (split; [|split]; vm_compute; reflexivity).
  assert (H2 : w_data demo_blank = Some (data_of demo_blank)) by (vm_compute; reflexivity).
  assert (H3 : truthy (prop (data_of demo_blank) "frame") = false) by (vm_compute; reflexivity).
  split; [exact H1|]. split; [exact H2|]. split; [exact H3|].
  destruct (empty_render_one_write demo_blank _ {["frame" := JStr demo_frame]} {["frame" := JNull]} H1 H2 H3)
    as (w1 & E & Hok). exists w1. split; [exact E|].
  eapply ok_mono; [|exact Hok]. intros _ w2 (_ & _ & Ht). eapply throws_mono; [|exact Ht]. by intros e w3 [-> _].
Defined.
