(* ===== verification/Errors.v ===== *)
(** * Errors: [render] on a loader style class [classList] refuses

    [render] creates the loader with [_make('div', this.CSS.loading)],
    which adds no class when the class name is empty (index.js line 280:
    [if (Array.isArray ...) ... else if (classNames) ...]), and then calls
    [wrapper.classList.remove(this.CSS.loading)] (line 114), which throws
    a [SyntaxError] [DOMException] on the empty token.  C27: with an empty
    loader class and valid wrapper and holder classes, [render] throws
    that exception after its first two [appendChild] calls: it caches no
    node in [this.nodes], changes neither the data nor the listeners, and
    leaves every node of the page as it was; the four nodes it created
    are unreachable garbage. *)

From S2P Require Import Prelude Markup Dom Alloc Block Data View Roundtrip.

Local Open Scope string_scope.
Local Open Scope js_scope.

Section RenderError.
Context `{HtmlSyntax}.

(** C27: [render] with an empty loader class throws [SyntaxError] at
    [wrapper.classList.remove(this.CSS.loading)], leaving [this.nodes],
    the data, the listeners and every node that existed before as they
    were. *)
Theorem render_empty_loader_throws w :
  check_tokens [baseClass (w_CSS w); Block.wrapper (w_CSS w)] = None ->
  check_tokens (Block.holder (w_CSS w)) = None -> loading (w_CSS w) = "" ->
  throws render w (fun e w' =>
    e = DOMException "SyntaxError" /\ w_nodes w' = w_nodes w /\ w_data w' = w_data w /\
    w_listeners w' = w_listeners w /\
    forall m, (m < d_next (w_dom w))%positive -> elem_of m (w_dom w') = elem_of m (w_dom w)).
Proof.
  intros Hc1 Hc2 Hl. render_alloc w.
  apply throws_bind_l. unfold throws, liftD, class_remove. rewrite Hl. cbn.
  split_and!; [done..|]. intros m Hm.
  rewrite !elem_of_upd_ne, O4, O3, O2, O1 by (subst W L Hh I; lia). done.
Qed.

End RenderError.

(** The demo block under an API whose loader style class is empty. *)
Definition demo_api_noloader : api :=
  mkApi 0 (mkStyles "cdx-block" "" "cdx-input" "cdx-settings-button" "cdx-settings-button--active").

Definition demo_noloader : world :=
  final_state (construct demo_data demo_api_noloader (JBool false) demo_dom demo_body).

Lemma render_empty_loader_throws_witness :
  check_tokens [baseClass (w_CSS demo_noloader); Block.wrapper (w_CSS demo_noloader)] = None /\
  check_tokens (Block.holder (w_CSS demo_noloader)) = None /\ loading (w_CSS demo_noloader) = "" /\
  throws render demo_noloader (fun e w' =>
    e = DOMException "SyntaxError" /\ w_nodes w' = w_nodes demo_noloader /\
    w_data w' = w_data demo_noloader /\ w_listeners w' = w_listeners demo_noloader /\
    forall m, (m < d_next (w_dom demo_noloader))%positive ->
      elem_of m (w_dom w') = elem_of m (w_dom demo_noloader)).
Proof.
  assert (H1 : check_tokens [baseClass (w_CSS demo_noloader); Block.wrapper (w_CSS demo_noloader)] = None)
    by (vm_compute; reflexivity).
  assert (H2 : check_tokens (Block.holder (w_CSS demo_noloader)) = None) by (vm_compute; reflexivity).
  assert (H3 : loading (w_CSS demo_noloader) = "") by (vm_compute; reflexivity).
  split_and!; [exact H1|exact H2|exact H3|].
  exact (render_empty_loader_throws demo_noloader H1 H2 H3).
Defined.

Section SettingsError.
Context `{HtmlSyntax}.

(** C28: when [classList.add] refuses the settings button class (empty,
    or with white space), [renderSettings] throws its exception at the
    first button, before the listener of any button is registered: the
    listeners, [this.nodes], the data and every node that existed before
    are as they were. *)
Theorem renderSettings_bad_class_throws w e :
  check_tokens [settingsButton (w_CSS w)] = Some e ->
  throws renderSettings w (fun e' w' =>
    e' = e /\ w_listeners w' = w_listeners w /\ w_nodes w' = w_nodes w /\ w_data w' = w_data w /\
    forall m, (m < d_next (w_dom w))%positive -> elem_of m (w_dom w') = elem_of m (w_dom w)).
Proof.
  intros Hc. destruct w as [D doc a ro bi C nds dat ls].
  unfold throws, renderSettings, settings, mforeach, settings_button, mbind, liftD, mget,
    create_element, set_attribute, mmodify, class_add, set_dom. cbn in Hc |- *. rewrite Hc.
  cbn. split_and!; [done..|]. intros m Hm.
  rewrite elem_of_upd_ne, elem_of_insert, bool_decide_false, lookup_insert_ne by lia. done.
Qed.

End SettingsError.

(** The demo block under an API whose settings button class has a space. *)
Definition demo_api_spaced : api :=
  mkApi 0 (mkStyles "cdx-block" "cdx-loader" "cdx-input" "cdx-settings button"
                    "cdx-settings-button--active").

Definition demo_spaced : world :=
  final_state (construct demo_data demo_api_spaced (JBool false) demo_dom demo_body).

Lemma renderSettings_bad_class_throws_witness :
  check_tokens [settingsButton (w_CSS demo_spaced)] = Some (DOMException "InvalidCharacterError") /\
  throws renderSettings demo_spaced (fun e' w' =>
    e' = DOMException "InvalidCharacterError" /\ w_listeners w' = w_listeners demo_spaced /\
    w_nodes w' = w_nodes demo_spaced /\ w_data w' = w_data demo_spaced /\
    forall m, (m < d_next (w_dom demo_spaced))%positive ->
      elem_of m (w_dom w') = elem_of m (w_dom demo_spaced)).
Proof.
  assert (H1 : check_tokens [settingsButton (w_CSS demo_spaced)] = Some (DOMException "InvalidCharacterError"))
    by (vm_compute; reflexivity).
  split; [exact H1|]. exact (renderSettings_bad_class_throws demo_spaced _ H1).
Defined.
