(* ===== verification/Lifecycle.v ===== *)
(** * Lifecycle: the block driven by the host, and its invariant

    Editor.js drives a block through events: it renders the block and
    mounts the node in the document, renders the settings panel and
    mounts it, saves, dispatches paste events, and dispatches clicks to
    the listeners the block registered ([event], [run_event]).  The
    reachable worlds are those of a constructed block after any sequence
    of events ([reachable]), exceptions included: a method that throws
    leaves the world it had reached.

    The invariant [Inv]: the data object exists, its [alignment] is
    [false] or one of the three tune names, and every click listener
    calls [_toggleTune] with a tune name.  It is proved by rule induction
    over [reachable], from one lemma per method stating that the method
    keeps the invariant ([keeps]), which composes along binds. *)

From S2P Require Import Prelude Markup Dom Block Data View Save.

Local Open Scope string_scope.
Local Open Scope js_scope.

(** The host events. *)
Inductive event :=
| EvRender
| EvSettings
| EvSave (n : nid)
| EvPaste (ev : paste_event)
| EvClick (n : nid).

Section Host.
Context `{HtmlSyntax}.

(** A click on node [n] runs, in registration order, the listeners
    registered on [n]: each calls [_toggleTune] with its tune name. *)
Definition dispatch_click (n : nid) : M world unit :=
  w <- mget ;;
  mforeach (fun l => if bool_decide (fst l = n) then _toggleTune (snd l) else mret tt)
           (w_listeners w).

Definition run_event (e : event) : M world unit :=
  match e with
  | EvRender => host_mount render ;; mret tt
  | EvSettings => host_mount renderSettings ;; mret tt
  | EvSave n => save n ;; mret tt
  | EvPaste ev => onPaste ev
  | EvClick n => dispatch_click n
  end.

(** Saved data whose [alignment] the constructor keeps as a valid one. *)
Definition valid_saved_alignment (v : jsval) : Prop :=
  truthy v = false \/ exists t, In t tune_names /\ v = JStr t.

Inductive reachable : world -> Prop :=
| reach_init data a ro d doc :
    valid_saved_alignment (prop data "alignment") ->
    reachable (final_state (construct data a ro d doc))
| reach_step w e :
    reachable w -> reachable (final_state (run_event e w)).

End Host.

(** ** The invariant *)

Definition valid_alignment (v : jsval) : Prop :=
  v = JBool false \/ exists t, In t tune_names /\ v = JStr t.

Definition Inv (w : world) : Prop :=
  (exists d, w_data w = Some d /\ valid_alignment (prop d "alignment")) /\
  Forall (fun l => In (snd l) tune_names) (w_listeners w).

(** [c] keeps the invariant, whether it returns or throws. *)
Definition keeps {A} (c : M world A) : Prop :=
  forall w, Inv w -> Inv (final_state (c w)).

(** [c] keeps the invariant from the worlds that satisfy [P]. *)
Definition keeps_when {A} (P : world -> Prop) (c : M world A) : Prop :=
  forall w, Inv w -> P w -> Inv (final_state (c w)).

Section Keeps.
Context `{HtmlSyntax}.

Lemma keeps_bind {A B} (c : M world A) (f : A -> M world B) :
  keeps c -> (forall a, keeps (f a)) -> keeps (mbind c f).
Proof.
  intros Hc Hf w Hw. specialize (Hc w Hw). unfold mbind.
  destruct (c w) as [a w1|e w1]; simpl in *; [by apply Hf|done].
Qed.

Lemma kw_bind {A B} P (c : M world A) (f : A -> M world B) :
  keeps_when P c -> (forall a, keeps (f a)) -> keeps_when P (mbind c f).
Proof.
  intros Hc Hf w Hw HP. specialize (Hc w Hw HP). unfold mbind.
  destruct (c w) as [a w1|e w1]; simpl in *; [by apply Hf|done].
Qed.

Lemma keeps_mget_bind {B} (k : world -> M world B) :
  (forall w0, Inv w0 -> keeps (k w0)) -> keeps (mbind mget k).
Proof. intros Hk w Hw. by apply Hk. Qed.

Lemma keeps_this_data_bind {B} (k : jsobj -> M world B) :
  (forall d, keeps_when (fun w => w_data w = Some d) (k d)) -> keeps (mbind this_data k).
Proof.
  intros Hk w Hw. unfold this_data, mbind, mget, deref.
  destruct (w_data w) as [d|] eqn:E; simpl; [by apply Hk|done].
Qed.

Lemma keeps_get_data_bind {B} (k : option jsobj -> M world B) :
  (forall o, keeps_when (fun w => w_data w = o) (k o)) -> keeps (mbind get_data k).
Proof. intros Hk w Hw. by apply Hk. Qed.

Lemma keeps_ret {A} (a : A) : keeps (mret a).
Proof. by intros w Hw. Qed.

Lemma keeps_mget : keeps mget.
Proof. by intros w Hw. Qed.

Lemma keeps_readD {A} (f : dom -> A) : keeps (readD f).
Proof. by intros w Hw. Qed.

Lemma keeps_deref {A} (o : option A) msg : keeps (deref o msg).
Proof. intros w Hw. by destruct o. Qed.

Lemma keeps_this_data : keeps this_data.
Proof. intros w Hw. unfold this_data, mbind, mget, deref. by destruct (w_data w). Qed.

Lemma keeps_liftD {A} (c : M dom A) : keeps (liftD c).
Proof. intros w Hw. unfold liftD. by destruct (c (w_dom w)). Qed.

Lemma keeps_parent_of n : keeps (parent_of n).
Proof. apply keeps_bind; [apply keeps_readD|intros; apply keeps_deref]. Qed.

Lemma keeps_set_nodes n : keeps (mmodify (set_nodes n)).
Proof. by intros w Hw. Qed.

Lemma keeps_add_listener el name : In name tune_names -> keeps (mmodify (add_listener el name)).
Proof.
  intros Hn w [Hd Hl]. split; [done|]. simpl. apply Forall_app. split; [done|]. by constructor.
Qed.

Lemma keeps_foreach {A} (f : A -> M world unit) xs :
  (forall x, In x xs -> keeps (f x)) -> keeps (mforeach f xs).
Proof.
  induction xs as [|x xs IH]; intros Hf; simpl; [apply keeps_ret|].
  apply keeps_bind; [apply Hf; by left|]. intros _. apply IH. intros y Hy. apply Hf. by right.
Qed.

Lemma keeps_when_of {A} P (c : M world A) : keeps c -> keeps_when P c.
Proof. intros Hc w Hw _. by apply Hc. Qed.

(** A write of the data object that keeps a valid alignment valid. *)
Lemma kw_set_data_field d o :
  (valid_alignment (prop d "alignment") -> valid_alignment (prop o "alignment")) ->
  keeps_when (fun w => w_data w = Some d) (mmodify (set_data_field o)).
Proof.
  intros Hv w [(d' & Hd' & Hva) Hl] Hd. rewrite Hd in Hd'. simplify_eq.
  split; [|done]. exists o. split; [done|]. by apply Hv.
Qed.

(** The merge of an object with no [alignment] key keeps the alignment. *)
Lemma kw_merge (o : option jsobj) x :
  x !! "alignment" = None ->
  keeps_when (fun w => w_data w = o)
    (mmodify (set_data_field (assign (match o with Some c => assign ∅ c | None => ∅ end) x))).
Proof.
  intros Hx w Hw Ho. destruct o as [d|].
  - eapply kw_set_data_field; [|done|done]. intros Hv.
    by rewrite prop_assign_tgt, assign_empty_l.
  - destruct Hw as [(d & Hd & _) _]. congruence.
Qed.

End Keeps.

Create HintDb keeps discriminated.

(** Splits a computation along its binds and applies the rule of each
    primitive; the method lemmas are in the hint database [keeps].  A
    write of the data object is left to the caller. *)
Ltac keep_step :=
  lazymatch goal with
  | |- keeps (mbind this_data _) => apply keeps_this_data_bind; intros ?
  | |- keeps (mbind get_data _) => apply keeps_get_data_bind; intros ?
  | |- keeps (mbind mget _) => apply keeps_mget_bind; intros ? ?; cbv zeta
  | |- keeps (mbind _ _) => apply keeps_bind; [|intros ?; cbv zeta]
  | |- keeps_when _ (mbind _ _) => apply kw_bind; [|intros ?; cbv zeta]
  | |- keeps_when _ (mmodify (set_data_field _)) => fail
  | |- keeps_when _ _ => apply keeps_when_of
  | |- keeps (if ?b then _ else _) => destruct b
  | |- keeps (match ?o with Some _ => _ | None => _ end) => destruct o
  | |- keeps (mforeach _ _) => apply keeps_foreach; intros ? ?
  | |- keeps _ => solve [eauto with keeps]
  end.
Ltac keep := repeat keep_step.

#[export] Hint Resolve keeps_ret keeps_mget keeps_readD keeps_deref keeps_this_data
  keeps_liftD keeps_parent_of keeps_set_nodes : keeps.

Lemma alignment_not_tune t : In t tune_names -> t <> "alignment".
Proof. simpl. intros [<-|[<-|[<-|[]]]]; discriminate. Qed.

(** Writes of the [frame] key leave the alignment as it was. *)
Lemma prop_alignment_frame_assign (d : jsobj) v :
  prop (assign d {["frame" := v]}) "alignment" = prop d "alignment".
Proof. by apply prop_assign_tgt, lookup_singleton_ne. Qed.

Lemma prop_alignment_frame_insert (d : jsobj) v :
  prop (<["frame" := v]> d) "alignment" = prop d "alignment".
Proof. by apply prop_insert_ne. Qed.

Section Methods.
Context `{HtmlSyntax}.

Lemma keeps__make tag cls : keeps (_make tag cls).
Proof. unfold _make. keep. destruct cls; keep. Qed.
#[local] Hint Resolve keeps__make : keeps.

Lemma keeps__acceptTuneView : keeps _acceptTuneView.
Proof. unfold _acceptTuneView, accept_one. keep. Qed.
#[local] Hint Resolve keeps__acceptTuneView : keeps.

Lemma keeps__toggleTune tune : In tune tune_names -> keeps (_toggleTune tune).
Proof.
  intros Ht. unfold _toggleTune, toggle_button. keep; apply kw_set_data_field; intros Hv.
  - rewrite prop_insert_ne; [done|]. apply alignment_not_tune in Ht. congruence.
  - right. exists tune. by rewrite prop_insert_eq.
Qed.

Lemma keeps_render : keeps render.
Proof. unfold render. keep. Qed.

Lemma keeps_renderSettings : keeps renderSettings.
Proof.
  unfold renderSettings, settings_button. keep.
  apply keeps_add_listener. by apply in_map.
Qed.

Lemma keeps_set_data x : x !! "alignment" = None -> keeps (set_data x).
Proof. intros Hx. unfold set_data. keep. by apply kw_merge. Qed.

Lemma keeps_onPaste ev : keeps (onPaste ev).
Proof.
  unfold onPaste. keep; try (apply keeps_set_data; by apply lookup_singleton_ne).
  by apply kw_merge, lookup_singleton_ne.
Qed.

Lemma keeps_save n : keeps (save n).
Proof.
  unfold save. keep; apply kw_set_data_field; intros Hv.
  - by rewrite prop_alignment_frame_assign.
  - by rewrite prop_alignment_frame_insert.
Qed.

Lemma keeps_host_mount c : keeps c -> keeps (host_mount c).
Proof. intros Hc. unfold host_mount. keep. Qed.

Lemma keeps_dispatch_click n : keeps (dispatch_click n).
Proof.
  unfold dispatch_click. apply keeps_mget_bind. intros w0 [_ Hl].
  apply keeps_foreach. intros l Hin. destruct (bool_decide _); [|apply keeps_ret].
  apply keeps__toggleTune. by apply (proj1 (List.Forall_forall _ _) Hl).
Qed.

Lemma keeps_run_event e : keeps (run_event e).
Proof.
  destruct e; [..| apply keeps_onPaste | apply keeps_dispatch_click];
    (apply keeps_bind; [|intros; apply keeps_ret]);
    auto using keeps_host_mount, keeps_render, keeps_renderSettings, keeps_save.
Qed.

End Methods.

(** ** Traces of host events *)

Section Traces.
Context `{HtmlSyntax}.

(** The world after the events [es], in order. *)
Fixpoint run_trace (w : world) (es : list event) : world :=
  match es with
  | [] => w
  | e :: es' => run_trace (final_state (run_event e w)) es'
  end.

Lemma reachable_trace w es : reachable w -> reachable (run_trace w es).
Proof. revert w. induction es; intros w Hw; simpl; [done|]. by apply IHes, reach_step. Qed.

(** The constructor establishes the invariant. *)
Lemma construct_inv data a ro d doc :
  valid_saved_alignment (prop data "alignment") ->
  Inv (final_state (construct data a ro d doc)).
Proof.
  intros Hv. split; [|by constructor].
  eexists. split; [reflexivity|]. rewrite assign_empty_l.
  unfold initial_data. rewrite prop_insert_ne, prop_singleton by done.
  destruct Hv as [-> | (t & Ht & ->)]; [by left|].
  simpl in Ht. right. exists t. split; [done|].
  by destruct Ht as [<-|[<-|[<-|[]]]].
Qed.

End Traces.

(** C11: in every world the host can reach from a constructed block,
    whatever the events and whether or not a method threw, the data
    object exists, its [alignment] is [false] or a tune name, and every
    registered click listener calls [_toggleTune] with a tune name. *)
Theorem reachable_inv `{HtmlSyntax} w : reachable w -> Inv w.
Proof.
  induction 1 as [data a ro d doc Hv | w e _ IH]; [by apply construct_inv|].
  by apply keeps_run_event.
Qed.

(** A session of the demo block: render, open the settings, click the
    [RightAligned] button, paste iframe markup that the paste pattern
    accepts (which throws, the cached iframe being detached), then save. *)
Definition demo_paste : paste_event :=
  mkPaste "pattern" (JStr "<iframe src='https://www.youtube.com/embed/y'></iframe>").

Definition demo_session : list event :=
  [EvRender; EvSettings; EvClick 11%positive; EvPaste demo_paste; EvSave 2%positive].

Lemma reachable_inv_witness :
  reachable (run_trace demo_constructed demo_session) /\
  Inv (run_trace demo_constructed demo_session).
Proof.
  assert (Hr : reachable (run_trace demo_constructed demo_session)).
  { apply reachable_trace. unfold demo_constructed. apply reach_init.
    right. exists "Centered". split; [simpl; tauto|reflexivity]. }
  split; [exact Hr|]. exact (reachable_inv _ Hr).
Defined.
