(* ===== verification/Config.v ===== *)
(** * Config: the fields the constructor stores and no method reads

    The constructor stores [this.api], [this.readOnly] and
    [this.blockIndex] (index.js lines 29-40).  Afterwards the methods
    read [this.CSS], [this.nodes], [this.data], the DOM and the document,
    and never these three fields: the block behaves the same whatever
    the read-only flag and the block index, and it never changes them.

    The statement is a commutation: a computation [c] is [indep] when
    running it on a world whose three fields are replaced by any values
    [k] gives the run on the original world with the fields of its
    final state replaced by [k] ([c (with_config k w) = map_state
    (with_config k) (c w)]).  [indep] is closed under [mret] and
    [mbind]; reading the world ([mget]) is [indep] when the continuation
    reads only other fields, which the kernel checks by conversion.  C22:
    every host session of a block gives the same worlds, results and
    exceptions whatever [readOnly] and the block index the host passed,
    and keeps the values the constructor stored. *)

From S2P Require Import Prelude Markup Dom Block Data View Save Lifecycle.

Local Open Scope string_scope.
Local Open Scope js_scope.

(** The three fields: [this.api], [this.readOnly], [this.blockIndex]. *)
Record config := mkConfig { cfg_api : api; cfg_readOnly : jsval; cfg_blockIndex : Z }.

Definition config_of (w : world) : config := mkConfig (w_api w) (w_readOnly w) (w_blockIndex w).

Definition with_config (k : config) (w : world) : world :=
  mkWorld (w_dom w) (w_document w) (cfg_api k) (cfg_readOnly k) (cfg_blockIndex k)
          (w_CSS w) (w_nodes w) (w_data w) (w_listeners w).

(** The state of an outcome mapped by [f], the result or exception kept. *)
Definition map_state {S A} (f : S -> S) (o : outcome S A) : outcome S A :=
  match o with Done a s => Done a (f s) | Threw e s => Threw e (f s) end.

(** [c] neither reads nor writes the three fields. *)
Definition indep {A} (c : M world A) : Prop :=
  forall k w, c (with_config k w) = map_state (with_config k) (c w).

(** The configuration the constructor stores for [api] and [readOnly]. *)
Definition stored_config (a : api) (ro : jsval) : config :=
  mkConfig a ro (api_currentBlockIndex a + 1).

Lemma with_config_id w : with_config (config_of w) w = w.
Proof. by destruct w. Qed.

Lemma with_config_twice k1 k2 w : with_config k2 (with_config k1 w) = with_config k2 w.
Proof. done. Qed.

Lemma config_of_with k w : config_of (with_config k w) = k.
Proof. by destruct k. Qed.

Lemma final_map_state {S A} (f : S -> S) (o : outcome S A) :
  final_state (map_state f o) = f (final_state o).
Proof. by destruct o. Qed.

#[export] Hint Rewrite with_config_id with_config_twice config_of_with @final_map_state : js_rw.

(** ** Rules of the calculus *)

Section Rules.

Lemma indep_ret {A} (a : A) : indep (mret a).
Proof. done. Qed.

Lemma indep_bind {A B} (c : M world A) (f : A -> M world B) :
  indep c -> (forall a, indep (f a)) -> indep (mbind c f).
Proof.
  intros Hc Hf k w. unfold mbind. rewrite Hc.
  destruct (c w) as [a w1|e w1]; simpl; [apply Hf|done].
Qed.

(** A read of the world whose continuation does not look at the three
    fields. *)
Lemma indep_mget_bind {B} (f : world -> M world B) :
  (forall k w0, f (with_config k w0) = f w0) -> (forall w0, indep (f w0)) ->
  indep (mbind mget f).
Proof. intros Hr Hf k w. unfold mbind, mget. by rewrite Hr, Hf. Qed.

(** A write of the world that leaves the three fields alone. *)
Lemma indep_mmodify (g : world -> world) :
  (forall k w, g (with_config k w) = with_config k (g w)) -> indep (mmodify g).
Proof. intros Hg k w. unfold mmodify. by rewrite Hg. Qed.

Lemma indep_readD {A} (f : dom -> A) : indep (readD f).
Proof. done. Qed.

Lemma indep_liftD {A} (c : M dom A) : indep (liftD c).
Proof. intros k w. unfold liftD. cbn [w_dom with_config]. by destruct (c (w_dom w)). Qed.

Lemma indep_deref {A} (o : option A) msg : indep (deref o msg).
Proof. by destruct o. Qed.

Lemma indep_get_data : indep get_data.
Proof. done. Qed.

Lemma indep_this_data : indep this_data.
Proof. apply indep_mget_bind; [done|]. intros w0. apply indep_deref. Qed.

Lemma indep_parent_of n : indep (parent_of n).
Proof. apply indep_bind; [apply indep_readD|intros; apply indep_deref]. Qed.

Lemma indep_foreach {A} (f : A -> M world unit) xs :
  (forall x, indep (f x)) -> indep (mforeach f xs).
Proof.
  intros Hf. induction xs as [|x xs IH]; simpl; [apply indep_ret|].
  apply indep_bind; [apply Hf|done].
Qed.

End Rules.

Create HintDb indep discriminated.
#[export] Hint Resolve indep_ret indep_readD indep_liftD indep_deref indep_get_data
  indep_this_data indep_parent_of : indep.

(** Splits a computation along its binds; the continuation of a read of
    the world is checked by conversion, a write by computation. *)
Ltac indep_step :=
  lazymatch goal with
  | |- indep (mbind mget _) =>
      apply indep_mget_bind; [intros ? ?; reflexivity|intros ?; cbv zeta]
  | |- indep (mbind _ _) => apply indep_bind; [|intros ?; cbv zeta]
  | |- indep (mmodify _) => apply indep_mmodify; intros ? ?; reflexivity
  | |- indep (if ?b then _ else _) => destruct b
  | |- indep (match ?o with Some _ => _ | None => _ end) => destruct o
  | |- indep (mforeach _ _) => apply indep_foreach; intros ?
  | |- indep _ => solve [eauto with indep]
  end.
Ltac indep_tac := repeat indep_step.

(** ** The methods *)

Section Methods.
Context `{HtmlSyntax}.

Lemma indep__make tag cls : indep (_make tag cls).
Proof. unfold _make. indep_tac. destruct cls; indep_tac. Qed.

Lemma indep__acceptTuneView : indep _acceptTuneView.
Proof. unfold _acceptTuneView, accept_one. indep_tac. Qed.

Lemma indep__toggleTune tune : indep (_toggleTune tune).
Proof. unfold _toggleTune, toggle_button. indep_tac; apply indep__acceptTuneView. Qed.

Lemma indep_set_data x : indep (set_data x).
Proof. unfold set_data. indep_tac. Qed.

#[local] Hint Resolve indep__make indep__acceptTuneView indep__toggleTune indep_set_data : indep.

Lemma indep_render : indep render.
Proof. unfold render. indep_tac. Qed.

Lemma indep_renderSettings : indep renderSettings.
Proof. unfold renderSettings, settings_button. indep_tac. Qed.

Lemma indep_save n : indep (save n).
Proof. unfold save. indep_tac. Qed.

Lemma indep_onPaste ev : indep (onPaste ev).
Proof. unfold onPaste. indep_tac. Qed.

Lemma indep_host_mount c : indep c -> indep (host_mount c).
Proof. intros Hc. unfold host_mount. indep_tac. Qed.

Lemma indep_dispatch_click n : indep (dispatch_click n).
Proof. unfold dispatch_click. indep_tac. Qed.

Lemma indep_run_event e : indep (run_event e).
Proof.
  destruct e; unfold run_event; indep_tac;
    auto using indep_host_mount, indep_render, indep_renderSettings, indep_save,
      indep_onPaste, indep_dispatch_click.
Qed.

End Methods.

(** ** Sessions *)

Section Sessions.
Context `{HtmlSyntax}.

(** A computation that neither reads nor writes the three fields keeps
    them. *)
Lemma indep_keeps_config {A} (c : M world A) w : indep c -> config_of (final_state (c w)) = config_of w.
Proof.
  intros Hc. assert (E := Hc (config_of w) w). rewrite with_config_id in E.
  by rewrite E, final_map_state, config_of_with.
Qed.

Lemma run_trace_config k w es : run_trace (with_config k w) es = with_config k (run_trace w es).
Proof.
  revert w. induction es as [|e es IH]; intros w; simpl; [done|].
  by rewrite indep_run_event, final_map_state, IH.
Qed.

Lemma run_trace_keeps_config w es : config_of (run_trace w es) = config_of w.
Proof.
  revert w. induction es as [|e es IH]; intros w; simpl; [done|].
  by rewrite IH, indep_keeps_config by apply indep_run_event.
Qed.

(** The constructor with another [readOnly] and another block index (the
    same style classes) is the constructor with the fields replaced. *)
Lemma construct_config data a a' ro ro' d doc :
  api_styles a' = api_styles a ->
  construct data a' ro' d doc = map_state (with_config (stored_config a' ro')) (construct data a ro d doc).
Proof.
  intros Hs. unfold construct.
  replace (pre_world d doc a' ro') with (with_config (stored_config a' ro') (pre_world d doc a ro))
    by (unfold pre_world, css_of; by rewrite Hs).
  apply indep_set_data.
Qed.

Lemma construct_stores_config data a ro d doc :
  config_of (final_state (construct data a ro d doc)) = stored_config a ro.
Proof. unfold construct. by rewrite indep_keeps_config by apply indep_set_data. Qed.

End Sessions.

(** C22: the read-only flag and the block index never influence the
    block.  For a block constructed with [readOnly] [ro] and an API [a],
    and the same block constructed with any other [ro'] and an API [a']
    with the same style classes, every sequence of host events leaves
    worlds that differ only in these fields, which keep the values the
    constructor stored, and the next event returns the same value or
    throws the same exception in both. *)
Theorem session_ignores_config `{HtmlSyntax} data a a' ro ro' d doc es e :
  api_styles a' = api_styles a ->
  let w := run_trace (final_state (construct data a ro d doc)) es in
  let w' := run_trace (final_state (construct data a' ro' d doc)) es in
  config_of w = stored_config a ro /\
  w' = with_config (stored_config a' ro') w /\
  run_event e w' = map_state (with_config (stored_config a' ro')) (run_event e w).
Proof.
  intros Hs w w'. subst w w'.
  rewrite run_trace_keeps_config, construct_stores_config.
  rewrite (construct_config data a a' ro ro' d doc Hs), final_map_state, run_trace_config.
  split; [done|]. split; [done|]. apply indep_run_event.
Qed.

(** The demo block in read-only mode at block index 42. *)
Definition demo_api_42 : api := mkApi 41 (api_styles demo_api).

Lemma session_ignores_config_witness :
  api_styles demo_api_42 = api_styles demo_api /\
  run_trace (final_state (construct demo_data demo_api_42 (JBool true) demo_dom demo_body)) demo_session =
  with_config (stored_config demo_api_42 (JBool true))
    (run_trace (final_state (construct demo_data demo_api (JBool false) demo_dom demo_body)) demo_session).
Proof.
  assert (Hs : api_styles demo_api_42 = api_styles demo_api) by reflexivity.
  split; [exact Hs|].
  exact (proj1 (proj2 (session_ignores_config demo_data demo_api demo_api_42 (JBool false) (JBool true)
                         demo_dom demo_body demo_session EvRender Hs))).
Defined.
