(* ===== verification/Objects.v ===== *)
(** * Objects: the data object as a shared JavaScript object

    [this._data] holds a reference to an object, and the code passes that
    reference around: the getter returns it, [save] returns it to the
    host ([return this._data], index.js line 155), and [_toggleTune] and
    [save] write into the object in place ([this.data[tune] = ...],
    [Object.assign(this.data, ...)], [this._data.frame = ...]), while
    the setter and the [pattern] branch of [onPaste] allocate a fresh
    object ([Object.assign({}, ...)]).  The world of [Block] keeps the
    value of the data object only; this file adds the object store.

    The store [ostate] maps locations to objects and holds the reference
    [this._data]; the methods are written on it line by line for the
    lines that touch the data object, the DOM work of a method being a
    parameter [dom] that leaves the store alone (the [Section] variable
    of [ObjectMethods]).  [objects_refine] is the refinement: with
    [dom] the DOM outcome of the world's method, the store's methods
    give the same outcomes, and the object [this._data] points to is the
    world's data object after the method; the object [save] returns is
    the value the world's [save] returns.  [save_returns_live_object]
    (C24) is the aliasing it shows: the object [save] hands to the host
    is the block's own data object, so a later click on a tune rewrites
    the object the host holds, while a later paste leaves it and gives
    the block a fresh one. *)

From S2P Require Import Prelude Markup Dom Block Data View Save Roundtrip.

Local Open Scope string_scope.
Local Open Scope js_scope.

(** ** The object store *)

Abbreviation loc := positive (only parsing).

Record ostate := mkOState {
  o_objs : gmap loc jsobj;       (** the objects allocated *)
  o_next : loc;                  (** the next free location *)
  o_data : option loc            (** [this._data]; [None] is [undefined] *)
}.

(** The value [this.data] refers to. *)
Definition oval (s : ostate) : option jsobj := o_data s ≫= fun l => o_objs s !! l.

(** Allocated locations are below [o_next], and [this._data] is one. *)
Definition owf (s : ostate) : Prop :=
  (forall l, is_Some (o_objs s !! l) -> (l < o_next s)%positive) /\
  (forall l, o_data s = Some l -> is_Some (o_objs s !! l)).

(** An object literal or [Object.assign({}, ...)]: a fresh object. *)
Definition oalloc (o : jsobj) : M ostate loc :=
  fun s => Done (o_next s) (mkOState (<[o_next s := o]> (o_objs s)) (Pos.succ (o_next s)) (o_data s)).

Definition oread (l : loc) : M ostate jsobj :=
  fun s => match o_objs s !! l with
           | Some o => Done o s
           | None => Threw (TypeError "Cannot read properties of undefined") s
           end.

(** A write into the object at [l], seen by every holder of [l]. *)
Definition owrite (l : loc) (o : jsobj) : M ostate unit :=
  mmodify (fun s => mkOState (<[l := o]> (o_objs s)) (o_next s) (o_data s)).

(** [this._data = r]. *)
Definition set_ref (l : loc) : M ostate unit :=
  mmodify (fun s => mkOState (o_objs s) (o_next s) (Some l)).

(** [this.data]: the getter returns the reference. *)
Definition get_ref : M ostate (option loc) := fun s => Done (o_data s) s.

(** [this.data] where a property of it is then read or written. *)
Definition this_ref : M ostate loc :=
  r <- get_ref ;;
  match r with Some l => mret l | None => mthrow (TypeError "Cannot read properties of undefined") end.

(** [Object.assign({}, this.data, data)]. *)
Definition assign_fresh (data : jsobj) : M ostate loc :=
  r <- get_ref ;;
  cur <- match r with Some l => oread l | None => mret ∅ end ;;
  oalloc (assign (assign ∅ cur) data).

(** ** The methods on the store *)

Section ObjectMethods.
(** The DOM work of the method after its writes of the data object. *)
Variable dom : M ostate unit.

(** [set data(data)] (index.js lines 217-223). *)
Definition set_data_obj (data : jsobj) : M ostate unit :=
  l <- assign_fresh data ;; set_ref l ;; dom.

(** [onPaste] (index.js lines 182-201). *)
Definition onPaste_obj (event : paste_event) : M ostate unit :=
  if String.eqb (pe_type event) "tag" then set_data_obj {["frame" := pe_data event]}
  else if String.eqb (pe_type event) "pattern" then
    set_data_obj {["frame" := pe_data event]} ;;
    l <- assign_fresh {["frame" := pe_data event]} ;; set_ref l
  else mret tt.

(** [_toggleTune] (index.js lines 297-308): two writes into the data
    object, then the buttons and [_acceptTuneView]. *)
Definition toggleTune_obj (tune : string) : M ostate unit :=
  l <- this_ref ;; o <- oread l ;;
  owrite l (<[tune := JBool (negb (truthy (prop o tune)))]> o) ;;
  l <- this_ref ;; o <- oread l ;;
  owrite l (<["alignment" := JStr tune]> o) ;;
  dom.

End ObjectMethods.

(** [save] (index.js lines 143-156), given what the DOM answers: no
    iframe ([None]), an iframe without parent ([Some None]), or the
    [innerHTML] of the iframe's parent ([Some (Some html)]). *)
Definition save_obj (found : option (option string)) : M ostate (option loc) :=
  match found with
  | None => get_ref
  | Some None => mthrow (TypeError "Cannot set properties of null (setting 'innerHTML')")
  | Some (Some html) =>
      l <- this_ref ;; o <- oread l ;;
      owrite l (assign o {["frame" := JStr html]}) ;;
      l <- this_ref ;; o <- oread l ;;
      owrite l (<["frame" := JStr html]> o) ;;
      get_ref
  end.

(** The DOM part of a world method seen from the store: it returns or
    throws as the world's method did, and leaves the store alone. *)
Definition dom_like {A} (o : outcome world A) : M ostate unit :=
  match o with Done _ _ => mret tt | Threw e _ => mthrow e end.

Section SaveReads.
Context `{HtmlSyntax}.

(** What [save] reads from the DOM before it writes the data object. *)
Definition save_reads (n : nid) (w : world) : option (option string) :=
  match query_selector n "iframe" (w_dom w) with
  | None => None
  | Some i => Some (option_map (fun p => inner_html p (w_dom w)) (parent_element i (w_dom w)))
  end.

End SaveReads.

(** The refinement relation between an outcome on the store and an
    outcome on the world: both return, or both throw the same exception,
    the store is well formed, and [this._data] refers to the world's data
    object; [R] relates the results. *)
Definition orefines {A B} (R : A -> ostate -> B -> Prop) (o1 : outcome ostate A) (o2 : outcome world B) : Prop :=
  match o1, o2 with
  | Done r s, Done v w => owf s /\ oval s = w_data w /\ R r s v
  | Threw e1 s, Threw e2 w => e1 = e2 /\ owf s /\ oval s = w_data w
  | _, _ => False
  end.

(** ** The store's primitives *)

Section Store.

Lemma owf_alloc_ref s o :
  owf s -> owf (mkOState (<[o_next s := o]> (o_objs s)) (Pos.succ (o_next s)) (Some (o_next s))).
Proof.
  intros [Hb _]. split; simpl.
  - intros l. rewrite lookup_insert_is_Some'. intros [<-|Hl]; [lia|]. specialize (Hb l Hl). lia.
  - intros l [= <-]. by rewrite lookup_insert_eq.
Qed.

Lemma owf_write s l o : owf s -> is_Some (o_objs s !! l) -> owf (mkOState (<[l := o]> (o_objs s)) (o_next s) (o_data s)).
Proof.
  intros [Hb Hd] Hl. split; simpl.
  - intros l'. rewrite lookup_insert_is_Some'. intros [<-|Hl']; auto.
  - intros l' Hl'. rewrite lookup_insert_is_Some'. auto.
Qed.

Lemma oval_some s l : owf s -> o_data s = Some l -> exists o, o_objs s !! l = Some o /\ oval s = Some o.
Proof.
  intros [_ Hd] Hl. destruct (Hd l Hl) as [o Ho]. exists o. unfold oval. by rewrite Hl.
Qed.

Lemma oval_some_inv s d : oval s = Some d -> exists l, o_data s = Some l /\ o_objs s !! l = Some d.
Proof. unfold oval. destruct (o_data s) as [l|]; [|done]. simpl. eauto. Qed.

Lemma oval_none s : o_data s = None -> oval s = None.
Proof. unfold oval. by intros ->. Qed.

(** [Object.assign({}, this.data, data)] allocates the merge. *)
Lemma assign_fresh_run x s :
  owf s -> assign_fresh x s =
  Done (o_next s) (mkOState (<[o_next s := assign (default ∅ (oval s)) x]> (o_objs s)) (Pos.succ (o_next s)) (o_data s)).
Proof.
  intros Hw. unfold assign_fresh, get_ref, mbind.
  destruct (o_data s) as [l|] eqn:Hl.
  - destruct (oval_some s l Hw Hl) as (o & Ho & Hv). unfold oread. rewrite Ho, Hv. cbv beta iota. unfold oalloc. by rewrite assign_empty_l, Hl.
  - rewrite oval_none by done. destruct s; simpl in *; subst. unfold oalloc. cbn [o_next o_objs o_data]. by rewrite (assign_empty_l ∅).
Qed.

(** The store after [this._data = Object.assign({}, this.data, x)]. *)
Definition fresh_state (x : jsobj) (s : ostate) : ostate :=
  mkOState (<[o_next s := assign (default ∅ (oval s)) x]> (o_objs s)) (Pos.succ (o_next s)) (Some (o_next s)).

Lemma fresh_state_run {B} x s (k : M ostate B) :
  owf s -> (l <- assign_fresh x ;; set_ref l ;; k) s = k (fresh_state x s).
Proof. intros Hw. unfold mbind at 1. by rewrite assign_fresh_run. Qed.

Lemma fresh_ref_run x s : owf s -> (l <- assign_fresh x ;; set_ref l) s = Done tt (fresh_state x s).
Proof. intros Hw. unfold mbind at 1. by rewrite assign_fresh_run. Qed.

Lemma set_data_obj_run dom x s : owf s -> set_data_obj dom x s = dom (fresh_state x s).
Proof. apply fresh_state_run. Qed.

Lemma fresh_state_wf x s : owf s -> owf (fresh_state x s).
Proof. apply owf_alloc_ref. Qed.

Lemma oval_fresh_state x s : oval (fresh_state x s) = Some (assign (default ∅ (oval s)) x).
Proof. unfold oval. simpl. by rewrite lookup_insert_eq. Qed.

(** [l <- this.data; o <- read l; write l (f o)]: a write into the
    object [this._data] refers to, in place. *)
Lemma update_data_run (f : jsobj -> jsobj) {B} (k : M ostate B) s l o :
  o_data s = Some l -> o_objs s !! l = Some o ->
  (l <- this_ref ;; o <- oread l ;; owrite l (f o) ;; k) s =
  k (mkOState (<[l := f o]> (o_objs s)) (o_next s) (o_data s)).
Proof.
  intros Hl Ho. destruct s as [os on od]; simpl in *; subst od.
  unfold this_ref, get_ref, oread, owrite, mmodify, mbind, mret. cbn. by rewrite Ho.
Qed.

(** [save] with the parent's [innerHTML] at hand: two writes into the
    data object in place, and the reference returned. *)
Lemma save_obj_run s l d html :
  o_data s = Some l -> o_objs s !! l = Some d ->
  save_obj (Some (Some html)) s =
  Done (Some l) (mkOState (<[l := <["frame" := JStr html]> d]> (o_objs s)) (o_next s) (o_data s)).
Proof.
  intros Hl Hd. cbn [save_obj].
  rewrite (update_data_run (fun o => assign o {["frame" := JStr html]}) _ s l d) by done.
  rewrite (update_data_run (fun o => <["frame" := JStr html]> o) _ _ l (assign d {["frame" := JStr html]}))
    by (cbn [o_objs o_data]; by rewrite ?Hl, ?lookup_insert_eq).
  cbn [get_ref o_data o_objs o_next]. by rewrite assign_singleton_insert, !insert_insert_eq, Hl.
Qed.

(** The fresh object of the setter is at a new location: the objects
    already allocated are unchanged, and [this._data] no longer refers to
    any of them. *)
Lemma fresh_state_old x s l :
  owf s -> is_Some (o_objs s !! l) ->
  o_objs (fresh_state x s) !! l = o_objs s !! l /\ o_data (fresh_state x s) <> Some l.
Proof.
  intros [Hb _] Hl. specialize (Hb l Hl). simpl. split.
  - apply lookup_insert_ne. lia.
  - intros [= E]. lia.
Qed.

(** [_toggleTune]'s two writes go into the object [this._data] refers
    to, in place. *)
Lemma toggle_obj_run dom T s l d :
  o_data s = Some l -> o_objs s !! l = Some d ->
  toggleTune_obj dom T s =
  dom (mkOState (<[l := <["alignment" := JStr T]> (<[T := JBool (negb (truthy (prop d T)))]> d)]> (o_objs s))
                (o_next s) (o_data s)).
Proof.
  intros Hl Hd. unfold toggleTune_obj.
  rewrite (update_data_run (fun o => <[T := JBool (negb (truthy (prop o T)))]> o) _ s l d) by done.
  rewrite (update_data_run (fun o => <["alignment" := JStr T]> o) _ _ l
             (<[T := JBool (negb (truthy (prop d T)))]> d)) by (cbn [o_objs o_data]; by rewrite ?Hl, ?lookup_insert_eq).
  cbn [o_objs o_next o_data]. by rewrite insert_insert_eq.
Qed.

End Store.

(** ** The data object of the world after each method *)

(** [c] leaves [this._data] as it was, whether it returns or throws. *)
Definition data_kept {A} (c : M world A) : Prop :=
  forall w, w_data (final_state (c w)) = w_data w.

Section DataKept.
Context `{HtmlSyntax}.

Lemma data_kept_ret {A} (a : A) : data_kept (mret a).
Proof. done. Qed.

Lemma data_kept_bind {A B} (c : M world A) (f : A -> M world B) :
  data_kept c -> (forall a, data_kept (f a)) -> data_kept (mbind c f).
Proof.
  intros Hc Hf w. unfold mbind. specialize (Hc w).
  destruct (c w) as [a w1|e w1]; simpl in *; [by rewrite Hf|done].
Qed.

Lemma data_kept_mget_bind {B} (f : world -> M world B) :
  (forall w0, data_kept (f w0)) -> data_kept (mbind mget f).
Proof. intros Hf w. apply Hf. Qed.

Lemma data_kept_readD {A} (f : dom -> A) : data_kept (readD f).
Proof. done. Qed.

Lemma data_kept_liftD {A} (c : M dom A) : data_kept (liftD c).
Proof. intros w. unfold liftD. by destruct (c (w_dom w)). Qed.

Lemma data_kept_deref {A} (o : option A) msg : data_kept (deref o msg).
Proof. by destruct o. Qed.

Lemma data_kept_this_data : data_kept this_data.
Proof. apply data_kept_mget_bind. intros. apply data_kept_deref. Qed.

Lemma data_kept_parent_of n : data_kept (parent_of n).
Proof. apply data_kept_bind; [apply data_kept_readD|intros; apply data_kept_deref]. Qed.

Lemma data_kept_foreach {A} (f : A -> M world unit) xs :
  (forall x, data_kept (f x)) -> data_kept (mforeach f xs).
Proof.
  intros Hf. induction xs as [|x xs IH]; simpl; [apply data_kept_ret|].
  by apply data_kept_bind.
Qed.

(** The data object after [c ;; k] is the one after [c] when [k] keeps it. *)
Lemma data_after_bind {A B} (c : M world A) (f : A -> M world B) w :
  (forall a, data_kept (f a)) -> w_data (final_state (mbind c f w)) = w_data (final_state (c w)).
Proof. intros Hf. unfold mbind. destruct (c w); simpl; [apply Hf|done]. Qed.

Lemma this_data_bind {B} w d (f : jsobj -> M world B) :
  w_data w = Some d -> mbind this_data f w = f d w.
Proof. intros Hd. unfold this_data, mbind, mget, deref. by rewrite Hd. Qed.

Lemma this_data_bind_none {B} w (f : jsobj -> M world B) :
  w_data w = None -> mbind this_data f w = Threw (TypeError "Cannot read properties of undefined") w.
Proof. intros Hd. unfold this_data, mbind, mget, deref. by rewrite Hd. Qed.

Lemma mmodify_bind {B} g (f : unit -> M world B) w : mbind (mmodify g) f w = f tt (g w).
Proof. done. Qed.

End DataKept.

Create HintDb data_kept discriminated.
#[export] Hint Resolve data_kept_ret data_kept_readD data_kept_liftD data_kept_deref
  data_kept_this_data data_kept_parent_of : data_kept.

Ltac data_kept_tac :=
  repeat lazymatch goal with
  | |- data_kept (mbind mget _) => apply data_kept_mget_bind; intros ?; cbv zeta
  | |- data_kept (mbind _ _) => apply data_kept_bind; [|intros ?; cbv zeta]
  | |- data_kept (if ?b then _ else _) => destruct b
  | |- data_kept (mforeach _ _) => apply data_kept_foreach; intros ?
  | |- data_kept _ => solve [eauto with data_kept]
  end.

Section WorldData.
Context `{HtmlSyntax}.

Lemma data_kept__acceptTuneView : data_kept _acceptTuneView.
Proof. unfold _acceptTuneView, accept_one. data_kept_tac. Qed.

Lemma data_kept_toggle_button T t : data_kept (toggle_button T t).
Proof. unfold toggle_button. data_kept_tac. Qed.

(** [_toggleTune T] writes the flag [T] and [alignment], then only reads
    the data. *)
Lemma toggle_data T w :
  w_data (final_state (_toggleTune T w)) =
  (fun d => <["alignment" := JStr T]> (<[T := JBool (negb (truthy (prop d T)))]> d)) <$> w_data w.
Proof.
  unfold _toggleTune. destruct (w_data w) as [d|] eqn:Hd; [|by rewrite this_data_bind_none].
  rewrite (this_data_bind w d), mmodify_bind by done.
  rewrite (this_data_bind _ (<[T := _]> d)), mmodify_bind by done.
  rewrite data_after_bind by (intros; apply data_kept__acceptTuneView).
  rewrite (data_kept_foreach _ _ (data_kept_toggle_button T)). done.
Qed.

End WorldData.

(** ** Refinement *)

Section Refine.
Context `{HtmlSyntax}.

Lemma orefines_dom {B} (o : outcome world B) s1 :
  owf s1 -> oval s1 = w_data (final_state o) -> orefines (fun _ _ _ => True) (dom_like o s1) o.
Proof. by destruct o. Qed.

Lemma refine_set_data x w s :
  owf s -> oval s = w_data w ->
  orefines (fun _ _ _ => True) (set_data_obj (dom_like (set_data x w)) x s) (set_data x w).
Proof.
  intros Hw Hv. rewrite set_data_obj_run by done.
  apply orefines_dom; [by apply fresh_state_wf|]. by rewrite oval_fresh_state, set_data_final, Hv.
Qed.

Lemma refine_onPaste ev w s :
  owf s -> oval s = w_data w ->
  orefines (fun _ _ _ => True) (onPaste_obj (dom_like (set_data {["frame" := pe_data ev]} w)) ev s) (onPaste ev w).
Proof.
  intros Hw Hv. unfold onPaste, onPaste_obj.
  destruct (String.eqb _ "tag"); [by apply refine_set_data|].
  destruct (String.eqb _ "pattern"); [|done].
  unfold mbind at 1 3. rewrite set_data_obj_run by done.
  destruct (set_data {["frame" := pe_data ev]} w) as [[] w1|e w1] eqn:E; cbn [dom_like mret mthrow].
  - assert (Hd := set_data_final {["frame" := pe_data ev]} w). rewrite E in Hd. simpl in Hd.
    rewrite fresh_ref_run by (by apply fresh_state_wf). cbn [mbind get_data mmodify]. rewrite Hd.
    split_and!; [by apply fresh_state_wf, fresh_state_wf| |done]. simpl (w_data _).
    rewrite !oval_fresh_state. cbn [default]. by rewrite assign_empty_l, Hv.
  - simpl. assert (Hd := set_data_final {["frame" := pe_data ev]} w). rewrite E in Hd. simpl in Hd.
    split_and!; [done|by apply fresh_state_wf|]. by rewrite oval_fresh_state, Hd, Hv.
Qed.

Lemma refine_toggle T w s :
  owf s -> oval s = w_data w ->
  orefines (fun _ _ _ => True) (toggleTune_obj (dom_like (_toggleTune T w)) T s) (_toggleTune T w).
Proof.
  intros Hw Hv. destruct (o_data s) as [l|] eqn:Hl.
  - destruct (oval_some s l Hw Hl) as (d & Hd & Hs). rewrite (toggle_obj_run _ T s l d) by done.
    apply orefines_dom; [apply owf_write; [done|by eexists]|].
    rewrite toggle_data, <-Hv, Hs. unfold oval. simpl. rewrite Hl. simpl. by rewrite lookup_insert_eq.
  - assert (Hn : w_data w = None) by (by rewrite <-Hv, oval_none).
    unfold _toggleTune. rewrite this_data_bind_none by done.
    unfold toggleTune_obj, this_ref, get_ref, mbind at 1 2. rewrite Hl. simpl.
    split_and!; [done|done|by rewrite oval_none].
Qed.

Lemma refine_save n w s :
  owf s -> oval s = w_data w ->
  orefines (fun r s' v => (r ≫= fun l => o_objs s' !! l) = v) (save_obj (save_reads n w) s) (save n w).
Proof.
  intros Hw Hv. unfold save_reads.
  destruct (query_selector n "iframe" (w_dom w)) as [i|] eqn:Hq.
  2:{ unfold save, readD, mbind at 1. rewrite Hq. simpl. split_and!; done. }
  destruct (parent_element i (w_dom w)) as [p|] eqn:Hp.
  2:{ unfold save, parent_of, readD, deref, mbind. rewrite Hq. cbv beta iota. rewrite Hp.
       cbv beta iota. cbn [save_obj option_map mthrow orefines]. split_and!; done. }
  destruct (w_data w) as [d|] eqn:Hd.
  - destruct (oval_some_inv s d Hv) as (l & Hl & Hld).
    rewrite (Roundtrip.save_found w d n i p) by done. cbn [option_map].
    rewrite (save_obj_run s l d) by done. cbn [orefines].
    split_and!; [apply owf_write; [done|by eexists]| |].
    + unfold oval. simpl. rewrite Hl. simpl. by rewrite lookup_insert_eq.
    + rewrite Hl. simpl. by rewrite lookup_insert_eq.
  - assert (Hn : o_data s = None) by (destruct (o_data s) eqn:E; [|done];
      destruct (oval_some s _ Hw E) as (? & _ & Hs); congruence).
    cbn [save_obj option_map]. unfold this_ref, get_ref. unfold mbind at 1 2 3 4 5 6 7. rewrite Hn.
    cbv beta iota. unfold save, parent_of, readD, deref, this_data, mget, mbind, mret. rewrite Hq.
    cbv beta iota. rewrite Hp. cbv beta iota. rewrite Hd. cbv beta iota. unfold mthrow.
    split_and!; [done|done|by rewrite oval_none].
Qed.

End Refine.

(** The store refines the world.  From a well-formed store whose
    [this._data] refers to the world's data object, the setter, [onPaste],
    [_toggleTune] and [save] written on the store, with the DOM part
    taken from the world's run, return or throw as the world's methods
    do, keep the store well formed, and leave [this._data] referring to
    the world's data object; the object [save] returns is the data object
    the world's [save] returns. *)
Theorem objects_refine `{HtmlSyntax} w s :
  owf s -> oval s = w_data w ->
  (forall x, orefines (fun _ _ _ => True) (set_data_obj (dom_like (set_data x w)) x s) (set_data x w)) /\
  (forall ev, orefines (fun _ _ _ => True)
     (onPaste_obj (dom_like (set_data {["frame" := pe_data ev]} w)) ev s) (onPaste ev w)) /\
  (forall T, orefines (fun _ _ _ => True) (toggleTune_obj (dom_like (_toggleTune T w)) T s) (_toggleTune T w)) /\
  (forall n, orefines (fun r s' v => (r ≫= fun l => o_objs s' !! l) = v) (save_obj (save_reads n w) s) (save n w)).
Proof.
  intros Hw Hv. split_and!; intros;
    auto using refine_set_data, refine_onPaste, refine_toggle, refine_save.
Qed.

(** The store of the demo block: its data object at location 1. *)
Definition demo_store : ostate := mkOState {[1%positive := data_of demo_constructed]} 2%positive (Some 1%positive).

Lemma demo_store_wf : owf demo_store.
Proof.
  split; simpl.
  - intros l [o Ho]. apply lookup_singleton_Some in Ho as [<- _]. lia.
  - intros l [= <-]. by rewrite lookup_singleton_eq.
Qed.

Lemma objects_refine_witness :
  owf demo_store /\ oval demo_store = w_data demo_constructed /\
  orefines (fun _ _ _ => True) (toggleTune_obj (dom_like (_toggleTune "LeftAligned" demo_constructed)) "LeftAligned" demo_store)
    (_toggleTune "LeftAligned" demo_constructed).
Proof.
  assert (Hv : oval demo_store = w_data demo_constructed) by (vm_compute; reflexivity).
  split; [exact demo_store_wf|]. split; [exact Hv|].
  exact (proj1 (proj2 (proj2 (objects_refine demo_constructed demo_store demo_store_wf Hv))) "LeftAligned").
Defined.

(** A paste ([tag] or [pattern]) leaves the objects already allocated
    and makes [this._data] refer to a fresh one, whether the setter's DOM
    write returns or throws. *)
Lemma paste_obj_fresh (dom : M ostate unit) s l d1 p v :
  (forall s', final_state (dom s') = s') -> owf s -> o_objs s !! l = Some d1 ->
  p = "tag" \/ p = "pattern" ->
  o_objs (final_state (onPaste_obj dom (mkPaste p v) s)) !! l = Some d1 /\
  o_data (final_state (onPaste_obj dom (mkPaste p v) s)) <> Some l.
Proof.
  intros Hdom Hw Hl Hp.
  assert (Hold : forall s', o_objs s' !! l = Some d1 -> owf s' ->
    forall x, o_objs (fresh_state x s') !! l = Some d1 /\ o_data (fresh_state x s') <> Some l).
  { intros s' H1 H2 x. rewrite <-H1. apply fresh_state_old; [done|by eexists]. }
  unfold onPaste_obj. destruct Hp as [-> | ->]; cbn [pe_type pe_data String.eqb Ascii.eqb Bool.eqb andb].
  - rewrite set_data_obj_run, Hdom by done. by apply Hold.
  - set (x := {["frame" := v]} : jsobj). set (o := (set_data_obj dom x ;; _) s).
    assert (Ho : In (final_state o) [fresh_state x s; fresh_state x (fresh_state x s)]).
    { subst o. unfold mbind at 1. rewrite set_data_obj_run by done.
      assert (E := Hdom (fresh_state x s)).
      destruct (dom (fresh_state x s)) as [[] s2|e s2]; simpl in E; subst s2; [right; left|by left].
      cbv beta. by rewrite fresh_ref_run by (by apply fresh_state_wf). }
    destruct Ho as [<- | [<- | []]]; [by apply Hold|].
    apply Hold; [apply Hold|apply fresh_state_wf]; done.
Qed.

(** C24: [save] hands the host the block's own data object.  From a
    store whose [this._data] refers to the object [d] at [l], [save]
    writes the [frame] into that object in place and returns [l] itself;
    a later click on the tune [T] then rewrites the object at [l], which
    the host holds, while a later paste ([tag] or [pattern]) leaves the
    object at [l] as it was and makes [this._data] refer to a fresh
    object, whether the setter's DOM write returns or throws. *)
Theorem save_returns_live_object (dom : M ostate unit) s l d html T p v :
  (forall s', final_state (dom s') = s') -> owf s -> o_data s = Some l -> o_objs s !! l = Some d ->
  p = "tag" \/ p = "pattern" ->
  let d1 := <["frame" := JStr html]> d in
  exists s1, save_obj (Some (Some html)) s = Done (Some l) s1 /\ o_objs s1 !! l = Some d1 /\
    o_objs (final_state (toggleTune_obj dom T s1)) !! l =
      Some (<["alignment" := JStr T]> (<[T := JBool (negb (truthy (prop d1 T)))]> d1)) /\
    o_objs (final_state (onPaste_obj dom (mkPaste p v) s1)) !! l = Some d1 /\
    o_data (final_state (onPaste_obj dom (mkPaste p v) s1)) <> Some l.
Proof.
  intros Hdom Hw Hl Hd Hp d1. rewrite (save_obj_run s l d html Hl Hd).
  set (s1 := mkOState (<[l := d1]> (o_objs s)) (o_next s) (o_data s)).
  assert (Hw1 : owf s1) by (apply owf_write; [done|by eexists]).
  assert (Hl1 : o_objs s1 !! l = Some d1) by (simpl; by rewrite lookup_insert_eq).
  destruct (paste_obj_fresh dom s1 l d1 p v Hdom Hw1 Hl1 Hp) as [P1 P2].
  exists s1. split_and!; [done|done| |done|done].
  rewrite (toggle_obj_run dom T s1 l d1), Hdom by done. simpl. by rewrite lookup_insert_eq.
Qed.

(** C24 on the demo store: [save] with the frame read back, then a click
    on [Centered], or a [tag] paste. *)
Definition demo_saved_html : string := "<iframe src='https://example.org/v'></iframe>".

Lemma save_returns_live_object_witness :
  (forall s', final_state ((mret tt : M ostate unit) s') = s') /\ owf demo_store /\
  o_data demo_store = Some 1%positive /\ o_objs demo_store !! 1%positive = Some (data_of demo_constructed) /\
  let d1 := <["frame" := JStr demo_saved_html]> (data_of demo_constructed) in
  exists s1, save_obj (Some (Some demo_saved_html)) demo_store = Done (Some 1%positive) s1 /\
    o_objs s1 !! 1%positive = Some d1 /\
    o_objs (final_state (toggleTune_obj (mret tt) "Centered" s1)) !! 1%positive =
      Some (<["alignment" := JStr "Centered"]> (<["Centered" := JBool (negb (truthy (prop d1 "Centered")))]> d1)) /\
    o_objs (final_state (onPaste_obj (mret tt) (mkPaste "tag" (JStr "<iframe></iframe>")) s1)) !! 1%positive = Some d1 /\
    o_data (final_state (onPaste_obj (mret tt) (mkPaste "tag" (JStr "<iframe></iframe>")) s1)) <> Some 1%positive.
Proof.
  assert (Hd : forall s', final_state ((mret tt : M ostate unit) s') = s') by done.
  assert (Hl : o_data demo_store = Some 1%positive) by reflexivity.
  assert (Ho : o_objs demo_store !! 1%positive = Some (data_of demo_constructed)) by (vm_compute; reflexivity).
  split; [exact Hd|]. split; [exact demo_store_wf|]. split; [exact Hl|]. split; [exact Ho|].
  exact (save_returns_live_object (mret tt) demo_store 1%positive _ demo_saved_html "Centered" "tag"
           (JStr "<iframe></iframe>") Hd demo_store_wf Hl Ho (or_introl eq_refl)).
Defined.
