(* ===== verification/Panel.v ===== *)
(** * Panel: the settings buttons after a click, and the ids they rely on

    [_toggleTune] (index.js lines 297-308) looks the three buttons up
    with [document.getElementById(tunes.name)], adds the active style
    class to the one named by the tune and removes it from the others.
    [toggle_tune_buttons] (C25): whatever nodes the three lookups find,
    after [_toggleTune T] the node found for a tune name carries the
    active class exactly when the name is [T], and the lookups still find
    the same nodes.  The lookup is by a global id equal to the tune name,
    so the node found need not be a button of the panel:
    [toggle_tune_id_collision] (C26) shows that when another element
    with the clicked tune's id comes first in the page, [_toggleTune]
    puts the active class on it and leaves the clicked button's classes
    as they were; the witness is a block whose saved iframe carries
    [id='Centered'], mounted before the panel. *)

From S2P Require Import Prelude Markup Dom Block Data View Save Settings Lifecycle.

Local Open Scope string_scope.
Local Open Scope js_scope.

(** ** [getElementById] finds a node with that id *)

Section Find.

Lemma find_kids_sound (rec : nid -> option nid) p ks d n :
  (forall c m, rec c = Some m -> exists e, elem_of m d = Some e /\ p e = true) ->
  find_kids rec p ks d = Some n -> exists e, elem_of n d = Some e /\ p e = true.
Proof.
  intros Hrec. induction ks as [|[c|t] ks IH]; simpl; [done| |done].
  destruct (elem_of c d) as [e|] eqn:Ec; [|done].
  destruct (p e) eqn:Hp; [intros [= <-]; by exists e|].
  destruct (rec c) as [r|] eqn:Er; [intros [= <-]; by eapply Hrec|done].
Qed.

Lemma find_desc_sound f p r d n :
  find_desc f p r d = Some n -> exists e, elem_of n d = Some e /\ p e = true.
Proof.
  revert r n. induction f as [|f IH]; intros r n; simpl; [done|].
  apply find_kids_sound. intros c m. apply IH.
Qed.

Lemma get_element_by_id_sound doc id d n :
  get_element_by_id doc id d = Some n -> exists e, elem_of n d = Some e /\ attr_lookup "id" (e_attrs e) = Some id.
Proof.
  intros (e & He & Hp)%find_desc_sound. exists e. split; [done|].
  destruct (attr_lookup "id" (e_attrs e)); [|done]. by apply String.eqb_eq in Hp as ->.
Qed.

(** Two names never find the same node. *)
Lemma get_element_by_id_inj doc id1 id2 d n :
  get_element_by_id doc id1 d = Some n -> get_element_by_id doc id2 d = Some n -> id1 = id2.
Proof.
  intros (e1 & E1 & I1)%get_element_by_id_sound (e2 & E2 & I2)%get_element_by_id_sound. congruence.
Qed.

End Find.

(** ** The button loop of [_toggleTune] *)

(** The class list a button gets: the active class added to the button
    named by the tune, removed from the others. *)
Definition button_list (T active name : string) (l : list string) : list string :=
  if String.eqb name T then list_add [active] l else list_remove [active] l.

(** The DOM after the [forEach] over the buttons named [ts], [b] giving
    the node [getElementById] finds for a name. *)
Fixpoint buttons_dom (T active : string) (b : string -> nid) (ts : list string) (d : dom) : dom :=
  match ts with
  | [] => d
  | t :: ts' => buttons_dom T active b ts' (class_update (b t) (button_list T active t (class_list (b t) d)) d)
  end.

Lemma buttons_dom_edits T a b ts d : class_edits (fun _ => True) d (buttons_dom T a b ts d).
Proof.
  revert d. induction ts as [|t ts IH]; intros d; simpl; [apply rtc_refl|].
  eapply class_edits_trans; [apply (class_edits_once _ (b t)); done|apply IH].
Qed.

(** Nodes no name of [ts] finds are untouched. *)
Lemma buttons_dom_other T a b ts d m :
  (forall t, In t ts -> b t <> m) -> elem_of m (buttons_dom T a b ts d) = elem_of m d.
Proof.
  revert d. induction ts as [|t ts IH]; intros d Hm; simpl; [done|].
  rewrite IH by (intros; apply Hm; by right). apply class_update_other. apply not_eq_sym, Hm. by left.
Qed.

Lemma button_list_spec T a t l :
  valid_token a = true -> NoDup l -> Forall (fun c => valid_token c = true) l ->
  NoDup (button_list T a t l) /\ Forall (fun c => valid_token c = true) (button_list T a t l) /\
  (In a (button_list T a t l) <-> t = T).
Proof.
  intros Ha Hnd Hv. unfold button_list. destruct (String.eqb t T) eqn:E.
  - apply String.eqb_eq in E. destruct (list_add_spec [a] l Hnd) as [N I].
    split_and!; [done|apply list_add_valid; [by constructor|done]|]. rewrite I. simpl. tauto.
  - apply String.eqb_neq in E. destruct (list_remove_spec [a] l Hnd) as [N I].
    split_and!; [done|by apply list_remove_valid|]. rewrite I. simpl. tauto.
Qed.

(** After the loop, the node a name finds carries the active class
    exactly when the name is the tune's. *)
Lemma buttons_dom_members T a b ts d t :
  valid_token a = true -> NoDup ts -> (forall t1 t2, In t1 ts -> In t2 ts -> b t1 = b t2 -> t1 = t2) ->
  (forall t, In t ts -> is_Some (elem_of (b t) d)) -> In t ts ->
  (In a (class_list (b t) (buttons_dom T a b ts d)) <-> t = T).
Proof.
  intros Ha. revert d. induction ts as [|t0 ts IH]; intros d Hnd Hinj Hex Ht; [done|].
  apply NoDup_cons in Hnd as [Hn0 Hnd]. simpl.
  destruct (decide (t = t0)) as [->|Hne].
  - assert (Ho : forall t', In t' ts -> b t' <> b t0).
    { intros t' Ht' E. apply Hn0, list_elem_of_In. rewrite (Hinj t' t0) in Ht'; [done|by right|by left|done]. }
    rewrite (class_list_same _ _ _ (buttons_dom_other _ _ _ _ _ _ Ho)).
    destruct (Hex t0 (or_introl eq_refl)) as [e He]. destruct (class_list_spec (b t0) d) as [N V].
    destruct (button_list_spec T a t0 _ Ha N V) as (N' & V' & I').
    by rewrite (class_list_update_same _ _ _ e He N' V').
  - destruct Ht as [->|Ht]; [done|]. apply IH; [done| |intros t' Ht'; apply class_update_exists, Hex; by right|done].
    intros t1 t2 H1 H2. apply Hinj; by right.
Qed.

Section Buttons.
Context `{HtmlSyntax}.
Variables (T : string) (w0 : world) (b : string -> nid).
Hypothesis Hc : check_tokens [settingsButtonActive (w_CSS w0)] = None.
Hypothesis Hb : forall t, In t tune_names -> get_element_by_id (w_document w0) t (w_dom w0) = Some (b t).

(** The [forEach] of [_toggleTune] on a DOM whose ids are those of
    [w0]: one class update per button, in the order of [this.settings]. *)
Lemma toggle_buttons_exact ts d :
  class_edits (fun _ => True) (w_dom w0) d -> (forall t, In t ts -> In (tune_name t) tune_names) ->
  mforeach (toggle_button T) ts (set_dom d w0) =
  Done tt (set_dom (buttons_dom T (settingsButtonActive (w_CSS w0)) b (map tune_name ts) d) w0).
Proof.
  revert d. induction ts as [|t ts IH]; intros d Hd Hts; simpl; [done|].
  unfold mbind at 1, toggle_button, mbind at 1, mget, deref. cbn [w_dom w_document w_CSS set_dom].
  rewrite (same_shape_get_element_by_id _ _ _ _ (class_edits_shape _ _ _ Hd)), Hb by (apply Hts; by left).
  unfold mbind, mret, liftD, class_add, class_remove, button_list. rewrite Hc.
  destruct (String.eqb (tune_name t) T); cbn [set_dom w_dom w_document w_CSS];
    (rewrite <-(set_dom_set_dom d); apply IH; [apply class_edits_step; done|intros; apply Hts; by right]).
Qed.

Lemma toggle_buttons_world :
  mforeach (toggle_button T) settings w0 =
  Done tt (set_dom (buttons_dom T (settingsButtonActive (w_CSS w0)) b tune_names (w_dom w0)) w0).
Proof.
  rewrite <-(set_dom_id w0) at 1. apply toggle_buttons_exact; [apply rtc_refl|].
  intros t Ht. by apply in_map.
Qed.

End Buttons.

Lemma tune_names_NoDup : NoDup tune_names.
Proof. apply (bool_decide_eq_true_1 _). vm_compute. reflexivity. Qed.

(** The class list of a node after the buttons loop and
    [_acceptTuneView]: the holder's classes other than the layout ones
    are kept, every other node is untouched by [_acceptTuneView]. *)
Lemma accept_dom_keeps a h D n c :
  is_Some (elem_of h D) -> ~ In c justify_classes ->
  (In c (class_list n (accept_dom a h D)) <-> In c (class_list n D)).
Proof.
  intros Hh Hc. destruct (decide (n = h)) as [->|Hne].
  - by apply (accept_dom_members a h D Hh).
  - rewrite (class_list_same _ _ _ (class_edits_other _ _ _ _ (accept_dom_edits a h D) (not_eq_sym Hne))). done.
Qed.

(** ** A click, when the three lookups find nodes [b t] *)

Section Click.
Context `{HtmlSyntax}.
Variables (w : world) (b : string -> nid).
Hypothesis Hb : forall t, In t tune_names -> get_element_by_id (w_document w) t (w_dom w) = Some (b t).

(** After the loop, the node found for [t] is active exactly when [t] is
    the clicked tune. *)
Lemma found_buttons_members T a t :
  valid_token a = true -> In t tune_names ->
  (In a (class_list (b t) (buttons_dom T a b tune_names (w_dom w))) <-> t = T).
Proof.
  intros Ha Ht. apply buttons_dom_members; [done|apply tune_names_NoDup| |intros t' Ht'|done].
  - intros t1 t2 H1 H2 E. apply (get_element_by_id_inj (w_document w) t1 t2 (w_dom w) (b t1)); [by apply Hb|].
    rewrite E. by apply Hb.
  - destruct (get_element_by_id_sound _ _ _ _ (Hb t' Ht')) as (e & E & _). by exists e.
Qed.

(** A node with the id [T] that the lookup of [T] does not find is found
    by no lookup, so the loop leaves it alone. *)
Lemma found_button_other T a n :
  get_attribute n "id" (w_dom w) = Some T -> b T <> n ->
  elem_of n (buttons_dom T a b tune_names (w_dom w)) = elem_of n (w_dom w).
Proof.
  intros Hid Hne. apply buttons_dom_other. intros t Ht E.
  destruct (decide (t = T)) as [->|HtT]; [done|].
  destruct (get_element_by_id_sound _ _ _ _ (Hb t Ht)) as (e & Ee & Ie).
  unfold get_attribute in Hid. rewrite <-E, Ee in Hid. congruence.
Qed.

(** [_toggleTune T] returns: the two writes of the data, the loop
    ([buttons_dom]) and [_acceptTuneView] on the holder. *)
Lemma toggle_tune_found_run d h T :
  w_data w = Some d -> nodes_holder (w_nodes w) = Some h ->
  valid_token (settingsButtonActive (w_CSS w)) = true ->
  ok (_toggleTune T) w (fun _ w' =>
    w_data w' = Some (<["alignment" := JStr T]> (<[T := JBool (negb (truthy (prop d T)))]> d)) /\
    w_document w' = w_document w /\
    w_dom w' = accept_dom (JStr T) h (buttons_dom T (settingsButtonActive (w_CSS w)) b tune_names (w_dom w))).
Proof.
  intros Hd Hh Ha. unfold _toggleTune.
  apply ok_bind. eapply ok_this_data; [done|]. apply ok_bind, ok_mmodify.
  apply ok_bind. eapply ok_this_data; [done|]. apply ok_bind, ok_mmodify.
  apply ok_bind. unfold ok at 1.
  match goal with |- context [mforeach _ _ ?w2] =>
    rewrite (toggle_buttons_world T w2 b (check_tokens_one _ Ha) Hb) end. cbn beta iota.
  unfold ok. rewrite (accept_tune_view_run _ (<["alignment" := JStr T]> (<[T := _]> d)) h) by done.
  by rewrite prop_insert_eq.
Qed.

End Click.

(** C25: whatever nodes [document.getElementById] finds for the three
    tune names (the buttons, when the panel is in the document), after
    [_toggleTune T] the data has [alignment] [T], the same lookups find
    the same nodes, and each of them carries the active style class
    exactly when its name is [T]: one node is active, the other two are
    not.  The style classes must be tokens [classList] accepts, and the
    active class none of the holder's layout classes. *)
Theorem toggle_tune_buttons `{HtmlSyntax} w d h T (b : string -> nid) :
  w_data w = Some d -> nodes_holder (w_nodes w) = Some h -> is_Some (elem_of h (w_dom w)) ->
  valid_token (settingsButtonActive (w_CSS w)) = true -> ~ In (settingsButtonActive (w_CSS w)) justify_classes ->
  (forall t, In t tune_names -> get_element_by_id (w_document w) t (w_dom w) = Some (b t)) ->
  ok (_toggleTune T) w (fun _ w' =>
    w_data w' = Some (<["alignment" := JStr T]> (<[T := JBool (negb (truthy (prop d T)))]> d)) /\
    forall t, In t tune_names ->
      get_element_by_id (w_document w') t (w_dom w') = Some (b t) /\
      (In (settingsButtonActive (w_CSS w)) (class_list (b t) (w_dom w')) <-> t = T)).
Proof.
  intros Hd Hh He Ha Hj Hb.
  eapply ok_mono; [|exact (toggle_tune_found_run w b Hb d h T Hd Hh Ha)]. intros _ w' (Hd' & Hdoc & ->).
  set (D3 := buttons_dom T _ b tune_names (w_dom w)).
  assert (HD3 : is_Some (elem_of h D3)) by (by apply (shape_exists _ _ (class_edits_shape _ _ _ (buttons_dom_edits _ _ _ _ _)))).
  assert (Hsh : same_shape (w_dom w) (accept_dom (JStr T) h D3)).
  { apply (class_edits_shape (fun _ => True)). eapply class_edits_trans; [apply buttons_dom_edits|].
    apply (class_edits_weaken (eq h)); [done|apply accept_dom_edits]. }
  split; [done|]. intros t Ht. rewrite Hdoc.
  split; [rewrite (same_shape_get_element_by_id _ _ _ _ Hsh); by apply Hb|].
  rewrite accept_dom_keeps by done. by apply found_buttons_members.
Qed.

(** C26: [_toggleTune] finds its buttons by a global id equal to the
    tune name, so an element of the page with that id that comes before
    the panel's button captures the click's class change.  Let [n] be
    the clicked button (it has the id [T], as [renderSettings] gives it)
    and let [getElementById(T)] find another node [b T] (for instance an
    iframe of a pasted frame with [id='Centered'], mounted before the
    panel).  Then [_toggleTune T] sets [alignment] to [T] and gives the
    active class to [b T], but leaves the button's classes as they were:
    a button that was not active stays inactive, whereas the spec says
    that after a click exactly the button of the new alignment bears
    the class. *)
Theorem toggle_tune_id_collision `{HtmlSyntax} w d h T n (b : string -> nid) :
  w_data w = Some d -> nodes_holder (w_nodes w) = Some h -> is_Some (elem_of h (w_dom w)) -> n <> h ->
  valid_token (settingsButtonActive (w_CSS w)) = true -> ~ In (settingsButtonActive (w_CSS w)) justify_classes ->
  In T tune_names ->
  (forall t, In t tune_names -> get_element_by_id (w_document w) t (w_dom w) = Some (b t)) ->
  get_attribute n "id" (w_dom w) = Some T -> b T <> n ->
  ok (_toggleTune T) w (fun _ w' =>
    prop (data_of w') "alignment" = JStr T /\
    In (settingsButtonActive (w_CSS w)) (class_list (b T) (w_dom w')) /\
    class_list n (w_dom w') = class_list n (w_dom w)).
Proof.
  intros Hd Hh He Hn Ha Hj HT Hb Hid Hne.
  eapply ok_mono; [|exact (toggle_tune_found_run w b Hb d h T Hd Hh Ha)]. intros _ w' (Hd' & _ & ->).
  assert (HD3 : is_Some (elem_of h (buttons_dom T (settingsButtonActive (w_CSS w)) b tune_names (w_dom w))))
    by (by apply (shape_exists _ _ (class_edits_shape _ _ _ (buttons_dom_edits _ _ _ _ _)))).
  split; [unfold data_of; rewrite Hd'; apply prop_insert_eq|]. split.
  - rewrite accept_dom_keeps by done. by apply found_buttons_members.
  - apply class_list_same.
    rewrite (class_edits_other _ _ _ _ (accept_dom_edits _ _ _) (not_eq_sym Hn)).
    by apply found_button_other.
Qed.

(** ** Witnesses *)

(** The node the demo panel's lookup finds for a tune name. *)
Definition demo_button (t : string) : nid :=
  default 1%positive (get_element_by_id (w_document demo_settings) t (w_dom demo_settings)).

Lemma toggle_tune_buttons_witness :
  w_data demo_settings = Some (data_of demo_settings) /\
  nodes_holder (w_nodes demo_settings) = Some (holder_of demo_settings) /\
  is_Some (elem_of (holder_of demo_settings) (w_dom demo_settings)) /\
  valid_token (settingsButtonActive (w_CSS demo_settings)) = true /\
  ~ In (settingsButtonActive (w_CSS demo_settings)) justify_classes /\
  (forall t, In t tune_names ->
     get_element_by_id (w_document demo_settings) t (w_dom demo_settings) = Some (demo_button t)) /\
  ok (_toggleTune "RightAligned") demo_settings (fun _ w' =>
    w_data w' = Some (<["alignment" := JStr "RightAligned"]>
      (<["RightAligned" := JBool (negb (truthy (prop (data_of demo_settings) "RightAligned")))]> (data_of demo_settings))) /\
    forall t, In t tune_names ->
      get_element_by_id (w_document w') t (w_dom w') = Some (demo_button t) /\
      (In (settingsButtonActive (w_CSS demo_settings)) (class_list (demo_button t) (w_dom w')) <-> t = "RightAligned")).
Proof.
  assert (H1 : w_data demo_settings = Some (data_of demo_settings)) by (vm_compute; reflexivity).
  assert (H2 : nodes_holder (w_nodes demo_settings) = Some (holder_of demo_settings)) by (vm_compute; reflexivity).
  assert (H3 : is_Some (elem_of (holder_of demo_settings) (w_dom demo_settings)))
    by (apply (bool_decide_eq_true_1 _); vm_compute; reflexivity).
  assert (H4 : valid_token (settingsButtonActive (w_CSS demo_settings)) = true) by (vm_compute; reflexivity).
  assert (H5 : ~ In (settingsButtonActive (w_CSS demo_settings)) justify_classes)
    by (vm_compute; intros [H|[H|[H|[]]]]; discriminate).
  assert (H6 : forall t, In t tune_names ->
     get_element_by_id (w_document demo_settings) t (w_dom demo_settings) = Some (demo_button t))
    by (intros t [<-|[<-|[<-|[]]]]; vm_compute; reflexivity).
  split_and!; [exact H1|exact H2|exact H3|exact H4|exact H5|exact H6|].
  exact (toggle_tune_buttons demo_settings _ _ "RightAligned" demo_button H1 H2 H3 H4 H5 H6).
Defined.

(** A block whose saved iframe carries the id [Centered]. *)
Definition collision_data : jsobj :=
  <["frame" := JStr "<iframe id='Centered' src='https://example.org/v'></iframe>"]>
  {["alignment" := JBool false]}.

Definition collision_block : world :=
  final_state (construct collision_data demo_api (JBool false) demo_dom demo_body).

(** The collision block after the host rendered and mounted it and
    mounted the settings panel; its [Centered] button is node 11, the
    iframe with [id='Centered'] node 6. *)
Definition collision_panel : world := run_trace collision_block [EvRender; EvSettings].

Definition collision_button (t : string) : nid :=
  default 1%positive (get_element_by_id (w_document collision_panel) t (w_dom collision_panel)).

Lemma toggle_tune_id_collision_witness :
  In (11%positive, "Centered") (w_listeners collision_panel) /\
  collision_button "Centered" = 6%positive /\
  ok (_toggleTune "Centered") collision_panel (fun _ w' =>
    prop (data_of w') "alignment" = JStr "Centered" /\
    In (settingsButtonActive (w_CSS collision_panel)) (class_list (collision_button "Centered") (w_dom w')) /\
    class_list 11%positive (w_dom w') = class_list 11%positive (w_dom collision_panel)).
Proof.
  assert (H1 : w_data collision_panel = Some (data_of collision_panel)) by (vm_compute; reflexivity).
  assert (H2 : nodes_holder (w_nodes collision_panel) = Some (holder_of collision_panel)) by (vm_compute; reflexivity).
  assert (H3 : is_Some (elem_of (holder_of collision_panel) (w_dom collision_panel)))
    by (apply (bool_decide_eq_true_1 _); vm_compute; reflexivity).
  assert (H4 : 11%positive <> holder_of collision_panel) by (vm_compute; discriminate).
  assert (H5 : valid_token (settingsButtonActive (w_CSS collision_panel)) = true) by (vm_compute; reflexivity).
  assert (H6 : ~ In (settingsButtonActive (w_CSS collision_panel)) justify_classes)
    by (vm_compute; intros [H|[H|[H|[]]]]; discriminate).
  assert (H7 : In "Centered" tune_names) by (right; left; reflexivity).
  assert (H8 : forall t, In t tune_names ->
     get_element_by_id (w_document collision_panel) t (w_dom collision_panel) = Some (collision_button t))
    by (intros t [<-|[<-|[<-|[]]]]; vm_compute; reflexivity).
  assert (H9 : get_attribute 11%positive "id" (w_dom collision_panel) = Some "Centered") by (vm_compute; reflexivity).
  assert (H10 : collision_button "Centered" <> 11%positive) by (vm_compute; discriminate).
  split; [vm_compute; right; left; reflexivity|]. split; [vm_compute; reflexivity|].
  exact (toggle_tune_id_collision collision_panel _ _ "Centered" 11%positive collision_button
           H1 H2 H3 H4 H5 H6 H7 H8 H9 H10).
Defined.
