(* ===== verification/Forest.v ===== *)
(** * Forest: the block's methods and the host keep the DOM a forest

    [WF w]: the heap of the world is a forest ([dom_wf] of [Tree]) and
    the document node is allocated.  Every method of the class
    ([_make], [render], [renderSettings], [_toggleTune],
    [_acceptTuneView], the [data] setter, [save], [onPaste]) and every
    host event of [Lifecycle] keeps [WF], whether it returns or throws;
    so does every session the host runs from a constructed block on a
    forest.  The proofs are in the style of a weakest precondition: [wp c
    w Q] says that [c] run from [w] returns into [Q], or throws and leaves
    a [WF] world.  The only nodes the code appends or writes into are
    nodes it has just created, the parent of a node, and the document,
    which is how the existence preconditions of [appendChild] and of the
    [innerHTML] setter ([TreeOps]) are met. *)

From S2P Require Import Prelude Markup Dom Alloc Tree TreeOps Block Data View Save Lifecycle.

Local Open Scope string_scope.
Local Open Scope js_scope.

Definition WF (w : world) : Prop :=
  dom_wf (w_dom w) /\ (w_document w < d_next (w_dom w))%positive.

Definition wp {A} (c : M world A) (w : world) (Q : A -> world -> Prop) : Prop :=
  match c w with Done a w' => Q a w' | Threw _ w' => WF w' end.

(** The specification every method meets: from a [WF] world it returns
    into a [WF] world with [d_next] no lower, and [Q] of the start, the
    result and the end. *)
Definition spec {A} (c : M world A) (Q : world -> A -> world -> Prop) : Prop :=
  forall w, WF w -> wp c w (fun a w' => WF w' /\ (d_next (w_dom w) <= d_next (w_dom w'))%positive /\ Q w a w').

(** ** Rules *)

Section Rules.

Lemma wp_bind {A B} (c : M world A) (f : A -> M world B) w Q :
  wp c w (fun a w1 => wp (f a) w1 Q) -> wp (mbind c f) w Q.
Proof. unfold wp, mbind. by destruct (c w). Qed.

Lemma wp_ret {A} (a : A) w Q : Q a w -> wp (mret a) w Q.
Proof. done. Qed.

Lemma wp_mono {A} (c : M world A) w (Q Q' : A -> world -> Prop) :
  (forall a w', Q a w' -> Q' a w') -> wp c w Q -> wp c w Q'.
Proof. unfold wp. destruct (c w); auto. Qed.

Lemma wp_mget w Q : Q w w -> wp mget w Q.
Proof. done. Qed.

Lemma wp_mmodify f w Q : Q tt (f w) -> wp (mmodify f) w Q.
Proof. done. Qed.

Lemma wp_readD {A} (f : dom -> A) w Q : Q (f (w_dom w)) w -> wp (readD f) w Q.
Proof. done. Qed.

Lemma wp_deref {A} (o : option A) msg w Q :
  WF w -> (forall a, o = Some a -> Q a w) -> wp (deref o msg) w Q.
Proof. intros Hw HQ. destruct o; [by apply HQ|done]. Qed.

Lemma wp_this_data w Q : WF w -> (forall d, w_data w = Some d -> Q d w) -> wp this_data w Q.
Proof. intros Hw HQ. apply wp_bind, wp_mget, wp_deref; [done|]. apply HQ. Qed.

Lemma wp_get_data w Q : Q (w_data w) w -> wp get_data w Q.
Proof. done. Qed.

(** A DOM operation that is safe on the heap of the world. *)
Lemma wp_liftD {A} (c : M dom A) w Q :
  WF w -> dsafe c (w_dom w) ->
  (forall a d', c (w_dom w) = Done a d' -> dom_wf d' -> (d_next (w_dom w) <= d_next d')%positive ->
     Q a (set_dom d' w)) ->
  wp (liftD c) w Q.
Proof.
  intros [Hw Hdoc] [Hs Hn] HQ. unfold wp, liftD. destruct (c (w_dom w)) as [a d'|e d'] eqn:E; simpl in *.
  - by apply HQ.
  - split; [done|]. simpl. lia.
Qed.

Lemma wp_parent_of n w Q :
  WF w -> (forall p, parent_element n (w_dom w) = Some p -> (p < d_next (w_dom w))%positive -> Q p w) ->
  wp (parent_of n) w Q.
Proof.
  intros Hw HQ. apply wp_bind, wp_readD, wp_deref; [done|]. intros p Hp. apply HQ; [done|].
  apply (wf_bound _ (proj1 Hw)), (wf_parent_exists _ (proj1 Hw) n), Hp.
Qed.

Lemma wp_foreach {A} (f : A -> M world unit) xs w (I : world -> Prop) :
  I w -> (forall x w1, In x xs -> I w1 -> wp (f x) w1 (fun _ w2 => I w2)) ->
  wp (mforeach f xs) w (fun _ w' => I w').
Proof.
  revert w. induction xs as [|x xs IH]; intros w Hw Hf; [done|].
  apply wp_bind. eapply wp_mono; [|apply Hf; [by left|done]]. intros u w1 Hw1.
  apply IH; [done|]. intros y w2 Hy. apply Hf. by right.
Qed.

(** The specification of a computation used inside another. *)
Lemma wp_spec {A} (c : M world A) Q w R :
  spec c Q -> WF w ->
  (forall a w', WF w' -> (d_next (w_dom w) <= d_next (w_dom w'))%positive -> Q w a w' -> R a w') ->
  wp c w R.
Proof. intros Hc Hw HR. eapply wp_mono; [|by apply Hc]. intros a w' (? & ? & ?). by apply HR. Qed.

End Rules.

Lemma WF_set_dom d w w0 :
  WF w0 -> dom_wf d -> w_document w = w_document w0 -> (d_next (w_dom w0) <= d_next d)%positive ->
  WF (set_dom d w).
Proof. intros [_ Hd] Hwf Hdoc Hn. split; [done|]. simpl. rewrite Hdoc. lia. Qed.

Lemma create_element_run tag d el d' :
  create_element tag d = Done el d' -> el = d_next d /\ d_next d' = Pos.succ (d_next d).
Proof. by intros [= <- <-]. Qed.

(** A [WF] goal on the current world: its heap is the last one obtained,
    and the allocation counter only grew since the start. *)
Ltac wf_now := split; [simpl; assumption | simpl in *; lia].

Ltac dsafe_tac :=
  first [ apply dsafe_class_add | apply dsafe_class_remove | apply dsafe_set_attribute
        | apply dsafe_create_element | apply dsafe_node_remove | apply dsafe_append_child
        | apply dsafe_set_inner_html ]; simpl in *; first [assumption | lia].

Create HintDb forest.

(** Closes the postcondition of a method: the world is [WF], the counter
    grew, and the method's own conditions, by arithmetic. *)
Ltac wdone := cbv beta; split; [wf_now|simpl in *; split_and?; try lia].

(** One step of a method: the rule of its first primitive. *)
Ltac wstep :=
  cbv beta zeta;
  lazymatch goal with
  | |- wp (mbind _ _) _ _ => apply wp_bind
  | |- wp mget _ _ => apply wp_mget
  | |- wp (mmodify _) _ _ => apply wp_mmodify
  | |- wp (mret _) _ _ => apply wp_ret
  | |- wp this_data _ _ => apply wp_this_data; [wf_now|intros ? ?]
  | |- wp get_data _ _ => apply wp_get_data
  | |- wp (readD _) _ _ => apply wp_readD
  | |- wp (parent_of _) _ _ => apply wp_parent_of; [wf_now|intros ? ? ?]
  | |- wp (deref _ _) _ _ => apply wp_deref; [wf_now|intros ? ?]
  | |- wp (liftD (create_element _)) _ _ =>
      apply wp_liftD; [wf_now|dsafe_tac|intros ? ? [-> ?]%create_element_run ? ?]
  | |- wp (liftD _) _ _ => apply wp_liftD; [wf_now|dsafe_tac|intros ? ? ? ? ?]
  | |- wp (mforeach _ _) _ _ => fail
  | |- wp (if _ then _ else _) _ _ => case_match
  | |- wp (match _ with _ => _ end) _ _ => case_match
  | |- wp ?c _ _ => eapply wp_spec; [solve [eauto with forest]|wf_now|intros ? ? [? ?] ? ?; destruct_and?]
  end.

(** ** The methods *)

Section Methods.
Context `{HtmlSyntax}.

Lemma spec__make tag cls :
  spec (_make tag cls) (fun w a w' => a = d_next (w_dom w) /\ (a < d_next (w_dom w'))%positive).
Proof. intros w [Hw Hdoc]. unfold _make. repeat wstep; wdone. Qed.
#[local] Hint Resolve spec__make : forest.

(** The invariant of a [forEach] loop in a method: the world is [WF]
    and the counter grew since the start [w0]. *)
Definition grown (w0 w : world) : Prop := WF w /\ (d_next (w_dom w0) <= d_next (w_dom w))%positive.

Lemma spec_accept : spec _acceptTuneView (fun _ _ _ => True).
Proof. intros w [Hw Hdoc]. unfold _acceptTuneView, accept_one. repeat wstep; wdone. Qed.
#[local] Hint Resolve spec_accept : forest.

Lemma spec_toggleTune tune : spec (_toggleTune tune) (fun _ _ _ => True).
Proof.
  intros w [Hw Hdoc]. unfold _toggleTune. do 8 wstep.
  apply wp_bind. eapply wp_mono; [|apply (wp_foreach _ _ _ (grown w)); [wdone|]].
  - intros _ w1 [[Hw1 Hd1] Hn1]. repeat wstep; wdone.
  - intros t w1 _ [[Hw1 Hd1] Hn1]. unfold toggle_button. repeat wstep; unfold grown; wdone.
Qed.
#[local] Hint Resolve spec_toggleTune : forest.

Lemma spec_set_data x : spec (set_data x) (fun _ _ _ => True).
Proof. intros w [Hw Hdoc]. unfold set_data. repeat wstep; wdone. Qed.
#[local] Hint Resolve spec_set_data : forest.

Lemma spec_render : spec render (fun _ a w' => (a < d_next (w_dom w'))%positive).
Proof. intros w [Hw Hdoc]. unfold render. repeat wstep; wdone. Qed.
#[local] Hint Resolve spec_render : forest.

Lemma wp_settings_button wrapper t w :
  WF w -> (wrapper < d_next (w_dom w))%positive ->
  wp (settings_button wrapper t) w (fun _ w' => grown w w').
Proof. intros [Hw Hdoc] Hwr. unfold settings_button. repeat wstep; unfold grown; wdone. Qed.

Lemma spec_renderSettings : spec renderSettings (fun _ a w' => (a < d_next (w_dom w'))%positive).
Proof.
  intros w [Hw Hdoc]. unfold renderSettings. do 2 wstep.
  match goal with |- wp _ ?x _ => set (w1 := x) end.
  apply wp_bind. eapply wp_mono; [|apply (wp_foreach _ _ _ (grown w1)); [unfold w1; wdone|]].
  - intros u w2 [[Hw2 Hd2] Hn2]. repeat wstep. unfold w1 in *. wdone.
  - intros t w2 _ [Hw2 Hn2]. eapply wp_mono; [|apply wp_settings_button; [done|unfold w1 in *; simpl in *; lia]].
    intros u w3 [Hw3 Hn3]. split; [done|lia].
Qed.
#[local] Hint Resolve spec_renderSettings : forest.

Lemma spec_onPaste ev : spec (onPaste ev) (fun _ _ _ => True).
Proof. intros w [Hw Hdoc]. unfold onPaste. repeat wstep; wdone. Qed.

Lemma spec_save n : spec (save n) (fun _ _ _ => True).
Proof. intros w [Hw Hdoc]. unfold save. repeat wstep; wdone. Qed.

End Methods.

(** ** The host *)

Section Host.
Context `{HtmlSyntax}.

#[local] Hint Resolve spec__make spec_accept spec_toggleTune spec_set_data spec_render
  spec_renderSettings spec_onPaste spec_save : forest.

(** The host appends to the document the node a method returns. *)
Lemma spec_host_mount c :
  spec c (fun _ a w' => (a < d_next (w_dom w'))%positive) -> spec (host_mount c) (fun _ _ _ => True).
Proof. intros Hc w [Hw Hdoc]. unfold host_mount. repeat wstep; wdone. Qed.

Lemma spec_dispatch_click n : spec (dispatch_click n) (fun _ _ _ => True).
Proof.
  intros w [Hw Hdoc]. unfold dispatch_click. wstep. wstep.
  eapply wp_mono; [|apply (wp_foreach _ _ _ (grown w)); [wdone|]].
  - intros u w1 [Hw1 Hn1]. by split.
  - intros l w1 _ [[Hw1 Hd1] Hn1]. repeat wstep; unfold grown; wdone.
Qed.

#[local] Hint Resolve spec_host_mount spec_dispatch_click : forest.

Lemma spec_run_event e : spec (run_event e) (fun _ _ _ => True).
Proof. intros w [Hw Hdoc]. destruct e; unfold run_event; repeat wstep; wdone. Qed.

Lemma WF_final {A} (c : M world A) Q w : spec c Q -> WF w -> WF (final_state (c w)).
Proof.
  intros Hc Hw. specialize (Hc w Hw). unfold wp in Hc. destruct (c w); [apply Hc|done].
Qed.

(** The constructor does not touch the heap. *)
Lemma WF_construct data a ro d doc :
  dom_wf d -> (doc < d_next d)%positive -> WF (final_state (construct data a ro d doc)).
Proof. intros Hd Hdoc. by apply (WF_final _ _ _ (spec_set_data _)). Qed.

Lemma WF_run_trace w es : WF w -> WF (run_trace w es).
Proof.
  revert w. induction es as [|e es IH]; intros w Hw; [done|]. simpl.
  apply IH. by apply (WF_final _ _ _ (spec_run_event e)).
Qed.

End Host.

(** Every session the host runs on a block constructed on a DOM that
    is a forest with its document node allocated, whatever the events and
    whether the methods return or throw, leaves a DOM that is still a
    forest: every child lists its parent and conversely, no node is its
    own ancestor, and the ids in use are exactly those allocated. *)
Theorem session_forest `{HtmlSyntax} data a ro d doc es :
  dom_wf d -> (doc < d_next d)%positive ->
  dom_wf (w_dom (run_trace (final_state (construct data a ro d doc)) es)).
Proof. intros Hd Hdoc. apply (WF_run_trace _ es (WF_construct data a ro d doc Hd Hdoc)). Qed.

Lemma session_forest_witness :
  dom_wf demo_dom /\ (demo_body < d_next demo_dom)%positive /\
  dom_wf (w_dom (run_trace demo_constructed demo_session)).
Proof.
  assert (H1 : dom_wf demo_dom) by (apply (bool_decide_eq_true_1 _); vm_compute; reflexivity).
  assert (H2 : (demo_body < d_next demo_dom)%positive) by (vm_compute; reflexivity).
  split; [exact H1|]. split; [exact H2|].
  exact (session_forest demo_data demo_api (JBool false) demo_dom demo_body demo_session H1 H2).
Defined.
