(* ===== verification/Regex.v ===== *)
(** * The regular-expression engine behind [pasteConfig.patterns]

    Editor.js runs the tool's paste pattern with [RegExp.prototype.exec].
    This file models the fragment of ECMAScript regular expressions the
    pattern uses: literal characters, a negated class [[^...]], the dot
    (any character but a line terminator, the flag [s] being off), the
    empty pattern, sequence, alternation [|], and the greedy [*] and lazy
    [*?] quantifiers on one character atom.  [m] is the backtracking
    matcher of the ECMAScript specification (section 22.2.2, "Pattern
    Semantics"): a matcher takes the input and a continuation and tries
    the alternatives in priority order, left alternative first, longest
    run first for [*], shortest first for [*?].  [exec] searches from
    index 0 upwards for the first index at which the pattern matches.

    Characters are [ascii]; the line terminators of ASCII are LF and CR.

    Two reference definitions give the meaning of [m]: [cands r s], the
    list of the inputs left after a match of [r] at the front of [s] in
    the engine's priority order, and [matches], the declarative language
    of [r].  The theorems: [m] is the first success of its continuation
    along [cands] ([m_first]); [cands] holds exactly the suffixes left by
    a match in the language ([cands_correct]), so the language is
    decidable ([matches_dec]); [exec] is sound and complete for the
    language ([exec_sound], [exec_complete]).  [Paste] uses the
    matcher on the paste pattern. *)

From S2P Require Import Prelude.
From Stdlib Require Import Ascii.

Module Regex.

(** ** Syntax *)

(** A character atom: a literal, a negated class [[^cs]], or [.]. *)
Inductive atom :=
| ALit (c : ascii)
| ANotIn (cs : list ascii)
| ADot.

(** A pattern; a non-capturing group [(?:r)] is [r] itself. *)
Inductive re :=
| Eps
| Atom (a : atom)
| Seq (r1 r2 : re)
| Alt (r1 r2 : re)
| Star (greedy : bool) (a : atom).

(** The line terminators that [.] does not match (LF and CR). *)
Definition line_terminator (c : ascii) : bool :=
  bool_decide (c = "010"%char) || bool_decide (c = "013"%char).

Definition atom_ok (a : atom) (c : ascii) : bool :=
  match a with
  | ALit c' => bool_decide (c = c')
  | ANotIn cs => negb (bool_decide (c ∈ cs))
  | ADot => negb (line_terminator c)
  end.

(** A literal string as a sequence of literal atoms. *)
Fixpoint lits (w : list ascii) : re :=
  match w with
  | [] => Eps
  | c :: w' => Seq (Atom (ALit c)) (lits w')
  end.

(** ** The backtracking matcher *)

(** The first success of two tries. *)
Definition orelse {A} (o o' : option A) : option A :=
  match o with Some x => Some x | None => o' end.

Section Matcher.
Context {A : Type}.

(** [a*]: the longest run first, then one character less each time. *)
Fixpoint greedy (a : atom) (s : list ascii) (k : list ascii -> option A) : option A :=
  match s with
  | c :: s' => if atom_ok a c then orelse (greedy a s' k) (k s) else k s
  | [] => k []
  end.

(** [a*?]: the empty run first, then one character more each time. *)
Fixpoint lazy (a : atom) (s : list ascii) (k : list ascii -> option A) : option A :=
  orelse (k s)
    (match s with
     | c :: s' => if atom_ok a c then lazy a s' k else None
     | [] => None
     end).

Fixpoint m (r : re) (s : list ascii) (k : list ascii -> option A) : option A :=
  match r with
  | Eps => k s
  | Atom a => match s with c :: s' => if atom_ok a c then k s' else None | [] => None end
  | Seq r1 r2 => m r1 s (fun s' => m r2 s' k)
  | Alt r1 r2 => orelse (m r1 s k) (m r2 s k)
  | Star g a => if g then greedy a s k else lazy a s k
  end.

End Matcher.

(** [RegExp.prototype.exec] without the flags [g] and [y]: the first
    index [i] from which the pattern matches, with the matched text. *)
Fixpoint exec_at (r : re) (i : nat) (s : list ascii) : option (nat * list ascii) :=
  match m r s (fun rest => Some rest) with
  | Some rest => Some (i, take (length s - length rest) s)
  | None => match s with [] => None | _ :: s' => exec_at r (S i) s' end
  end.

Definition exec (r : re) (s : list ascii) : option (nat * list ascii) := exec_at r 0 s.

(** ** Reference semantics *)

(** The first success of [k] along a list of tries. *)
Definition first {A} (k : list ascii -> option A) (l : list (list ascii)) : option A :=
  foldr (fun x acc => orelse (k x) acc) None l.

Fixpoint greedy_c (a : atom) (s : list ascii) : list (list ascii) :=
  match s with
  | c :: s' => if atom_ok a c then greedy_c a s' ++ [s] else [s]
  | [] => [[]]
  end.

Fixpoint lazy_c (a : atom) (s : list ascii) : list (list ascii) :=
  s :: match s with
       | c :: s' => if atom_ok a c then lazy_c a s' else []
       | [] => []
       end.

(** The inputs left after a match of [r] at the front of [s], in the
    order the engine tries them. *)
Fixpoint cands (r : re) (s : list ascii) : list (list ascii) :=
  match r with
  | Eps => [s]
  | Atom a => match s with c :: s' => if atom_ok a c then [s'] else [] | [] => [] end
  | Seq r1 r2 => flat_map (fun s' => cands r2 s') (cands r1 s)
  | Alt r1 r2 => cands r1 s ++ cands r2 s
  | Star g a => if g then greedy_c a s else lazy_c a s
  end.

(** The language of a pattern. *)
Inductive matches : re -> list ascii -> Prop :=
| MEps : matches Eps []
| MAtom a c : atom_ok a c = true -> matches (Atom a) [c]
| MSeq r1 r2 s1 s2 : matches r1 s1 -> matches r2 s2 -> matches (Seq r1 r2) (s1 ++ s2)
| MAltL r1 r2 s : matches r1 s -> matches (Alt r1 r2) s
| MAltR r1 r2 s : matches r2 s -> matches (Alt r1 r2) s
| MStar g a s : Forall (fun c => atom_ok a c = true) s -> matches (Star g a) s.

(** ** Lemmas on [orelse] and [first] *)

Lemma orelse_assoc {A} (o1 o2 o3 : option A) :
  orelse (orelse o1 o2) o3 = orelse o1 (orelse o2 o3).
Proof. by destruct o1. Qed.

Lemma orelse_None_r {A} (o : option A) : orelse o None = o.
Proof. by destruct o. Qed.

Lemma first_cons {A} (k : list ascii -> option A) x l :
  first k (x :: l) = orelse (k x) (first k l).
Proof. done. Qed.

Lemma first_nil {A} (k : list ascii -> option A) : first k [] = None.
Proof. done. Qed.

Lemma first_ext {A} (k k' : list ascii -> option A) l :
  (forall x, k x = k' x) -> first k l = first k' l.
Proof. intros Hk. induction l; [done|]. by rewrite !first_cons, Hk, IHl. Qed.

Lemma first_app {A} (k : list ascii -> option A) l1 l2 :
  first k (l1 ++ l2) = orelse (first k l1) (first k l2).
Proof.
  induction l1 as [|x l1 IH]; [done|].
  by rewrite <-app_comm_cons, !first_cons, IH, orelse_assoc.
Qed.

Lemma first_flat_map {A} (k : list ascii -> option A) f l :
  first k (flat_map f l) = first (fun x => first k (f x)) l.
Proof.
  induction l as [|x l IH]; [done|].
  by rewrite first_cons, <-IH, <-first_app.
Qed.

Lemma greedy_first {A} a s (k : list ascii -> option A) :
  greedy a s k = first k (greedy_c a s).
Proof.
  induction s as [|c s IH]; cbn [greedy greedy_c].
  - by rewrite first_cons, first_nil, orelse_None_r.
  - destruct (atom_ok a c); rewrite ?first_app, !first_cons, first_nil, orelse_None_r; [|done].
    by rewrite IH.
Qed.

Lemma lazy_first {A} a s (k : list ascii -> option A) :
  lazy a s k = first k (lazy_c a s).
Proof.
  induction s as [|c s IH]; cbn [lazy lazy_c]; rewrite first_cons; [by rewrite first_nil|].
  by destruct (atom_ok a c); rewrite ?IH, ?first_nil.
Qed.

(** The run of a star: the suffixes left after a run of characters
    the atom accepts. *)
Lemma star_c_in (a : atom) (s rest : list ascii) (g : bool) :
  rest ∈ (if g then greedy_c a s else lazy_c a s) <->
  exists pre, s = pre ++ rest /\ Forall (fun c => atom_ok a c = true) pre.
Proof.
  induction s as [|c s IH].
  - assert (H0 : (if g then greedy_c a [] else lazy_c a []) = [[]]) by by destruct g.
    rewrite H0, list_elem_of_singleton. split; [intros ->; by exists []|].
    intros ([|??]&?&?); by simplify_list_eq.
  - assert (Hs : rest ∈ (if g then greedy_c a (c :: s) else lazy_c a (c :: s)) <->
                 rest = c :: s \/ (atom_ok a c = true /\
                   rest ∈ (if g then greedy_c a s else lazy_c a s))).
    { destruct g; cbn [greedy_c lazy_c]; destruct (atom_ok a c);
        rewrite ?elem_of_app, ?elem_of_cons, ?list_elem_of_singleton, ?elem_of_nil;
        first [tauto | intuition discriminate]. }
    rewrite Hs, IH. split.
    + intros [->|[Ha (pre&->&Hp)]]; [by exists []|]. exists (c :: pre). auto.
    + intros ([|c' pre]&Heq&Hp); simplify_list_eq; [by left|].
      apply Forall_cons in Hp as [??]. right. split; [done|]. eauto.
Qed.

(** The backtracking matcher [m] is the first success of its
    continuation along the reference list [cands] of the inputs left by
    the matches of the pattern, in the engine's priority order. *)
Theorem m_first {A} r s (k : list ascii -> option A) :
  m r s k = first k (cands r s).
Proof.
  revert s k. induction r as [|a|r1 IH1 r2 IH2|r1 IH1 r2 IH2|g a]; intros s k; cbn [m cands].
  - by rewrite first_cons, first_nil, orelse_None_r.
  - destruct s as [|c s]; [done|].
    destruct (atom_ok a c); by rewrite ?first_cons, first_nil, ?orelse_None_r.
  - rewrite IH1, first_flat_map. apply first_ext. auto.
  - by rewrite IH1, IH2, first_app.
  - destruct g; [apply greedy_first|apply lazy_first].
Qed.

Lemma elem_of_flat_map (f : list ascii -> list (list ascii)) l y :
  y ∈ flat_map f l <-> exists x, x ∈ l /\ y ∈ f x.
Proof. rewrite list_elem_of_In, in_flat_map. by setoid_rewrite list_elem_of_In. Qed.

(** The reference list [cands r s] holds exactly the inputs left
    after a prefix of [s] in the language of [r]: the engine's search
    space is the declarative semantics, no match lost and none added. *)
Theorem cands_correct r s rest :
  rest ∈ cands r s <-> exists pre, s = pre ++ rest /\ matches r pre.
Proof.
  revert s rest. induction r as [|a|r1 IH1 r2 IH2|r1 IH1 r2 IH2|g a]; intros s rest; cbn [cands].
  - rewrite list_elem_of_singleton. split; [intros ->; exists []; split; [done|constructor]|].
    intros (pre&->&Hm). inversion Hm. done.
  - split.
    + destruct s as [|c s]; [by rewrite elem_of_nil|].
      destruct (atom_ok a c) eqn:Ha; rewrite ?list_elem_of_singleton, ?elem_of_nil; [|done].
      intros ->. exists [c]. split; [done|by constructor].
    + intros (pre&->&Hm). inversion Hm as [|? ? Ha| | | |]; subst. cbn. rewrite Ha. by left.
  - rewrite elem_of_flat_map. setoid_rewrite IH1. setoid_rewrite IH2. split.
    + intros (mid&(p1&->&H1)&(p2&->&H2)). exists (p1 ++ p2). rewrite app_assoc. by split; [|constructor].
    + intros (pre&->&Hm). inversion Hm; subst. rewrite <-app_assoc. eauto 10.
  - rewrite elem_of_app, IH1, IH2. split.
    + intros [(pre&->&Hm)|(pre&->&Hm)]; exists pre; split; eauto using matches.
    + intros (pre&->&Hm). inversion Hm; subst; eauto.
  - rewrite (star_c_in a s rest g). split.
    + intros (pre&->&Hp). exists pre. split; [done|by constructor].
    + intros (pre&->&Hm). inversion Hm; subst. eauto.
Qed.

(** ** Literals and greedy runs *)

(** A literal string matches when it is a prefix of the input. *)
Lemma m_lits {A} w s (k : list ascii -> option A) :
  m (lits w) s k = if decide (w `prefix_of` s) then k (drop (length w) s) else None.
Proof.
  revert s. induction w as [|c w IH]; intros s; cbn [lits m].
  - by rewrite decide_True by apply prefix_nil.
  - destruct s as [|c' s]; [by rewrite decide_False by apply prefix_nil_not|].
    cbn [atom_ok]. rewrite IH. case_bool_decide as Hc; [subst c'|].
    + destruct (decide (w `prefix_of` s)) as [Hp|Hp].
      * by rewrite decide_True by by apply prefix_cons.
      * rewrite decide_False; [done|]. by intros ?%prefix_cons_inv_2.
    + rewrite decide_False; [done|]. intros ?%prefix_cons_inv_1. congruence.
Qed.

(** The end of a maximal run of an atom: the input is empty or its
    first character is refused. *)
Definition stop (a : atom) (v : list ascii) : Prop :=
  match v with [] => True | c :: _ => atom_ok a c = false end.

Lemma run_split a u :
  exists x v, u = x ++ v /\ Forall (fun c => atom_ok a c = true) x /\ stop a v.
Proof.
  induction u as [|c u (x&v&->&Hx&Hv)]; [by exists [], []|].
  destruct (atom_ok a c) eqn:Ha; [exists (c :: x), v; auto|by exists [], (c :: x ++ v)].
Qed.

Lemma run_unique a x v x' v' :
  Forall (fun c => atom_ok a c = true) x -> stop a v ->
  Forall (fun c => atom_ok a c = true) x' -> stop a v' ->
  x ++ v = x' ++ v' -> x = x' /\ v = v'.
Proof.
  revert x'. induction x as [|c x IH]; intros [|c' x'] Hx Hv Hx' Hv' Heq; simplify_list_eq.
  - done.
  - apply Forall_cons in Hx' as [Hc _]. cbn in Hv. congruence.
  - apply Forall_cons in Hx as [Hc _]. cbn in Hv'. congruence.
  - apply Forall_cons in Hx as [_ Hx]. apply Forall_cons in Hx' as [_ Hx'].
    destruct (IH x') as [-> ->]; auto.
Qed.

(** The tries of [a*] after its longest run [x], shortest first. *)
Fixpoint back {A} (k : list ascii -> option A) (x v : list ascii) : option A :=
  match x with
  | [] => None
  | c :: x' => orelse (back k x' v) (k (c :: x' ++ v))
  end.

Lemma greedy_run {A} a x v (k : list ascii -> option A) :
  Forall (fun c => atom_ok a c = true) x -> stop a v ->
  greedy a (x ++ v) k = orelse (k v) (back k x v).
Proof.
  intros Hx Hv. induction Hx as [|c x Hc Hx IH]; cbn [app greedy back].
  - destruct v as [|c v]; cbn in *; [by destruct (k [])|]. rewrite Hv. by destruct (k _).
  - by rewrite Hc, IH, orelse_assoc.
Qed.

(** ** [exec] *)

Lemma first_Some_head l : first (fun x => Some x) l = head l.
Proof. by destruct l. Qed.

(** What the matcher leaves is a suffix after a prefix in the language. *)
Lemma m_Some_suffix r s rest :
  m r s (fun x => Some x) = Some rest -> exists pre, s = pre ++ rest /\ matches r pre.
Proof.
  rewrite m_first, first_Some_head. intros Hh. apply cands_correct.
  destruct (cands r s); simplify_eq/=. by left.
Qed.

Lemma exec_at_length r i s j w : exec_at r i s = Some (j, w) -> length w <= length s.
Proof.
  revert i. induction s as [|c s IH]; intros i; cbn [exec_at].
  - destruct (m r [] _); [intros [= _ Hw]; subst w; rewrite ?length_take; cbn; lia|done].
  - destruct (m r (c :: s) _); [intros [= _ Hw]; subst w; rewrite ?length_take; cbn; lia|].
    intros ?%IH. cbn. lia.
Qed.

(** [exec] matches the whole input exactly when the matcher, started at
    index 0, consumes all of it on its first success. *)
Lemma exec_whole r s :
  (exists i, exec r s = Some (i, s)) <-> m r s (fun x => Some x) = Some [].
Proof.
  unfold exec. destruct s as [|c s']; cbn [exec_at].
  - destruct (m r [] _) as [rest|] eqn:Hm; [|split; [intros [? [=]]|done]].
    apply m_Some_suffix in Hm as ([|??]&Hs&_); simplify_list_eq. split; eauto.
  - destruct (m r (c :: s') _) as [rest|] eqn:Hm.
    + apply m_Some_suffix in Hm as (pre&Hs&_). rewrite Hs, length_app.
      replace (length pre + length rest - length rest) with (length pre) by lia.
      rewrite take_app_length. split.
      * intros [i [= _ Hpre]]. apply (f_equal length) in Hpre.
        rewrite length_app in Hpre. destruct rest; [done|cbn in Hpre; lia].
      * intros [=->]. exists 0. by rewrite app_nil_r.
    + split; [|done]. intros [i Hx]. apply exec_at_length in Hx. cbn in Hx. lia.
Qed.

(** The language is decidable: a pattern matches [s] when the engine's
    search space holds the empty rest. *)
Lemma matches_cands r s : matches r s <-> [] ∈ cands r s.
Proof.
  rewrite cands_correct. split; [intros Hm; exists s; by rewrite app_nil_r|].
  intros (pre&->&Hm). by rewrite app_nil_r.
Qed.

#[export] Instance matches_dec r s : Decision (matches r s).
Proof. destruct (decide ([] ∈ cands r s)); [left|right]; by rewrite matches_cands. Defined.

Lemma exec_at_hit r i s rest :
  m r s (fun x => Some x) = Some rest -> exec_at r i s = Some (i, take (length s - length rest) s).
Proof. intros Hr. destruct s; cbn [exec_at]; by rewrite Hr. Qed.

Lemma take_suffix (pre rest : list ascii) : take (length (pre ++ rest) - length rest) (pre ++ rest) = pre.
Proof. by rewrite length_app, Nat.add_sub, take_app_length. Qed.

(** A text in the language is matched by [exec] from index 0, by a
    prefix of it in the language. *)
Lemma exec_complete r s :
  matches r s ->
  exists w, exec r s = Some (0, w) /\ matches r w /\ w `prefix_of` s.
Proof.
  intros Hm. apply matches_cands in Hm.
  destruct (m r s (fun x => Some x)) as [rest|] eqn:Hr.
  - pose proof Hr as (pre&Hs&Hpre)%m_Some_suffix. exists pre. unfold exec.
    rewrite (exec_at_hit _ _ _ _ Hr), Hs, take_suffix. split_and!; [done|done|by exists rest].
  - rewrite m_first, first_Some_head in Hr. destruct (cands r s); [|done].
    by apply elem_of_nil in Hm.
Qed.

(** What [exec] matches is in the language. *)
Lemma exec_sound r s i w : exec r s = Some (i, w) -> matches r w.
Proof.
  unfold exec. generalize 0. induction s as [|c s IH]; intros j.
  all: match goal with |- exec_at _ _ ?s = _ -> _ => destruct (m r s (fun x => Some x)) as [rest|] eqn:Hr end;
    [rewrite (exec_at_hit _ _ _ _ Hr); apply m_Some_suffix in Hr as (pre&->&Hpre);
     rewrite take_suffix; by intros [= _ <-]|].
  - cbn [exec_at]. by rewrite Hr.
  - cbn [exec_at]. rewrite Hr. apply IH.
Qed.

End Regex.
