(* ===== verification/Paste.v ===== *)
(** * The paste pattern of [pasteConfig]

    [static get pasteConfig()] (src/src/index.js, lines 231-238) declares
    the tag [iframe] and the pattern
    [/(?:<iframe[^>]* )(?:(?:\/>)|(?:>.*?<\/iframe>))/], with no flag (the
    space after the star is not in the source).
    Editor.js (its paste module, [processPattern]) runs [exec] of each
    tool's pattern on the pasted text and gives the text to the tool whose
    first match is the whole text, as a paste event of type [pattern].

    [iframe_pattern] is the pattern in the syntax of [Regex];
    [pattern_matches] is the host's test ([text === execResult.shift()])
    and [processPattern] the event it builds.  The theorem
    [paste_pattern_spec] (C15) says which texts the host hands to
    [onPaste]: an opening [<iframe] with no [>] in its attributes, closed
    either by [/>] or by [>], a body with no line terminator, and the
    FIRST [</iframe>] after it ending the text, so a text with a second
    [</iframe>] is refused (the lazy [.*?]).  [paste_pattern_case] (C16)
    shows that the pattern is case-sensitive: no text that starts with
    another spelling of [<iframe], such as [<IFRAME], is accepted.

    For the tag [iframe], Editor.js hands [onPaste] the pasted element
    itself; [tag_paste_object] (C19) follows it through [render] with
    empty data and [onPaste]: the setter writes the element's string form
    [[object HTMLIFrameElement]] into the holder. *)

From S2P Require Import Prelude Markup Dom Alloc Regex Block Data View.
From Stdlib Require Import Ascii.
Import Regex.

Module Paste.

Definition chars (s : string) : list ascii := String.list_ascii_of_string s.

Definition open_tag : list ascii := chars "<iframe".
Definition close_tag : list ascii := chars "</iframe>".

(** The second group of the pattern, [(?:(?:\/>)|(?:>.*?<\/iframe>))]. *)
Definition closing : re :=
  Alt (lits (chars "/>"))
      (Seq (lits (chars ">")) (Seq (Star false ADot) (lits close_tag))).

(** [pasteConfig.patterns.iframe]: the group [(?:<iframe[^>]* )] then
    [closing]. *)
Definition iframe_pattern : re :=
  Seq (Seq (lits open_tag) (Star true (ANotIn [">"%char]))) closing.

(** [static get pasteConfig()]: the tags and the named patterns. *)
Record paste_config := mkPasteConfig {
  pc_tags : list string;
  pc_patterns : list (string * re)
}.

Definition pasteConfig : paste_config :=
  mkPasteConfig paste_tags [("iframe", iframe_pattern)].

(** The host's test of one pattern: [exec] matches, and its match is
    the whole text. *)
Definition pattern_matches (r : re) (text : string) : bool :=
  match exec r (chars text) with
  | Some (_, w) => bool_decide (w = chars text)
  | None => false
  end.

(** [processPattern] of Editor.js for this tool: the paste event of
    type [pattern] carrying the text, when a pattern matches it. *)
Definition processPattern (text : string) : option paste_event :=
  if existsb (fun p => pattern_matches p.2 text) (pc_patterns pasteConfig)
  then Some (mkPaste "pattern" (JStr text))
  else None.

(** A contiguous occurrence of [w] in [y]. *)
Definition infix_of (w y : list ascii) : Prop := exists y1 y2, y = y1 ++ w ++ y2.

(** ** Lemmas *)

Lemma length_close_tag : length close_tag = 9.
Proof. done. Qed.

(** [</iframe>] overlaps no proper shift of itself. *)
Lemma close_tag_no_border y :
  close_tag `prefix_of` y ++ close_tag -> y = [] \/ infix_of close_tag y.
Proof.
  intros [z Hz]. destruct (decide (length y < length close_tag)) as [Hl|Hl].
  - destruct y as [|c y]; [by left|exfalso].
    assert (Hd : drop (length (c :: y)) close_tag `prefix_of` close_tag).
    { apply (f_equal (drop (length (c :: y)))) in Hz.
      rewrite drop_app_length, drop_app_le in Hz by (rewrite length_close_tag; cbn in *; lia).
      by exists z. }
    assert (Hno : Forall (fun k => ~ drop k close_tag `prefix_of` close_tag) (seq 1 8)).
    { apply (bool_decide_unpack _). vm_compute. reflexivity. }
    rewrite Forall_forall in Hno. apply (Hno (length (c :: y))); [|done].
    apply elem_of_seq. cbn in *. lia.
  - right. exists [], (drop (length close_tag) y).
    assert (Ht : take (length close_tag) y = close_tag).
    { apply (f_equal (take (length close_tag))) in Hz.
      rewrite take_app_le, take_app_length in Hz by lia.
      done. }
    rewrite app_nil_l, <-(take_drop (length close_tag) y) at 1. by rewrite Ht.
Qed.

Lemma not_prefix_short l : length l < length close_tag -> ~ close_tag `prefix_of` l.
Proof. intros Hl [z ->]. rewrite length_app in Hl. lia. Qed.

Lemma prefix_close_tag_app y z : close_tag `prefix_of` (close_tag ++ y) ++ z.
Proof. exists (y ++ z). by rewrite app_assoc. Qed.

(** The lazy [.*?<\/iframe>] consumes the whole input exactly when the
    input is a body with no line terminator and no [</iframe>], followed
    by [</iframe>]. *)
Lemma lazy_close w :
  lazy ADot w (fun y => m (lits close_tag) y (fun x => Some x)) = Some [] <->
  exists y, w = y ++ close_tag /\ Forall (fun c => line_terminator c = false) y /\
            ~ infix_of close_tag y.
Proof.
  induction w as [|c w IH]; cbn [lazy]; rewrite m_lits.
  - rewrite decide_False by (apply not_prefix_short; rewrite length_close_tag; cbn; lia).
    split; [done|]. intros (y&Hy&_). apply (f_equal length) in Hy.
    rewrite length_app, length_close_tag in Hy. cbn in Hy. lia.
  - destruct (decide (close_tag `prefix_of` c :: w)) as [[z Hz]|Hp].
    + rewrite Hz, drop_app_length. cbn [orelse]. split.
      * intros [= ->]. exists []. rewrite app_nil_r. split; [done|]. split; [constructor|].
        intros (y1&y2&Hy). apply (f_equal length) in Hy.
        rewrite !length_app in Hy. cbn in Hy. lia.
      * intros (y&Hy&_&Hn).
        destruct (close_tag_no_border y) as [->|Hi]; [by exists z; symmetry| |done].
        rewrite app_nil_l in Hy. rewrite <-(app_nil_r close_tag) in Hy at 2.
        apply app_inv_head in Hy. by subst.
    + cbn [orelse atom_ok].
      destruct (line_terminator c) eqn:Hc; cbn [negb].
      * split; [done|]. intros ([|c' y]&Hy&Hf&_).
        -- destruct Hp. rewrite Hy. exists []. by rewrite app_nil_r.
        -- simplify_list_eq. apply Forall_cons in Hf as [Hf _]. congruence.
      * rewrite IH. split.
        -- intros (y&->&Hf&Hn). exists (c :: y). split; [done|]. split; [by constructor|].
           intros ([|c1 y1]&y2&Hy).
           ++ apply Hp. rewrite app_comm_cons, Hy, app_nil_l. apply prefix_close_tag_app.
           ++ injection Hy as -> Hy. apply Hn. by exists y1, y2.
        -- intros ([|c' y]&Hy&Hf&Hn).
           ++ destruct Hp. rewrite Hy. exists []. by rewrite app_nil_r.
           ++ injection Hy as -> ->. apply Forall_cons in Hf as [_ Hf]. exists y.
              split; [done|]. split; [done|]. intros (y1&y2&->). apply Hn.
              by exists (c' :: y1), y2.
Qed.

(** ** The pattern, piece by piece *)

Definition not_gt : atom := ANotIn [">"%char].

Lemma not_gt_ok c : atom_ok not_gt c = true <-> c <> ">"%char.
Proof.
  cbn. rewrite negb_true_iff, bool_decide_eq_false, list_elem_of_singleton. done.
Qed.

Lemma not_gt_stop c : atom_ok not_gt c = false <-> c = ">"%char.
Proof.
  cbn. rewrite negb_false_iff, bool_decide_eq_true, list_elem_of_singleton. done.
Qed.

Lemma closing_gt w :
  m closing (">"%char :: w) (fun x => Some x) =
  lazy ADot w (fun y => m (lits close_tag) y (fun x => Some x)).
Proof. done. Qed.

Lemma closing_nil : m closing [] (fun x => Some x) = None.
Proof. done. Qed.

Lemma closing_other c r :
  c <> ">"%char ->
  m closing (c :: r) (fun x => Some x) =
  if bool_decide (c = "/"%char) then m (lits (chars ">")) r (fun x => Some x) else None.
Proof.
  intros Hc. unfold closing. cbn [m lits chars String.list_ascii_of_string atom_ok].
  rewrite (bool_decide_eq_false_2 (c = ">"%char)) by done.
  destruct (bool_decide _); [|done]. by rewrite orelse_None_r.
Qed.

Lemma gt_lit r : m (lits (chars ">")) r (fun x => Some x) =
  match r with c :: r' => if bool_decide (c = ">"%char) then Some r' else None | [] => None end.
Proof. by destruct r. Qed.

(** The tries of [[^>]*] shorter than its longest run [x] all fail,
    but the one that leaves [\/>] when [x] ends in [/]. *)
Lemma back_closing x v :
  Forall (fun c => atom_ok not_gt c = true) x -> stop not_gt v ->
  back (fun v => m closing v (fun x => Some x)) x v =
  match v with
  | c :: w => if bool_decide (last x = Some "/"%char) then Some w else None
  | [] => None
  end.
Proof.
  intros Hx Hv. destruct v as [|c w]; cbn in Hv.
  - induction Hx as [|c x Hc Hx IH]; [done|]. cbn [back]. rewrite IH.
    apply not_gt_ok in Hc. rewrite closing_other by done.
    destruct x as [|c' x]; [by destruct (bool_decide _)|].
    inversion Hx as [|? ? Hc' _]; subst. apply not_gt_ok in Hc'.
    rewrite gt_lit, app_nil_r, (bool_decide_eq_false_2 (c' = ">"%char)) by done.
    by destruct (bool_decide _).
  - apply not_gt_stop in Hv as ->.
    induction Hx as [|c x Hc Hx IH]; [done|]. cbn [back]. rewrite IH.
    apply not_gt_ok in Hc. rewrite closing_other by done.
    destruct x as [|c' x].
    + cbn [last app]. rewrite gt_lit. repeat case_bool_decide; cbn [orelse]; congruence.
    + inversion Hx as [|? ? Hc' _]; subst. apply not_gt_ok in Hc'.
      rewrite gt_lit, <-app_comm_cons, (bool_decide_eq_false_2 (c' = ">"%char)) by done.
      destruct (bool_decide (c = "/"%char)); rewrite orelse_None_r; done.
Qed.

(** What is left after the longest run [x] of [[^>]*]: [closing]
    consumes the rest of the input when the run stops at a [>] followed
    either by nothing, [x] ending in [/], or by a body and its
    [</iframe>]. *)
Lemma closing_run x v :
  Forall (fun c => atom_ok not_gt c = true) x -> stop not_gt v ->
  orelse (m closing v (fun x => Some x)) (back (fun v => m closing v (fun x => Some x)) x v)
    = Some [] <->
  exists w, v = ">"%char :: w /\
    ((w = [] /\ last x = Some "/"%char) \/
     exists y, w = y ++ close_tag /\ Forall (fun c => line_terminator c = false) y /\
               ~ infix_of close_tag y).
Proof.
  intros Hx Hv. rewrite back_closing by done. destruct v as [|c w].
  { rewrite closing_nil. split; [done|]. by intros (w&?&_). }
  cbn in Hv. apply not_gt_stop in Hv as ->. rewrite closing_gt. split.
  - intros H. exists w. split; [done|].
    destruct (lazy ADot w _) as [r|] eqn:HL; cbn [orelse] in H.
    + injection H as ->. right. by apply lazy_close.
    + left. case_bool_decide; [|done]. by injection H as ->.
  - intros (w'&[= <-]&[[-> Hl]|Hy]).
    + by rewrite Hl.
    + apply lazy_close in Hy. by rewrite Hy.
Qed.

Lemma not_gt_forall x :
  Forall (fun c => c <> ">"%char) x <-> Forall (fun c => atom_ok not_gt c = true) x.
Proof. apply Forall_iff. intros c. by rewrite not_gt_ok. Qed.

(** The texts of the characterisation, seen after the longest run [x]
    of [[^>]*] following [<iframe]. *)
Lemma pattern_text_split x v :
  Forall (fun c => atom_ok not_gt c = true) x -> stop not_gt v ->
  ((exists x', Forall (fun c => c <> ">"%char) x' /\
               open_tag ++ x ++ v = open_tag ++ x' ++ chars "/>") \/
   (exists x' y, Forall (fun c => c <> ">"%char) x' /\
                 Forall (fun c => line_terminator c = false) y /\ ~ infix_of close_tag y /\
                 open_tag ++ x ++ v = open_tag ++ x' ++ ">"%char :: y ++ close_tag)) <->
  exists w, v = ">"%char :: w /\
    ((w = [] /\ last x = Some "/"%char) \/
     exists y, w = y ++ close_tag /\ Forall (fun c => line_terminator c = false) y /\
               ~ infix_of close_tag y).
Proof.
  intros Hx Hv. setoid_rewrite not_gt_forall. split.
  - intros [(x'&Hx'&Heq)|(x'&y&Hx'&Hy&Hn&Heq)]; apply app_inv_head in Heq.
    + change (chars "/>") with (["/"%char] ++ [">"%char]) in Heq.
      rewrite (app_assoc x' ["/"%char] [">"%char]) in Heq.
      destruct (run_unique not_gt x v (x' ++ ["/"%char]) [">"%char]) as [-> ->]; try done.
      { apply Forall_app. split; [done|]. repeat constructor. }
      exists []. split; [done|]. left. by rewrite last_snoc.
    + destruct (run_unique not_gt x v x' (">"%char :: y ++ close_tag)) as [-> ->]; try done.
      exists (y ++ close_tag). split; [done|]. right. eauto.
  - intros (w&->&[[-> Hl]|(y&->&Hy&Hn)]).
    + apply last_Some in Hl as (x'&->). apply Forall_app in Hx as [Hx' _].
      left. exists x'. split; [done|]. by rewrite <-app_assoc.
    + right. exists x, y. auto.
Qed.

Lemma pattern_matches_m r t :
  pattern_matches r t = true <-> m r (chars t) (fun x => Some x) = Some [].
Proof.
  rewrite <-exec_whole. unfold pattern_matches.
  destruct (exec r (chars t)) as [[i w]|]; [|split; [done|by intros [? ?]]].
  rewrite bool_decide_eq_true. split; [intros ->; eauto|by intros [? [= _ ->]]].
Qed.

(** ** Theorems *)

(** C15: Editor.js hands a pasted text to this tool as a [pattern]
    paste exactly when the text is [<iframe], attributes with no [>],
    and either [/>] at the end, or [>], a body with no line terminator
    and no [</iframe>], and [</iframe>] at the end: the match is not
    nested, and the lazy [.*?] stops at the first [</iframe>]. *)
Theorem paste_pattern_spec t :
  pattern_matches iframe_pattern t = true <->
  (exists x, Forall (fun c => c <> ">"%char) x /\ chars t = open_tag ++ x ++ chars "/>") \/
  (exists x y, Forall (fun c => c <> ">"%char) x /\
               Forall (fun c => line_terminator c = false) y /\ ~ infix_of close_tag y /\
               chars t = open_tag ++ x ++ ">"%char :: y ++ close_tag).
Proof.
  rewrite pattern_matches_m. generalize (chars t) as s. intros s.
  unfold iframe_pattern. cbn [m]. rewrite m_lits.
  destruct (decide (open_tag `prefix_of` s)) as [[u ->]|Hp].
  - rewrite drop_app_length. destruct (run_split not_gt u) as (x&v&->&Hx&Hv).
    cbn [m]. rewrite greedy_run by done. cbn beta.
    by rewrite closing_run, pattern_text_split by done.
  - split; [done|]. intros [(x&_&->)|(x&y&_&_&_&->)]; destruct Hp; eexists; reflexivity.
Qed.

(** Every text the host hands to the tool as a [pattern] paste starts
    with the seven characters [<iframe] in lower case: the pattern's
    first part is the literal [<iframe] and it has no [i] flag. *)
Lemma pattern_open_tag t :
  pattern_matches iframe_pattern t = true -> open_tag `prefix_of` chars t.
Proof.
  rewrite pattern_matches_m. unfold iframe_pattern. cbn [m]. rewrite m_lits.
  by case_decide.
Qed.

(** C16: the pattern is case-sensitive, although the spec calls it
    case-insensitive: whatever follows, a text that starts with
    [<IFRAME] (or any other spelling of the tag than [<iframe]) is never
    handed to the tool as a [pattern] paste. *)
Theorem paste_pattern_case r :
  pattern_matches iframe_pattern (String.append "<IFRAME"%string r) = false /\
  forall t, ~ open_tag `prefix_of` chars t -> pattern_matches iframe_pattern t = false.
Proof.
  assert (Hn : forall t, ~ open_tag `prefix_of` chars t -> pattern_matches iframe_pattern t = false).
  { intros t Hp. apply not_true_is_false. intros Hm. by apply Hp, pattern_open_tag. }
  split; [|exact Hn]. apply Hn. intros [u Hu]. discriminate Hu.
Qed.

(** ** Witnesses *)

Lemma paste_pattern_case_witness :
  ~ open_tag `prefix_of` chars "<Iframe src='x'></Iframe>" /\
  pattern_matches iframe_pattern (String.append "<IFRAME"%string " src='x'></IFRAME>") = false /\
  pattern_matches iframe_pattern "<Iframe src='x'></Iframe>" = false.
Proof.
  assert (Hp : ~ open_tag `prefix_of` chars "<Iframe src='x'></Iframe>") by (intros [u Hu]; discriminate Hu).
  split; [exact Hp|]. split; [exact (proj1 (paste_pattern_case " src='x'></IFRAME>"))|].
  exact (proj2 (paste_pattern_case "") _ Hp).
Defined.

End Paste.

(** * The tag paste

    For a tag paste Editor.js hands the pasted element itself to
    [onPaste] as [event.detail.data], and before that it has inserted and
    rendered a block with empty data, so the placeholder [iframe] is in
    the holder.  [this.data = {frame: iframe}] then stores the element
    object as [frame], and the setter writes [String(element)] as the
    holder's [innerHTML]. *)

Section TagPaste.
Context `{HtmlSyntax}.

(** C19: a tag paste on a block whose cached placeholder is attached
    (a block rendered with an empty [frame]) stores the element object,
    not markup, as [data.frame]; the holder's content becomes the parse
    of the text [[object HTMLIFrameElement]], and the placeholder is
    detached: the block no longer shows an iframe. *)
Theorem tag_paste_object w d i p :
  w_data w = Some d -> nodes_iframe (w_nodes w) = Some i ->
  parent_element i (w_dom w) = Some p -> In (CElem i) (kids_of p (w_dom w)) ->
  (p < d_next (w_dom w))%positive -> (i < d_next (w_dom w))%positive -> i <> p ->
  exists w', onPaste (mkPaste "tag" (JObj "HTMLIFrameElement")) w = Done tt w' /\
    w_data w' = Some (<["frame" := JObj "HTMLIFrameElement"]> d) /\
    map (fun k => tree_of (dom_fuel (w_dom w')) k (w_dom w')) (kids_of p (w_dom w')) =
      html_parse "[object HTMLIFrameElement]" /\
    parent_element i (w_dom w') = None.
Proof.
  intros Hd Hn Hp Hin Hpn Hin' Hip.
  destruct (elem_of p (w_dom w)) as [e|] eqn:Ep; [|unfold kids_of in Hin; by rewrite Ep in Hin].
  destruct (set_inner_html_spec p "[object HTMLIFrameElement]" (w_dom w) e Ep Hpn)
    as (D9 & E9 & _ & _ & _ & _ & R9).
  unfold onPaste. cbn [pe_type pe_data String.eqb Ascii.eqb Bool.eqb andb].
  rewrite (set_data_run_attached w d _ i p Hd Hn Hp).
  rewrite assign_singleton_insert, prop_insert_eq.
  replace (html_of_value (JObj "HTMLIFrameElement")) with "[object HTMLIFrameElement]" by reflexivity.
  rewrite E9.
  eexists. split; [reflexivity|]. split; [done|]. cbn [w_dom set_dom final_state].
  split; [by apply R9; [apply same_from_refl|..]|].
  by apply (set_inner_html_orphans p _ (w_dom w) D9 i E9).
Qed.

End TagPaste.

(** A block inserted for a tag paste: constructed with empty data and
    rendered. *)
Definition demo_empty_rendered : world := final_state (host_mount render demo_blank).

Lemma tag_paste_object_witness :
  html_parse "[object HTMLIFrameElement]" = [TText "[object HTMLIFrameElement]"] /\
  exists w', onPaste (mkPaste "tag" (JObj "HTMLIFrameElement")) demo_empty_rendered = Done tt w' /\
    w_data w' = Some (<["frame" := JObj "HTMLIFrameElement"]> (data_of demo_empty_rendered)) /\
    map (fun k => tree_of (dom_fuel (w_dom w')) k (w_dom w')) (kids_of 4%positive (w_dom w')) =
      html_parse "[object HTMLIFrameElement]" /\
    parent_element 5%positive (w_dom w') = None.
Proof.
  split; [vm_compute; reflexivity|].
  apply tag_paste_object; vm_compute; (reflexivity || by left || discriminate).
Defined.
