(* ===== verification/Session.v ===== *)
(** * Session: a pasted iframe, from the host's dispatch to [save]

    The components compose along one session of a block created with no
    saved [frame]: Editor.js renders it, the user pastes a text, the
    host's pattern dispatch ([Paste.processPattern]) turns the text into
    a paste event, [onPaste] runs the [data] setter, which writes the
    text into the holder through [innerHTML], and the host saves the
    block.  C23: when the pattern accepts the text and the text parses
    to markup starting with an [iframe] element, the saved [frame] parses
    to the same trees as the pasted text (with the [TagSoup] syntax, on
    well-formed markup) and every other property of the data object is
    the one the block had; the first paste is the only one this session
    can take ([Roundtrip.empty_render_one_write]). *)

From S2P Require Import Prelude Markup Dom Alloc Soup Block Data View Save Roundtrip Regex Paste.

Local Open Scope string_scope.
Local Open Scope js_scope.

(** The host dispatches a text the pattern accepts as a [pattern] paste. *)
Lemma processPattern_accepts t :
  Paste.pattern_matches Paste.iframe_pattern t = true ->
  Paste.processPattern t = Some (mkPaste "pattern" (JStr t)).
Proof.
  intros Hm. unfold Paste.processPattern.
  cbn [existsb Paste.pc_patterns Paste.pasteConfig snd]. by rewrite Hm.
Qed.

Section PasteSave.
Context `{HtmlSyntax}.

(** Render with an empty [frame], a [pattern] paste of [t], then [save]
    on the rendered node: the saved [frame] is the serialization of the
    parse of [t], read back from the holder. *)
Lemma paste_save_run w d t a ks rest :
  render_css_ok (w_CSS w) -> w_data w = Some d -> truthy (prop d "frame") = false ->
  html_parse t = TElem "iframe" a ks :: rest ->
  exists w1 w2, render w = Done (d_next (w_dom w)) w1 /\
    onPaste (mkPaste "pattern" (JStr t)) w1 = Done tt w2 /\
    save (d_next (w_dom w)) w2 =
      Done (Some (<["frame" := JStr (html_serialize (html_parse t))]> d))
           (set_data_field (<["frame" := JStr (html_serialize (html_parse t))]> d) w2).
Proof.
  intros Hc Hd Hf Hp.
  destruct (empty_render_write w d {["frame" := JStr t]} Hc Hd Hf)
    as (w1 & w2 & Hh & I & eH & E & E2 & Hd2 & _ & _ & _ & KW & EH & TH & TR & PK & HW).
  rewrite assign_singleton_insert, prop_insert_eq in *. cbn [html_of_value] in TR.
  exists w1, w2. split; [done|]. split; [by apply onPaste_pattern_run|].
  rewrite <-(inner_html_trees _ _ _ TR), <-(insert_insert_eq d "frame" _ (JStr t)).
  assert (HR := TR). rewrite Hp in HR.
  destruct (kids_of Hh (w_dom w2)) as [|k0 ks0] eqn:KH; [done|]. injection HR as H0 _.
  destruct (tree_of_elem _ _ _ _ _ _ H0) as (m & em & -> & EM & TM).
  eapply save_holder; [exact Hd2|exact KW|exact EH|by rewrite TH|exact KH|exact EM|exact TM| |exact HW].
  apply PK. by left.
Qed.

End PasteSave.

(** C23: on a block rendered with no [frame], a text the host's pattern
    dispatch accepts and whose markup starts with a well-formed [iframe]
    element is handed to [onPaste] as a [pattern] paste, shown in the
    holder, and saved: [save] on the rendered node returns a [frame] that
    parses to the same trees as the pasted text, and keeps every other
    property of the block's data (its alignment among them). *)
Theorem paste_save_roundtrip w d t a ks rest :
  render_css_ok (w_CSS w) -> w_data w = Some d -> truthy (prop d "frame") = false ->
  Paste.pattern_matches Paste.iframe_pattern t = true ->
  html_parse t = TElem "iframe" a ks :: rest -> wf_forest (html_parse t) = true ->
  exists ev w1 w2 d', render w = Done (d_next (w_dom w)) w1 /\
    Paste.processPattern t = Some ev /\ onPaste ev w1 = Done tt w2 /\
    save (d_next (w_dom w)) w2 = Done (Some d') (set_data_field d' w2) /\
    (exists f, prop d' "frame" = JStr f /\ html_parse f = html_parse t) /\
    forall k, k <> "frame" -> prop d' k = prop d k.
Proof.
  intros Hc Hd Hf Hm Hp Hw.
  destruct (paste_save_run w d t a ks rest Hc Hd Hf Hp) as (w1 & w2 & E & E2 & Sv).
  eexists _, w1, w2, _. split; [exact E|]. split; [by apply processPattern_accepts|].
  split; [exact E2|]. split; [exact Sv|]. split.
  - eexists. split; [apply prop_insert_eq|]. by apply parse_serialize.
  - intros k Hk. by apply prop_insert_ne.
Qed.

(** The pasted text of the demo session. *)
Definition demo_pasted : string := "<iframe src='https://www.youtube.com/embed/y'></iframe>".

Lemma paste_save_roundtrip_witness :
  render_css_ok (w_CSS demo_blank) /\ w_data demo_blank = Some (data_of demo_blank) /\
  truthy (prop (data_of demo_blank) "frame") = false /\
  Paste.pattern_matches Paste.iframe_pattern demo_pasted = true /\
  html_parse demo_pasted = [TElem "iframe" [("src", "https://www.youtube.com/embed/y")] []] /\
  wf_forest (html_parse demo_pasted) = true /\
  exists ev w1 w2 d', render demo_blank = Done (d_next (w_dom demo_blank)) w1 /\
    Paste.processPattern demo_pasted = Some ev /\ onPaste ev w1 = Done tt w2 /\
    save (d_next (w_dom demo_blank)) w2 = Done (Some d') (set_data_field d' w2) /\
    (exists f, prop d' "frame" = JStr f /\ html_parse f = html_parse demo_pasted) /\
    forall k, k <> "frame" -> prop d' k = prop (data_of demo_blank) k.
Proof.
  assert (H1 : render_css_ok (w_CSS demo_blank)) by (split; [|split]; vm_compute; reflexivity).
  assert (H2 : w_data demo_blank = Some (data_of demo_blank)) by (vm_compute; reflexivity).
  assert (H3 : truthy (prop (data_of demo_blank) "frame") = false) by (vm_compute; reflexivity).
  assert (H4 : Paste.pattern_matches Paste.iframe_pattern demo_pasted = true) by (vm_compute; reflexivity).
  assert (H5 : html_parse demo_pasted = [TElem "iframe" [("src", "https://www.youtube.com/embed/y")] []])
    by (vm_compute; reflexivity).
  assert (H6 : wf_forest (html_parse demo_pasted) = true) by (vm_compute; reflexivity).
  split_and!; [exact H1|exact H2|exact H3|exact H4|exact H5|exact H6|].
  exact (paste_save_roundtrip demo_blank _ demo_pasted _ _ _ H1 H2 H3 H4 H5 H6).
Defined.
